(* ===== verification/_CoqProject ===== *)
-Q . S2P
Prelude.v
GoTypes.v
Entity.v
World.v
LockSpec.v
Store.v
Repo.v
Locks.v
LockOps.v
Reservation.v
CancelReservation.v
RevealReservation.v
ExpiredClaim.v
Coordination.v
Lifecycle.v
Toncenter.v
MessageParser.v
MessageParserSpec.v
MessageParserRun.v
Poller.v
PollerSpec.v
WebSocket.v
EventSource.v
EventSourceSpec.v
TonHandler.v
TonHandlerSpec.v
FallbackSpec.v
SyncState.v
SyncStateSpec.v
DeadLetter.v
Persistence.v
PersistenceSpec.v
Delivery.v
Subscriber.v
SubscriberSpec.v
Broadcast.v
BroadcastSpec.v
GameSocket.v
GameSocketSpec.v
RecordedSpec.v
Ingestion.v
Queries.v
QueriesSpec.v
UserManagement.v
GameQuery.v
Activity.v
ActivitySpec.v
Rest.v
RestSpec.v
Health.v
Sha256.v
Telegram.v
TelegramSpec.v
Middleware.v
MiddlewareSpec.v
Logger.v
Connect.v
App.v
Metrics.v
