(* ===== verification/Prelude.v ===== *)
(** * pod-backend: a verification library

    The backend of a two-player coin-flip game on the TON blockchain. It watches the game
    contract, records what happens to every game in PostgreSQL, and hands out short-lived
    advisory locks so that two players do not act on the same game at once. This library
    models that core of internal/ in Rocq and proves what makes it correct. This file is the
    root: notations, the state monad with its weakest preconditions, and the lemmas on lists
    the other files share.

    ** The program and its model

    The model is executable: every operation is a function in a state monad ([ST]), errors
    are values ([result]), and what comes from outside (clock readings, the fate of an SQL
    statement, the order of a map range, the network, third-party libraries) is read from a
    type class ([Env], [ClientEnv], [WsEnv], [SubscriberEnv], [InMsgParser], [PgNumeric],
    [CellLib], [HubEnv], [SocketEnv], [AddressLib], [TimeFormat], [MapRange], [LimiterLib],
    [CorsLib], [RecoverLib], [FiberApp], [Zerolog], [PoolLib], [MigrateLib], [NumberTexts]) by
    counting the readings. Names are those of the source.

    - Language: GoTypes.v (64-bit integers with their wrap-around, strings.TrimSpace,
      strconv, errors).
    - Data: Entity.v (internal/entity), Toncenter.v (transactions and parsed messages),
      World.v (the tables of migrations/, the in-memory maps, the trace of broadcasts and
      metrics, transactions of pkg/postgres).
    - Repositories: Repo.v (the statements of the event handlers on games, events and users),
      Queries.v (their listings, plain writes and retention, with cmd/cleanup), DeadLetter.v
      (dead letter queue, with its use case), SyncState.v (the ingestion checkpoint), all in
      internal/repository/postgres.
    - Advisory locks (internal/usecase): LockSpec.v is the abstract contract, a bounded,
      expiring lock table; Store.v, Locks.v and LockOps.v hold what the four use cases
      repeat; Reservation.v, CancelReservation.v, RevealReservation.v and ExpiredClaim.v are
      the use cases; Coordination.v interleaves them at the granularity of their mutexes, and
      Lifecycle.v follows the lock of one game through every action.
    - Events (internal/usecase): Persistence.v (game_persistence.go: the seven handlers),
      Subscriber.v (blockchain_subscriber.go: parsing, routing, retries, dead-lettering).
    - Messages (internal/infrastructure/toncenter): MessageParser.v (base64, both parsers,
      the legacy JSON form and the message builder).
    - Event sources (internal/infrastructure/toncenter): Poller.v (client.go, poller.go),
      WebSocket.v (websocket_client.go, websocket_subscriber.go), EventSource.v (factory.go:
      sources by reference, contexts, the factory's mutex, goroutines as a step relation).
    - Fan-out: Broadcast.v (usecase/game_broadcast.go: the hub, its event payloads and the
      goroutines that send) and GameSocket.v (controller/websocket/game_ws_handler.go: one
      connection's read loop and its ping goroutine).
    - Read side (internal/usecase): UserManagement.v (user_management.go), GameQuery.v
      (game_query.go) and Activity.v (game_activity.go, with entity/player_activity.go: the
      queues in which a player sees games and the locks on them).
    - API (internal/controller): Rest.v (rest/, and the table of routes of http/router.go)
      and Health.v (rest/health_handler.go).
    - Middleware: Middleware.v (controller/http/middleware, infrastructure/cors, ratelimit,
      metrics/middleware.go and telegram/middleware.go, installed as in http/router.go) over
      Telegram.v (infrastructure/telegram/auth.go) and Sha256.v (crypto/sha256, crypto/hmac).
    - Process: App.v (internal/app/app.go: what Run builds, retry settings, start and stop;
      pkg/httpserver), Connect.v (pkg/postgres, infrastructure/postgres, app/migrate.go: the
      loops that try again), Logger.v (pkg/logger) and Metrics.v (the collectors of
      infrastructure/metrics for the lock use cases).
    - Lifecycle: TonHandler.v (controller/blockchain/ton_event_handler.go) and Ingestion.v
      (the part of internal/app/app.go that wires ingestion, with crashes and restarts).

    A call in the source is a call in the model. The subscriber calls the handlers through
    their definitions; the handlers call the locks; the lock use cases see each other through
    the class [LockService] and games through [GameRepository], so that their theorems hold
    for any peer and any repository with the stated laws, and the instances discharge them;
    the read side sees the listings through [GameListing] and profiles through
    [UserRepository] in the same way.
    Event sources are generic in the handler and in the state it acts on; TonHandler.v
    instantiates them, and Ingestion.v instantiates that with the subscriber over the
    database.

    ** What the theorems show

    - Locks. [Reserve_spec], [cancel_Reserve_spec], [ReserveBatch_spec] and [Claim_spec] give
      the result of taking a lock on every branch; [lock_lifecycle] says, action by
      action, who may make a lock appear and what may make it go, so that an active lock
      never passes to another wallet; [wallet_limit] says that no wallet holds more locks
      than its limit, and [join_cancel_exclusive] that the join and the cancel lock of a game exclude each other
      when calls are atomic; [join_cancel_race] shows that the real interleaving breaks it.
    - Event handlers. [service_invariant] keeps the constraints of the tables under every
      fault; [finished_atomic], [event_applied] and [event_handled] give the effect of a
      handled event; [duplicate_event_ignored] and [redelivered_transaction] give
      idempotence; [started_lost] and [settled_twice] show where it fails.
    - Subscriber and queue. [HandleTransaction_spec] says what becomes of a transaction,
      [parseTransactionMessage_spec] which of its messages counts,
      [routeEventWithRetry_spec] bounds the retries, [StoreFailedTransaction_spec],
      [MarkRetryAttempt_spec] and [queue_invariant] are about the dead letter queue.
    - Messages. [built_message_parsed] is the round trip through the builder and the parser,
      [base64_roundtrip] the one through base64, [ParseInMsg_typed] the types and ranges of
      what the parser yields; [ParseInMsg_panics] shows a message that stops the process.
    - Poller and WebSocket. [poller_exactly_once]: behind an honest server, the handler is
      given every transaction after the cursor exactly once and in order;
      [subscriber_ascending] and [refused_passed_over] say what the WebSocket cursor does;
      [fallback_ends_ingestion] and [SwitchToWebSocket_deadlock] show that the fallback and
      a failing switch stop ingestion.
    - Repositories. [performCleanup_spec] gives what retention leaves, [user_retention_refused]
      and [cleanup_drops_unfinished] what it does to old users and to open games;
      [repositories_keep_schema] says that the constraints of the tables as modelled hold
      after any sequence of statements.
    - Read side. [ListGames_spec] and [ListGames_tiles] are about pages of games and the
      overflow of their bounds; [queues_partition] says in which queue a game is filed,
      [GetQueue_spec] and [GetSummary_spec] what a page and a summary show of the queues, [next_action_sound] that the action offered fits
      the locks; [profile_totals] bounds the totals of a profile, [sign_in_readable] reads
      back what a sign-in wrote, and [profile_unreadable] shows that users known from the
      chain only cannot be read.
    - API. [GET_safe]: a GET takes no lock and writes nothing; [mutations_reported]: the
      answer to a POST or DELETE tells what happened to the locks; [listing_shows_locks] is
      the listing with the locks on it; [missing_game_500] shows that unknown games are
      internal errors; [health_spec] gives the verdict of the health check.
    - Fan-out. [hub_invariant] ties the subscriptions of the hub to its clients and
      [subscriber_receives] says who is sent which broadcasts, when they run one after
      another; [writes_overlap] shows two sends
      writing to one connection at once. [HandleConnection_spec] says what a connection does
      to the hub on every branch, [ping_goroutine_blocked] when its ping goroutine leaks.
    - Middleware. [serve_spec] takes a request through the whole chain: limited, served,
      failing or panicking; [ratelimit_spec] says how many requests of one identifier are
      served in a minute, and that a client is not bounded by it. [AuthMiddleware_spec] says
      which requests prove a Telegram user, [signed_data_accepted] is the round trip of signed
      data through its query string; [signature_shared] and [json_user_refused] show two weak
      points. [parseOrigins_idem] and [no_origins_no_service] are about CORS.
    - Process. [service_as_wired] applies the invariants of the locks and of the tables to
      what Run builds, for every configuration; [Run_shutdown] and [Run_fatal] give the order
      of stopping, [New_spec] the attempts to open the pool. [logger_ignores_level] shows
      what reaches the log, and [gauge_drifts] a gauge that does not come back.
    - Ingestion. [PersistCheckpoint_monotone] and [checkpoint_roundtrip] are about the saved
      checkpoint; [ingestion_crash_safe] puts everything together: over any number of
      crashes and restarts, every transaction up to the saved checkpoint is recorded, as long
      as every start can read the checkpoint; [lost_checkpoint_skips] shows what one failed read at start-up costs.

    Files named [..Spec.v] hold theorems only; the last Module of a file, named [..Run], holds
    concrete runs and the witnesses that instantiate the theorems.

    ** Bounds and fuel

    Integers are [Z], with [wrap64] where the source can overflow. Recursion is structural
    except for a few loops. The retry loop of the subscriber runs for the number of rounds
    that the source computes. [TrimSpace] gets the length of its input, and every round drops
    a byte. The backfill loop of the poller gets fuel, because the source itself need not
    terminate ([backfill_diverges]); running out is [None], and theorems about a poll are
    about polls that return. The loops that connect to the database run for the attempts
    configured ([New_spec], [try_spec]); SHA-256 for as many blocks as the padded message has
    ([padded_blocks]).

    ** Not modelled

    - What the web framework and its packages do: decoding, matching of paths, marshalling,
      the counters of the limiter, the CORS headers and the recovery of panics are parameters,
      with their documented behaviour as laws. ValidateStruct uses reflection.
    - infrastructure/metrics/blockchain.go, logger, logging, tracing: calls for their effect
      outside the program. Calls of the logger are left out of the other components.
    - app.Run: the goroutines that copy numbers into metrics, and the signals of the operating
      system; that a router that cannot be set up panics is in [NewRouter] only.
    - The tickers of cleanup loops and of the poller: a tick is an action or a step that may
      happen at any time. Data races inside one mutex section are excluded by the mutex.
    - PostgreSQL beyond the statements used: isolation between concurrent transactions is
      not modelled, a statement is atomic. Of the columns, the lengths VARCHAR(n) are
      modelled ([cut], [fits] in World.v: a value that is too long is refused, except for
      trailing spaces) together with the keys, the CHECKs and the foreign keys; texts are
      taken to be valid UTF-8 without the character 0. Transactions with options
      (WithTxOptions), which nothing calls, are left out.
    - The reading of the environment (config, by a library), cmd/app, docs (generated),
      migrations other than the constraints of the tables, tests. *)
From stdpp Require Export base tactics option list gmap strings pretty sorting.
From Stdlib Require Export ZArith Lia.

Declare Scope go_scope.
Delimit Scope go_scope with go.
#[global] Open Scope Z_scope.
#[global] Open Scope go_scope.

(** ** The state monad the whole development is written in *)

Definition ST (S A : Type) : Type := S → A * S.

#[export] Instance ST_ret {S} : MRet (ST S) := λ A a s, (a, s).
#[export] Instance ST_bind {S} : MBind (ST S) := λ A B k m s, let '(a, s') := m s in k a s'.

Definition get {S} : ST S S := λ s, (s, s).
Definition gets {S A} (f : S → A) : ST S A := λ s, (f s, s).
Definition modify {S} (f : S → S) : ST S unit := λ s, (tt, f s).

(** Run a computation over a part [T] of a larger state [S]. *)
Definition zoom {S T A} (part : S → T) (put : T → S → S) (m : ST T A) : ST S A :=
  λ s, let '(a, t) := m (part s) in (a, put t s).

(** [for] loops whose body may change the state. *)
Fixpoint for_each {S A} (l : list A) (body : A → ST S unit) : ST S unit :=
  match l with
  | [] => mret tt
  | x :: l => body x ≫= λ _, for_each l body
  end.

(** ** Weakest preconditions *)

Definition wp {S A} (m : ST S A) (Q : A → S → Prop) (s : S) : Prop := Q (m s).1 (m s).2.

Section WP.
Context {S : Type}.

Lemma wp_ret {A} (a : A) (Q : A → S → Prop) s : Q a s → wp (mret a) Q s.
Proof. done. Qed.

Lemma wp_bind {A B} (m : ST S A) (k : A → ST S B) (Q : B → S → Prop) s :
  wp m (λ a, wp (k a) Q) s → wp (m ≫= k) Q s.
Proof. unfold wp, mbind, ST_bind. destruct (m s). done. Qed.

Lemma wp_mono {A} (m : ST S A) (P Q : A → S → Prop) s :
  wp m P s → (∀ a s', P a s' → Q a s') → wp m Q s.
Proof. unfold wp. eauto. Qed.

Lemma wp_get (Q : S → S → Prop) s : Q s s → wp get Q s.
Proof. done. Qed.

Lemma wp_gets {A} (f : S → A) (Q : A → S → Prop) s : Q (f s) s → wp (gets f) Q s.
Proof. done. Qed.

Lemma wp_modify (f : S → S) (Q : unit → S → Prop) s : Q tt (f s) → wp (modify f) Q s.
Proof. done. Qed.

Lemma wp_if {A} (b : bool) (m n : ST S A) (Q : A → S → Prop) s :
  (b = true → wp m Q s) → (b = false → wp n Q s) → wp (if b then m else n) Q s.
Proof. destruct b; auto. Qed.

Lemma wp_conj {A} (m : ST S A) (P Q : A → S → Prop) s :
  wp m P s → wp m Q s → wp m (λ a s', P a s' ∧ Q a s') s.
Proof. done. Qed.

(** A loop preserves what its body preserves. *)
Lemma wp_for_each {A} (l : list A) (body : A → ST S unit) (I : S → Prop) s :
  I s →
  (∀ x s, x ∈ l → I s → wp (body x) (λ _, I) s) →
  wp (for_each l body) (λ _, I) s.
Proof.
  revert s. induction l as [|x l IH]; intros s HI Hbody; [done|]. simpl.
  apply wp_bind. eapply wp_mono; [apply Hbody; [set_solver|done]|].
  intros [] s' HI'. apply IH; [done|]. intros y s'' Hy. apply Hbody. set_solver.
Qed.

(** A loop whose invariant tracks the elements already visited. *)
Lemma wp_for_each_prefix {A} (l : list A) (body : A → ST S unit) (I : list A → S → Prop) s :
  I [] s →
  (∀ pre x post s, l = pre ++ x :: post → I pre s →
     wp (body x) (λ _, I (pre ++ [x])) s) →
  wp (for_each l body) (λ _, I l) s.
Proof.
  intros HI Hbody.
  enough (∀ post pre s, l = pre ++ post → I pre s → wp (for_each post body) (λ _, I l) s)
    as H by (by apply (H l [])).
  clear s HI. induction post as [|x post IH]; intros pre s -> HI.
  - rewrite app_nil_r. done.
  - simpl. apply wp_bind. eapply wp_mono; [eapply Hbody; eauto|].
    intros [] s' HI'. apply (IH (pre ++ [x])); [by rewrite <-app_assoc|done].
Qed.
End WP.

Lemma wp_zoom {S T A} (part : S → T) (put : T → S → S) (m : ST T A) (Q : A → S → Prop) s :
  wp m (λ a t, Q a (put t s)) (part s) → wp (zoom part put m) Q s.
Proof. unfold wp, zoom. destruct (m (part s)). done. Qed.

(** Step through a monadic program: one tactic for binds, returns and reads. *)
Ltac wp_step :=
  first
    [ apply wp_ret | apply wp_get | apply wp_gets | apply wp_modify
    | apply wp_bind | progress cbn beta iota ].
Ltac wp_steps := repeat wp_step.

(** Split the conditionals and matches of a program under [wp]. *)
Ltac wp_case :=
  match goal with
  | |- wp (if ?b then _ else _) _ _ => let E := fresh "E" in destruct b eqn:E
  | |- wp (match ?x with _ => _ end) _ _ => let E := fresh "E" in destruct x eqn:E
  end.

(** ** [sort.SliceStable] *)

Section StableSort.
Context {A : Type} (before : A → A → bool).

Fixpoint insert_stable (x : A) (l : list A) : list A :=
  match l with
  | [] => [x]
  | y :: l' => if before y x then y :: insert_stable x l' else x :: l
  end.

(** [sort.SliceStable(l, before)]: ordered by [before], equal elements keep their order. *)
Definition SliceStable (l : list A) : list A := foldr insert_stable [] l.

Lemma insert_stable_perm x l : insert_stable x l ≡ₚ x :: l.
Proof.
  induction l as [|y l IH]; simpl; [done|]. destruct (before y x); [|done].
  rewrite IH. apply Permutation_swap.
Qed.

Lemma SliceStable_perm l : SliceStable l ≡ₚ l.
Proof. induction l as [|x l IH]; simpl; [done|]. by rewrite insert_stable_perm, IH. Qed.

Lemma elem_of_SliceStable x l : x ∈ SliceStable l ↔ x ∈ l.
Proof. by rewrite SliceStable_perm. Qed.

Lemma length_SliceStable l : length (SliceStable l) = length l.
Proof. by rewrite SliceStable_perm. Qed.

(** No element of a sorted list comes before one to its left. *)
Definition ordered (l : list A) : Prop :=
  StronglySorted (λ x y, before y x = false) l.

Hypothesis before_asym : ∀ x y, before x y = true → before y x = false.
Hypothesis before_trans_neg :
  ∀ x y z, before y x = false → before z y = false → before z x = false.

Lemma insert_stable_ordered x l : ordered l → ordered (insert_stable x l).
Proof.
  unfold ordered. induction l as [|y l IH]; simpl; intros Hl; [by repeat constructor|].
  inversion_clear Hl as [|? ? Hl' Hy].
  destruct (before y x) eqn:E.
  - constructor; [by apply IH|]. apply Forall_forall. intros z Hz.
    rewrite insert_stable_perm in Hz. apply elem_of_cons in Hz as [->|Hz].
    + by apply before_asym.
    + by rewrite Forall_forall in Hy; apply Hy.
  - constructor; [by constructor|]. constructor; [done|].
    eapply Forall_impl; [exact Hy|]. intros z Hz. eapply before_trans_neg; eauto.
Qed.

Lemma SliceStable_ordered l : ordered (SliceStable l).
Proof. induction l as [|x l IH]; simpl; [constructor|]. by apply insert_stable_ordered. Qed.
End StableSort.

(** ** Sublists of a listing *)

Lemma prefix_elem {A} (l k : list A) x : l `prefix_of` k → x ∈ l → x ∈ k.
Proof. intros [k' ->] Hx. apply elem_of_app. by left. Qed.

Lemma NoDup_fmap_prefix {A B} (f : A → B) (l k : list A) :
  l `prefix_of` k → NoDup (f <$> k) → NoDup (f <$> l).
Proof. intros [k' ->]. rewrite fmap_app. by intros [? _]%NoDup_app. Qed.

Lemma NoDup_fmap_filter {A B} (f : A → B) p (l : list A) :
  NoDup (f <$> l) → NoDup (f <$> List.filter p l).
Proof.
  induction l as [|x l IH]; simpl; [done|]. intros [Hx Hl]%NoDup_cons.
  destruct (p x); simpl; [|auto]. apply NoDup_cons. split; [|auto].
  intros (y & Hxy & Hy)%list_elem_of_fmap. apply Hx, list_elem_of_fmap. exists y.
  split; [done|]. apply list_elem_of_In, List.filter_In in Hy as [Hy _].
  by apply list_elem_of_In.
Qed.

Lemma elem_of_List_filter {A} (p : A → bool) l x :
  x ∈ List.filter p l ↔ x ∈ l ∧ p x = true.
Proof. rewrite !list_elem_of_In. apply List.filter_In. Qed.

(** ** Counting *)

(** A list without duplicates, all of whose elements occur in [k], is no longer than [k]. *)
Lemma NoDup_incl_length {A} `{EqDecision A} (l k : list A) :
  NoDup l → (∀ x, x ∈ l → x ∈ k) → (length l ≤ length k)%nat.
Proof.
  intros Hl Hin. apply submseteq_length. by apply NoDup_submseteq.
Qed.

(** Remove the first occurrence of [x], the Go idiom
    [for i, y := range l { if y == x { l = append(l[:i], l[i+1:]...); break } }]. *)
Fixpoint remove_first {A} `{EqDecision A} (x : A) (l : list A) : list A :=
  match l with
  | [] => []
  | y :: l => if decide (y = x) then l else y :: remove_first x l
  end.

Section RemoveFirst.
Context {A : Type} `{EqDecision A}.
Implicit Types (x y : A) (l : list A).

Lemma elem_of_remove_first_ne x y l : y ≠ x → y ∈ remove_first x l ↔ y ∈ l.
Proof.
  intros Hne. induction l as [|z l IH]; simpl; [done|].
  case_decide; subst; rewrite ?elem_of_cons, ?IH; tauto.
Qed.

Lemma remove_first_subseteq x y l : y ∈ remove_first x l → y ∈ l.
Proof.
  induction l as [|z l IH]; simpl; [done|].
  case_decide; rewrite ?elem_of_cons; tauto.
Qed.

Lemma remove_first_not_in x l : x ∉ l → remove_first x l = l.
Proof.
  induction l as [|z l IH]; simpl; [done|]. rewrite not_elem_of_cons. intros [Hz Hl].
  case_decide; [congruence|]. by rewrite IH.
Qed.
End RemoveFirst.

Lemma Forall2_impl_in {A B} (P Q : A → B → Prop) l k :
  Forall2 P l k → (∀ x y, x ∈ l → P x y → Q x y) → Forall2 Q l k.
Proof.
  induction 1 as [|x y l k Hxy Hlk IH]; intros Himp; constructor.
  - apply Himp; [apply list_elem_of_here|done].
  - apply IH. intros x' y' Hx'. apply Himp. by apply list_elem_of_further.
Qed.

Lemma Forall2_conj {A B} (P Q : A → B → Prop) l k :
  Forall2 P l k → Forall2 Q l k → Forall2 (λ x y, P x y ∧ Q x y) l k.
Proof. induction 1; intros HQ; inversion_clear HQ; constructor; auto. Qed.

Create HintDb pod discriminated.
#[export] Hint Resolve remove_first_subseteq : pod.
