(* ===== verification/GoTypes.v ===== *)
(** * What the source uses of the Go language and standard library

    Strings are byte strings, machine integers are [Z] with their wrap-around
    written out, errors are values with a message and a chain for
    [errors.Is]. *)
From S2P Require Import Prelude.
From Stdlib Require Import Ascii String Floats.SpecFloat.

#[global] Open Scope string_scope.
#[global] Open Scope list_scope.
#[global] Open Scope Z_scope.

(** ** Fixed-width integers *)

Definition MaxInt64 : Z := 2 ^ 63 - 1.
Definition MinInt64 : Z := - 2 ^ 63.
Definition wrap64 (z : Z) : Z := (z + 2 ^ 63) mod 2 ^ 64 - 2 ^ 63.
Definition in_int64 (z : Z) : Prop := MinInt64 ≤ z ≤ MaxInt64.
#[export] Instance in_int64_dec z : Decision (in_int64 z).
Proof. unfold in_int64. apply _. Defined.

Lemma wrap64_id z : in_int64 z → wrap64 z = z.
Proof.
  unfold in_int64, wrap64, MinInt64, MaxInt64. intros [H1 H2].
  rewrite Z.mod_small by lia. lia.
Qed.

Lemma wrap64_range z : in_int64 (wrap64 z).
Proof.
  unfold in_int64, wrap64, MinInt64, MaxInt64.
  pose proof (Z.mod_pos_bound (z + 2 ^ 63) (2 ^ 64) ltac:(lia)). lia.
Qed.

(** ** Strings *)

Definition byte_eqb (a b : ascii) : bool := bool_decide (a = b).

Definition is_digit (c : ascii) : bool :=
  let n := nat_of_ascii c in (48 <=? n)%nat && (n <=? 57)%nat.
Definition is_upper (c : ascii) : bool :=
  let n := nat_of_ascii c in (65 <=? n)%nat && (n <=? 90)%nat.
Definition is_lower (c : ascii) : bool :=
  let n := nat_of_ascii c in (97 <=? n)%nat && (n <=? 122)%nat.
Definition is_ascii (c : ascii) : bool := (nat_of_ascii c <? 128)%nat.

Definition bytes := list_ascii_of_string.
Definition of_bytes := string_of_list_ascii.

Lemma bytes_of_bytes l : bytes (of_bytes l) = l.
Proof. apply list_ascii_of_string_of_list_ascii. Qed.
Lemma length_bytes s : List.length (bytes s) = String.length s.
Proof. induction s; simpl; congruence. Qed.
Lemma of_bytes_bytes s : of_bytes (bytes s) = s.
Proof. apply string_of_list_ascii_of_string. Qed.
Lemma bytes_app s t : bytes (s +:+ t) = bytes s ++ bytes t.
Proof. unfold bytes. induction s as [|x s IH]; [done|]. exact (f_equal (cons x) IH). Qed.

(** UTF-8 encodings of the runes with the White_Space property. *)
Definition space_encodings : list (list ascii) :=
  map (map ascii_of_nat)
  [ [9]; [10]; [11]; [12]; [13]; [32]; [194; 133]; [194; 160]; [225; 154; 128];
    [226; 128; 128]; [226; 128; 129]; [226; 128; 130]; [226; 128; 131];
    [226; 128; 132]; [226; 128; 133]; [226; 128; 134]; [226; 128; 135];
    [226; 128; 136]; [226; 128; 137]; [226; 128; 138]; [226; 128; 168];
    [226; 128; 169]; [226; 128; 175]; [226; 129; 159]; [227; 128; 128] ]%nat.

Fixpoint strip_prefix (p l : list ascii) : option (list ascii) :=
  match p, l with
  | [], _ => Some l
  | c :: p, d :: l => if byte_eqb c d then strip_prefix p l else None
  | _ :: _, [] => None
  end.

Fixpoint strip_any (ps : list (list ascii)) (l : list ascii) : option (list ascii) :=
  match ps with
  | [] => None
  | p :: ps => match strip_prefix p l with Some l' => Some l' | None => strip_any ps l end
  end.

(** Drop leading encodings; every round drops at least one byte, so
    [length l] rounds are enough. *)
Fixpoint trim_left (ps : list (list ascii)) (fuel : nat) (l : list ascii) : list ascii :=
  match fuel with
  | O => l
  | S fuel => match strip_any ps l with Some l' => trim_left ps fuel l' | None => l end
  end.

(** [strings.TrimSpace] *)
Definition TrimSpace (s : string) : string :=
  let l := trim_left space_encodings (String.length s) (bytes s) in
  of_bytes (rev (trim_left (map (@rev ascii) space_encodings) (List.length l) (rev l))).

Definition ascii_lower (c : ascii) : ascii :=
  if is_upper c then ascii_of_nat (nat_of_ascii c + 32) else c.

Fixpoint has_prefix (p s : list ascii) : bool :=
  match p, s with
  | [], _ => true
  | c :: p, d :: s => byte_eqb c d && has_prefix p s
  | _ :: _, [] => false
  end.

Fixpoint contains_bytes (s sub : list ascii) : bool :=
  has_prefix sub s || match s with [] => false | _ :: s => contains_bytes s sub end.

(** [strings.Contains(s, substr)] *)
Definition Contains (s substr : string) : bool := contains_bytes (bytes s) (bytes substr).

(** A double quote. *)
Definition quote_char : string := String (ascii_of_nat 34) EmptyString.

(** [strconv.FormatInt(n, 10)] and the verb [%d] *)
Definition FormatInt (z : Z) : string := pretty z.

Fixpoint parse_digits (acc : Z) (l : list ascii) : option Z :=
  match l with
  | [] => Some acc
  | c :: l =>
      if is_digit c then parse_digits (acc * 10 + (Z.of_nat (nat_of_ascii c) - 48)) l else None
  end.

(** A non-empty sequence of decimal digits. *)
Definition parse_nat (l : list ascii) : option Z :=
  match l with [] => None | _ => parse_digits 0 l end.

(** An optional sign and a non-empty sequence of decimal digits. *)
Definition parse_signed (s : string) : option Z :=
  match bytes s with
  | c :: l =>
      if byte_eqb c "-"%char then Z.opp <$> parse_nat l
      else if byte_eqb c "+"%char then parse_nat l
      else parse_nat (c :: l)
  | [] => None
  end.

(** [strconv.ParseInt(s, 10, 64)]; [None] for a syntax or range error. *)
Definition ParseInt (s : string) : option Z :=
  match parse_signed s with
  | Some z => if decide (in_int64 z) then Some z else None
  | None => None
  end.

(** [strconv.ParseUint(s, 10, 64)]; [None] for a syntax or range error. *)
Definition ParseUint (s : string) : option Z :=
  match parse_nat (bytes s) with
  | Some z => if z <? 2 ^ 64 then Some z else None
  | None => None
  end.

Example TrimSpace_ex : TrimSpace "  EQab c	" = "EQab c".
Proof. reflexivity. Qed.
Example ParseInt_ex :
  (ParseInt "-12", ParseInt "9223372036854775807", ParseInt "9223372036854775808", ParseInt "1a")
  = (Some (-12), Some MaxInt64, None, None).
Proof. vm_compute. reflexivity. Qed.

(** *** Trimming twice is trimming once *)

Lemma strip_prefix_app p l r : strip_prefix p l = Some r ↔ l = p ++ r.
Proof.
  revert l. induction p as [|c p IH]; intros l; simpl; [naive_solver|].
  destruct l as [|d l]; [done|]. unfold byte_eqb. case_bool_decide; [|naive_solver].
  rewrite IH. naive_solver.
Qed.

Lemma strip_any_Some ps l r : strip_any ps l = Some r → ∃ p, p ∈ ps ∧ l = p ++ r.
Proof.
  induction ps as [|p ps IH]; simpl; [done|]. destruct (strip_prefix p l) eqn:Hp.
  - intros [= <-]. apply strip_prefix_app in Hp. exists p. set_solver.
  - intros (q & ? & ?)%IH. exists q. set_solver.
Qed.

Lemma strip_any_None ps l : strip_any ps l = None ↔ ∀ p r, p ∈ ps → l ≠ p ++ r.
Proof.
  induction ps as [|p ps IH]; simpl.
  - split; [|done]. by intros _ p r ?%not_elem_of_nil.
  - destruct (strip_prefix p l) eqn:Hp.
    + apply strip_prefix_app in Hp. split; [done|]. intros H. by edestruct (H p); [set_solver|].
    + rewrite IH. setoid_rewrite elem_of_cons. split; [|naive_solver].
      intros H q r [->|Hq]; [|auto]. intros Heq. apply strip_prefix_app in Heq. congruence.
Qed.

Lemma trim_left_stuck ps fuel l :
  [] ∉ ps → (List.length l ≤ fuel)%nat → strip_any ps (trim_left ps fuel l) = None.
Proof.
  intros Hne. revert l. induction fuel as [|fuel IH]; intros l Hl; simpl.
  - destruct l; [|simpl in *; lia]. apply strip_any_None. intros [|] r Hp Heq; done.
  - destruct (strip_any ps l) as [l'|] eqn:Hs; [|done]. apply IH.
    apply strip_any_Some in Hs as ([|c p] & Hp & ->); [done|]. simpl in Hl.
    rewrite length_app in Hl. lia.
Qed.

Lemma trim_left_suffix ps fuel l : ∃ pre, l = pre ++ trim_left ps fuel l.
Proof.
  revert l. induction fuel as [|fuel IH]; intros l; simpl; [by exists []|].
  destruct (strip_any ps l) as [l'|] eqn:Hs; [|by exists []].
  apply strip_any_Some in Hs as (p & _ & ->). destruct (IH l') as [pre Hpre].
  exists (p ++ pre). by rewrite <-app_assoc, <-Hpre.
Qed.

Lemma trim_left_id ps fuel l : strip_any ps l = None → trim_left ps fuel l = l.
Proof. intros H. destruct fuel; simpl; [done|]. by rewrite H. Qed.

(** [TrimSpace] leaves alone what neither starts nor ends with a space. *)
Lemma TrimSpace_id s :
  strip_any space_encodings (bytes s) = None →
  strip_any (map (@rev ascii) space_encodings) (rev (bytes s)) = None → TrimSpace s = s.
Proof.
  intros Hl Hr. unfold TrimSpace. rewrite (trim_left_id _ _ _ Hl). cbv zeta.
  rewrite (trim_left_id _ _ _ Hr), rev_involutive. unfold of_bytes, bytes.
  apply string_of_list_ascii_of_string.
Qed.

Lemma TrimSpace_idem s : TrimSpace (TrimSpace s) = TrimSpace s.
Proof.
  set (l := trim_left space_encodings (String.length s) (bytes s)).
  set (r := trim_left (map (@rev ascii) space_encodings) (List.length l) (rev l)).
  assert (bytes (TrimSpace s) = rev r) as Hb.
  { unfold TrimSpace, bytes, of_bytes. apply list_ascii_of_string_of_list_ascii. }
  assert ([] ∉ space_encodings ∧ [] ∉ map (@rev ascii) space_encodings) as [He Hre]
    by (split; apply (bool_decide_unpack (_ ∉ _)); vm_compute; done).
  assert (strip_any space_encodings l = None) as Hl.
  { apply trim_left_stuck; [done|]. unfold bytes. clear. by induction s; simpl; lia. }
  destruct (trim_left_suffix (map (@rev ascii) space_encodings) (List.length l) (rev l))
    as [pre Hpre]. fold r in Hpre.
  apply TrimSpace_id; rewrite Hb.
  - apply strip_any_None. intros p k Hp Heq.
    apply (proj1 (strip_any_None _ _) Hl p (k ++ rev pre) Hp).
    rewrite <-(rev_involutive l), Hpre, rev_app_distr, Heq. by rewrite app_assoc.
  - rewrite rev_involutive. apply trim_left_stuck; [done|]. by rewrite length_rev.
Qed.

(** ** Errors *)

(** The package-level [errors.New] values that callers test for by identity. *)
Inductive sentinel :=
| ErrGameAlreadyReserved | ErrTooManyReservations | ErrCannotReserveOwnGame
| ErrNotReservationHolder | ErrGameNotAvailable | ErrReservationNotFound
| ErrExpiredClaimWalletRequired
| ErrGameCancellationPending | ErrCancelAlreadyReserved | ErrCancelNotAvailable
| ErrNotGameCreator | ErrTooManyCancelReservations | ErrCancelReservationNotFound
| ErrNotCancelReservationHolder
| ErrRevealAlreadyReserved | ErrRevealNotAvailable | ErrNotAPlayer
| ErrTooManyRevealReservations | ErrRevealReservationNotFound
| ErrNotRevealReservationHolder
| ErrExpiredClaimAlreadyClaimed | ErrExpiredClaimNotAvailable
| ErrNotExpiredClaimParticipant | ErrTooManyExpiredClaims | ErrExpiredClaimNotFound
| ErrNotExpiredClaimHolder
| ErrInvalidActivityQueueKey | ErrInvalidActivityOffset | ErrActivityWalletRequired
| ErrTransactionHasNoInMsg | ErrTransactionHasNoGameEvents | ErrUnknownEventType
| ErrNoRows.

#[export] Instance sentinel_eq_dec : EqDecision sentinel.
Proof. solve_decision. Defined.

Definition sentinel_message (s : sentinel) : string :=
  match s with
  | ErrGameAlreadyReserved => "game is already reserved by another player"
  | ErrTooManyReservations => "wallet has too many active reservations"
  | ErrCannotReserveOwnGame => "cannot reserve your own game"
  | ErrNotReservationHolder => "only the reservation holder can perform this action"
  | ErrGameNotAvailable => "game is not available for reservation"
  | ErrReservationNotFound => "reservation not found"
  | ErrExpiredClaimWalletRequired => "wallet address is required"
  | ErrGameCancellationPending => "game is currently being cancelled"
  | ErrCancelAlreadyReserved => "cancel is already reserved by another session"
  | ErrCancelNotAvailable => "game is not available for cancel reservation"
  | ErrNotGameCreator => "only the game creator can reserve cancel"
  | ErrTooManyCancelReservations => "wallet has too many active cancel reservations"
  | ErrCancelReservationNotFound => "cancel reservation not found"
  | ErrNotCancelReservationHolder => "only the cancel reservation holder can perform this action"
  | ErrRevealAlreadyReserved => "reveal is already reserved by another player"
  | ErrRevealNotAvailable => "game is not available for reveal reservation"
  | ErrNotAPlayer => "only participants of the game can reserve a reveal"
  | ErrTooManyRevealReservations => "wallet has too many active reveal reservations"
  | ErrRevealReservationNotFound => "reveal reservation not found"
  | ErrNotRevealReservationHolder => "only the reveal reservation holder can perform this action"
  | ErrExpiredClaimAlreadyClaimed => "expired follow-up is already claimed by another player"
  | ErrExpiredClaimNotAvailable => "game is not available for expired follow-up"
  | ErrNotExpiredClaimParticipant => "only participants of the game can claim expired follow-up"
  | ErrTooManyExpiredClaims => "wallet has too many active expired follow-up claims"
  | ErrExpiredClaimNotFound => "expired follow-up claim not found"
  | ErrNotExpiredClaimHolder => "only the expired follow-up claim holder can perform this action"
  | ErrInvalidActivityQueueKey => "invalid queue key"
  | ErrInvalidActivityOffset => "offset cannot be negative"
  | ErrActivityWalletRequired => "wallet address is required"
  | ErrTransactionHasNoInMsg => "transaction has no in_msg data"
  | ErrTransactionHasNoGameEvents => "transaction has no parsable game event messages"
  | ErrUnknownEventType => "unknown event type"
  | ErrNoRows => "no rows in result set"
  end.

(** [errors.New(msg)], a sentinel, or [fmt.Errorf(pre + "%w" + post, inner)]. *)
Inductive error :=
| ENew (msg : string)
| ESentinel (s : sentinel)
| EWrap (pre : string) (inner : error) (post : string).

Fixpoint Error (e : error) : string :=
  match e with
  | ENew msg => msg
  | ESentinel s => sentinel_message s
  | EWrap pre inner post => pre +:+ Error inner +:+ post
  end.

(** [errors.Is(err, s)] *)
Fixpoint errors_Is (e : error) (s : sentinel) : bool :=
  match e with
  | ENew _ => false
  | ESentinel s' => bool_decide (s' = s)
  | EWrap _ inner _ => errors_Is inner s
  end.

(** [fmt.Errorf(what + ": %w", err)] *)
Definition Errorf (what : string) (e : error) : error := EWrap (what +:+ ": ") e EmptyString.

#[export] Instance error_eq_dec : EqDecision error.
Proof. solve_decision. Defined.

Inductive result (A : Type) :=
| Ok (a : A)
| Err (e : error).
Arguments Ok {A} a.
Arguments Err {A} e.

Definition is_ok {A} (r : result A) : bool := match r with Ok _ => true | Err _ => false end.

Definition map_err {A} (f : error → error) (r : result A) : result A :=
  match r with Ok a => Ok a | Err e => Err (f e) end.

(** [x, err := m; if err != nil { return err }; k] *)
Definition rbind {S A B} (m : ST S (result A)) (k : A → ST S (result B)) : ST S (result B) :=
  m ≫= λ r, match r with Ok a => k a | Err e => mret (Err e) end.

(** ... with the error wrapped on the way out *)
Definition rbind_wrap {S A B} (f : error → error) (m : ST S (result A))
    (k : A → ST S (result B)) : ST S (result B) :=
  m ≫= λ r, match r with Ok a => k a | Err e => mret (Err (f e)) end.

Definition fail {S A} (s : sentinel) : ST S (result A) := mret (Err (ESentinel s)).
Definition lift_result {S A} (r : result A) : ST S (result A) := mret r.

Notation "x <-? m ;; k" := (rbind m (λ x, k))
  (at level 100, m at next level, right associativity) : go_scope.
Notation "x <-? m 'else' f ;; k" := (rbind_wrap f m (λ x, k))
  (at level 100, m at next level, f at next level, right associativity) : go_scope.

Lemma wp_rbind {S A B} (m : ST S (result A)) (k : A → ST S (result B)) Q s :
  wp m (λ r, match r with
             | Ok a => wp (k a) Q
             | Err e => Q (Err e)
             end) s → wp (rbind m k) Q s.
Proof.
  intros H. unfold rbind. apply wp_bind. eapply wp_mono; [exact H|].
  intros [a|e] s'; done.
Qed.

Lemma wp_rbind_wrap {S A B} f (m : ST S (result A)) (k : A → ST S (result B)) Q s :
  wp m (λ r, match r with
             | Ok a => wp (k a) Q
             | Err e => Q (Err (f e))
             end) s → wp (rbind_wrap f m k) Q s.
Proof.
  intros H. unfold rbind_wrap. apply wp_bind. eapply wp_mono; [exact H|].
  intros [a|e] s'; done.
Qed.

(** ** Dynamically typed values: what [interface{}] holds in the event data *)

Inductive dyn :=
| VInt64 (z : Z) | VInt (z : Z)
| VUint8 (z : Z) | VUint16 (z : Z) | VUint32 (z : Z) | VUint64 (z : Z)
| VFloat64 (f : spec_float)
| VString (s : string)
| VRaw (s : string)                      (* json.RawMessage *)
| VOther (typename : string).

(** The name [%T] prints. *)
Definition dyn_type (v : dyn) : string :=
  match v with
  | VInt64 _ => "int64" | VInt _ => "int" | VUint8 _ => "uint8" | VUint16 _ => "uint16"
  | VUint32 _ => "uint32" | VUint64 _ => "uint64" | VFloat64 _ => "float64"
  | VString _ => "string" | VRaw _ => "json.RawMessage" | VOther t => t
  end.

(** The integer part of a finite float, [None] for infinities and NaN. *)
Definition float_trunc (f : spec_float) : option Z :=
  match f with
  | S754_zero _ => Some 0
  | S754_infinity _ | S754_nan => None
  | S754_finite s m e =>
      let a := if e <? 0 then Z.pos m / 2 ^ (- e) else Z.pos m * 2 ^ e in
      Some (if s then - a else a)
  end.
