(* ===== verification/Entity.v ===== *)
(** * Domain entities (internal/entity)

    Every struct is a record in a Module of its name; [time.Time] is a [Z] of
    nanoseconds, a pointer field that may be nil an [option]. [Validate] returns
    the error the code returns, [Ok] when there is none. *)
From S2P Require Import Prelude GoTypes.
From Stdlib Require Import Ascii.

(** ** TON addresses: the regular expression [^EQ[A-Za-z0-9_-]{46}$] *)

Definition address_char (c : ascii) : bool :=
  is_upper c || is_lower c || is_digit c || byte_eqb c "_"%char || byte_eqb c "-"%char.

Definition tonAddressRegex (s : string) : bool :=
  match bytes s with
  | c :: d :: l =>
      byte_eqb c "E"%char && byte_eqb d "Q"%char &&
      (List.length l =? 46)%nat && forallb address_char l
  | _ => false
  end.

(** ** Games *)

Definition GameStatusUninitialized : Z := 0.
Definition GameStatusWaitingForOpponent : Z := 1.
Definition GameStatusWaitingForOpenBids : Z := 2.
Definition GameStatusEnded : Z := 3.
Definition GameStatusPaid : Z := 4.

Definition CoinSideUnknown : Z := 0.
Definition CoinSideClosed : Z := 1.
Definition CoinSideHeads : Z := 2.
Definition CoinSideTails : Z := 3.

Definition verr (msg : string) : result unit := Err (ENew msg).

Module Game.
Record t := mk {
  GameID : Z; Status : Z; PlayerOneAddress : string; PlayerTwoAddress : option string;
  PlayerOneChoice : Z; PlayerTwoChoice : option Z; PlayerOneReferrer : option string;
  PlayerTwoReferrer : option string; BetAmount : Z; WinnerAddress : option string;
  PayoutAmount : option Z; ServiceFeeNumerator : Z; ReferrerFeeNumerator : Z;
  WaitingTimeoutSeconds : Z; LowestBidAllowed : Z; HighestBidAllowed : Z;
  MinReferrerPayoutValue : Z; ProtocolVersion : Z; FeeReceiverAddress : string;
  CreatedAt : Z; JoinedAt : option Z; RevealedAt : option Z; CompletedAt : option Z;
  InitTxHash : string; JoinTxHash : option string; RevealTxHash : option string;
  CompleteTxHash : option string }.

Definition set_Status (v : Z) (g : t) : t :=
  {| GameID := GameID g; Status := v; PlayerOneAddress := PlayerOneAddress g;
     PlayerTwoAddress := PlayerTwoAddress g; PlayerOneChoice := PlayerOneChoice g;
     PlayerTwoChoice := PlayerTwoChoice g; PlayerOneReferrer := PlayerOneReferrer g;
     PlayerTwoReferrer := PlayerTwoReferrer g; BetAmount := BetAmount g;
     WinnerAddress := WinnerAddress g; PayoutAmount := PayoutAmount g;
     ServiceFeeNumerator := ServiceFeeNumerator g;
     ReferrerFeeNumerator := ReferrerFeeNumerator g;
     WaitingTimeoutSeconds := WaitingTimeoutSeconds g;
     LowestBidAllowed := LowestBidAllowed g; HighestBidAllowed := HighestBidAllowed g;
     MinReferrerPayoutValue := MinReferrerPayoutValue g;
     ProtocolVersion := ProtocolVersion g; FeeReceiverAddress := FeeReceiverAddress g;
     CreatedAt := CreatedAt g; JoinedAt := JoinedAt g; RevealedAt := RevealedAt g;
     CompletedAt := CompletedAt g; InitTxHash := InitTxHash g;
     JoinTxHash := JoinTxHash g; RevealTxHash := RevealTxHash g;
     CompleteTxHash := CompleteTxHash g |}.
Definition set_PlayerTwoAddress (v : option string) (g : t) : t :=
  {| GameID := GameID g; Status := Status g; PlayerOneAddress := PlayerOneAddress g;
     PlayerTwoAddress := v; PlayerOneChoice := PlayerOneChoice g;
     PlayerTwoChoice := PlayerTwoChoice g; PlayerOneReferrer := PlayerOneReferrer g;
     PlayerTwoReferrer := PlayerTwoReferrer g; BetAmount := BetAmount g;
     WinnerAddress := WinnerAddress g; PayoutAmount := PayoutAmount g;
     ServiceFeeNumerator := ServiceFeeNumerator g;
     ReferrerFeeNumerator := ReferrerFeeNumerator g;
     WaitingTimeoutSeconds := WaitingTimeoutSeconds g;
     LowestBidAllowed := LowestBidAllowed g; HighestBidAllowed := HighestBidAllowed g;
     MinReferrerPayoutValue := MinReferrerPayoutValue g;
     ProtocolVersion := ProtocolVersion g; FeeReceiverAddress := FeeReceiverAddress g;
     CreatedAt := CreatedAt g; JoinedAt := JoinedAt g; RevealedAt := RevealedAt g;
     CompletedAt := CompletedAt g; InitTxHash := InitTxHash g;
     JoinTxHash := JoinTxHash g; RevealTxHash := RevealTxHash g;
     CompleteTxHash := CompleteTxHash g |}.
Definition set_PlayerOneChoice (v : Z) (g : t) : t :=
  {| GameID := GameID g; Status := Status g; PlayerOneAddress := PlayerOneAddress g;
     PlayerTwoAddress := PlayerTwoAddress g; PlayerOneChoice := v;
     PlayerTwoChoice := PlayerTwoChoice g; PlayerOneReferrer := PlayerOneReferrer g;
     PlayerTwoReferrer := PlayerTwoReferrer g; BetAmount := BetAmount g;
     WinnerAddress := WinnerAddress g; PayoutAmount := PayoutAmount g;
     ServiceFeeNumerator := ServiceFeeNumerator g;
     ReferrerFeeNumerator := ReferrerFeeNumerator g;
     WaitingTimeoutSeconds := WaitingTimeoutSeconds g;
     LowestBidAllowed := LowestBidAllowed g; HighestBidAllowed := HighestBidAllowed g;
     MinReferrerPayoutValue := MinReferrerPayoutValue g;
     ProtocolVersion := ProtocolVersion g; FeeReceiverAddress := FeeReceiverAddress g;
     CreatedAt := CreatedAt g; JoinedAt := JoinedAt g; RevealedAt := RevealedAt g;
     CompletedAt := CompletedAt g; InitTxHash := InitTxHash g;
     JoinTxHash := JoinTxHash g; RevealTxHash := RevealTxHash g;
     CompleteTxHash := CompleteTxHash g |}.
Definition set_PlayerTwoChoice (v : option Z) (g : t) : t :=
  {| GameID := GameID g; Status := Status g; PlayerOneAddress := PlayerOneAddress g;
     PlayerTwoAddress := PlayerTwoAddress g; PlayerOneChoice := PlayerOneChoice g;
     PlayerTwoChoice := v; PlayerOneReferrer := PlayerOneReferrer g;
     PlayerTwoReferrer := PlayerTwoReferrer g; BetAmount := BetAmount g;
     WinnerAddress := WinnerAddress g; PayoutAmount := PayoutAmount g;
     ServiceFeeNumerator := ServiceFeeNumerator g;
     ReferrerFeeNumerator := ReferrerFeeNumerator g;
     WaitingTimeoutSeconds := WaitingTimeoutSeconds g;
     LowestBidAllowed := LowestBidAllowed g; HighestBidAllowed := HighestBidAllowed g;
     MinReferrerPayoutValue := MinReferrerPayoutValue g;
     ProtocolVersion := ProtocolVersion g; FeeReceiverAddress := FeeReceiverAddress g;
     CreatedAt := CreatedAt g; JoinedAt := JoinedAt g; RevealedAt := RevealedAt g;
     CompletedAt := CompletedAt g; InitTxHash := InitTxHash g;
     JoinTxHash := JoinTxHash g; RevealTxHash := RevealTxHash g;
     CompleteTxHash := CompleteTxHash g |}.
Definition set_WinnerAddress (v : option string) (g : t) : t :=
  {| GameID := GameID g; Status := Status g; PlayerOneAddress := PlayerOneAddress g;
     PlayerTwoAddress := PlayerTwoAddress g; PlayerOneChoice := PlayerOneChoice g;
     PlayerTwoChoice := PlayerTwoChoice g; PlayerOneReferrer := PlayerOneReferrer g;
     PlayerTwoReferrer := PlayerTwoReferrer g; BetAmount := BetAmount g;
     WinnerAddress := v; PayoutAmount := PayoutAmount g;
     ServiceFeeNumerator := ServiceFeeNumerator g;
     ReferrerFeeNumerator := ReferrerFeeNumerator g;
     WaitingTimeoutSeconds := WaitingTimeoutSeconds g;
     LowestBidAllowed := LowestBidAllowed g; HighestBidAllowed := HighestBidAllowed g;
     MinReferrerPayoutValue := MinReferrerPayoutValue g;
     ProtocolVersion := ProtocolVersion g; FeeReceiverAddress := FeeReceiverAddress g;
     CreatedAt := CreatedAt g; JoinedAt := JoinedAt g; RevealedAt := RevealedAt g;
     CompletedAt := CompletedAt g; InitTxHash := InitTxHash g;
     JoinTxHash := JoinTxHash g; RevealTxHash := RevealTxHash g;
     CompleteTxHash := CompleteTxHash g |}.
Definition set_PayoutAmount (v : option Z) (g : t) : t :=
  {| GameID := GameID g; Status := Status g; PlayerOneAddress := PlayerOneAddress g;
     PlayerTwoAddress := PlayerTwoAddress g; PlayerOneChoice := PlayerOneChoice g;
     PlayerTwoChoice := PlayerTwoChoice g; PlayerOneReferrer := PlayerOneReferrer g;
     PlayerTwoReferrer := PlayerTwoReferrer g; BetAmount := BetAmount g;
     WinnerAddress := WinnerAddress g; PayoutAmount := v;
     ServiceFeeNumerator := ServiceFeeNumerator g;
     ReferrerFeeNumerator := ReferrerFeeNumerator g;
     WaitingTimeoutSeconds := WaitingTimeoutSeconds g;
     LowestBidAllowed := LowestBidAllowed g; HighestBidAllowed := HighestBidAllowed g;
     MinReferrerPayoutValue := MinReferrerPayoutValue g;
     ProtocolVersion := ProtocolVersion g; FeeReceiverAddress := FeeReceiverAddress g;
     CreatedAt := CreatedAt g; JoinedAt := JoinedAt g; RevealedAt := RevealedAt g;
     CompletedAt := CompletedAt g; InitTxHash := InitTxHash g;
     JoinTxHash := JoinTxHash g; RevealTxHash := RevealTxHash g;
     CompleteTxHash := CompleteTxHash g |}.
Definition set_CreatedAt (v : Z) (g : t) : t :=
  {| GameID := GameID g; Status := Status g; PlayerOneAddress := PlayerOneAddress g;
     PlayerTwoAddress := PlayerTwoAddress g; PlayerOneChoice := PlayerOneChoice g;
     PlayerTwoChoice := PlayerTwoChoice g; PlayerOneReferrer := PlayerOneReferrer g;
     PlayerTwoReferrer := PlayerTwoReferrer g; BetAmount := BetAmount g;
     WinnerAddress := WinnerAddress g; PayoutAmount := PayoutAmount g;
     ServiceFeeNumerator := ServiceFeeNumerator g;
     ReferrerFeeNumerator := ReferrerFeeNumerator g;
     WaitingTimeoutSeconds := WaitingTimeoutSeconds g;
     LowestBidAllowed := LowestBidAllowed g; HighestBidAllowed := HighestBidAllowed g;
     MinReferrerPayoutValue := MinReferrerPayoutValue g;
     ProtocolVersion := ProtocolVersion g; FeeReceiverAddress := FeeReceiverAddress g;
     CreatedAt := v; JoinedAt := JoinedAt g; RevealedAt := RevealedAt g;
     CompletedAt := CompletedAt g; InitTxHash := InitTxHash g;
     JoinTxHash := JoinTxHash g; RevealTxHash := RevealTxHash g;
     CompleteTxHash := CompleteTxHash g |}.
Definition set_JoinedAt (v : option Z) (g : t) : t :=
  {| GameID := GameID g; Status := Status g; PlayerOneAddress := PlayerOneAddress g;
     PlayerTwoAddress := PlayerTwoAddress g; PlayerOneChoice := PlayerOneChoice g;
     PlayerTwoChoice := PlayerTwoChoice g; PlayerOneReferrer := PlayerOneReferrer g;
     PlayerTwoReferrer := PlayerTwoReferrer g; BetAmount := BetAmount g;
     WinnerAddress := WinnerAddress g; PayoutAmount := PayoutAmount g;
     ServiceFeeNumerator := ServiceFeeNumerator g;
     ReferrerFeeNumerator := ReferrerFeeNumerator g;
     WaitingTimeoutSeconds := WaitingTimeoutSeconds g;
     LowestBidAllowed := LowestBidAllowed g; HighestBidAllowed := HighestBidAllowed g;
     MinReferrerPayoutValue := MinReferrerPayoutValue g;
     ProtocolVersion := ProtocolVersion g; FeeReceiverAddress := FeeReceiverAddress g;
     CreatedAt := CreatedAt g; JoinedAt := v; RevealedAt := RevealedAt g;
     CompletedAt := CompletedAt g; InitTxHash := InitTxHash g;
     JoinTxHash := JoinTxHash g; RevealTxHash := RevealTxHash g;
     CompleteTxHash := CompleteTxHash g |}.
Definition set_RevealedAt (v : option Z) (g : t) : t :=
  {| GameID := GameID g; Status := Status g; PlayerOneAddress := PlayerOneAddress g;
     PlayerTwoAddress := PlayerTwoAddress g; PlayerOneChoice := PlayerOneChoice g;
     PlayerTwoChoice := PlayerTwoChoice g; PlayerOneReferrer := PlayerOneReferrer g;
     PlayerTwoReferrer := PlayerTwoReferrer g; BetAmount := BetAmount g;
     WinnerAddress := WinnerAddress g; PayoutAmount := PayoutAmount g;
     ServiceFeeNumerator := ServiceFeeNumerator g;
     ReferrerFeeNumerator := ReferrerFeeNumerator g;
     WaitingTimeoutSeconds := WaitingTimeoutSeconds g;
     LowestBidAllowed := LowestBidAllowed g; HighestBidAllowed := HighestBidAllowed g;
     MinReferrerPayoutValue := MinReferrerPayoutValue g;
     ProtocolVersion := ProtocolVersion g; FeeReceiverAddress := FeeReceiverAddress g;
     CreatedAt := CreatedAt g; JoinedAt := JoinedAt g; RevealedAt := v;
     CompletedAt := CompletedAt g; InitTxHash := InitTxHash g;
     JoinTxHash := JoinTxHash g; RevealTxHash := RevealTxHash g;
     CompleteTxHash := CompleteTxHash g |}.
Definition set_CompletedAt (v : option Z) (g : t) : t :=
  {| GameID := GameID g; Status := Status g; PlayerOneAddress := PlayerOneAddress g;
     PlayerTwoAddress := PlayerTwoAddress g; PlayerOneChoice := PlayerOneChoice g;
     PlayerTwoChoice := PlayerTwoChoice g; PlayerOneReferrer := PlayerOneReferrer g;
     PlayerTwoReferrer := PlayerTwoReferrer g; BetAmount := BetAmount g;
     WinnerAddress := WinnerAddress g; PayoutAmount := PayoutAmount g;
     ServiceFeeNumerator := ServiceFeeNumerator g;
     ReferrerFeeNumerator := ReferrerFeeNumerator g;
     WaitingTimeoutSeconds := WaitingTimeoutSeconds g;
     LowestBidAllowed := LowestBidAllowed g; HighestBidAllowed := HighestBidAllowed g;
     MinReferrerPayoutValue := MinReferrerPayoutValue g;
     ProtocolVersion := ProtocolVersion g; FeeReceiverAddress := FeeReceiverAddress g;
     CreatedAt := CreatedAt g; JoinedAt := JoinedAt g; RevealedAt := RevealedAt g;
     CompletedAt := v; InitTxHash := InitTxHash g; JoinTxHash := JoinTxHash g;
     RevealTxHash := RevealTxHash g; CompleteTxHash := CompleteTxHash g |}.
Definition set_JoinTxHash (v : option string) (g : t) : t :=
  {| GameID := GameID g; Status := Status g; PlayerOneAddress := PlayerOneAddress g;
     PlayerTwoAddress := PlayerTwoAddress g; PlayerOneChoice := PlayerOneChoice g;
     PlayerTwoChoice := PlayerTwoChoice g; PlayerOneReferrer := PlayerOneReferrer g;
     PlayerTwoReferrer := PlayerTwoReferrer g; BetAmount := BetAmount g;
     WinnerAddress := WinnerAddress g; PayoutAmount := PayoutAmount g;
     ServiceFeeNumerator := ServiceFeeNumerator g;
     ReferrerFeeNumerator := ReferrerFeeNumerator g;
     WaitingTimeoutSeconds := WaitingTimeoutSeconds g;
     LowestBidAllowed := LowestBidAllowed g; HighestBidAllowed := HighestBidAllowed g;
     MinReferrerPayoutValue := MinReferrerPayoutValue g;
     ProtocolVersion := ProtocolVersion g; FeeReceiverAddress := FeeReceiverAddress g;
     CreatedAt := CreatedAt g; JoinedAt := JoinedAt g; RevealedAt := RevealedAt g;
     CompletedAt := CompletedAt g; InitTxHash := InitTxHash g; JoinTxHash := v;
     RevealTxHash := RevealTxHash g; CompleteTxHash := CompleteTxHash g |}.
Definition set_RevealTxHash (v : option string) (g : t) : t :=
  {| GameID := GameID g; Status := Status g; PlayerOneAddress := PlayerOneAddress g;
     PlayerTwoAddress := PlayerTwoAddress g; PlayerOneChoice := PlayerOneChoice g;
     PlayerTwoChoice := PlayerTwoChoice g; PlayerOneReferrer := PlayerOneReferrer g;
     PlayerTwoReferrer := PlayerTwoReferrer g; BetAmount := BetAmount g;
     WinnerAddress := WinnerAddress g; PayoutAmount := PayoutAmount g;
     ServiceFeeNumerator := ServiceFeeNumerator g;
     ReferrerFeeNumerator := ReferrerFeeNumerator g;
     WaitingTimeoutSeconds := WaitingTimeoutSeconds g;
     LowestBidAllowed := LowestBidAllowed g; HighestBidAllowed := HighestBidAllowed g;
     MinReferrerPayoutValue := MinReferrerPayoutValue g;
     ProtocolVersion := ProtocolVersion g; FeeReceiverAddress := FeeReceiverAddress g;
     CreatedAt := CreatedAt g; JoinedAt := JoinedAt g; RevealedAt := RevealedAt g;
     CompletedAt := CompletedAt g; InitTxHash := InitTxHash g;
     JoinTxHash := JoinTxHash g; RevealTxHash := v; CompleteTxHash := CompleteTxHash g |}.
Definition set_CompleteTxHash (v : option string) (g : t) : t :=
  {| GameID := GameID g; Status := Status g; PlayerOneAddress := PlayerOneAddress g;
     PlayerTwoAddress := PlayerTwoAddress g; PlayerOneChoice := PlayerOneChoice g;
     PlayerTwoChoice := PlayerTwoChoice g; PlayerOneReferrer := PlayerOneReferrer g;
     PlayerTwoReferrer := PlayerTwoReferrer g; BetAmount := BetAmount g;
     WinnerAddress := WinnerAddress g; PayoutAmount := PayoutAmount g;
     ServiceFeeNumerator := ServiceFeeNumerator g;
     ReferrerFeeNumerator := ReferrerFeeNumerator g;
     WaitingTimeoutSeconds := WaitingTimeoutSeconds g;
     LowestBidAllowed := LowestBidAllowed g; HighestBidAllowed := HighestBidAllowed g;
     MinReferrerPayoutValue := MinReferrerPayoutValue g;
     ProtocolVersion := ProtocolVersion g; FeeReceiverAddress := FeeReceiverAddress g;
     CreatedAt := CreatedAt g; JoinedAt := JoinedAt g; RevealedAt := RevealedAt g;
     CompletedAt := CompletedAt g; InitTxHash := InitTxHash g;
     JoinTxHash := JoinTxHash g; RevealTxHash := RevealTxHash g; CompleteTxHash := v |}.

Definition Validate (g : t) : result unit :=
  if GameID g <=? 0 then verr "game_id must be positive"
  else if (Status g <? GameStatusUninitialized) || (GameStatusPaid <? Status g)
    then verr "status must be 0-4"
  else if negb (tonAddressRegex (PlayerOneAddress g))
    then verr "player_one_address must be valid TON address"
  else if BetAmount g <=? 0 then verr "bet_amount must be positive"
  else if (PlayerOneChoice g <? CoinSideUnknown) || (CoinSideTails <? PlayerOneChoice g)
    then verr "player_one_choice must be 0-3"
  else if (GameStatusWaitingForOpenBids <=? Status g) && bool_decide (PlayerTwoAddress g = None)
    then verr "player_two_address required for status >= 2"
  else if bool_decide (PlayerTwoAddress g = Some (PlayerOneAddress g))
    then verr "player_two_address must be different from player_one_address"
  else if bool_decide (InitTxHash g = EmptyString) then verr "init_tx_hash is required"
  else Ok tt.

Definition CanTransitionTo (g : t) (newStatus : Z) : bool :=
  if newStatus <? Status g then
    if (Status g =? GameStatusEnded) && (newStatus =? GameStatusPaid) then true else false
  else true.
End Game.

(** ** Blockchain events *)

Definition EventGameInitialized : string := "GameInitializedNotify".
Definition EventGameStarted : string := "GameStartedNotify".
Definition EventGameFinished : string := "GameFinishedNotify".
Definition EventGameCancelled : string := "GameCancelledNotify".
Definition EventDraw : string := "DrawNotify".
Definition EventSecretOpened : string := "SecretOpenedNotify".
Definition EventInsufficientBalance : string := "InsufficientBalanceNotify".

Definition validEventTypes : list string :=
  [ EventGameInitialized; EventGameStarted; EventGameFinished; EventGameCancelled;
    EventDraw; EventSecretOpened; EventInsufficientBalance ].

Fixpoint contains (slice : list string) (item : string) : bool :=
  match slice with
  | [] => false
  | s :: slice => if bool_decide (s = item) then true else contains slice item
  end.

Module GameEvent.
Record t := mk {
  ID : Z; GameID : Z; EventType : string; TransactionHash : string; BlockNumber : Z;
  Timestamp : Z; Payload : string; EventData : option (gmap string dyn); CreatedAt : Z }.

Definition set_ID (v createdAt : Z) (e : t) : t :=
  {| ID := v; GameID := GameID e; EventType := EventType e;
     TransactionHash := TransactionHash e; BlockNumber := BlockNumber e;
     Timestamp := Timestamp e; Payload := Payload e; EventData := EventData e;
     CreatedAt := createdAt |}.
Definition set_Payload (v : string) (e : t) : t :=
  {| ID := ID e; GameID := GameID e; EventType := EventType e;
     TransactionHash := TransactionHash e; BlockNumber := BlockNumber e;
     Timestamp := Timestamp e; Payload := v; EventData := EventData e;
     CreatedAt := CreatedAt e |}.

Definition Validate (e : t) : result unit :=
  if negb (contains validEventTypes (EventType e)) then verr "invalid event_type"
  else if bool_decide (TransactionHash e = EmptyString) then verr "transaction_hash is required"
  else if GameID e <=? 0 then verr "game_id must be positive"
  else if BlockNumber e <? 0 then verr "block_number cannot be negative"
  else Ok tt.
End GameEvent.

(** ** Reservations: the record shared by the four advisory locks *)

Definition ReservationStatusActive : string := "active".
Definition ReservationStatusReleased : string := "released".
Definition ReservationStatusExpired : string := "expired".

Module GameReservation.
Record t := mk {
  GameID : Z; WalletAddress : string; CreatedAt : Z; ExpiresAt : Z;
  Status : string }.

Definition set_Status (v : string) (r : t) : t :=
  {| GameID := GameID r; WalletAddress := WalletAddress r; CreatedAt := CreatedAt r;
     ExpiresAt := ExpiresAt r; Status := v |}.

(** The methods read the clock; here the reading is the argument [now]. *)
Definition IsExpired (now : Z) (r : t) : bool := ExpiresAt r <? now.
Definition IsActive (now : Z) (r : t) : bool :=
  bool_decide (Status r = ReservationStatusActive) && negb (IsExpired now r).
Definition TimeRemaining (now : Z) (r : t) : Z :=
  let remaining := ExpiresAt r - now in if remaining <? 0 then 0 else remaining.

Definition Validate (r : t) : result unit :=
  if GameID r <=? 0 then verr "game_id must be positive"
  else if bool_decide (WalletAddress r = EmptyString) then verr "wallet_address is required"
  else if negb (bool_decide (Status r = ReservationStatusActive)) &&
          negb (bool_decide (Status r = ReservationStatusReleased)) &&
          negb (bool_decide (Status r = ReservationStatusExpired))
    then verr "invalid status"
  else Ok tt.
End GameReservation.

(** ** The dead letter queue *)

Definition DLQErrorTypeParse : string := "parse_error".
Definition DLQErrorTypePersistence : string := "persistence_error".
Definition DLQErrorTypeValidation : string := "validation_error".
Definition DLQErrorTypeUnknown : string := "unknown".

Definition DLQStatusPending : string := "pending".
Definition DLQStatusRetrying : string := "retrying".
Definition DLQStatusResolved : string := "resolved".
Definition DLQStatusFailed : string := "failed".

Definition Hour : Z := 3600 * 10 ^ 9.

Module DeadLetterEntry.
Record t := mk {
  ID : Z; TransactionHash : string; TransactionLt : string; RawData : string;
  ErrorMessage : string; ErrorType : string; RetryCount : Z; MaxRetries : Z;
  CreatedAt : Z; LastRetryAt : option Z; NextRetryAt : option Z; ResolvedAt : option Z;
  Status : string; ResolutionNotes : string }.

(** The defaults [Validate] writes into the entry. *)
Definition set_defaults (e : t) : t :=
  {| ID := ID e; TransactionHash := TransactionHash e; TransactionLt := TransactionLt e;
     RawData := RawData e; ErrorMessage := ErrorMessage e;
     ErrorType := if bool_decide (ErrorType e = EmptyString) then DLQErrorTypeUnknown
                  else ErrorType e;
     RetryCount := RetryCount e;
     MaxRetries := if MaxRetries e <=? 0 then 3 else MaxRetries e;
     CreatedAt := CreatedAt e; LastRetryAt := LastRetryAt e; NextRetryAt := NextRetryAt e;
     ResolvedAt := ResolvedAt e;
     Status := if bool_decide (Status e = EmptyString) then DLQStatusPending else Status e;
     ResolutionNotes := ResolutionNotes e |}.

(** The entry as [Validate] leaves it, or its error. *)
Definition Validate (e : t) : result t :=
  if bool_decide (TransactionHash e = EmptyString) then
    Err (ENew "transaction_hash is required")
  else if bool_decide (TransactionLt e = EmptyString) then
    Err (ENew "transaction_lt is required")
  else if bool_decide (ErrorMessage e = EmptyString) then
    Err (ENew "error_message is required")
  else Ok (set_defaults e).

Definition CanRetry (e : t) : bool :=
  negb (bool_decide (Status e = DLQStatusResolved)) &&
  negb (bool_decide (Status e = DLQStatusFailed)) && (RetryCount e <? MaxRetries e).

(** The clock is read once; here the reading is the argument [now]. *)
Definition MarkRetrying (now : Z) (e : t) : t :=
  {| ID := ID e; TransactionHash := TransactionHash e; TransactionLt := TransactionLt e;
     RawData := RawData e; ErrorMessage := ErrorMessage e; ErrorType := ErrorType e;
     RetryCount := wrap64 (RetryCount e + 1); MaxRetries := MaxRetries e;
     CreatedAt := CreatedAt e; LastRetryAt := Some now; NextRetryAt := NextRetryAt e;
     ResolvedAt := ResolvedAt e; Status := DLQStatusRetrying;
     ResolutionNotes := ResolutionNotes e |}.
Definition MarkResolved (now : Z) (notes : string) (e : t) : t :=
  {| ID := ID e; TransactionHash := TransactionHash e; TransactionLt := TransactionLt e;
     RawData := RawData e; ErrorMessage := ErrorMessage e; ErrorType := ErrorType e;
     RetryCount := RetryCount e; MaxRetries := MaxRetries e; CreatedAt := CreatedAt e;
     LastRetryAt := LastRetryAt e; NextRetryAt := NextRetryAt e; ResolvedAt := Some now;
     Status := DLQStatusResolved; ResolutionNotes := notes |}.
Definition MarkFailed (notes : string) (e : t) : t :=
  {| ID := ID e; TransactionHash := TransactionHash e; TransactionLt := TransactionLt e;
     RawData := RawData e; ErrorMessage := ErrorMessage e; ErrorType := ErrorType e;
     RetryCount := RetryCount e; MaxRetries := MaxRetries e; CreatedAt := CreatedAt e;
     LastRetryAt := LastRetryAt e; NextRetryAt := NextRetryAt e; ResolvedAt := ResolvedAt e;
     Status := DLQStatusFailed; ResolutionNotes := notes |}.
Definition set_NextRetryAt (v : option Z) (e : t) : t :=
  {| ID := ID e; TransactionHash := TransactionHash e; TransactionLt := TransactionLt e;
     RawData := RawData e; ErrorMessage := ErrorMessage e; ErrorType := ErrorType e;
     RetryCount := RetryCount e; MaxRetries := MaxRetries e; CreatedAt := CreatedAt e;
     LastRetryAt := LastRetryAt e; NextRetryAt := v; ResolvedAt := ResolvedAt e;
     Status := Status e; ResolutionNotes := ResolutionNotes e |}.

(** [1 << RetryCount] in int arithmetic, times the base, at most an hour. *)
Definition backoff (baseBackoff retryCount : Z) : Z :=
  let multiplier := wrap64 (Z.shiftl 1 retryCount) in
  let backoff := wrap64 (baseBackoff * multiplier) in
  if Hour <? backoff then Hour else backoff.

(** [None] when Go panics: the shift count is negative. *)
Definition ScheduleNextRetry (now baseBackoff : Z) (e : t) : option t :=
  if RetryCount e <? 0 then None
  else Some (set_NextRetryAt (Some (now + backoff baseBackoff (RetryCount e))) e).
End DeadLetterEntry.

(** ** Users *)

Module User.
Record t := mk {
  ID : Z; TelegramUserID : option Z; TelegramUsername : string; WalletAddress : string;
  TotalGamesPlayed : Z; TotalWins : Z; TotalLosses : Z; TotalReferrals : Z;
  TotalReferralEarnings : Z; CreatedAt : Z; UpdatedAt : Z }.

Definition Validate (u : t) : result unit :=
  if bool_decide (WalletAddress u = EmptyString) then verr "wallet_address is required"
  else if negb (tonAddressRegex (WalletAddress u))
    then verr "wallet_address must be valid TON address format (EQ...)"
  else if match TelegramUserID u with Some i => i <=? 0 | None => false end
    then verr "telegram_user_id must be positive when provided"
  else if TotalGamesPlayed u <? 0 then verr "total_games_played cannot be negative"
  else if TotalWins u <? 0 then verr "total_wins cannot be negative"
  else if TotalLosses u <? 0 then verr "total_losses cannot be negative"
  else if TotalReferrals u <? 0 then verr "total_referrals cannot be negative"
  else if TotalReferralEarnings u <? 0 then verr "total_referral_earnings cannot be negative"
  else Ok tt.
End User.

(** ** Facts about the entities *)

#[export] Instance Game_eq_dec : EqDecision Game.t.
Proof. solve_decision. Defined.
#[export] Instance GameReservation_eq_dec : EqDecision GameReservation.t.
Proof. solve_decision. Defined.
#[export] Instance User_eq_dec : EqDecision User.t.
Proof. solve_decision. Defined.

Lemma contains_spec slice item : contains slice item = true ↔ item ∈ slice.
Proof.
  induction slice as [|s slice IH]; simpl; [set_solver|].
  rewrite elem_of_cons. case_bool_decide; [by split; auto|]. rewrite IH.
  split; [auto|]. intros [->|?]; done.
Qed.

(** A chain of [if c then return err] guards: success refutes every guard. *)
Ltac guards H :=
  repeat match type of H with
  | (if ?c then _ else _) = _ => let E := fresh "G" in destruct c eqn:E; [discriminate|]
  end.

(** What a validated game guarantees. *)
Record GameOk (g : Game.t) : Prop := {
  ok_id : 0 < Game.GameID g;
  ok_status : GameStatusUninitialized ≤ Game.Status g ≤ GameStatusPaid;
  ok_player_one : tonAddressRegex (Game.PlayerOneAddress g) = true;
  ok_bet : 0 < Game.BetAmount g;
  ok_choice : CoinSideUnknown ≤ Game.PlayerOneChoice g ≤ CoinSideTails;
  ok_player_two : GameStatusWaitingForOpenBids ≤ Game.Status g → Game.PlayerTwoAddress g ≠ None;
  ok_distinct : Game.PlayerTwoAddress g ≠ Some (Game.PlayerOneAddress g);
  ok_init : Game.InitTxHash g ≠ EmptyString }.

Lemma Game_Validate_spec (g : Game.t) : Game.Validate g = Ok tt ↔ GameOk g.
Proof.
  unfold Game.Validate, verr. split.
  - intros H. guards H.
    repeat match goal with
    | H : _ || _ = false |- _ => apply orb_false_iff in H as [? ?]
    | H : _ && _ = false |- _ => apply andb_false_iff in H
    | H : bool_decide _ = false |- _ => apply bool_decide_eq_false in H
    | H : negb _ = false |- _ => apply negb_false_iff in H
    end.
    constructor; try lia; try done.
    intros Hs Hn. destruct_or!; [lia|]. by apply bool_decide_eq_false in G4.
  - intros [Hid Hst Hp1 Hbet Hc Hp2 Hd Hi].
    rewrite (proj2 (Z.leb_gt (Game.GameID g) 0)) by lia.
    rewrite (proj2 (Z.ltb_ge (Game.Status g) _)), (proj2 (Z.ltb_ge _ (Game.Status g))) by lia.
    rewrite Hp1, (proj2 (Z.leb_gt (Game.BetAmount g) 0)) by lia.
    rewrite (proj2 (Z.ltb_ge (Game.PlayerOneChoice g) _)),
      (proj2 (Z.ltb_ge _ (Game.PlayerOneChoice g))) by lia.
    rewrite (bool_decide_eq_false_2 (Game.PlayerTwoAddress g = Some _)),
      (bool_decide_eq_false_2 (Game.InitTxHash g = _)) by done.
    simpl. destruct (_ <=? Game.Status g) eqn:E; [|done].
    rewrite bool_decide_eq_false_2; [done|]. apply Hp2. by apply Z.leb_le.
Qed.

(** The comment on [CanTransitionTo] allows one decrease, from ENDED to PAID; that
    step is an increase, so the method is exactly the order on statuses. *)
Lemma CanTransitionTo_spec (g : Game.t) (s : Z) :
  Game.CanTransitionTo g s = (Game.Status g <=? s).
Proof.
  unfold Game.CanTransitionTo, GameStatusEnded, GameStatusPaid.
  destruct (Z.ltb_spec s (Game.Status g)), (Z.leb_spec (Game.Status g) s); try lia; try done.
  destruct (Z.eqb_spec (Game.Status g) 3), (Z.eqb_spec s 4); simpl; try done; lia.
Qed.

(** *** Activity of a reservation over time *)

Section Activity.
Import GameReservation.

(** The proposition behind [IsActive]. *)
Definition active_at (now : Z) (r : GameReservation.t) : Prop :=
  Status r = ReservationStatusActive ∧ now ≤ ExpiresAt r.

Lemma IsActive_spec now r : IsActive now r = true ↔ active_at now r.
Proof.
  unfold IsActive, IsExpired, active_at. rewrite andb_true_iff, bool_decide_eq_true.
  rewrite negb_true_iff, Z.ltb_ge. done.
Qed.

Lemma IsActive_false now r : IsActive now r = false ↔ ¬ active_at now r.
Proof. rewrite <-IsActive_spec. by destruct (IsActive now r). Qed.

(** Activity is lost with time and never regained. *)
Lemma active_at_mono t t' r : t ≤ t' → active_at t' r → active_at t r.
Proof. unfold active_at. intros ? []. split; [done|lia]. Qed.

#[global] Instance active_at_dec now r : Decision (active_at now r).
Proof. unfold active_at. apply _. Defined.

Lemma released_not_active now r : ¬ active_at now (set_Status ReservationStatusReleased r).
Proof. by intros []. Qed.
Lemma expired_not_active now r : ¬ active_at now (set_Status ReservationStatusExpired r).
Proof. by intros []. Qed.
End Activity.

#[export] Hint Resolve released_not_active expired_not_active : pod.

(** ** blockchain_sync_state.go *)

Module BlockchainSyncState.
Record t := mk {
  ID : Z; ContractAddress : string; LastProcessedBlock : Z; LastPollTimestamp : Z;
  UpdatedAt : Z; EventSourceType : string; LastProcessedLt : string;
  LastProcessedHash : string; WebSocketConnected : bool; FallbackCount : Z;
  LastFallbackAt : option Z }.

Definition Validate (s : t) : result unit :=
  if negb (ID s =? 1) then Err (ENew "id must be 1 (singleton)")
  else if bool_decide (ContractAddress s = EmptyString) then
    Err (ENew "contract_address is required")
  else if negb (tonAddressRegex (ContractAddress s)) then
    Err (ENew "contract_address must be valid TON address format (EQ...)")
  else if LastProcessedBlock s <? 0 then
    Err (ENew "last_processed_block cannot be negative")
  else if negb (bool_decide (EventSourceType s = EmptyString)) &&
          negb (bool_decide (EventSourceType s = "websocket")) &&
          negb (bool_decide (EventSourceType s = "http")) then
    Err (ENew "event_source_type must be 'websocket' or 'http'")
  else Ok tt.
End BlockchainSyncState.
