(* ===== verification/World.v ===== *)
(** * The state of the running service and what it reads from outside

    [Env] gathers what the code obtains from outside the repository or from the
    runtime: clock readings, the fate of SQL statements, the iteration order of
    Go maps, the TON address parser.  [World] is the mutable state: the tables of
    migrations/, the in-memory maps of the four advisory-lock use cases, and the
    trace of broadcasts and metric updates the use cases issue. *)
From S2P Require Import Prelude GoTypes Entity.
From Stdlib Require Import Ascii.

(** ** The environment *)

(** What happens to one SQL statement besides its own semantics: it runs, it is
    lost before it takes effect, or it takes effect and its acknowledgement is
    lost.  The last two report an error to the caller. *)
Inductive Fault := FaultNone | FaultLost | FaultUnacked.

Class Env := {
  clock : nat → Z;                       (* the n-th reading of time.Now(), in ns *)
  dbfault : nat → Fault;                 (* the fate of the n-th SQL statement *)
  dberror : nat → string;                (* the driver's message when it fails *)
  dbclock : nat → Z;                     (* NOW() in the n-th SQL statement *)
  scanOrder : Z → ∀ A : Type, list A → list A;
                                         (* order in which a SELECT visits the rows *)
  rowsRead : Z → option nat;             (* rows received when the connection breaks *)
  timestamptz : string → option Z;       (* PostgreSQL's reading of a date *)
  rangeOrder : nat → list Z → list Z;    (* order of the n-th range over a map *)
  ParseAddr : string → option string;    (* address.ParseAddr(s), then StringRaw() *)
  ToLowerUnicode : string → string;      (* strings.ToLower beyond ASCII *)
  json_Marshal : gmap string dyn → option string;
  float64_overflow : Z                   (* int64(f) for f out of range *)
}.

(** [int64(f)] of a float: its integer part when that fits. *)
Definition float_to_int64 `{E : Env} (z : option Z) : Z :=
  match z with
  | Some z => if decide (in_int64 z) then z else float64_overflow
  | None => float64_overflow
  end.

(** [time.Now] carries a monotonic reading, and [Before]/[After] compare it. *)
Class ClockMono (E : Env) : Prop :=
  clock_mono i j : (i ≤ j)%nat → clock i ≤ clock j.

(** A [range] over a map visits every key once, in an order of its own. *)
Class RangePerm (E : Env) : Prop :=
  range_perm n l : rangeOrder n l ≡ₚ l.

(** A SELECT visits every row once. *)
Class ScanPerm (E : Env) : Prop :=
  scan_perm id A (l : list A) : scanOrder id A l ≡ₚ l.

(** A failing connection never reports the text of [pgx.ErrNoRows]. *)
Class DriverErrors (E : Env) : Prop :=
  driver_error n : dberror n ≠ "no rows in result set".

(** ** Effects: calls of the broadcast use case and of the metrics collectors *)

Inductive Notice :=
| ReservationCreated (r : GameReservation.t)
| ReservationReleased (gameID : Z) (reason : string)
| CancelReservationCreated (r : GameReservation.t)
| CancelReservationReleased (gameID : Z) (reason : string)
| RevealReservationCreated (r : GameReservation.t)
| RevealReservationReleased (gameID : Z) (reason : string)
| ExpiredClaimCreated (r : GameReservation.t)
| ExpiredClaimReleased (gameID : Z) (reason : string)
| GameUpdate (game : Game.t) (eventType : string).

Inductive Metric :=
| RecordCreated | RecordCancelled | RecordJoined | RecordRevealed | RecordResolved
| RecordExpired | RecordError (kind : string).

(** Which of the four collectors a metric update goes to. *)
Inductive LockKind := JoinLock | CancelLock | RevealLock | ClaimLock.

#[export] Instance LockKind_eq_dec : EqDecision LockKind.
Proof. solve_decision. Defined.

Inductive Effect :=
| Broadcast (n : Notice)
| Measure (k : LockKind) (m : Metric).

(** ** The advisory-lock use cases: one struct shape, four instances *)

(** The fields of [ReservationUseCase], [CancelReservationUseCase],
    [RevealReservationUseCase] and [ExpiredClaimUseCase].  Optional collaborators
    are booleans that say whether the pointer is set. *)
Record LockUC := mkLockUC {
  reservations : gmap Z GameReservation.t;
  walletReservations : gmap string (list Z);
  maxPerWallet : Z;
  timeout : Z;
  cleanupInterval : Z;
  has_gameRepo : bool;
  has_peer : bool;
  has_broadcastUC : bool;
  has_metrics : bool;
  stopCleanup_closed : bool }.

Definition set_maps (rs : gmap Z GameReservation.t) (ix : gmap string (list Z))
    (uc : LockUC) : LockUC :=
  mkLockUC rs ix (maxPerWallet uc) (timeout uc) (cleanupInterval uc) (has_gameRepo uc)
    (has_peer uc) (has_broadcastUC uc) (has_metrics uc) (stopCleanup_closed uc).

(** ** The database *)

(** *** Columns of type VARCHAR(n) *)

(** A byte that does not start a character of UTF-8. *)
Definition continuation (c : ascii) : bool :=
  let n := nat_of_ascii c in (128 <=? n)%nat && (n <? 192)%nat.

(** The characters after the first [n]. *)
Fixpoint beyond (n : nat) (l : list ascii) : list ascii :=
  match l with
  | [] => []
  | c :: l' => if continuation c then beyond n l'
               else match n with O => l | S n => beyond n l' end
  end.

(** What a column VARCHAR([n]) keeps of a value: its first [n] characters. *)
Definition cut (n : nat) (s : string) : string :=
  of_bytes (firstn (String.length s - length (beyond n (bytes s))) (bytes s)).

(** Spaces beyond the length are cut off, other characters are refused. *)
Definition fits (n : nat) (s : string) : bool :=
  forallb (λ c, byte_eqb c " "%char) (beyond n (bytes s)).

(** A value stored in a column VARCHAR([n]). *)
Definition assign_varchar (n : nat) (s : string) : option string :=
  if fits n s then Some (cut n s) else None.

(** NULL is stored as it is. *)
Definition fits_null (n : nat) (o : option string) : bool :=
  match o with Some s => fits n s | None => true end.

Definition too_long (n : Z) : error :=
  ENew ("value too long for type character varying(" +:+ FormatInt n +:+ ")").

Lemma beyond_split n l :
  ∃ k, l = k ++ beyond n l ∧ beyond n k = [].
Proof.
  revert n. induction l as [|c l IH]; intros n; [by exists []|].
  simpl. destruct (continuation c) eqn:Hc.
  - destruct (IH n) as (k & Hl & Hk). exists (c :: k). simpl. rewrite Hc. by rewrite <-Hl.
  - destruct n as [|n]; [by exists []|].
    destruct (IH n) as (k & Hl & Hk). exists (c :: k). simpl. rewrite Hc. by rewrite <-Hl.
Qed.

Lemma bytes_cut n s : bytes s = bytes (cut n s) ++ beyond n (bytes s) ∧ beyond n (bytes (cut n s)) = [].
Proof.
  destruct (beyond_split n (bytes s)) as (k & Hs & Hk).
  assert (bytes (cut n s) = k) as ->; [|done].
  unfold cut. rewrite bytes_of_bytes, <-length_bytes. set (r := beyond n (bytes s)) in *.
  rewrite Hs, length_app, Nat.add_sub.
  apply take_app_length.
Qed.

(** A value within the length is kept as it is. *)
Lemma cut_id n s : beyond n (bytes s) = [] → cut n s = s.
Proof.
  intros Hs. destruct (bytes_cut n s) as [Hb _]. rewrite Hs, app_nil_r in Hb.
  apply (f_equal of_bytes) in Hb. by rewrite !of_bytes_bytes in Hb.
Qed.

Lemma beyond_short n l : (length l ≤ n)%nat → beyond n l = [].
Proof.
  revert n. induction l as [|c l IH]; intros n Hl; [done|]. simpl in *.
  destruct (continuation c); [apply IH; lia|]. destruct n; [lia|]. apply IH. lia.
Qed.

(** Cutting twice is cutting once. *)
Lemma cut_cut n s : cut n (cut n s) = cut n s.
Proof. apply cut_id, bytes_cut. Qed.

(** A value as the column keeps it fits the column. *)
Lemma fits_kept n s : beyond n (bytes s) = [] → fits n s = true.
Proof. unfold fits. by intros ->. Qed.

(** A TON address is short. *)
Lemma address_short s : tonAddressRegex s = true → beyond 66 (bytes s) = [].
Proof.
  intros Hs. apply beyond_short. unfold tonAddressRegex in Hs.
  destruct (bytes s) as [|c [|d l]]; [done..|].
  repeat apply andb_true_iff in Hs as [Hs ?].
  match goal with H : (_ =? _)%nat = true |- _ => apply Nat.eqb_eq in H end. simpl. lia.
Qed.

(** The row of blockchain_sync_state: the columns of the migrations 4 and 6. *)
Record SyncRow := mkSyncRow {
  contract_address : string; last_processed_block : Z; last_poll_timestamp : Z;
  updated_at : Z; event_source_type : option string; last_processed_lt : option string;
  last_processed_hash : option string; websocket_connected : option bool;
  fallback_count : option Z; last_fallback_at : option Z }.

(** The row that migration 4 inserts. *)
Definition sync_initial : SyncRow :=
  mkSyncRow EmptyString 0 0 0 None (Some "0") None (Some false) (Some 0) None.

(** The row of users.  The migrations 1 and 8 leave both Telegram columns nullable. *)
Module UserRow.
Record t := mk {
  ID : Z; TelegramUserID : option Z; TelegramUsername : option string;
  WalletAddress : string; TotalGamesPlayed : Z; TotalWins : Z; TotalLosses : Z;
  TotalReferrals : Z; TotalReferralEarnings : Z; CreatedAt : Z; UpdatedAt : Z }.
End UserRow.

Record Tables := mkTables {
  games : gmap Z Game.t;
  game_events : gmap (Z * string * string) GameEvent.t;   (* unique_event_per_tx *)
  users : gmap string UserRow.t;
  dead_letters : gmap Z DeadLetterEntry.t;                (* dead_letter_queue *)
  sync_state : option SyncRow }.                          (* the row with id 1 *)

Definition set_games (v : gmap Z Game.t) (t : Tables) : Tables :=
  mkTables v (game_events t) (users t) (dead_letters t) (sync_state t).
Definition set_game_events (v : gmap (Z * string * string) GameEvent.t) (t : Tables) : Tables :=
  mkTables (games t) v (users t) (dead_letters t) (sync_state t).
Definition set_users (v : gmap string UserRow.t) (t : Tables) : Tables :=
  mkTables (games t) (game_events t) v (dead_letters t) (sync_state t).
Definition set_dead_letters (v : gmap Z DeadLetterEntry.t) (t : Tables) : Tables :=
  mkTables (games t) (game_events t) (users t) v (sync_state t).
Definition set_sync_state (v : option SyncRow) (t : Tables) : Tables :=
  mkTables (games t) (game_events t) (users t) (dead_letters t) v.

(** ** The world *)

Record World := mkWorld {
  ticks : nat;                (* clock readings so far *)
  stmts : nat;                (* SQL statements so far; also the BIGSERIAL sequences *)
  ranges : nat;               (* range loops over maps so far *)
  out : list Effect;          (* broadcasts and metric updates, oldest first *)
  tables : Tables;
  locks : LockKind → LockUC }.

Definition M := ST World.

#[export] Instance M_ret : MRet M := ST_ret.
#[export] Instance M_bind : MBind M := ST_bind.

Definition set_ticks (n : nat) (w : World) : World :=
  mkWorld n (stmts w) (ranges w) (out w) (tables w) (locks w).
Definition set_stmts (n : nat) (w : World) : World :=
  mkWorld (ticks w) n (ranges w) (out w) (tables w) (locks w).
Definition set_ranges (n : nat) (w : World) : World :=
  mkWorld (ticks w) (stmts w) n (out w) (tables w) (locks w).
Definition set_out (o : list Effect) (w : World) : World :=
  mkWorld (ticks w) (stmts w) (ranges w) o (tables w) (locks w).
Definition set_tables (t : Tables) (w : World) : World :=
  mkWorld (ticks w) (stmts w) (ranges w) (out w) t (locks w).
Definition set_lock (k : LockKind) (uc : LockUC) (w : World) : World :=
  mkWorld (ticks w) (stmts w) (ranges w) (out w) (tables w)
    (λ k', if decide (k' = k) then uc else locks w k').

Section World.
Context `{E : Env}.

(** The time a clock reading would give now. *)
Definition time (w : World) : Z := clock (ticks w).

Definition Now : M Z := λ w, (time w, set_ticks (S (ticks w)) w).

Definition emit (e : Effect) : M unit := modify (λ w, set_out (out w ++ [e]) w).

(** [r.IsActive()]: the clock is read only when the status is active. *)
Definition readActive (r : GameReservation.t) : M bool :=
  if bool_decide (GameReservation.Status r = ReservationStatusActive) then
    now ← Now; mret (negb (GameReservation.IsExpired now r))
  else mret false.

(** The order in which [for k := range m] visits the keys of [m]. *)
Definition rangeKeys {V} (m : gmap Z V) : M (list Z) := λ w,
  (rangeOrder (ranges w) (map_to_list m).*1, set_ranges (S (ranges w)) w).

(** One SQL statement; [f] gets the next sequence value and NOW().  It either
    changes the tables and yields its result, or fails and leaves them alone. *)
Definition statement {A} (f : Z → Z → Tables → result (A * Tables)) : M (result A) := λ w,
  let n := stmts w in
  let w1 := set_stmts (S n) w in
  let lost := Err (ENew (dberror n)) in
  match dbfault n, f (Z.of_nat (S n)) (dbclock n) (tables w) with
  | FaultLost, _ => (lost, w1)
  | FaultUnacked, Ok (_, t) => (lost, set_tables t w1)
  | FaultUnacked, Err _ => (lost, w1)
  | FaultNone, Ok (a, t) => (Ok a, set_tables t w1)
  | FaultNone, Err e => (Err e, w1)
  end.

(** The rows that a loop over [rows.Next()] sees of the result [l] of the statement [id].
    When the connection breaks between two rows, [Next] returns false, as it does at the
    end; only [rows.Err()] tells the two apart, and no repository calls it. *)
Definition stream {A} (id : Z) (l : list A) : list A :=
  match rowsRead id with Some n => take n l | None => l end.

(** [pkg/postgres.TxManager.WithTx]: begin, run, then commit or roll back.  The
    statements of [fn] see and change the tables; a rollback restores them. *)
Definition WithTx {S} (onW : ∀ A, M A → ST S A) (fn : ST S (result unit)) :
    ST S (result unit) :=
  b ← onW _ (statement (λ _ _ t, Ok (tt, t)));
  match b with
  | Err e => mret (Err (Errorf "begin transaction" e))
  | Ok _ =>
      snapshot ← onW _ (gets tables);
      r ← fn;
      match r with
      | Err e =>
          _ ← onW _ (modify (set_tables snapshot));
          rb ← onW _ (statement (λ _ _ t, Ok (tt, t)));
          match rb with
          | Ok _ => mret (Err e)
          | Err rbErr =>
              mret (Err (EWrap ("rollback failed: " +:+ Error rbErr +:+ " (original error: ") e ")"))
          end
      | Ok _ =>
          after ← onW _ (gets tables);
          _ ← onW _ (modify (set_tables snapshot));
          c ← onW _ (statement (λ _ _ _, Ok (tt, after)));
          match c with
          | Ok _ => mret (Ok tt)
          | Err e => mret (Err (Errorf "commit transaction" e))
          end
      end
  end.

Lemma stream_prefix {A} id (l : list A) : stream id l `prefix_of` l.
Proof.
  unfold stream. destruct (rowsRead id) as [n|]; [|done].
  exists (drop n l). by rewrite take_drop.
Qed.

(** A statement that only reads leaves the tables alone, whatever its fate. *)
Lemma statement_read {A} (f : Z → Z → Tables → result (A * Tables)) w :
  (∀ n now t a t', f n now t = Ok (a, t') → t' = t) →
  tables (statement f w).2 = tables w ∧ ticks (statement f w).2 = ticks w ∧
  out (statement f w).2 = out w ∧ locks (statement f w).2 = locks w.
Proof.
  intros Hf. unfold statement.
  destruct (f (Z.of_nat (S (stmts w))) (dbclock (stmts w)) (tables w)) as [[a t']|e] eqn:Hr,
    (dbfault (stmts w)); simpl; try done;
    apply Hf in Hr as ->; done.
Qed.

(** ** Worlds that differ only in what has been read so far *)

Definition later (w w' : World) : Prop :=
  (ticks w ≤ ticks w')%nat ∧ out w' = out w ∧ tables w' = tables w ∧ locks w' = locks w.

#[global] Instance later_preorder : PreOrder later.
Proof.
  split; [by intros w|]. unfold later. intros w1 w2 w3 (?&?&?&?) (?&?&?&?).
  repeat split; [lia|congruence..].
Qed.

Lemma later_lock w w' k : later w w' → locks w' k = locks w k.
Proof. by intros (_ & _ & _ & ->). Qed.
Lemma later_out w w' : later w w' → out w' = out w.
Proof. by intros (_ & -> & _). Qed.
Lemma later_tables w w' : later w w' → tables w' = tables w.
Proof. by intros (_ & _ & -> & _). Qed.

Lemma later_tick w : later w (set_ticks (S (ticks w)) w).
Proof. unfold later. simpl. auto with lia. Qed.

Lemma readActive_eq r w :
  readActive r w = (GameReservation.IsActive (time w) r,
                    if bool_decide (GameReservation.Status r = ReservationStatusActive)
                    then set_ticks (S (ticks w)) w else w).
Proof.
  unfold readActive, GameReservation.IsActive. case_bool_decide; simpl; done.
Qed.

Lemma readActive_later r w : later w (readActive r w).2.
Proof. rewrite readActive_eq. simpl. case_bool_decide; [apply later_tick|done]. Qed.

Lemma wp_readActive r (Q : bool → World → Prop) w :
  (∀ w', later w w' → Q (GameReservation.IsActive (time w) r) w') →
  wp (readActive r) Q w.
Proof.
  intros H. unfold wp. rewrite readActive_eq at 1. simpl. apply H, readActive_later.
Qed.

Context `{!ClockMono E}.

Lemma later_time w w' : later w w' → time w ≤ time w'.
Proof. intros [H _]. by apply clock_mono. Qed.
End World.

#[export] Hint Resolve later_tick : pod.

(** ** Programs that keep an invariant of the world *)

Section Keeps.
Context (P : World → Prop).

Definition keeps {A} (m : M A) : Prop := ∀ w, P w → P (m w).2.

Lemma keeps_ret {A} (a : A) : keeps (mret a).
Proof. by intros ?. Qed.
Lemma keeps_bind {A B} (m : M A) (f : A → M B) :
  keeps m → (∀ a, keeps (f a)) → keeps (m ≫= f).
Proof.
  intros Hm Hf w HP. unfold mbind, M_bind, ST_bind. specialize (Hm w HP).
  destruct (m w) as [a w']. by apply Hf.
Qed.
Lemma keeps_rbind {A B} (m : M (result A)) (f : A → M (result B)) :
  keeps m → (∀ a, keeps (f a)) → keeps (rbind m f).
Proof. intros. apply keeps_bind; [done|]. intros [a|e]; [auto|apply keeps_ret]. Qed.
Lemma keeps_rbind_wrap {A B} g (m : M (result A)) (f : A → M (result B)) :
  keeps m → (∀ a, keeps (f a)) → keeps (rbind_wrap g m f).
Proof. intros. apply keeps_bind; [done|]. intros [a|e]; [auto|apply keeps_ret]. Qed.
Lemma keeps_if {A} (b : bool) (m n : M A) : keeps m → keeps n → keeps (if b then m else n).
Proof. intros. destruct b; simpl; auto. Qed.
Lemma keeps_lift {A} (r : result A) : keeps (lift_result r).
Proof. by intros ?. Qed.
End Keeps.

(** Walk through a program, splitting binds and conditionals. *)
Ltac keeps_world :=
  match goal with
  | |- keeps _ (rbind _ _) => apply keeps_rbind; [|intros ?]
  | |- keeps _ (rbind_wrap _ _ _) => apply keeps_rbind_wrap; [|intros ?]
  | |- keeps _ (lift_result _) => apply keeps_lift
  | |- keeps _ (mret _) => apply keeps_ret
  | |- keeps _ (_ ≫= _) => apply keeps_bind; [|intros ?]
  | |- keeps _ (if _ then _ else _) => apply keeps_if
  | |- keeps _ (match ?x with _ => _ end) => destruct x
  | |- keeps _ (let _ := _ in _) => cbv zeta
  end.

(** ** Concrete environments, for running the model *)

Module Run.
(** Given clock readings and faults; no address parses, maps are walked in the
    order of [map_to_list]. *)
Definition env (clk : nat → Z) (faults : nat → Fault) : Env := {|
  clock := clk; dbfault := faults; dberror := λ _, "connection refused"; dbclock := clk;
  scanOrder := λ _ _ l, l; rowsRead := λ _, None; timestamptz := λ _, None;
  rangeOrder := λ _ l, l; ParseAddr := λ _, None; ToLowerUnicode := λ s, s;
  json_Marshal := λ _, Some "{}"; float64_overflow := MinInt64 |}.

(** One nanosecond per reading, no faults. *)
Definition ticking : Env := env Z.of_nat (λ _, FaultNone).

#[export] Instance ticking_mono : ClockMono ticking.
Proof. intros i j. simpl. lia. Defined.
#[export] Instance env_range clk faults : RangePerm (env clk faults).
Proof. intros n l. done. Defined.

#[export] Instance env_scan clk faults : ScanPerm (env clk faults).
Proof. intros n A l. done. Defined.

#[export] Instance env_errors clk faults : DriverErrors (env clk faults).
Proof. intros n. done. Defined.

Definition lock (max timeout : Z) : LockUC :=
  mkLockUC ∅ ∅ max timeout 5 true true true true false.

Definition world (t : Tables) (max timeout : Z) : World :=
  mkWorld 0 0 0 [] t (λ _, lock max timeout).

Definition game (gameID status : Z) (p1 : string) (p2 : option string) : Game.t := {|
  Game.GameID := gameID; Game.Status := status; Game.PlayerOneAddress := p1;
  Game.PlayerTwoAddress := p2; Game.PlayerOneChoice := 1;
  Game.PlayerTwoChoice := (λ _, 1) <$> p2; Game.PlayerOneReferrer := None;
  Game.PlayerTwoReferrer := None; Game.BetAmount := 1000; Game.WinnerAddress := None;
  Game.PayoutAmount := None; Game.ServiceFeeNumerator := 0; Game.ReferrerFeeNumerator := 0;
  Game.WaitingTimeoutSeconds := 0; Game.LowestBidAllowed := 0; Game.HighestBidAllowed := 0;
  Game.MinReferrerPayoutValue := 0; Game.ProtocolVersion := 1;
  Game.FeeReceiverAddress := EmptyString; Game.CreatedAt := 0; Game.JoinedAt := None;
  Game.RevealedAt := None; Game.CompletedAt := None; Game.InitTxHash := "init";
  Game.JoinTxHash := None; Game.RevealTxHash := None; Game.CompleteTxHash := None |}.

Definition tables_of (gs : list Game.t) : Tables :=
  mkTables (list_to_map ((λ g, (Game.GameID g, g)) <$> gs)) ∅ ∅ ∅ (Some sync_initial).
End Run.
