(* ===== verification/LockSpec.v ===== *)
(** * Abstract specification: an expiring, capacity-bounded lock table

    The contract of the four advisory-lock use cases, free of clocks, statuses and
    secondary indexes: at every instant a game has at most one holder, a holder is
    never replaced without the lock being free in between, and no wallet holds more
    than [max] locks.  Locks disappear by release or expiry. *)
From S2P Require Import Prelude.

(** Game id to holder (normalized wallet) and expiry time. *)
Abbreviation lock_table := (gmap Z (string * Z)).

Definition held_by (k : string) (s : lock_table) : lock_table := filter (λ p, p.2.1 = k) s.

Inductive step (max : Z) : lock_table → lock_table → Prop :=
| step_acquire s g k e :
    s !! g = None → Z.of_nat (size (held_by k s)) < max → step max s (<[g := (k, e)]> s)
| step_release s g : step max s (delete g s).

Abbreviation steps max := (rtc (step max)).

#[export] Hint Constructors step : pod.
#[export] Hint Resolve rtc_refl rtc_once : pod.

Definition bounded (max : Z) (s : lock_table) : Prop :=
  ∀ k, Z.of_nat (size (held_by k s)) ≤ max.

Lemma bounded_empty max : 0 ≤ max → bounded max ∅.
Proof. intros H k. unfold held_by. by rewrite map_filter_empty, map_size_empty. Qed.

Lemma step_bounded max s s' : step max s s' → bounded max s → bounded max s'.
Proof.
  intros [s0 g k e Hfree Hroom|s0 g] Hb k'; unfold held_by in *.
  - destruct (decide (k' = k)) as [->|Hk].
    + rewrite map_filter_insert_True by done.
      rewrite map_size_insert_None by (apply map_lookup_filter_None_2; auto). lia.
    + rewrite map_filter_insert_False, delete_id by naive_solver. apply Hb.
  - rewrite map_filter_delete. etrans; [|apply (Hb k')]. apply inj_le.
    apply map_subseteq_size, delete_subseteq.
Qed.

Lemma steps_bounded max s s' : steps max s s' → bounded max s → bounded max s'.
Proof. induction 1; eauto using step_bounded. Qed.

(** A step never hands a held lock to somebody else. *)
Lemma step_no_steal max s s' g h :
  step max s s' → s !! g = Some h → s' !! g = Some h ∨ s' !! g = None.
Proof.
  intros [s0 g' k e Hfree _|s0 g'] Hg.
  - left. rewrite lookup_insert_ne; congruence.
  - destruct (decide (g' = g)) as [->|Hne]; [right; apply lookup_delete_eq|].
    left. by rewrite lookup_delete_ne.
Qed.

(** Dropping locks is a sequence of releases. *)
Lemma steps_subseteq max (s s' : lock_table) : s' ⊆ s → steps max s s'.
Proof.
  intros Hsub.
  assert (∀ l s0, steps max s0 (foldr delete s0 l)) as Hdel.
  { induction l as [|g l IH]; intros s0; simpl; [done|].
    eapply rtc_r; [apply IH|]. constructor. }
  set (gone := (map_to_list (s ∖ s')).*1).
  assert (∀ g, g ∈ gone ↔ is_Some (s !! g) ∧ s' !! g = None) as Hgone.
  { intros g. unfold gone. rewrite list_elem_of_fmap. split.
    - intros ([g' h] & -> & [? ?]%elem_of_map_to_list%lookup_difference_Some). by split.
    - intros [[h Hh] Hn]. exists (g, h). split; [done|].
      by apply elem_of_map_to_list, lookup_difference_Some. }
  replace s' with (foldr delete s gone); [apply Hdel|].
  apply map_eq. intros g. apply option_eq. intros h.
  rewrite lookup_foldr_delete_Some, Hgone. split.
  - intros [Hn Hg]. destruct (s' !! g) as [h'|] eqn:Hs'.
    + by rewrite (lookup_weaken _ _ _ _ Hs' Hsub) in Hg.
    + exfalso. eauto.
  - intros Hg. split; [by intros [_ ?]; congruence|]. by eapply lookup_weaken.
Qed.

Lemma steps_insert max (s : lock_table) g k e :
  s !! g = None → Z.of_nat (size (held_by k s)) < max → steps max s (<[g := (k, e)]> s).
Proof. auto with pod. Qed.
