(* ===== verification/Store.v ===== *)
(** * The advisory-lock store and its abstract specification

    The four use cases of internal/usecase that hand out advisory locks keep the
    same two maps: reservations by game, and game ids by normalized wallet.  This
    file holds the helpers they share (wallet normalization, the wallet index, the
    count of active locks), the invariant of the two maps, and the abstract lock
    machine every use case refines. *)
From S2P Require Import Prelude GoTypes Entity World LockSpec.
From Stdlib Require Import Ascii.

(** ** Wallet normalization (reservation.go) *)

Section Normalize.
Context `{E : Env}.

(** [strings.ToLower]: bytewise on ASCII strings. *)
Definition ToLower (s : string) : string :=
  if forallb is_ascii (bytes s) then of_bytes (map ascii_lower (bytes s))
  else ToLowerUnicode s.

Definition normalizeReservationWallet (walletAddress : string) : string :=
  let trimmedWalletAddress := TrimSpace walletAddress in
  if bool_decide (trimmedWalletAddress = EmptyString) then EmptyString
  else match ParseAddr trimmedWalletAddress with
       | None => ToLower trimmedWalletAddress
       | Some raw => raw
       end.

Definition sameReservationWallet (walletAddress normalizedWalletAddress : string) : bool :=
  if bool_decide (normalizedWalletAddress = EmptyString)
  then bool_decide (normalizeReservationWallet walletAddress = EmptyString)
  else bool_decide (normalizeReservationWallet walletAddress = normalizedWalletAddress).

Lemma sameReservationWallet_spec a n :
  sameReservationWallet a n = true ↔ normalizeReservationWallet a = n.
Proof.
  unfold sameReservationWallet. case_bool_decide; subst; by rewrite bool_decide_eq_true.
Qed.
End Normalize.

(** ** The wallet index *)

(** [uc.walletReservations[key]], [nil] when absent. *)
Definition index_of (ix : gmap string (list Z)) (key : string) : list Z := default [] (ix !! key).

(** The body of [removeFromWalletIndex], after the key is computed. *)
Definition remove_from_index (key : string) (gameID : Z) (ix : gmap string (list Z)) :
    gmap string (list Z) :=
  let gameIDs := index_of ix key in
  let ix1 := if bool_decide (gameID ∈ gameIDs)
             then <[key := remove_first gameID gameIDs]> ix else ix in
  match index_of ix1 key with
  | [] => delete key ix1
  | _ => ix1
  end.

(** [uc.walletReservations[key] = append(uc.walletReservations[key], gameID)] *)
Definition append_to_index (key : string) (gameID : Z) (ix : gmap string (list Z)) :
    gmap string (list Z) :=
  <[key := index_of ix key ++ [gameID]]> ix.

Lemma index_of_insert_eq ix key l : index_of (<[key := l]> ix) key = l.
Proof. unfold index_of. by rewrite lookup_insert_eq. Qed.
Lemma index_of_insert_ne ix key key' l :
  key ≠ key' → index_of (<[key := l]> ix) key' = index_of ix key'.
Proof. intros. unfold index_of. by rewrite lookup_insert_ne. Qed.
Lemma index_of_delete_eq ix key : index_of (delete key ix) key = [].
Proof. unfold index_of. by rewrite lookup_delete_eq. Qed.
Lemma index_of_delete_ne ix key key' :
  key ≠ key' → index_of (delete key ix) key' = index_of ix key'.
Proof. intros. unfold index_of. by rewrite lookup_delete_ne. Qed.

Lemma index_of_remove_ne ix key key' g :
  key ≠ key' → index_of (remove_from_index key g ix) key' = index_of ix key'.
Proof.
  intros Hne. unfold remove_from_index. case_bool_decide; case_match;
    by rewrite ?index_of_delete_ne, ?index_of_insert_ne by done.
Qed.

Lemma index_of_remove_eq ix key g :
  index_of (remove_from_index key g ix) key = remove_first g (index_of ix key).
Proof.
  unfold remove_from_index. case_bool_decide as Hin.
  - rewrite index_of_insert_eq. case_match eqn:Em.
    + by rewrite index_of_delete_eq.
    + by rewrite index_of_insert_eq.
  - rewrite (remove_first_not_in _ _ Hin). case_match eqn:Em; [|done].
    apply index_of_delete_eq.
Qed.

Lemma elem_of_index_remove ix key key' g g' :
  g' ≠ g → g' ∈ index_of (remove_from_index key g ix) key' ↔ g' ∈ index_of ix key'.
Proof.
  intros Hne. destruct (decide (key = key')) as [->|Hk].
  - rewrite index_of_remove_eq. by apply elem_of_remove_first_ne.
  - by rewrite index_of_remove_ne.
Qed.

Lemma elem_of_index_append ix key key' g g' :
  g' ∈ index_of (append_to_index key g ix) key' ↔
  g' ∈ index_of ix key' ∨ (key' = key ∧ g' = g).
Proof.
  unfold append_to_index. destruct (decide (key = key')) as [->|Hk].
  - rewrite index_of_insert_eq, elem_of_app, list_elem_of_singleton. tauto.
  - rewrite index_of_insert_ne by done. split; [auto|]. intros [?|[? ?]]; congruence.
Qed.

(** ** Counting the active locks of a wallet

    The loop over [walletReservations[wallet]] that every [Reserve] runs; it reads
    the clock once per reservation whose status is active. *)
Section Count.
Context `{E : Env}.

Fixpoint countActive (rs : gmap Z GameReservation.t) (gids : list Z) : M Z :=
  match gids with
  | [] => mret 0
  | gid :: gids =>
      b ← match rs !! gid with
          | Some r => readActive r
          | None => mret false
          end;
      n ← countActive rs gids;
      mret (if (b : bool) then n + 1 else n)
  end.

(** The reservations of [gids] that are active, as the listing loops collect them. *)
Fixpoint collectActive (rs : gmap Z GameReservation.t) (gids : list Z) :
    M (list GameReservation.t) :=
  match gids with
  | [] => mret []
  | gid :: gids =>
      b ← match rs !! gid with
          | Some r => readActive r
          | None => mret false
          end;
      l ← collectActive rs gids;
      mret (match (b : bool), rs !! gid with
            | true, Some r => r :: l
            | _, _ => l
            end)
  end.

(** [reservation, ok := m[gameID]; !ok || !reservation.IsActive()] *)
Definition lookupActive (rs : gmap Z GameReservation.t) (gameID : Z) :
    M (option GameReservation.t) :=
  match rs !! gameID with
  | Some r => b ← readActive r; mret (if (b : bool) then Some r else None)
  | None => mret None
  end.

(** [len] of the loop in [GetActiveCount], over the keys in range order. *)
Definition activeCount (rs : gmap Z GameReservation.t) : M Z :=
  keys ← rangeKeys rs; countActive rs keys.
End Count.

(** ** What the loops compute *)

Section CountSpec.
Context `{E : Env}.

(** [gid] is in [rs] and active at time [t]. *)
Definition live (rs : gmap Z GameReservation.t) (t : Z) (gid : Z) : Prop :=
  match rs !! gid with Some r => active_at t r | None => False end.
#[global] Instance live_dec rs t gid : Decision (live rs t gid).
Proof. unfold live. destruct (rs !! gid); apply _. Defined.

Lemma live_mono rs t t' gid : t ≤ t' → live rs t' gid → live rs t gid.
Proof. unfold live. destruct (rs !! gid); [|done]. apply active_at_mono. Qed.

Lemma length_filter_live_mono rs t t' (l : list Z) :
  t ≤ t' → (length (filter (live rs t') l) ≤ length (filter (live rs t) l))%nat.
Proof.
  intros Ht. induction l as [|g l IH]; [done|]. rewrite !filter_cons.
  destruct (decide (live rs t' g)) as [H'|]; [|destruct (decide _); simpl; lia].
  rewrite decide_True by eauto using live_mono. simpl. lia.
Qed.

Lemma live_IsActive rs t gid r :
  rs !! gid = Some r → bool_decide (live rs t gid) = GameReservation.IsActive t r.
Proof.
  intros Hr. apply Bool.eq_iff_eq_true. rewrite bool_decide_eq_true, IsActive_spec.
  unfold live. by rewrite Hr.
Qed.

Lemma live_None rs t gid : rs !! gid = None → bool_decide (live rs t gid) = false.
Proof. intros Hr. apply bool_decide_eq_false. unfold live. rewrite Hr. tauto. Qed.

Lemma wp_readEntry rs gid (Q : bool → World → Prop) w :
  (∀ w', later w w' → Q (bool_decide (live rs (time w) gid)) w') →
  wp (match rs !! gid with Some r => readActive r | None => mret false end) Q w.
Proof.
  intros H. destruct (rs !! gid) as [r|] eqn:Hr.
  - apply wp_readActive. intros w' Hw'. rewrite <-(live_IsActive _ _ _ _ Hr). by apply H.
  - rewrite <-(live_None _ (time w) _ Hr). apply H. reflexivity.
Qed.

Lemma wp_lookupActive rs gid (Q : option GameReservation.t → World → Prop) w :
  (∀ w', later w w' →
     Q (if bool_decide (live rs (time w) gid) then rs !! gid else None) w') →
  wp (lookupActive rs gid) Q w.
Proof.
  intros H. unfold lookupActive.
  destruct (rs !! gid) as [r|] eqn:Hr.
  - apply wp_bind, wp_readActive. intros w' Hw'. apply wp_ret.
    rewrite <-(live_IsActive _ _ _ _ Hr). by apply H.
  - apply wp_ret. specialize (H w ltac:(reflexivity)). by destruct (bool_decide _).
Qed.

Context `{!ClockMono E}.

(** The count is taken over an interval of time, and lies between the number of
    entries active at its end and the number active at its start. *)
Lemma wp_countActive rs gids w :
  wp (countActive rs gids) (λ n w',
    later w w' ∧
    Z.of_nat (length (filter (live rs (time w')) gids)) ≤ n ≤
    Z.of_nat (length (filter (live rs (time w)) gids))) w.
Proof.
  revert w. induction gids as [|gid gids IH]; intros w; simpl.
  { apply wp_ret. split; [reflexivity|done]. }
  apply wp_bind, wp_readEntry. intros w1 H1. apply wp_bind.
  eapply wp_mono; [apply IH|]. intros n w2 [H2 [Hlo Hhi]]. apply wp_ret.
  assert (later w w2) as H02 by (by transitivity w1).
  pose proof (later_time _ _ H1). pose proof (later_time _ _ H02).
  split; [done|]. rewrite !filter_cons.
  assert (length (filter (live rs (time w1)) gids) ≤ length (filter (live rs (time w)) gids))%nat
    by (apply length_filter_live_mono; lia).
  repeat case_decide; case_bool_decide; simpl; try lia; exfalso; eauto using live_mono.
Qed.

(** A listing keeps entries that were active when it started, and all those still
    active when it ends. *)
Lemma wp_collectActive rs gids w :
  wp (collectActive rs gids) (λ l w', later w w' ∧
    (∀ r, r ∈ l → ∃ gid, gid ∈ gids ∧ rs !! gid = Some r ∧ active_at (time w) r) ∧
    (∀ gid r, gid ∈ gids → rs !! gid = Some r → active_at (time w') r → r ∈ l)) w.
Proof.
  revert w. induction gids as [|gid gids IH]; intros w; simpl.
  { apply wp_ret. split; [reflexivity|set_solver]. }
  apply wp_bind, wp_readEntry. intros w1 H1. apply wp_bind.
  eapply wp_mono; [apply IH|]. intros l w2 (H2 & Hl & Hall). apply wp_ret.
  pose proof (later_time _ _ H1). pose proof (later_time _ _ H2).
  assert (∀ r, r ∈ l → ∃ gid', gid' ∈ gid :: gids ∧ rs !! gid' = Some r ∧ active_at (time w) r)
    as Hl'.
  { intros r (g & ? & ? & ?)%Hl. exists g. eauto using active_at_mono, list_elem_of_further. }
  split; [by transitivity w1|]. case_bool_decide as Hlive; unfold live in Hlive;
    destruct (rs !! gid) as [r0|] eqn:Hr0; try done; (split; [auto|]).
  - intros r [->|Hr]%elem_of_cons; [|auto]. exists gid. eauto using list_elem_of_here.
  - intros g r [->|Hg]%elem_of_cons Hr Ha; [|eapply list_elem_of_further; eauto].
    simplify_eq. apply list_elem_of_here.
  - intros g r [->|Hg]%elem_of_cons Hr Ha; [|eauto]. simplify_eq.
    exfalso. apply Hlive. eapply active_at_mono; [|done]. lia.
  - intros g r [->|Hg]%elem_of_cons Hr Ha; [|eauto]. congruence.
Qed.
End CountSpec.

(** ** The invariant of the two maps *)

Section Invariant.
Context `{E : Env}.

(** Entries sit under their own game id, and every entry whose status is active is
    listed under its wallet.  The index may list more. *)
Record LockOk (uc : LockUC) : Prop := {
  lock_id g r : reservations uc !! g = Some r → GameReservation.GameID r = g;
  lock_indexed g r :
    reservations uc !! g = Some r →
    GameReservation.Status r = ReservationStatusActive →
    g ∈ index_of (walletReservations uc)
          (normalizeReservationWallet (GameReservation.WalletAddress r)) }.

(** The abstract lock table of a use case at time [t]. *)
Definition holder (r : GameReservation.t) : string * Z :=
  (normalizeReservationWallet (GameReservation.WalletAddress r), GameReservation.ExpiresAt r).
Definition view (t : Z) (uc : LockUC) : lock_table :=
  holder <$> filter (λ p, active_at t p.2) (reservations uc).

Lemma view_lookup t uc g h :
  view t uc !! g = Some h ↔
  ∃ r, reservations uc !! g = Some r ∧ active_at t r ∧ h = holder r.
Proof.
  unfold view. rewrite lookup_fmap_Some. setoid_rewrite map_lookup_filter_Some. naive_solver.
Qed.

Lemma view_lookup_None t uc g : view t uc !! g = None ↔ ¬ live (reservations uc) t g.
Proof.
  rewrite eq_None_not_Some. unfold is_Some, live. setoid_rewrite view_lookup.
  destruct (reservations uc !! g) as [r|]; [|naive_solver].
  split; [intros H Ha; apply H; eauto|]. intros H (h & r' & [= <-] & ? & _). done.
Qed.

(** Entries of [uc'] active at [t'] were already in [uc]: locks were only dropped. *)
Definition shrinks (t' : Z) (uc uc' : LockUC) : Prop :=
  ∀ g r, reservations uc' !! g = Some r → active_at t' r → reservations uc !! g = Some r.

Lemma shrinks_refl t uc : shrinks t uc uc.
Proof. intros g r. done. Qed.

Lemma steps_shrink max t t' uc uc' :
  t ≤ t' → shrinks t' uc uc' → steps max (view t uc) (view t' uc').
Proof.
  intros Ht Hsh. apply steps_subseteq, map_subseteq_spec. intros g h.
  rewrite !view_lookup. intros (r & Hr & Ha & ->).
  exists r. split; [by apply Hsh|]. split; [by eapply active_at_mono|done].
Qed.

Lemma steps_wait max t t' uc : t ≤ t' → steps max (view t uc) (view t' uc).
Proof. intros. apply steps_shrink; [done|apply shrinks_refl]. Qed.

(** *** Creating a lock *)

Definition newReservation (gameID : Z) (walletAddress : string) (now : Z) (uc : LockUC) :
    GameReservation.t :=
  {| GameReservation.GameID := gameID; GameReservation.WalletAddress := walletAddress;
     GameReservation.CreatedAt := now; GameReservation.ExpiresAt := now + timeout uc;
     GameReservation.Status := ReservationStatusActive |}.

Definition storeReservation (key : string) (r : GameReservation.t) (uc : LockUC) : LockUC :=
  set_maps (<[GameReservation.GameID r := r]> (reservations uc))
    (append_to_index key (GameReservation.GameID r) (walletReservations uc)) uc.

Lemma storeReservation_ok key r uc :
  key = normalizeReservationWallet (GameReservation.WalletAddress r) →
  LockOk uc → LockOk (storeReservation key r uc).
Proof.
  intros -> [Hid Hix]. split; simpl; intros g r' Hr'.
  - apply lookup_insert_Some in Hr' as [[<- <-]|[_ ?]]; eauto.
  - intros Ha. rewrite elem_of_index_append.
    apply lookup_insert_Some in Hr' as [[<- <-]|[? ?]]; eauto.
Qed.

Lemma view_store t key r uc :
  active_at t r →
  view t (storeReservation key r uc) = <[GameReservation.GameID r := holder r]> (view t uc).
Proof.
  intros Ha. unfold view, storeReservation. simpl.
  by rewrite map_filter_insert_True, fmap_insert.
Qed.

Lemma view_store_dead t key r uc :
  ¬ active_at t r →
  view t (storeReservation key r uc) = delete (GameReservation.GameID r) (view t uc).
Proof.
  intros Ha. unfold view, storeReservation. simpl.
  by rewrite map_filter_insert_False, map_filter_delete, fmap_delete.
Qed.

(** Storing a reservation for a free game, when its wallet has room, is one
    abstract acquisition (or none, if it has already expired). *)
Lemma steps_store max t key r uc :
  key = (holder r).1 →
  view t uc !! GameReservation.GameID r = None →
  Z.of_nat (size (held_by key (view t uc))) < max →
  steps max (view t uc) (view t (storeReservation key r uc)).
Proof.
  intros -> Hfree Hroom. destruct (decide (active_at t r)) as [Ha|Ha].
  - rewrite view_store by done. by apply steps_insert.
  - rewrite view_store_dead by done. rewrite delete_id by done. done.
Qed.

(** *** Capacity: the loop over the wallet index bounds what the wallet holds *)

Lemma held_le_index t uc key :
  LockOk uc →
  (size (held_by key (view t uc)) ≤
   length (filter (live (reservations uc) t) (index_of (walletReservations uc) key)))%nat.
Proof.
  intros Hok.
  rewrite <-length_map_to_list, <-(length_fmap fst).
  apply NoDup_incl_length; [apply NoDup_fst_map_to_list|].
  intros g ([g' h] & -> & Hg)%list_elem_of_fmap. simpl.
  apply elem_of_map_to_list in Hg. unfold held_by in Hg.
  apply map_lookup_filter_Some in Hg as [(r & Hr & Ha & ->)%view_lookup Hk]. simpl in Hk.
  apply list_elem_of_filter. split; [unfold live; by rewrite Hr|].
  rewrite <-Hk. eapply lock_indexed; [done..|]. by destruct Ha.
Qed.

(** *** Dropping locks *)

Definition removeFromWalletIndex (walletAddress : string) (gameID : Z) (uc : LockUC) :
    LockUC :=
  set_maps (reservations uc)
    (remove_from_index (normalizeReservationWallet walletAddress) gameID
       (walletReservations uc)) uc.

(** [reservation.Status = s; uc.removeFromWalletIndex(reservation.WalletAddress, gameID)] *)
Definition retire (s : string) (gameID : Z) (r : GameReservation.t) (uc : LockUC) : LockUC :=
  removeFromWalletIndex (GameReservation.WalletAddress r) gameID
    (set_maps (<[gameID := GameReservation.set_Status s r]> (reservations uc))
       (walletReservations uc) uc).

(** [uc.removeFromWalletIndex(reservation.WalletAddress, gameID); delete(uc.reservations, gameID)] *)
Definition discard (gameID : Z) (r : GameReservation.t) (uc : LockUC) : LockUC :=
  let uc1 := removeFromWalletIndex (GameReservation.WalletAddress r) gameID uc in
  set_maps (delete gameID (reservations uc1)) (walletReservations uc1) uc1.

(** [delete(uc.reservations, gameID)] *)
Definition forget (gameID : Z) (uc : LockUC) : LockUC :=
  set_maps (delete gameID (reservations uc)) (walletReservations uc) uc.

Lemma retire_ok s g r uc :
  s ≠ ReservationStatusActive → reservations uc !! g = Some r →
  LockOk uc → LockOk (retire s g r uc).
Proof.
  intros Hs Hr [Hid Hix]. split; simpl; intros g' r' Hr'.
  - apply lookup_insert_Some in Hr' as [[<- <-]|[_ ?]]; simpl; eauto.
  - intros Ha. apply lookup_insert_Some in Hr' as [[<- <-]|[? ?]]; [done|].
    rewrite elem_of_index_remove by done. eauto.
Qed.

Lemma discard_ok g r uc : LockOk uc → LockOk (discard g r uc).
Proof.
  intros [Hid Hix]. split; simpl; intros g' r' [? ?]%lookup_delete_Some; eauto.
  intros Ha. rewrite elem_of_index_remove by done. eauto.
Qed.

Lemma forget_ok g uc : LockOk uc → LockOk (forget g uc).
Proof.
  intros [Hid Hix]. split; simpl; intros g' r' [? ?]%lookup_delete_Some; eauto.
Qed.

Lemma retire_shrinks t s g r uc : s ≠ ReservationStatusActive → shrinks t uc (retire s g r uc).
Proof.
  intros Hs g' r'. simpl. intros [[<- <-]|[? ?]]%lookup_insert_Some; [|done].
  intros [? _]. contradiction.
Qed.

Lemma discard_shrinks t g r uc : shrinks t uc (discard g r uc).
Proof. intros g' r'. simpl. by intros [? ?]%lookup_delete_Some. Qed.

Lemma forget_shrinks t g uc : shrinks t uc (forget g uc).
Proof. intros g' r'. simpl. by intros [? ?]%lookup_delete_Some. Qed.

Lemma retire_free t s g r uc :
  s ≠ ReservationStatusActive → view t (retire s g r uc) !! g = None.
Proof.
  intros Hs. apply view_lookup_None. unfold live. simpl. rewrite lookup_insert_eq.
  intros [? _]. contradiction.
Qed.

Lemma discard_free t g r uc : view t (discard g r uc) !! g = None.
Proof. apply view_lookup_None. unfold live. simpl. rewrite lookup_delete_eq. tauto. Qed.
End Invariant.

Lemma released_ne_active : ReservationStatusReleased ≠ ReservationStatusActive.
Proof. done. Qed.
Lemma expired_ne_active : ReservationStatusExpired ≠ ReservationStatusActive.
Proof. done. Qed.

#[export] Hint Resolve released_ne_active expired_ne_active retire_ok discard_ok forget_ok
  retire_shrinks discard_shrinks forget_shrinks shrinks_refl retire_free discard_free : pod.
