(* ===== verification/Repo.v ===== *)
(** * The repositories (internal/repository and internal/repository/postgres)

    Each method is the SQL statement it builds, run against the tables with the
    constraints of migrations/: primary keys, foreign keys, CHECKs, the lengths of the
    VARCHAR columns and the unique key of game_events.  [GameRepository] is the interface the use cases are
    written against; [Postgres] is its implementation. *)
From S2P Require Import Prelude GoTypes Entity World.

(** ** Interface *)

Class GameRepository := {
  GetByID (gameID : Z) : M (result (option Game.t))
}.

(** What a repository promises to the in-memory use cases: reading a game touches
    neither the locks, nor the tables, nor the trace, and what it returns is what the
    tables hold. *)
Class GameRepositoryLaws (E : Env) (R : GameRepository) : Prop := {
  GetByID_quiet gameID w : later w (GetByID gameID w).2;
  GetByID_found gameID w game :
    (GetByID gameID w).1 = Ok (Some game) → games (tables w) !! gameID = Some game;
  GetByID_absent gameID w :
    (GetByID gameID w).1 = Ok None → games (tables w) !! gameID = None }.

(** ** PostgreSQL implementation *)

Module Postgres.
Section Postgres.
Context `{E : Env}.

Definition query_failed : error → error := Errorf "execute query".
Definition violates (constraint : string) : error := ENew ("violates " +:+ constraint).

(** The CHECK constraints of table games, after the last migration. *)
Definition games_check (g : Game.t) : bool :=
  (0 <=? Game.Status g) && (Game.Status g <=? 4) &&
  (0 <=? Game.PlayerOneChoice g) && (Game.PlayerOneChoice g <=? 3) &&
  match Game.PlayerTwoChoice g with Some c => (0 <=? c) && (c <=? 3) | None => true end &&
  (0 <? Game.BetAmount g).

(** The columns VARCHAR(66) of table games; reveal_tx_hash is a TEXT. *)
Definition games_fit (g : Game.t) : bool :=
  fits 66 (Game.PlayerOneAddress g) && fits_null 66 (Game.PlayerTwoAddress g) &&
  fits_null 66 (Game.PlayerOneReferrer g) && fits_null 66 (Game.PlayerTwoReferrer g) &&
  fits_null 66 (Game.WinnerAddress g) && fits 66 (Game.FeeReceiverAddress g) &&
  fits 66 (Game.InitTxHash g) && fits_null 66 (Game.JoinTxHash g) &&
  fits_null 66 (Game.CompleteTxHash g).

(** The row that these columns keep of a game. *)
Definition games_row (g : Game.t) : Game.t := {|
  Game.GameID := Game.GameID g; Game.Status := Game.Status g;
  Game.PlayerOneAddress := cut 66 (Game.PlayerOneAddress g);
  Game.PlayerTwoAddress := cut 66 <$> Game.PlayerTwoAddress g;
  Game.PlayerOneChoice := Game.PlayerOneChoice g;
  Game.PlayerTwoChoice := Game.PlayerTwoChoice g;
  Game.PlayerOneReferrer := cut 66 <$> Game.PlayerOneReferrer g;
  Game.PlayerTwoReferrer := cut 66 <$> Game.PlayerTwoReferrer g;
  Game.BetAmount := Game.BetAmount g; Game.WinnerAddress := cut 66 <$> Game.WinnerAddress g;
  Game.PayoutAmount := Game.PayoutAmount g;
  Game.ServiceFeeNumerator := Game.ServiceFeeNumerator g;
  Game.ReferrerFeeNumerator := Game.ReferrerFeeNumerator g;
  Game.WaitingTimeoutSeconds := Game.WaitingTimeoutSeconds g;
  Game.LowestBidAllowed := Game.LowestBidAllowed g;
  Game.HighestBidAllowed := Game.HighestBidAllowed g;
  Game.MinReferrerPayoutValue := Game.MinReferrerPayoutValue g;
  Game.ProtocolVersion := Game.ProtocolVersion g;
  Game.FeeReceiverAddress := cut 66 (Game.FeeReceiverAddress g);
  Game.CreatedAt := Game.CreatedAt g; Game.JoinedAt := Game.JoinedAt g;
  Game.RevealedAt := Game.RevealedAt g; Game.CompletedAt := Game.CompletedAt g;
  Game.InitTxHash := cut 66 (Game.InitTxHash g);
  Game.JoinTxHash := cut 66 <$> Game.JoinTxHash g; Game.RevealTxHash := Game.RevealTxHash g;
  Game.CompleteTxHash := cut 66 <$> Game.CompleteTxHash g |}.

(** The foreign keys of table games. *)
Definition games_fk (us : gmap string UserRow.t) (g : Game.t) : bool :=
  bool_decide (is_Some (us !! Game.PlayerOneAddress g)) &&
  match Game.PlayerTwoAddress g with
  | Some p => bool_decide (is_Some (us !! p))
  | None => true
  end.

(** The values as the columns keep them, or what PostgreSQL refuses about them: a length,
    then a CHECK. *)
Definition games_admit (g : Game.t) : result Game.t :=
  if negb (games_fit g) then Err (too_long 66)
  else if negb (games_check g) then Err (violates "games_check")
  else Ok (games_row g).

(** A stored row is kept as it is when it is written again. *)
Lemma games_row_row g : games_row (games_row g) = games_row g.
Proof.
  unfold games_row. simpl. rewrite !cut_cut.
  f_equal; try (destruct (_ g); simpl; by rewrite ?cut_cut).
Qed.

Lemma games_admit_ok g row :
  games_admit g = Ok row → games_fit g = true ∧ games_check row = true ∧ row = games_row g.
Proof.
  unfold games_admit. destruct (games_fit g); [|done].
  destruct (games_check g) eqn:Hc; [|done]. by intros [= <-].
Qed.

(** [UPDATE games SET ... WHERE game_id = gameID]; no row is not an error.  (A planner that
    casts a value before it looks for the row fails the statement, as [dbfault] may.) *)
Definition updateGame (gameID : Z) (set : Game.t → Game.t) : M (result unit) :=
  statement (λ _ _ t,
    match games t !! gameID with
    | None => Ok (tt, t)
    | Some g =>
        match games_admit (set g) with
        | Err e => Err e
        | Ok row =>
            if negb (games_fk (users t) row) then Err (violates "fk_games_player")
            else Ok (tt, set_games (<[gameID := row]> (games t)) t)
        end
    end).

(** *** GameRepository *)

Definition CreateOrIgnore (game : Game.t) : M (result bool) :=
  _ <-? lift_result (Game.Validate game) else Errorf "validation failed" ;;
  created <-? statement (λ _ now t,
      match games_admit (Game.set_CreatedAt now game) with
      | Err e => Err e
      | Ok row =>
          match games t !! Game.GameID game with
          | Some _ => Ok (false, t)
          | None =>
              if negb (games_fk (users t) row) then Err (violates "fk_games_player")
              else Ok (true, set_games (<[Game.GameID game := row]> (games t)) t)
          end
      end) else query_failed ;;
  mret (Ok created).

Definition GetByID (gameID : Z) : M (result Game.t) :=
  game <-? statement (λ _ _ t,
      match games t !! gameID with
      | Some g => Ok (g, t)
      | None => Err (ESentinel ErrNoRows)
      end) else query_failed ;;
  mret (Ok game).

Definition UpdateStatus (now gameID newStatus : Z) : M (result unit) :=
  _ <-? updateGame gameID (λ g,
      Game.set_Status newStatus (Game.set_CompletedAt (Some now) g)) else query_failed ;;
  mret (Ok tt).

Definition JoinGame (gameID : Z) (playerTwoAddress joinTxHash : string) (joinedAt : Z) :
    M (result unit) :=
  _ <-? updateGame gameID (λ g,
      Game.set_PlayerTwoAddress (Some playerTwoAddress)
      (Game.set_JoinedAt (Some joinedAt)
      (Game.set_JoinTxHash (Some joinTxHash)
      (Game.set_Status GameStatusWaitingForOpenBids
      (Game.set_PlayerOneChoice CoinSideClosed
      (Game.set_PlayerTwoChoice (Some CoinSideClosed) g)))))) else query_failed ;;
  mret (Ok tt).

Definition RevealChoice (gameID : Z) (playerAddress : string) (choice : Z)
    (revealTxHash : string) (revealedAt : Z) : M (result unit) :=
  game <-? GetByID gameID else Errorf "get game" ;;
  let touch g := Game.set_RevealedAt (Some revealedAt)
                   (Game.set_RevealTxHash (Some revealTxHash) g) in
  if bool_decide (Game.PlayerOneAddress game = playerAddress) then
    _ <-? updateGame gameID (λ g, Game.set_PlayerOneChoice choice (touch g))
      else query_failed ;;
    mret (Ok tt)
  else if bool_decide (Game.PlayerTwoAddress game = Some playerAddress) then
    _ <-? updateGame gameID (λ g, Game.set_PlayerTwoChoice (Some choice) (touch g))
      else query_failed ;;
    mret (Ok tt)
  else mret (Err (ENew ("player " +:+ playerAddress +:+ " not found in game "
                        +:+ FormatInt gameID))).

(** The empty winner and a payout that is not positive are stored as NULL. *)
Definition CompleteGameWithQuerier (gameID : Z) (winnerAddress : string) (payoutAmount : Z)
    (completeTxHash : string) (completedAt : Z) : M (result unit) :=
  let winnerValue :=
    if bool_decide (winnerAddress = EmptyString) then None else Some winnerAddress in
  let payoutValue := if 0 <? payoutAmount then Some payoutAmount else None in
  _ <-? updateGame gameID (λ g,
      Game.set_WinnerAddress winnerValue
      (Game.set_PayoutAmount payoutValue
      (Game.set_CompletedAt (Some completedAt)
      (Game.set_CompleteTxHash (Some completeTxHash)
      (Game.set_Status GameStatusPaid g))))) else query_failed ;;
  mret (Ok tt).

(** The same statement, on the pool instead of a transaction. *)
Definition CompleteGame := CompleteGameWithQuerier.

Definition CancelGame (gameID : Z) (cancelTxHash : string) (completedAt : Z) :
    M (result unit) :=
  _ <-? updateGame gameID (λ g,
      Game.set_Status GameStatusPaid
      (Game.set_CompletedAt (Some completedAt)
      (Game.set_WinnerAddress None
      (Game.set_PayoutAmount None
      (Game.set_CompleteTxHash (Some cancelTxHash) g))))) else query_failed ;;
  mret (Ok tt).

(** *** GameEventRepository *)

(** The key unique_event_per_tx of the row that an event makes: transaction_hash is a
    VARCHAR(66); the event types are short. *)
Definition event_key (e : GameEvent.t) : Z * string * string :=
  (GameEvent.GameID e, cut 66 (GameEvent.TransactionHash e), GameEvent.EventType e).

(** The row that the columns keep of an event. *)
Definition event_row (e : GameEvent.t) : GameEvent.t :=
  {| GameEvent.ID := GameEvent.ID e; GameEvent.GameID := GameEvent.GameID e;
     GameEvent.EventType := GameEvent.EventType e;
     GameEvent.TransactionHash := cut 66 (GameEvent.TransactionHash e);
     GameEvent.BlockNumber := GameEvent.BlockNumber e;
     GameEvent.Timestamp := GameEvent.Timestamp e; GameEvent.Payload := GameEvent.Payload e;
     GameEvent.EventData := GameEvent.EventData e; GameEvent.CreatedAt := GameEvent.CreatedAt e |}.

Lemma event_row_key e : event_key (event_row e) = event_key e.
Proof. unfold event_key. simpl. by rewrite cut_cut. Qed.

(** [INSERT INTO game_events ...], for an event that passed [Validate]; [conflict] is the
    error for an event that is there already. *)
Definition insertEvent (conflict : error) (event : GameEvent.t) : M (result GameEvent.t) :=
  statement (λ id now t,
    if negb (fits 66 (GameEvent.TransactionHash event)) then Err (too_long 66)
    else match game_events t !! event_key event with
    | Some _ => Err conflict
    | None =>
        if bool_decide (is_Some (games t !! GameEvent.GameID event)) then
          let event := GameEvent.set_ID id now event in
          Ok (event, set_game_events (<[event_key event := event_row event]> (game_events t)) t)
        else Err (violates "fk_game_events_game")
    end).

(** Returns the event as the caller's pointer sees it afterwards: with the row's id
    when the row was inserted, unchanged when the row was there already. *)
Definition UpsertWithQuerier (event : GameEvent.t) : M (result GameEvent.t) :=
  _ <-? lift_result (GameEvent.Validate event) else Errorf "validation failed" ;;
  r ← insertEvent (ESentinel ErrNoRows) event;
  match r with
  | Ok row => mret (Ok row)
  | Err e =>
      if bool_decide (Error e = "no rows in result set") then mret (Ok event)
      else mret (Err (query_failed e))
  end.

Definition Upsert := UpsertWithQuerier.

(** *** UserRepository *)

Definition newUser (id now : Z) (walletAddress : string) : UserRow.t :=
  {| UserRow.ID := id; UserRow.TelegramUserID := None; UserRow.TelegramUsername := None;
     UserRow.WalletAddress := walletAddress; UserRow.TotalGamesPlayed := 0; UserRow.TotalWins := 0;
     UserRow.TotalLosses := 0; UserRow.TotalReferrals := 0; UserRow.TotalReferralEarnings := 0;
     UserRow.CreatedAt := now; UserRow.UpdatedAt := now |}.

Definition EnsureUserByWallet (walletAddress : string) : M (result unit) :=
  _ <-? statement (λ id now t,
      let key := cut 66 walletAddress in
      if negb (fits 66 walletAddress) then Err (too_long 66)
      else match users t !! key with
      | Some _ => Ok (tt, t)
      | None => Ok (tt, set_users (<[key := newUser id now key]> (users t)) t)
      end) else query_failed ;;
  mret (Ok tt).

(** The counters of a user row; PostgreSQL refuses a value out of the column's range. *)
Definition counters_ok (u : UserRow.t) : bool :=
  (UserRow.TotalGamesPlayed u <? 2 ^ 31) && (UserRow.TotalWins u <? 2 ^ 31) &&
  (UserRow.TotalLosses u <? 2 ^ 31) && (UserRow.TotalReferrals u <? 2 ^ 31) &&
  bool_decide (in_int64 (UserRow.TotalReferralEarnings u)).

Definition bump (games wins losses referrals earnings : Z) (now : Z) (u : UserRow.t) : UserRow.t :=
  {| UserRow.ID := UserRow.ID u; UserRow.TelegramUserID := UserRow.TelegramUserID u;
     UserRow.TelegramUsername := UserRow.TelegramUsername u;
     UserRow.WalletAddress := UserRow.WalletAddress u;
     UserRow.TotalGamesPlayed := UserRow.TotalGamesPlayed u + games;
     UserRow.TotalWins := UserRow.TotalWins u + wins;
     UserRow.TotalLosses := UserRow.TotalLosses u + losses;
     UserRow.TotalReferrals := UserRow.TotalReferrals u + referrals;
     UserRow.TotalReferralEarnings := UserRow.TotalReferralEarnings u + earnings;
     UserRow.CreatedAt := UserRow.CreatedAt u; UserRow.UpdatedAt := now |}.

Definition updateUser (walletAddress : string) (set : Z → UserRow.t → UserRow.t) : M (result unit) :=
  statement (λ _ now t,
    match users t !! walletAddress with
    | None => Ok (tt, t)
    | Some u =>
        let u' := set now u in
        if counters_ok u' then Ok (tt, set_users (<[walletAddress := u']> (users t)) t)
        else Err (ENew "integer out of range")
    end).

Definition IncrementGamesPlayedWithQuerier (walletAddress : string) : M (result unit) :=
  _ <-? updateUser walletAddress (bump 1 0 0 0 0) else query_failed ;; mret (Ok tt).
Definition IncrementGamesPlayed := IncrementGamesPlayedWithQuerier.

Definition IncrementWinsWithQuerier (walletAddress : string) : M (result unit) :=
  _ <-? updateUser walletAddress (bump 0 1 0 0 0) else query_failed ;; mret (Ok tt).
Definition IncrementWins := IncrementWinsWithQuerier.

Definition IncrementLossesWithQuerier (walletAddress : string) : M (result unit) :=
  _ <-? updateUser walletAddress (bump 0 0 1 0 0) else query_failed ;; mret (Ok tt).
Definition IncrementLosses := IncrementLossesWithQuerier.

Definition IncrementReferralsWithQuerier (walletAddress : string) (earningsNanotons : Z) :
    M (result unit) :=
  _ <-? updateUser walletAddress (bump 0 0 0 1 earningsNanotons) else query_failed ;;
  mret (Ok tt).
Definition IncrementReferrals := IncrementReferralsWithQuerier.

(** *** The implementation meets the interface *)

#[global] Instance repository : GameRepository := {
  GetByID gameID := game <-? GetByID gameID ;; mret (Ok (Some game)) }.

(** With no fault, reading a game is a lookup; a missing game is an error that
    wraps [pgx.ErrNoRows], never a nil game. *)
Lemma GetByID_run gameID w :
  dbfault (stmts w) = FaultNone →
  (GetByID gameID w).1 =
    match games (tables w) !! gameID with
    | Some g => Ok g
    | None => Err (query_failed (ESentinel ErrNoRows))
    end.
Proof.
  intros Hf. unfold GetByID, rbind_wrap, statement, mbind, M_bind, ST_bind, mret, M_ret, ST_ret.
  rewrite Hf. by destruct (games (tables w) !! gameID).
Qed.

(** Whatever the faults, a game that is returned is the stored one. *)
Lemma GetByID_sound gameID w game :
  (GetByID gameID w).1 = Ok game → games (tables w) !! gameID = Some game.
Proof.
  unfold GetByID, rbind_wrap, statement, mbind, M_bind, ST_bind, mret, M_ret, ST_ret.
  destruct (games (tables w) !! gameID), (dbfault (stmts w)); simpl; congruence.
Qed.

Lemma GetByID_later gameID w : later w (GetByID gameID w).2.
Proof.
  unfold GetByID, rbind_wrap, mbind, M_bind, ST_bind.
  match goal with |- context [statement ?f w] =>
    pose proof (statement_read f w) as (Ht & Hk & Ho & Hl); [|destruct (statement f w) as [r w']] end.
  { intros n now t a t'. destruct (games t !! gameID); congruence. }
  destruct r; simpl in *; unfold later; rewrite Hk; auto.
Qed.
End Postgres.
End Postgres.

#[export] Existing Instance Postgres.repository.

(** The PostgreSQL repository discharges the interface the use cases rely on. *)
#[export] Instance Postgres_laws (E : Env) : GameRepositoryLaws E Postgres.repository.
Proof.
  assert (∀ gameID w, GetByID gameID w =
    (match (Postgres.GetByID gameID w).1 with Ok g => Ok (Some g) | Err e => Err e end,
     (Postgres.GetByID gameID w).2)) as Heq.
  { intros gameID w. unfold GetByID, Postgres.repository, rbind, mbind, M_bind, ST_bind.
    by destruct (Postgres.GetByID gameID w) as [[g|e] w']. }
  constructor; intros gameID w; rewrite Heq; simpl; [apply Postgres.GetByID_later|..];
    intros; destruct ((Postgres.GetByID gameID w).1) eqn:Hg; simplify_eq.
  by eapply Postgres.GetByID_sound.
Qed.
