(* ===== verification/Locks.v ===== *)
(** * Operations on one of the four lock use cases

    Access to the use case's struct, the optional collaborators, the interface the
    use cases offer one another, and [lock_op]: the relation every operation of a
    use case is shown to stay within, which carries the refinement of the abstract
    lock machine. *)
From S2P Require Import Prelude GoTypes Entity World LockSpec Store.

Section Access.
Context `{E : Env}.

Definition getLock (k : LockKind) : M LockUC := gets (λ w, locks w k).
Definition putLock (k : LockKind) (uc : LockUC) : M unit := modify (set_lock k uc).

(** [if uc.metrics != nil { uc.metrics.m() }] *)
Definition record (k : LockKind) (m : Metric) : M unit :=
  uc ← getLock k; if has_metrics uc then emit (Measure k m) else mret tt.

(** [if uc.broadcastUC != nil { uc.broadcastUC.BroadcastX(...) }] *)
Definition notify (k : LockKind) (n : Notice) : M unit :=
  uc ← getLock k; if has_broadcastUC uc then emit (Broadcast n) else mret tt.
End Access.

Section Trace.
Context `{E : Env}.

Definition measured (k : LockKind) (m : Metric) (w : World) : list Effect :=
  if has_metrics (locks w k) then [Measure k m] else [].
Definition notified (k : LockKind) (n : Notice) (w : World) : list Effect :=
  if has_broadcastUC (locks w k) then [Broadcast n] else [].

Lemma wp_record k m (Q : unit → World → Prop) w :
  Q tt (set_out (out w ++ measured k m w) w) → wp (record k m) Q w.
Proof.
  unfold measured. intros H. apply wp_bind, wp_gets.
  destruct (has_metrics (locks w k)); [done|]. rewrite app_nil_r in H. by destruct w.
Qed.

Lemma wp_notify k n (Q : unit → World → Prop) w :
  Q tt (set_out (out w ++ notified k n w) w) → wp (notify k n) Q w.
Proof.
  unfold notified. intros H. apply wp_bind, wp_gets.
  destruct (has_broadcastUC (locks w k)); [done|]. rewrite app_nil_r in H. by destruct w.
Qed.
End Trace.

(** ** The interface between lock use cases

    A use case asks another one for the active lock on a game. *)
Class LockService := lock_Get : Z → M (result (option GameReservation.t)).

Class LockServiceLaws (E : Env) (k : LockKind) (S : LockService) : Prop := {
  Get_later g w : later w (lock_Get g w).2;
  Get_total g w : is_ok (lock_Get g w).1 = true;
  Get_found g w r :
    (lock_Get g w).1 = Ok (Some r) →
    reservations (locks w k) !! g = Some r ∧ active_at (time w) r;
  Get_none g w :
    (lock_Get g w).1 = Ok None → view (time w) (locks w k) !! g = None }.

(** ** What an operation of use case [k] may do *)

Section LockOp.
Context `{E : Env} `{!ClockMono E}.

(** Same configuration, different maps. *)
Definition same_config (uc uc' : LockUC) : Prop :=
  uc' = set_maps (reservations uc') (walletReservations uc') uc.

#[global] Instance same_config_preorder : PreOrder same_config.
Proof.
  split; [by intros []|]. unfold same_config, set_maps.
  intros [] [] [] H1 H2. simpl in *. congruence.
Qed.

Lemma same_config_max uc uc' : same_config uc uc' → maxPerWallet uc' = maxPerWallet uc.
Proof. by intros ->. Qed.

Lemma same_config_set_maps rs ix uc : same_config uc (set_maps rs ix uc).
Proof. done. Qed.

Record lock_op (k : LockKind) (w w' : World) : Prop := {
  op_ticks : (ticks w ≤ ticks w')%nat;
  op_tables : tables w' = tables w;
  op_others k' : k' ≠ k → locks w' k' = locks w k';
  op_config : same_config (locks w k) (locks w' k);
  op_ok : LockOk (locks w k) → LockOk (locks w' k);
  op_steps : LockOk (locks w k) →
    steps (maxPerWallet (locks w k)) (view (time w) (locks w k)) (view (time w') (locks w' k)) }.

Lemma op_time k w w' : lock_op k w w' → time w ≤ time w'.
Proof. intros []. by apply clock_mono. Qed.

#[global] Instance lock_op_preorder k : PreOrder (lock_op k).
Proof.
  split; [by intros w; constructor|].
  intros w1 w2 w3 H12 H23. destruct H12 as [a1 b1 c1 d1 e1 f1], H23 as [a2 b2 c2 d2 e2 f2].
  constructor; [lia|congruence| |by etrans|auto|].
  - intros k' Hk. rewrite c2, c1; done.
  - intros Hok. etrans; [by apply f1|]. rewrite <-(same_config_max _ _ d1). auto.
Qed.

(** Reading leaves every lock alone: its table only loses what expires. *)
Lemma later_op k w w' : later w w' → lock_op k w w'.
Proof.
  intros Hl. pose proof (later_time _ _ Hl). destruct Hl as (? & ? & ? & Hk).
  constructor; rewrite ?Hk; try done. intros _. by apply steps_wait.
Qed.

Lemma emit_op k l w : lock_op k w (set_out (out w ++ l) w).
Proof. constructor; try done. Qed.

Lemma set_lock_op k uc w :
  same_config (locks w k) uc →
  (LockOk (locks w k) → LockOk uc) →
  (LockOk (locks w k) →
     steps (maxPerWallet (locks w k)) (view (time w) (locks w k)) (view (time w) uc)) →
  lock_op k w (set_lock k uc w).
Proof.
  intros Hc Hok Hst.
  assert (locks (set_lock k uc w) k = uc) as Heq by (simpl; by rewrite decide_True).
  constructor; rewrite ?Heq; try done.
  intros k' Hk. simpl. by rewrite decide_False.
Qed.

(** An update of the maps that only drops locks. *)
Lemma drop_op k uc w :
  same_config (locks w k) uc →
  (LockOk (locks w k) → LockOk uc) →
  shrinks (time w) (locks w k) uc →
  lock_op k w (set_lock k uc w).
Proof. intros. apply set_lock_op; [done..|]. intros _. by apply steps_shrink. Qed.

(** An update that adds the reservation [r] the code has just built, where [w0] is
    the world in which the game was seen free and [w1] the one after the count. *)
Lemma store_op k w0 w1 w key r :
  later w0 w1 → later w1 w →
  key = normalizeReservationWallet (GameReservation.WalletAddress r) →
  ¬ live (reservations (locks w0 k)) (time w0) (GameReservation.GameID r) →
  Z.of_nat (length (filter (live (reservations (locks w0 k)) (time w1))
                     (index_of (walletReservations (locks w0 k)) key)))
    < maxPerWallet (locks w0 k) →
  lock_op k w0 (set_lock k (storeReservation key r (locks w0 k)) w).
Proof.
  intros H01 H1 Hkey Hfree Hroom.
  assert (later w0 w) as H0 by (by transitivity w1).
  pose proof (later_time _ _ H01). pose proof (later_time _ _ H1).
  transitivity w; [by apply later_op|].
  rewrite <-(later_lock _ _ k H0) in *. apply set_lock_op; [done|by apply storeReservation_ok|].
  intros Hok. apply steps_store; [done|..].
  - apply view_lookup_None. intros Hl. apply Hfree. eapply live_mono; [|done]. lia.
  - eapply Z.le_lt_trans; [|exact Hroom]. apply inj_le.
    etrans; [by apply held_le_index|]. apply length_filter_live_mono. lia.
Qed.

Lemma retire_op k s g r w :
  s ≠ ReservationStatusActive → reservations (locks w k) !! g = Some r →
  lock_op k w (set_lock k (retire s g r (locks w k)) w).
Proof. intros. apply drop_op; [done|auto with pod..]. Qed.

Lemma discard_op k g r w : lock_op k w (set_lock k (discard g r (locks w k)) w).
Proof. apply drop_op; [done|auto with pod..]. Qed.

Lemma forget_op k g w : lock_op k w (set_lock k (forget g (locks w k)) w).
Proof. apply drop_op; [done|auto with pod..]. Qed.

(** *** Programs within [lock_op] *)

(** [m] stays within [lock_op k] from every world. *)
Definition within {A} (k : LockKind) (m : M A) : Prop := ∀ w, lock_op k w (m w).2.

Lemma within_ret {A} k (a : A) : within k (mret a).
Proof. intros w. reflexivity. Qed.

Lemma within_bind {A B} k (m : M A) (f : A → M B) :
  within k m → (∀ a, within k (f a)) → within k (m ≫= f).
Proof.
  intros Hm Hf w. unfold mbind, M_bind, ST_bind.
  specialize (Hm w). destruct (m w) as [a w']. etrans; [exact Hm|apply Hf].
Qed.

Lemma within_rbind {A B} k (m : M (result A)) (f : A → M (result B)) :
  within k m → (∀ a, within k (f a)) → within k (rbind m f).
Proof. intros. apply within_bind; [done|]. intros [a|e]; [auto|apply within_ret]. Qed.

Lemma within_getLock k k' : within k (getLock k').
Proof. intros w. reflexivity. Qed.

Lemma within_record k k' m : within k (record k' m).
Proof.
  apply within_bind; [apply within_getLock|]. intros uc.
  destruct (has_metrics uc); [|apply within_ret]. intros w. apply emit_op.
Qed.

Lemma within_notify k k' n : within k (notify k' n).
Proof.
  apply within_bind; [apply within_getLock|]. intros uc.
  destruct (has_broadcastUC uc); [|apply within_ret]. intros w. apply emit_op.
Qed.

Lemma within_for_each {A} k (l : list A) (body : A → M unit) :
  (∀ x, within k (body x)) → within k (for_each l body).
Proof.
  intros Hb. induction l as [|x l IH]; [apply within_ret|].
  simpl. apply within_bind; auto.
Qed.

Lemma within_later {A} k (m : M A) : (∀ w, later w (m w).2) → within k m.
Proof. intros H w. by apply later_op. Qed.

Lemma within_readActive k r : within k (readActive r).
Proof. apply within_later, readActive_later. Qed.

Lemma within_Now k : within k Now.
Proof. apply within_later, later_tick. Qed.

Lemma later_lookupActive rs g w : later w (lookupActive rs g w).2.
Proof. apply (wp_lookupActive rs g (λ _ w', later w w') w). auto. Qed.

Lemma later_countActive rs l w : later w (countActive rs l w).2.
Proof. apply (wp_countActive rs l w). Qed.

Lemma later_collectActive rs l w : later w (collectActive rs l w).2.
Proof. apply (wp_collectActive rs l w). Qed.
End LockOp.

#[export] Hint Resolve within_ret within_bind within_rbind within_getLock within_record
  within_notify within_for_each within_readActive within_Now : pod.

(** ** The critical section of [Reserve] and [Claim]

    Look the game up, count the wallet's locks, build and store the reservation.  The
    use cases differ in what they do when the game is busy, when the wallet is full
    and after the insertion; the section itself is verified once. *)
Section Critical.
Context `{E : Env} `{!ClockMono E}.

Definition critical (k : LockKind) (gameID : Z) (walletAddress : string)
    (busy : GameReservation.t → M (result GameReservation.t))
    (full : M (result GameReservation.t))
    (created : GameReservation.t → M (result GameReservation.t)) :
    M (result GameReservation.t) :=
  uc ← getLock k;
  existing ← lookupActive (reservations uc) gameID;
  match existing with
  | Some r => busy r
  | None =>
      n ← countActive (reservations uc)
            (index_of (walletReservations uc) (normalizeReservationWallet walletAddress));
      if maxPerWallet uc <=? n then full
      else
        now ← Now;
        let r := newReservation gameID walletAddress now uc in
        _ ← putLock k (storeReservation (normalizeReservationWallet walletAddress) r uc);
        created r
  end.

(** The entries the count walks over that are live at [t]. *)
Definition counted (k : LockKind) (walletAddress : string) (t : Z) (w : World) : Z :=
  Z.of_nat (length (filter (live (reservations (locks w k)) t)
    (index_of (walletReservations (locks w k)) (normalizeReservationWallet walletAddress)))).

Lemma lookup_live (rs : gmap Z GameReservation.t) t g r :
  (if bool_decide (live rs t g) then rs !! g else None) = Some r →
  rs !! g = Some r ∧ active_at t r.
Proof.
  case_bool_decide as Hl; [|done]. intros Hr. unfold live in Hl. rewrite Hr in Hl. done.
Qed.

Lemma lookup_not_live (rs : gmap Z GameReservation.t) t g :
  (if bool_decide (live rs t g) then rs !! g else None) = None → ¬ live rs t g.
Proof.
  case_bool_decide as Hl; [|done]. intros Hr. unfold live in Hl. by rewrite Hr in Hl.
Qed.

Lemma wp_critical k g wallet busy full created (Q : result GameReservation.t → World → Prop) w :
  (∀ r w', later w w' → reservations (locks w k) !! g = Some r → active_at (time w) r →
     wp (busy r) Q w') →
  (∀ w', later w w' → ¬ live (reservations (locks w k)) (time w) g →
     maxPerWallet (locks w k) ≤ counted k wallet (time w) w → wp full Q w') →
  (∀ now w', later w w' → time w ≤ now ≤ time w' →
     ¬ live (reservations (locks w k)) (time w) g →
     counted k wallet now w < maxPerWallet (locks w k) →
     let r := newReservation g wallet now (locks w k) in
     let w2 := set_lock k (storeReservation (normalizeReservationWallet wallet) r (locks w k)) w' in
     lock_op k w w2 → wp (created r) Q w2) →
  wp (critical k g wallet busy full created) Q w.
Proof.
  intros Hbusy Hfull Hcreated. unfold critical.
  apply wp_bind, wp_gets, wp_bind, wp_lookupActive. intros w1 H1.
  destruct (if bool_decide _ then _ else None) as [r|] eqn:Hfound.
  { apply lookup_live in Hfound as [? ?]. eauto. }
  apply lookup_not_live in Hfound.
  apply wp_bind. eapply wp_mono; [apply wp_countActive|]. intros n w2 [H2 [Hlo Hhi]].
  assert (later w w2) as H02 by (by transitivity w1).
  pose proof (later_time _ _ H1) as T1. pose proof (later_time _ _ H02) as T2.
  destruct (Z.leb_spec (maxPerWallet (locks w k)) n) as [Hm|Hm].
  - apply Hfull; [done..|]. etrans; [exact Hm|]. etrans; [exact Hhi|].
    unfold counted. apply inj_le. apply length_filter_live_mono. lia.
  - apply wp_bind. unfold wp at 1. simpl.
    apply wp_bind, wp_modify.
    assert (later w (set_ticks (S (ticks w2)) w2)) as H3 by (etrans; [done|apply later_tick]).
    apply Hcreated; [done| |done|unfold counted; lia|].
    + split; [done|]. apply (later_time _ _ (later_tick w2)).
    + eapply store_op; [exact H02|apply later_tick|done|done|lia].
Qed.
End Critical.

(** ** Asking the other use case

    [r, err := peer.Get(ctx, gameID); if err != nil { return err };
     if r != nil && r.IsActive() { busy }] *)
Section Peer.
Context `{E : Env} `{!ClockMono E}.

(** Nothing but the trace and the counters of readings changed. *)
Definition unchanged (k : LockKind) (w w' : World) : Prop :=
  lock_op k w w' ∧ locks w' = locks w.

#[global] Instance unchanged_preorder k : PreOrder (unchanged k).
Proof.
  split; [by intros w|]. intros w1 w2 w3 [H1 L1] [H2 L2].
  split; [by etrans|congruence].
Qed.

Lemma later_unchanged k w w' : later w w' → unchanged k w w'.
Proof. intros Hl. split; [by apply later_op|]. by destruct Hl as (_ & _ & _ & ?). Qed.

Lemma emit_unchanged k l w w' : later w w' → unchanged k w (set_out (out w' ++ l) w').
Proof. intros Hl. etrans; [by apply later_unchanged|]. split; [apply emit_op|done]. Qed.

Definition whenFree (Get : LockService) (gameID : Z) (busy : M (result unit)) :
    M (result unit) :=
  found <-? Get gameID ;;
  match found with
  | None => mret (Ok tt)
  | Some r => b ← readActive r; if (b : bool) then busy else mret (Ok tt)
  end.

Lemma later_locks w w' : later w w' → locks w' = locks w.
Proof. by intros (_ & _ & _ & ?). Qed.

Lemma view_free_later w w' k g :
  later w w' → view (time w) (locks w k) !! g = None → view (time w') (locks w' k) !! g = None.
Proof.
  intros Hl. rewrite !view_lookup_None, (later_lock _ _ _ Hl). intros Hn Ha. apply Hn.
  eapply live_mono; [|done]. by apply later_time.
Qed.

Lemma wp_whenFree k (Get : LockService) `{!LockServiceLaws E k Get} g busy
    (Q : result unit → World → Prop) w :
  (∀ w', later w w' → live (reservations (locks w k)) (time w) g → wp busy Q w') →
  (∀ w', later w w' → view (time w') (locks w' k) !! g = None → Q (Ok tt) w') →
  wp (whenFree Get g busy) Q w.
Proof.
  intros Hbusy Hfree. unfold whenFree. apply wp_rbind. unfold wp at 1.
  pose proof (Get_later g w) as Hl. pose proof (Get_total g w) as Htot.
  pose proof (Get_found g w) as Hf. pose proof (Get_none g w) as Hn.
  unfold lock_Get in *. destruct (Get g w) as [[[r|]|e] w1]; simpl in *; [| |done].
  - apply wp_bind, wp_readActive. intros w2 H2.
    assert (later w w2) as Hl2 by (by transitivity w1).
    destruct (GameReservation.IsActive (time w1) r) eqn:Hact.
    { apply Hbusy; [done|]. destruct (Hf r eq_refl) as [Hr ?]. unfold live. by rewrite Hr. }
    apply wp_ret, Hfree; [done|]. apply view_free_later with w1; [done|].
    apply view_lookup_None. rewrite (later_lock _ _ _ Hl). unfold live.
    destruct (Hf r eq_refl) as [-> _]. by apply IsActive_false.
  - apply wp_ret, Hfree; [done|]. apply view_free_later with w; auto.
Qed.
End Peer.
