(* ===== verification/LockOps.v ===== *)
(** * Operations the four lock use cases share

    Looking a lock up, dropping one and announcing it, checking that a lock's game is
    still in the status the lock is about, the listing loop and the cleanup loop.
    Each is verified once; the use cases instantiate them. *)
From S2P Require Import Prelude GoTypes Entity World LockSpec Store Repo Locks.

(** ** Construction

    The four constructors differ in their defaults only. *)

Definition second : Z := 1000000000.

Definition newLockUC (defaultTimeoutSeconds defaultMaxPerWallet : Z)
    (hasRepo hasPeer hasBroadcast : bool)
    (cfgMaxPerWallet cfgTimeoutSeconds cfgCleanupIntervalSeconds : Z) : LockUC :=
  let timeout := wrap64 (cfgTimeoutSeconds * second) in
  let timeout := if timeout <=? 0 then defaultTimeoutSeconds * second else timeout in
  let maxPerWallet := if cfgMaxPerWallet <=? 0 then defaultMaxPerWallet else cfgMaxPerWallet in
  let cleanupInterval := wrap64 (cfgCleanupIntervalSeconds * second) in
  let cleanupInterval := if cleanupInterval <=? 0 then 5 * second else cleanupInterval in
  mkLockUC ∅ ∅ maxPerWallet timeout cleanupInterval hasRepo hasPeer hasBroadcast false false.

(** What every constructor guarantees, whatever the configuration. *)
Record configured (uc : LockUC) : Prop := {
  configured_max : 0 < maxPerWallet uc;
  configured_timeout : 0 < timeout uc;
  configured_cleanup : 0 < cleanupInterval uc }.

Lemma newLockUC_configured dt dm hr hp hb m t c :
  0 < dt → 0 < dm → configured (newLockUC dt dm hr hp hb m t c).
Proof.
  intros Hdt Hdm. unfold newLockUC, second. constructor; simpl;
    destruct (Z.leb_spec (wrap64 (t * 1000000000)) 0), (Z.leb_spec m 0),
      (Z.leb_spec (wrap64 (c * 1000000000)) 0); lia.
Qed.

(** In the range where [seconds * time.Second] does not overflow, the configured
    values are the ones used. *)
Lemma newLockUC_exact dt dm hr hp hb m t c :
  0 < m → 0 < t ≤ 9223372036 → 0 < c ≤ 9223372036 →
  let uc := newLockUC dt dm hr hp hb m t c in
  maxPerWallet uc = m ∧ timeout uc = t * second ∧ cleanupInterval uc = c * second.
Proof.
  intros Hm Ht Hc. unfold newLockUC, second. simpl.
  rewrite !wrap64_id by (unfold in_int64, MinInt64, MaxInt64; lia).
  rewrite (proj2 (Z.leb_gt m 0)), (proj2 (Z.leb_gt (t * _) 0)),
    (proj2 (Z.leb_gt (c * _) 0)) by lia. done.
Qed.

(** [sync.Once] around [close(uc.stopCleanup)]; closing twice would panic. *)
Definition stopCleanupLoop `{E : Env} (k : LockKind) : M unit :=
  uc ← getLock k;
  if stopCleanup_closed uc then mret tt
  else putLock k (mkLockUC (reservations uc) (walletReservations uc) (maxPerWallet uc)
         (timeout uc) (cleanupInterval uc) (has_gameRepo uc) (has_peer uc)
         (has_broadcastUC uc) (has_metrics uc) true).

Definition setMetrics (uc : LockUC) : LockUC :=
  mkLockUC (reservations uc) (walletReservations uc) (maxPerWallet uc) (timeout uc)
    (cleanupInterval uc) (has_gameRepo uc) (has_peer uc) (has_broadcastUC uc) true
    (stopCleanup_closed uc).

Definition setPeer (uc : LockUC) : LockUC :=
  mkLockUC (reservations uc) (walletReservations uc) (maxPerWallet uc) (timeout uc)
    (cleanupInterval uc) (has_gameRepo uc) true (has_broadcastUC uc) (has_metrics uc)
    (stopCleanup_closed uc).

(** ** Looking a lock up *)

Section Lookup.
Context `{E : Env}.

(** [Get]: the lock on a game, nil when there is none or it is no longer active. *)
Definition getActive (k : LockKind) (gameID : Z) : M (result (option GameReservation.t)) :=
  uc ← getLock k;
  r ← lookupActive (reservations uc) gameID;
  mret (Ok r).

Lemma wp_find {A} k g (f : LockUC → option GameReservation.t → M A)
    (Q : A → World → Prop) w :
  (∀ w', later w w' → ¬ live (reservations (locks w k)) (time w) g →
     wp (f (locks w k) None) Q w') →
  (∀ r w', later w w' → reservations (locks w k) !! g = Some r → active_at (time w) r →
     wp (f (locks w k) (Some r)) Q w') →
  wp (uc ← getLock k; found ← lookupActive (reservations uc) g; f uc found) Q w.
Proof.
  intros Hn Hs. apply wp_bind, wp_gets, wp_bind, wp_lookupActive. intros w' Hw'.
  destruct (if bool_decide _ then _ else None) as [r|] eqn:Hf.
  - apply lookup_live in Hf as [? ?]. by apply Hs.
  - apply lookup_not_live in Hf. by apply Hn.
Qed.

Lemma wp_getActive k g w :
  wp (getActive k g) (λ r w', later w w' ∧
    r = Ok (if bool_decide (live (reservations (locks w k)) (time w) g)
            then reservations (locks w k) !! g else None)) w.
Proof.
  apply wp_bind, wp_gets, wp_bind, wp_lookupActive. intros w' Hw'. by apply wp_ret.
Qed.

#[global] Instance getActive_laws `{!ClockMono E} k :
  LockServiceLaws E k (getActive k : LockService).
Proof.
  constructor; intros g w; destruct (wp_getActive k g w) as [Hl Hr]; unfold lock_Get.
  - done.
  - by rewrite Hr.
  - rewrite Hr. intros r [= Hf]. by apply lookup_live in Hf.
  - rewrite Hr. intros [= Hf]. apply lookup_not_live in Hf. by apply view_lookup_None.
Qed.
End Lookup.

(** ** Dropping locks *)

Section Drops.
Context `{E : Env} `{!ClockMono E}.

(** An operation that takes no lock: whatever is active afterwards was there before. *)
Definition drops (k : LockKind) (w w' : World) : Prop :=
  lock_op k w w' ∧ shrinks (time w') (locks w k) (locks w' k).

#[global] Instance drops_preorder k : PreOrder (drops k).
Proof.
  split; [intros w; split; [done|apply shrinks_refl]|].
  intros w1 w2 w3 [H1 S1] [H2 S2]. split; [by etrans|]. intros g r Hr Ha.
  apply S1; [by apply S2|]. eapply active_at_mono; [|done]. by eapply op_time.
Qed.

Lemma later_drops k w w' : later w w' → drops k w w'.
Proof.
  intros Hl. split; [by apply later_op|]. rewrite (later_lock _ _ _ Hl). apply shrinks_refl.
Qed.

Lemma emit_drops k l w : drops k w (set_out (out w ++ l) w).
Proof. split; [apply emit_op|apply shrinks_refl]. Qed.
End Drops.

(** ** Dropping a lock and announcing it *)

Section Drop.
Context `{E : Env} `{!ClockMono E}.

(** The lock on [g] is gone, and that was announced as [m] and [n]. *)
Record dropped (k : LockKind) (g : Z) (m : Metric) (n : Notice) (w w' : World) : Prop := {
  dropped_op : lock_op k w w';
  dropped_free : view (time w') (locks w' k) !! g = None;
  dropped_others g' : g' ≠ g →
    reservations (locks w' k) !! g' = reservations (locks w k) !! g';
  dropped_out : out w' = out w ++ measured k m w ++ notified k n w }.

Lemma dropped_drops k g m n w w' : dropped k g m n w w' → drops k w w'.
Proof.
  intros [Hop Hfree Hoth _]. split; [done|]. intros g' r Hr Ha.
  destruct (decide (g' = g)) as [->|Hne]; [|by rewrite <-Hoth].
  exfalso. apply view_lookup_None in Hfree. apply Hfree. unfold live. by rewrite Hr.
Qed.

Lemma wp_drop {A} k g m n uc' (a : A) (Q : A → World → Prop) w w1 :
  later w w1 →
  lock_op k w1 (set_lock k uc' w1) →
  same_config (locks w k) uc' →
  (∀ t, view t uc' !! g = None) →
  (∀ g', g' ≠ g → reservations uc' !! g' = reservations (locks w k) !! g') →
  (∀ w', dropped k g m n w w' → Q a w') →
  wp (_ ← putLock k uc'; _ ← record k m; _ ← notify k n; mret a) Q w1.
Proof.
  intros Hl Hop Hc Hfree Hoth HQ.
  apply wp_bind, wp_modify, wp_bind, wp_record, wp_bind, wp_notify, wp_ret, HQ.
  constructor.
  - etrans; [by apply later_op|]. etrans; [exact Hop|]. etrans; apply emit_op.
  - simpl. rewrite decide_True by done. apply Hfree.
  - intros g' Hg'. simpl. rewrite decide_True by done. by apply Hoth.
  - unfold notified, measured. simpl. rewrite decide_True by done.
    rewrite Hc, (later_out _ _ Hl). simpl. by rewrite <-app_assoc.
Qed.

(** The two ways the use cases drop a lock: flip its status, or delete it. *)
Lemma wp_retire {A} k s g r m n (a : A) (Q : A → World → Prop) w w1 :
  later w w1 → reservations (locks w k) !! g = Some r → s ≠ ReservationStatusActive →
  (∀ w', dropped k g m n w w' → Q a w') →
  wp (_ ← putLock k (retire s g r (locks w k)); _ ← record k m; _ ← notify k n; mret a) Q w1.
Proof.
  intros Hl Hr Hs. eapply wp_drop; [done| |done|auto with pod|].
  - rewrite <-(later_lock _ _ k Hl) in *. by apply retire_op.
  - intros g' Hg'. simpl. by rewrite lookup_insert_ne.
Qed.

Lemma wp_discard {A} k g r m n (a : A) (Q : A → World → Prop) w w1 :
  later w w1 →
  (∀ w', dropped k g m n w w' → Q a w') →
  wp (_ ← putLock k (discard g r (locks w k)); _ ← record k m; _ ← notify k n; mret a) Q w1.
Proof.
  intros Hl. eapply wp_drop; [done| |done|auto with pod|].
  - rewrite <-(later_lock _ _ k Hl). apply discard_op.
  - intros g' Hg'. simpl. by rewrite lookup_delete_ne.
Qed.
End Drop.

(** ** Is the lock still about an actionable game? *)

Section Available.
Context `{E : Env} {R : GameRepository}.

Definition gameInStatus (k : LockKind) (status gameID : Z) : M (result bool) :=
  uc ← getLock k;
  if negb (has_gameRepo uc) then mret (Ok true)
  else
    found <-? GetByID gameID ;;
    match found with
    | None => mret (Ok false)
    | Some game => mret (Ok (Game.Status game =? status))
    end.

(** The stored game has the status; nothing is known without a repository. *)
Definition in_status (k : LockKind) (status : Z) (w : World) (g : Z) : Prop :=
  has_gameRepo (locks w k) = true →
  match games (tables w) !! g with
  | Some game => Game.Status game = status
  | None => False
  end.
#[global] Instance in_status_dec k status w g : Decision (in_status k status w g).
Proof.
  unfold in_status. destruct (games (tables w) !! g); apply _.
Defined.

Context `{!ClockMono E} `{!GameRepositoryLaws E R}.

Lemma in_status_op k status w w' g :
  lock_op k w w' → in_status k status w' g ↔ in_status k status w g.
Proof.
  intros Hop. unfold in_status. rewrite (op_tables _ _ _ Hop).
  pose proof (op_config _ _ _ Hop) as ->. done.
Qed.

Lemma wp_gameInStatus k status g w :
  wp (gameInStatus k status g) (λ r w', later w w' ∧
    ∀ b, r = Ok b → b = bool_decide (in_status k status w g)) w.
Proof.
  apply wp_bind, wp_gets. destruct (has_gameRepo (locks w k)) eqn:Hrepo; simpl.
  2:{ apply wp_ret. split; [done|]. intros b [= <-]. symmetry. apply bool_decide_eq_true.
      intros ?. congruence. }
  apply wp_rbind. unfold wp at 1. pose proof (GetByID_quiet g w) as Hq.
  pose proof (GetByID_found g w) as Hf. pose proof (GetByID_absent g w) as Ha.
  destruct (GetByID g w) as [[[game|]|e] w']; simpl in *; (split; [done|]); [| |done];
    intros b [= <-]; apply Bool.eq_iff_eq_true; rewrite bool_decide_eq_true; unfold in_status;
    [rewrite (Hf game) by done|rewrite Ha by done].
  - rewrite Z.eqb_eq. tauto.
  - split; [done|]. intros Hn. by destruct (Hn Hrepo).
Qed.
End Available.

(** ** The listing loop *)

(** [a.CreatedAt.After(b.CreatedAt)] *)
Definition newestFirst (a b : GameReservation.t) : bool :=
  GameReservation.CreatedAt b <? GameReservation.CreatedAt a.

Lemma newestFirst_ordered l : ordered newestFirst (SliceStable newestFirst l).
Proof.
  apply SliceStable_ordered; unfold newestFirst; intros *;
    rewrite ?Z.ltb_lt, ?Z.ltb_ge; lia.
Qed.

Section Listing.
Context `{E : Env} {R : GameRepository}.
Context (k : LockKind) (status : Z) (release : Z → M unit).

(** Keep the locks whose game is actionable, release the others. *)
Fixpoint keepAvailable (rs : list GameReservation.t) : M (result (list GameReservation.t)) :=
  match rs with
  | [] => mret (Ok [])
  | r :: rs =>
      isAvailable <-? gameInStatus k status (GameReservation.GameID r) ;;
      if negb isAvailable then
        _ ← release (GameReservation.GameID r);
        keepAvailable rs
      else
        result <-? keepAvailable rs ;;
        mret (Ok (r :: result))
  end.

Definition listByWallet (walletAddress : string) : M (result (list GameReservation.t)) :=
  uc ← getLock k;
  rs ← collectActive (reservations uc)
         (index_of (walletReservations uc) (normalizeReservationWallet walletAddress));
  result <-? keepAvailable rs ;;
  mret (Ok (SliceStable newestFirst result)).

Context `{!ClockMono E} `{!GameRepositoryLaws E R}.
Hypothesis release_drops : ∀ g w, drops k w (release g w).2.

Lemma wp_keepAvailable rs w :
  wp (keepAvailable rs) (λ res w', drops k w w' ∧
    ∀ l, res = Ok l → l = filter (λ r, in_status k status w (GameReservation.GameID r)) rs) w.
Proof.
  revert w. induction rs as [|r rs IH]; intros w; simpl.
  { apply wp_ret. split; [done|]. by intros l [= <-]. }
  apply wp_rbind. eapply wp_mono; [apply wp_gameInStatus|]. intros [b|e] w1 [Hl Hb]; [|].
  2:{ split; [by apply later_drops|done]. }
  assert (drops k w w1) as H1 by (by apply later_drops).
  assert (∀ w2, drops k w w2 →
    filter (λ r, in_status k status w2 (GameReservation.GameID r)) rs =
    filter (λ r, in_status k status w (GameReservation.GameID r)) rs) as Hsame.
  { intros w2 [H2 _]. apply list_filter_iff. intros x. by apply in_status_op. }
  specialize (Hb b eq_refl). rewrite filter_cons. subst b. case_bool_decide as Hd; simpl.
  - apply wp_rbind. eapply wp_mono; [apply IH|]. intros [l|e] w2 [H2 Hk].
    + apply wp_ret. split; [by etrans|]. intros l' [= <-].
      rewrite decide_True by done. by rewrite (Hk l eq_refl), Hsame.
    + split; [by etrans|done].
  - apply wp_bind. unfold wp at 1. pose proof (release_drops (GameReservation.GameID r) w1).
    destruct (release (GameReservation.GameID r) w1) as [[] w2]; simpl in *.
    eapply wp_mono; [apply IH|]. intros res w3 [H3 Hk]. rewrite decide_False by done.
    split; [by repeat (etrans; [eassumption|])|]. intros l ->.
    rewrite (Hk l eq_refl). apply Hsame. by etrans.
Qed.

(** The lock of a game that is still actionable survives the listing. *)
Definition keeps_actionable (w w' : World) : Prop := ∀ g,
  in_status k status w g → reservations (locks w' k) !! g = reservations (locks w k) !! g.

Hypothesis release_only : ∀ g w g', g' ≠ g →
  reservations (locks (release g w).2 k) !! g' = reservations (locks w k) !! g'.

Lemma keepAvailable_keeps rs w : keeps_actionable w (keepAvailable rs w).2.
Proof.
  revert w. induction rs as [|r rs IH]; intros w; simpl; [done|].
  apply (wp_rbind _ _ (λ _ w', keeps_actionable w w')).
  eapply wp_mono; [apply wp_gameInStatus|]. intros [b|e] w1 [Hl Hb]; intros g Hg;
    rewrite <-(later_lock _ _ k Hl); [|done].
  apply (in_status_op k status _ _ g (later_op k _ _ Hl)) in Hg.
  specialize (Hb b eq_refl). destruct b; simpl.
  - revert g Hg. apply (wp_rbind _ _ (λ _ w', keeps_actionable w1 w')).
    unfold wp at 1. specialize (IH w1). by destruct (keepAvailable rs w1) as [[l|e] w2].
  - symmetry in Hb. apply bool_decide_eq_false in Hb.
    apply (wp_bind _ _ (λ _ w', reservations (locks w' k) !! g = _)). unfold wp at 1.
    pose proof (release_drops (GameReservation.GameID r) w1) as [Hop _].
    pose proof (release_only (GameReservation.GameID r) w1 g) as Ho.
    destruct (release (GameReservation.GameID r) w1) as [[] w2]; simpl in *.
    unfold wp. rewrite IH by (by apply (in_status_op k status _ _ g Hop)). apply Ho.
    intros ->. apply Hb. by apply (in_status_op k status _ _ _ (later_op k _ _ Hl)).
Qed.

Lemma listByWallet_keeps walletAddress w : keeps_actionable w (listByWallet walletAddress w).2.
Proof.
  apply (wp_bind _ _ (λ _ w', keeps_actionable w w')), wp_gets, wp_bind.
  eapply wp_mono; [apply wp_collectActive|]. intros rs w1 (H1 & _). apply wp_rbind.
  unfold wp at 1. pose proof (keepAvailable_keeps rs w1) as Hk.
  assert (keeps_actionable w (keepAvailable rs w1).2) as Hw.
  { intros g Hg. rewrite Hk; [by rewrite (later_lock _ _ k H1)|].
    by apply (in_status_op k status _ _ _ (later_op k _ _ H1)). }
  by destruct (keepAvailable rs w1) as [[l|e] w2].
Qed.

(** What a listing returns: newest first, exactly the active locks under the wallet's
    index entry whose game is actionable. *)
Definition listed (walletAddress : string) (w w' : World) (l : list GameReservation.t) : Prop :=
  let ids := index_of (walletReservations (locks w k))
               (normalizeReservationWallet walletAddress) in
  ordered newestFirst l ∧
  (∀ r, r ∈ l → in_status k status w (GameReservation.GameID r) ∧
     ∃ g, g ∈ ids ∧ reservations (locks w k) !! g = Some r ∧ active_at (time w) r) ∧
  (∀ g r, g ∈ ids → reservations (locks w k) !! g = Some r → active_at (time w') r →
     in_status k status w (GameReservation.GameID r) → r ∈ l).

Lemma wp_listByWallet walletAddress w :
  wp (listByWallet walletAddress) (λ res w', drops k w w' ∧
    ∀ l, res = Ok l → listed walletAddress w w' l) w.
Proof.
  apply wp_bind, wp_gets, wp_bind. eapply wp_mono; [apply wp_collectActive|].
  intros rs w1 (H1 & Hsound & Hall). apply wp_rbind.
  eapply wp_mono; [apply wp_keepAvailable|]. intros [l|e] w2 [H2 Hl].
  2:{ split; [etrans; [by apply later_drops|done]|done]. }
  assert (drops k w w2) as H02 by (etrans; [by apply later_drops|done]).
  apply wp_ret. split; [done|]. intros l' [= <-]. specialize (Hl l eq_refl). subst l.
  assert (∀ g, in_status k status w1 g ↔ in_status k status w g) as Hst
    by (intros g; by apply in_status_op, later_op).
  split; [apply newestFirst_ordered|]. setoid_rewrite elem_of_SliceStable.
  setoid_rewrite list_elem_of_filter. setoid_rewrite Hst. split.
  - intros r [? Hr]. split; [done|by apply Hsound].
  - intros g r Hg Hr Ha Hin. split; [done|]. eapply Hall; [done..|].
    eapply active_at_mono; [|done]. eapply op_time. apply H2.
Qed.
End Listing.

(** ** The cleanup loop *)

Section Cleanup.
Context `{E : Env}.

(** [if r.Status == active && r.IsExpired() { r.Status = expired; removeFromWalletIndex }];
    whether it did. *)
Definition expireEntry (k : LockKind) (gameID : Z) : M bool :=
  uc ← getLock k;
  match reservations uc !! gameID with
  | Some r =>
      if bool_decide (GameReservation.Status r = ReservationStatusActive) then
        now ← Now;
        if GameReservation.IsExpired now r then
          _ ← putLock k (retire ReservationStatusExpired gameID r uc); mret true
        else mret false
      else mret false
  | None => mret false
  end.

(** [!r.IsActive()], for the entry as it is now: the clock is read again. *)
Definition entryDead (k : LockKind) (gameID : Z) : M bool :=
  uc ← getLock k;
  match reservations uc !! gameID with
  | Some r => b ← readActive r; mret (negb b)
  | None => mret false
  end.

(** The loop body of the reveal and claim cleanups: the ids appended to [expired]. *)
Definition sweepVisit (k : LockKind) (gameID : Z) : M (list Z) :=
  expired ← expireEntry k gameID;
  dead ← entryDead k gameID;
  _ ← (if (dead : bool) then uc ← getLock k; putLock k (forget gameID uc) else mret tt);
  mret (if (expired : bool) then [gameID] else []).

Definition sweep (k : LockKind) : M (list Z) :=
  uc ← getLock k;
  keys ← rangeKeys (reservations uc);
  expired ← mapM (sweepVisit k) keys;
  mret (mjoin expired).
End Cleanup.

Section Visits.
Context `{E : Env} `{!ClockMono E}.
Context (k : LockKind) {A : Type} (visit : Z → M A).

(** [Q t t' g before after v]: what a visit to [g] between [t] and [t'] makes of its entry. *)
Context (Q : Z → Z → Z → option GameReservation.t → option GameReservation.t → A → Prop).
Hypothesis Q_mono : ∀ t t1 t1' t' g b a v,
  t ≤ t1 → t1' ≤ t' → Q t1 t1' g b a v → Q t t' g b a v.

Definition visited (g : Z) (w : World) (v : A) (w' : World) : Prop :=
  lock_op k w w' ∧ out w' = out w ∧
  (∀ g', g' ≠ g → reservations (locks w' k) !! g' = reservations (locks w k) !! g') ∧
  Q (time w) (time w') g (reservations (locks w k) !! g) (reservations (locks w' k) !! g) v.

Hypothesis visit_spec : ∀ g w, wp (visit g) (visited g w) w.

Lemma wp_visits keys w :
  NoDup keys →
  wp (mapM visit keys) (λ vs w', lock_op k w w' ∧ out w' = out w ∧
    (∀ g, g ∉ keys → reservations (locks w' k) !! g = reservations (locks w k) !! g) ∧
    Forall2 (λ g v, Q (time w) (time w') g (reservations (locks w k) !! g)
                      (reservations (locks w' k) !! g) v) keys vs) w.
Proof.
  revert w. induction keys as [|g keys IH]; intros w Hnd; simpl.
  { apply wp_ret. split; [done|]. split; [done|]. split; [done|constructor]. }
  inversion_clear Hnd as [|? ? Hg Hnd'].
  apply wp_bind. eapply wp_mono; [apply visit_spec|]. intros v w1 (H1 & O1 & F1 & Q1).
  apply wp_bind. eapply wp_mono; [by apply IH|]. intros vs w2 (H2 & O2 & F2 & Q2).
  apply wp_ret. pose proof (op_time _ _ _ H1). pose proof (op_time _ _ _ H2).
  split; [by etrans|]. split; [congruence|]. split.
  - intros g' Hg'. rewrite not_elem_of_cons in Hg'. destruct Hg'. by rewrite F2, F1.
  - constructor.
    + rewrite F2 by done. by eapply Q_mono; [| |exact Q1].
    + eapply Forall2_impl_in; [exact Q2|]. intros g' v' Hin HQ. rewrite <-(F1 g') by (intros ->; done).
      by eapply Q_mono; [| |exact HQ].
Qed.
End Visits.

(** What a cleanup run leaves and reports, [expired] being the ids it announces. *)
Record cleaned (E : Env) (k : LockKind) (w w' : World) (expired : list Z) : Prop := {
  cleaned_kept g r :
    reservations (locks w k) !! g = Some r → active_at (time w') r →
    reservations (locks w' k) !! g = Some r;
  cleaned_left g r :
    reservations (locks w' k) !! g = Some r →
    reservations (locks w k) !! g = Some r ∧ active_at (time w) r;
  cleaned_told g :
    g ∈ expired → ∃ r, reservations (locks w k) !! g = Some r ∧
      GameReservation.Status r = ReservationStatusActive ∧ GameReservation.ExpiresAt r < time w';
  cleaned_all g r :
    reservations (locks w k) !! g = Some r →
    GameReservation.Status r = ReservationStatusActive → GameReservation.ExpiresAt r < time w →
    g ∈ expired;
  cleaned_once : NoDup expired }.

Lemma cleaned_out E k w w' o l : cleaned E k w w' l → cleaned E k w (set_out o w') l.
Proof. by intros []. Qed.

Lemma cleaned_drops `{E : Env} `{!ClockMono E} k w w' l :
  lock_op k w w' → cleaned E k w w' l → drops k w w'.
Proof. intros Hop Hc. split; [done|]. intros g r Hr _. by eapply cleaned_left. Qed.

Section CleanupSpec.
Context `{E : Env} `{!ClockMono E}.

(** What a round does to the entry of [g]; [v] lists [g] when the round reports it. *)
Definition swept (t t' g : Z) (before after : option GameReservation.t) (v : list Z) : Prop :=
  match before with
  | None => after = None ∧ v = []
  | Some r =>
      (GameReservation.Status r = ReservationStatusActive ∧ GameReservation.ExpiresAt r < t' ∧
       after = None ∧ v = [g]) ∨
      (¬ active_at t' r ∧
       ¬ (GameReservation.Status r = ReservationStatusActive ∧ GameReservation.ExpiresAt r < t) ∧
       after = None ∧ v = []) ∨
      (active_at t r ∧ after = Some r ∧ v = [])
  end.

Lemma swept_mono t t1 t1' t' g b a v :
  t ≤ t1 → t1' ≤ t' → swept t1 t1' g b a v → swept t t' g b a v.
Proof.
  intros H1 H2. unfold swept, active_at. destruct b as [r|]; [|done].
  intros [(?&?&?&?)|[(?&?&?&?)|([]&?&?)]]; [left|right; left|right; right];
    (split_and!; [..|done|done]); try done; try lia; intros []; eauto with lia.
Qed.

Lemma wp_expireEntry k g w :
  wp (expireEntry k g) (visited k (λ t t' g before after (e : bool),
    match before with
    | None => after = None ∧ e = false
    | Some r =>
        if e then GameReservation.Status r = ReservationStatusActive ∧
                  GameReservation.ExpiresAt r < t' ∧
                  after = Some (GameReservation.set_Status ReservationStatusExpired r)
        else after = Some r ∧
             ¬ (GameReservation.Status r = ReservationStatusActive ∧
                GameReservation.ExpiresAt r < t)
    end) g w) w.
Proof.
  apply wp_bind, wp_gets. destruct (reservations (locks w k) !! g) as [r|] eqn:Hr.
  2:{ apply wp_ret. split; [done|]. split; [done|]. split; [done|]. by rewrite Hr. }
  case_bool_decide as Hs.
  2:{ apply wp_ret. split; [done|]. split; [done|]. split; [done|]. rewrite Hr. naive_solver. }
  apply wp_bind. unfold wp at 1. simpl. pose proof (later_tick w) as Ht.
  destruct (GameReservation.IsExpired (time w) r) eqn:He;
    unfold GameReservation.IsExpired in He; [apply Z.ltb_lt in He|apply Z.ltb_ge in He].
  - apply wp_bind, wp_modify, wp_ret.
    split; [etrans; [by apply later_op|]|].
    { exact (retire_op k _ g r (set_ticks (S (ticks w)) w) expired_ne_active Hr). }
    split; [done|]. simpl.
    rewrite decide_True by done. split.
    + intros g' Hg'. simpl. by rewrite lookup_insert_ne.
    + rewrite Hr. simpl. rewrite lookup_insert_eq.
      pose proof (later_time _ _ Ht). split; [done|]. split; [|done].
      eapply Z.lt_le_trans; [exact He|done].
  - apply wp_ret. split; [by apply later_op|]. split; [done|]. split; [done|].
    simpl. rewrite Hr. split; [done|]. intros []. lia.
Qed.

Lemma wp_entryDead k g w :
  wp (entryDead k g) (λ d w', later w w' ∧
    d = match reservations (locks w k) !! g with
        | Some r => negb (GameReservation.IsActive (time w) r)
        | None => false
        end) w.
Proof.
  apply wp_bind, wp_gets. destruct (reservations (locks w k) !! g) as [r|].
  - apply wp_bind, wp_readActive. intros w' Hw'. by apply wp_ret.
  - by apply wp_ret.
Qed.

Lemma wp_sweepVisit k g w : wp (sweepVisit k g) (visited k swept g w) w.
Proof.
  apply wp_bind. eapply wp_mono; [apply wp_expireEntry|]. intros e w1 (H1 & O1 & F1 & S1).
  apply wp_bind. eapply wp_mono; [apply wp_entryDead|]. intros d w2 [H2 ->].
  pose proof (op_time _ _ _ H1) as T1. pose proof (later_time _ _ H2) as T2.
  assert (lock_op k w w2) as H02 by (etrans; [exact H1|by apply later_op]).
  destruct (reservations (locks w k) !! g) as [r|] eqn:Hr.
  2:{ destruct S1 as [S1 ->]. rewrite S1. apply wp_bind, wp_ret, wp_ret.
      split; [done|]. rewrite (later_out _ _ H2), (later_lock _ _ k H2), Hr.
      split; [done|]. done. }
  assert (∀ w3, w3 = set_lock k (forget g (locks w2 k)) w2 →
    lock_op k w w3 ∧ out w3 = out w ∧
    (∀ g', g' ≠ g → reservations (locks w3 k) !! g' = reservations (locks w k) !! g') ∧
    reservations (locks w3 k) !! g = None ∧ time w3 = time w2) as Hforget.
  { intros w3 ->. split; [etrans; [exact H02|apply forget_op]|].
    simpl. rewrite decide_True by done. simpl.
    split; [by rewrite (later_out _ _ H2)|]. split.
    - intros g' Hg'. rewrite lookup_delete_ne by done. rewrite (later_lock _ _ k H2). auto.
    - by rewrite lookup_delete_eq. }
  destruct e.
  - destruct S1 as (Hs & He & ->). simpl.
    apply wp_bind, wp_bind, wp_gets, wp_modify, wp_ret.
    destruct (Hforget _ eq_refl) as (? & ? & ? & Hn & Ht).
    split; [done|]. split; [done|]. split; [done|]. rewrite Hr, Hn, Ht. left. split_and!; try done. lia.
  - destruct S1 as [Heq Hne]. rewrite Heq. destruct (GameReservation.IsActive (time w1) r) eqn:Ha; simpl.
    + apply IsActive_spec in Ha. apply wp_bind, wp_ret, wp_ret.
      split; [done|]. rewrite (later_out _ _ H2), (later_lock _ _ k H2), Hr.
      split; [done|]. split; [done|]. right; right. split; [by eapply active_at_mono|].
      by rewrite Heq.
    + apply IsActive_false in Ha. apply wp_bind, wp_bind, wp_gets, wp_modify, wp_ret.
      destruct (Hforget _ eq_refl) as (? & ? & ? & Hn & Ht).
      split; [done|]. split; [done|]. split; [done|]. rewrite Hr, Hn, Ht.
      right; left. split_and!; try done. intros Ha'. apply Ha. by eapply active_at_mono.
Qed.

(** The keys of one map walk, each once. *)
Lemma rangeKeys_spec `{!RangePerm E} {V} (m : gmap Z V) w :
  wp (rangeKeys m) (λ keys w', later w w' ∧ NoDup keys ∧
    ∀ g, g ∈ keys ↔ is_Some (m !! g)) w.
Proof.
  unfold wp, rangeKeys. simpl. split; [done|]. split.
  - rewrite range_perm. apply NoDup_fst_map_to_list.
  - intros g. rewrite range_perm, list_elem_of_fmap. split.
    + intros ([g' v] & -> & ?%elem_of_map_to_list). eauto.
    + intros [v Hv]. exists (g, v). split; [done|]. by apply elem_of_map_to_list.
Qed.

(** The reports of the rounds, each reporting its own key or nothing. *)
Lemma reports_spec keys (vs : list (list Z)) (P : Z → list Z → Prop) :
  NoDup keys → Forall2 P keys vs → (∀ g v, P g v → v = [] ∨ v = [g]) →
  NoDup (mjoin vs) ∧
  (∀ g, g ∈ mjoin vs → g ∈ keys ∧ P g [g]) ∧
  (∀ g, g ∈ keys → (g ∈ mjoin vs ∧ P g [g]) ∨ (g ∉ mjoin vs ∧ P g [])) ∧
  (∀ g, g ∈ keys → ¬ P g [] → g ∈ mjoin vs).
Proof.
  intros Hnd HP Hv. induction HP as [|g v keys vs Hg HP IH]; simpl.
  { split; [constructor|]. set_solver. }
  inversion_clear Hnd as [|? ? Hnin Hnd']. destruct (IH Hnd') as (I1 & I2 & I3 & I4).
  assert (g ∉ mjoin vs) by (intros [? _]%I2; done).
  destruct (Hv _ _ Hg) as [->| ->]; simpl; setoid_rewrite elem_of_cons.
  - split; [done|]. split; [intros ? []%I2; auto|].
    split; intros g' [->|?]; auto. intros []. done.
  - split; [by constructor|]. split; [intros g' [->|[]%I2]; auto|].
    split; intros g' [->|Hg']; auto. destruct (decide (g' = g)) as [->|]; [done|].
    destruct (I3 g' Hg') as [[? ?]|[? ?]]; [auto|]. right. split; [|done]. by intros [].
Qed.

(** A key is among the reports exactly when its own round reported it. *)
Lemma reports_mem keys (vs : list (list Z)) :
  NoDup keys → Forall2 (λ g v, v = [] ∨ v = [g]) keys vs →
  Forall2 (λ g v, g ∈ mjoin vs ↔ v ≠ []) keys vs.
Proof.
  intros Hnd HF. assert (∀ g, g ∈ mjoin vs → g ∈ keys) as Hin.
  { intros g Hg. destruct (reports_spec _ _ _ Hnd HF) as (_ & Ht & _); [done|].
    by destruct (Ht g Hg). }
  revert Hin. induction HF as [|g v keys vs Hv HF IH]; [constructor|]. simpl. intros Hin.
  inversion_clear Hnd as [|? ? Hnin Hnd'].
  assert (∀ g', g' ∈ mjoin vs → g' ∈ keys) as Hin'.
  { intros g' Hg'. destruct (reports_spec _ _ _ Hnd' HF) as (_ & Ht & _); [done|].
    by destruct (Ht g' Hg'). }
  constructor.
  - rewrite elem_of_app. split; [intros [Hg|Hg] ->; [set_solver|by apply Hin' in Hg]|].
    destruct Hv as [->| ->]; [done|set_solver].
  - eapply Forall2_impl_in; [by apply IH|]. intros g' v' Hg' <-. rewrite elem_of_app.
    split; [intros [Hg|?]; [|done]|auto]. destruct Hv as [->| ->]; set_solver.
Qed.

Lemma swept_cleaned k w w' keys vs :
  time w ≤ time w' → NoDup keys →
  (∀ g, g ∈ keys ↔ is_Some (reservations (locks w k) !! g)) →
  (∀ g, g ∉ keys → reservations (locks w' k) !! g = reservations (locks w k) !! g) →
  Forall2 (λ g v, swept (time w) (time w') g (reservations (locks w k) !! g)
                    (reservations (locks w' k) !! g) v) keys vs →
  cleaned E k w w' (mjoin vs).
Proof.
  intros Ht Hnd Hkeys Hrest HF.
  destruct (reports_spec _ _ _ Hnd HF) as (Honce & Htold & Hcase & Hall).
  { intros g v. unfold swept. destruct (reservations (locks w k) !! g); naive_solver. }
  assert (∀ g, reservations (locks w k) !! g = None → reservations (locks w' k) !! g = None)
    as Hnone.
  { intros g Hg. rewrite Hrest; [done|]. rewrite Hkeys, Hg. by intros []. }
  constructor; [| | | |done].
  - intros g r Hr Ha. destruct (Hcase g) as [[_ Hs]|[_ Hs]]; [by apply Hkeys|..];
      unfold swept in Hs; rewrite Hr in Hs; destruct_or!; destruct_and!;
      try done; destruct Ha; lia.
  - intros g r Hr'. destruct (reservations (locks w k) !! g) as [r0|] eqn:Hr.
    2:{ apply Hnone in Hr. congruence. }
    destruct (Hcase g) as [[_ Hs]|[_ Hs]]; [by apply Hkeys|..];
      unfold swept in Hs; rewrite Hr in Hs; destruct_or!; destruct_and!; naive_solver.
  - intros g [Hg Hs]%Htold. apply Hkeys in Hg as [r Hr]. exists r.
    unfold swept in Hs. rewrite Hr in Hs. naive_solver.
  - intros g r Hr Hst He. apply Hall; [by apply Hkeys|]. intros Hs.
    unfold swept in Hs. rewrite Hr in Hs. unfold active_at in Hs.
    destruct_or!; destruct_and!; try done; [tauto|lia].
Qed.

Lemma wp_sweep `{!RangePerm E} k w :
  wp (sweep k) (λ expired w', lock_op k w w' ∧ out w' = out w ∧ cleaned E k w w' expired) w.
Proof.
  apply wp_bind, wp_gets, wp_bind. eapply wp_mono; [apply rangeKeys_spec|].
  intros keys w1 (H1 & Hnd & Hkeys). apply wp_bind.
  eapply wp_mono; [apply (wp_visits k (sweepVisit k) swept swept_mono (wp_sweepVisit k)), Hnd|].
  intros vs w2 (H2 & O2 & F2 & Q2). apply wp_ret.
  assert (lock_op k w w2) as H02 by (etrans; [by apply later_op|done]).
  split; [done|]. split; [by rewrite O2, (later_out _ _ H1)|].
  rewrite !(later_lock _ _ k H1) in *.
  eapply swept_cleaned; [by eapply op_time|done..|].
  eapply Forall2_impl; [exact Q2|]. intros g v. apply swept_mono; [by apply later_time|done].
Qed.

(** *** Announcing what expired *)

(** A loop that only appends to the trace, by an amount that depends on the
    configuration alone. *)
Lemma wp_announce k (body : Z → M unit) (f : LockUC → Z → list Effect) l w :
  (∀ g w, wp (body g) (λ _ w', w' = set_out (out w ++ f (locks w k) g) w) w) →
  wp (for_each l body) (λ _ w', w' = set_out (out w ++ mjoin (f (locks w k) <$> l)) w) w.
Proof.
  intros Hb. revert w. induction l as [|g l IH]; intros w; simpl.
  { apply wp_ret. rewrite app_nil_r. by destruct w. }
  apply wp_bind. eapply wp_mono; [apply Hb|]. intros _ w1 ->.
  eapply wp_mono; [apply IH|]. intros _ w' ->. simpl. by rewrite app_assoc.
Qed.
End CleanupSpec.
