(* ===== verification/Reservation.v ===== *)
(** * Join reservations (internal/usecase/reservation.go)

    Short-lived locks on a game that waits for an opponent.  [Reserve] is split where
    the code takes its mutex: [reserveCheck] runs outside, [reserveLocked] inside. *)
From S2P Require Import Prelude GoTypes Entity World LockSpec Store Repo Locks LockOps.

Module Reservation.
Section Reservation.
Context `{E : Env} {R : GameRepository}.

Definition NewReservationUseCase (hasRepo hasBroadcast : bool)
    (cfgMaxPerWallet cfgTimeoutSeconds cfgCleanupIntervalSeconds : Z) : LockUC :=
  newLockUC 60 3 hasRepo false hasBroadcast
    cfgMaxPerWallet cfgTimeoutSeconds cfgCleanupIntervalSeconds.

Definition GetReservation (gameID : Z) : M (result (option GameReservation.t)) :=
  getActive JoinLock gameID.

(** *** Reserve *)

Section Reserve.
Context {CancelGet : LockService}.   (* uc.cancelReservationUC.Get *)

Definition reserveCheck (gameID : Z) (walletAddress : string) : M (result unit) :=
  let normalizedWalletAddress := normalizeReservationWallet walletAddress in
  found <-? GetByID gameID ;;
  match found with
  | None => fail ErrGameNotAvailable
  | Some game =>
      if negb (Game.Status game =? GameStatusWaitingForOpponent) then
        fail ErrGameNotAvailable
      else if sameReservationWallet (Game.PlayerOneAddress game) normalizedWalletAddress then
        fail ErrCannotReserveOwnGame
      else
        uc ← getLock JoinLock;
        if has_peer uc then
          whenFree CancelGet gameID
            (_ ← record JoinLock (RecordError "cancel_pending");
             fail ErrGameCancellationPending)
        else mret (Ok tt)
  end.

Definition reserveLocked (gameID : Z) (walletAddress : string) :
    M (result GameReservation.t) :=
  let normalizedWalletAddress := normalizeReservationWallet walletAddress in
  uc ← getLock JoinLock;
  existing ← lookupActive (reservations uc) gameID;
  match existing with
  | Some _ => fail ErrGameAlreadyReserved
  | None =>
      activeCount ← countActive (reservations uc)
                      (index_of (walletReservations uc) normalizedWalletAddress);
      if maxPerWallet uc <=? activeCount then fail ErrTooManyReservations
      else
        now ← Now;
        let reservation := newReservation gameID walletAddress now uc in
        _ ← putLock JoinLock (storeReservation normalizedWalletAddress reservation uc);
        _ ← record JoinLock RecordCreated;
        _ ← notify JoinLock (ReservationCreated reservation);
        mret (Ok reservation)
  end.

Definition Reserve (gameID : Z) (walletAddress : string) : M (result GameReservation.t) :=
  _ <-? reserveCheck gameID walletAddress ;;
  reserveLocked gameID walletAddress.
End Reserve.

(** *** ListByWallet *)

Definition isReservationGameAvailable (gameID : Z) : M (result bool) :=
  gameInStatus JoinLock GameStatusWaitingForOpponent gameID.

Definition releaseStaleReservation (gameID : Z) : M unit :=
  uc ← getLock JoinLock;
  match reservations uc !! gameID with
  | None => mret tt
  | Some r => putLock JoinLock (discard gameID r uc)
  end.

Definition ListByWallet (walletAddress : string) : M (result (list GameReservation.t)) :=
  listByWallet JoinLock GameStatusWaitingForOpponent releaseStaleReservation walletAddress.

(** *** Cancel and ReleaseOnJoin *)

Definition Cancel (gameID : Z) (walletAddress : string) : M (result unit) :=
  let normalizedWalletAddress := normalizeReservationWallet walletAddress in
  uc ← getLock JoinLock;
  found ← lookupActive (reservations uc) gameID;
  match found with
  | None => fail ErrReservationNotFound
  | Some reservation =>
      if negb (sameReservationWallet (GameReservation.WalletAddress reservation)
                 normalizedWalletAddress) then fail ErrNotReservationHolder
      else
        _ ← putLock JoinLock (retire ReservationStatusReleased gameID reservation uc);
        _ ← record JoinLock RecordCancelled;
        _ ← notify JoinLock (ReservationReleased gameID "cancelled");
        mret (Ok tt)
  end.

Definition ReleaseOnJoin (gameID : Z) : M unit :=
  uc ← getLock JoinLock;
  found ← lookupActive (reservations uc) gameID;
  match found with
  | None => mret tt
  | Some reservation =>
      _ ← putLock JoinLock (retire ReservationStatusReleased gameID reservation uc);
      _ ← record JoinLock RecordJoined;
      _ ← notify JoinLock (ReservationReleased gameID "joined");
      mret tt
  end.

(** *** CleanupExpired *)

(** One round of the range loop: the ids it appends to [expiredGames] and to
    [staleGameIDs]. *)
Definition cleanupVisit (gameID : Z) : M (list Z * list Z) :=
  expired ← expireEntry JoinLock gameID;
  dead ← entryDead JoinLock gameID;
  mret (if (expired : bool) then [gameID] else [], if (dead : bool) then [gameID] else []).

Definition removeStale (gameID : Z) : M unit :=
  uc ← getLock JoinLock; putLock JoinLock (forget gameID uc).

Definition announceExpired (gameID : Z) : M unit :=
  _ ← notify JoinLock (ReservationReleased gameID "expired");
  record JoinLock RecordExpired.

Definition CleanupExpired : M unit :=
  uc ← getLock JoinLock;
  keys ← rangeKeys (reservations uc);
  visits ← mapM cleanupVisit keys;
  let expiredGames := mjoin (fst <$> visits) in
  let staleGameIDs := mjoin (snd <$> visits) in
  _ ← for_each staleGameIDs removeStale;
  for_each expiredGames announceExpired.

Definition GetActiveCount : M Z :=
  uc ← getLock JoinLock; activeCount (reservations uc).

Definition StopCleanupLoop : M unit := stopCleanupLoop JoinLock.
Definition SetMetrics : LockUC → LockUC := setMetrics.
Definition SetCancelReservationUseCase : LockUC → LockUC := setPeer.
End Reservation.

#[export] Instance service `{E : Env} : LockService := GetReservation.
#[export] Instance service_laws `{E : Env} `{!ClockMono E} :
  LockServiceLaws E JoinLock service := getActive_laws JoinLock.
End Reservation.

(** ** Correctness *)

Section Proofs.
Context `{E : Env} `{!ClockMono E} {R : GameRepository} `{!GameRepositoryLaws E R}.
Import Reservation.

(** *** Reserve *)

(** The game waits for an opponent, is not the caller's own, and no cancel lock on it
    is active when the check ends in [w']. *)
Definition admitted (g : Z) (a : string) (w w' : World) : Prop :=
  ∃ game, games (tables w) !! g = Some game ∧
    Game.Status game = GameStatusWaitingForOpponent ∧
    normalizeReservationWallet (Game.PlayerOneAddress game) ≠ normalizeReservationWallet a ∧
    (has_peer (locks w JoinLock) = true → view (time w') (locks w' CancelLock) !! g = None).

(** Why [Reserve] may refuse, error by error. *)
Inductive refused (g : Z) (a : string) (w : World) : error → Prop :=
| refused_repository e : (GetByID g w).1 = Err e → refused g a w e
| refused_status :
    (∀ game, games (tables w) !! g = Some game →
       Game.Status game ≠ GameStatusWaitingForOpponent) →
    refused g a w (ESentinel ErrGameNotAvailable)
| refused_own game :
    games (tables w) !! g = Some game →
    normalizeReservationWallet (Game.PlayerOneAddress game) = normalizeReservationWallet a →
    refused g a w (ESentinel ErrCannotReserveOwnGame)
| refused_cancelling :
    has_peer (locks w JoinLock) = true →
    live (reservations (locks w CancelLock)) (time w) g →
    refused g a w (ESentinel ErrGameCancellationPending)
| refused_reserved :
    live (reservations (locks w JoinLock)) (time w) g →
    refused g a w (ESentinel ErrGameAlreadyReserved)
| refused_limit :
    maxPerWallet (locks w JoinLock) ≤ counted JoinLock a (time w) w →
    refused g a w (ESentinel ErrTooManyReservations).

Lemma wp_reserveCheck {CancelGet : LockService} `{!LockServiceLaws E CancelLock CancelGet} g a w :
  wp (reserveCheck g a) (λ r w', unchanged JoinLock w w' ∧
    match r with
    | Ok _ => later w w' ∧ admitted g a w w'
    | Err e => refused g a w e
    end) w.
Proof.
  unfold reserveCheck. apply wp_rbind. unfold wp at 1.
  pose proof (GetByID_quiet g w) as Hq. pose proof (GetByID_found g w) as Hf.
  pose proof (GetByID_absent g w) as Ha. unfold admitted.
  destruct (GetByID g w) as [[[game|]|e] w1] eqn:Hget; simpl in *.
  2: { split; [by apply later_unchanged|]. apply refused_status. by rewrite Ha. }
  2: { split; [by apply later_unchanged|]. apply refused_repository. by rewrite Hget. }
  specialize (Hf game eq_refl).
  destruct (Z.eqb_spec (Game.Status game) GameStatusWaitingForOpponent) as [Hst|]; simpl.
  2: { split; [by apply later_unchanged|]. apply refused_status. naive_solver. }
  destruct (sameReservationWallet _ _) eqn:Hsame.
  { split; [by apply later_unchanged|]. apply sameReservationWallet_spec in Hsame.
    by eapply refused_own. }
  apply not_true_iff_false in Hsame. rewrite sameReservationWallet_spec in Hsame.
  apply wp_bind, wp_gets. rewrite (later_lock _ _ _ Hq).
  destruct (has_peer (locks w JoinLock)) eqn:Hpeer.
  2: { split; [by apply later_unchanged|]. split; [done|]. exists game. by split_and!. }
  eapply wp_whenFree; [done| |].
  - intros w' Hw' Hlive. apply wp_bind, wp_record, wp_ret.
    split; [apply emit_unchanged; by etrans|]. apply refused_cancelling; [done|].
    rewrite (later_lock _ _ _ Hq) in Hlive. eapply live_mono; [|done]. by apply later_time.
  - intros w' Hw' Hfree. assert (later w w') by (by etrans).
    split; [by apply later_unchanged|]. split; [done|]. exists game. by split_and!.
Qed.

(** What a successful reservation is: the record the caller gets is stored, its fields
    are the arguments and the configuration, the game was free when it was created,
    and one metric and one broadcast were issued. *)
Record reserved (g : Z) (a : string) (w w' : World) (r : GameReservation.t) : Prop := {
  reserved_stored : reservations (locks w' JoinLock) !! g = Some r;
  reserved_fields :
    r = newReservation g a (GameReservation.CreatedAt r) (locks w JoinLock);
  reserved_time : time w ≤ GameReservation.CreatedAt r ≤ time w';
  reserved_others g' : g' ≠ g →
    reservations (locks w' JoinLock) !! g' = reservations (locks w JoinLock) !! g';
  reserved_free : view (GameReservation.CreatedAt r) (locks w JoinLock) !! g = None;
  reserved_room :
    counted JoinLock a (GameReservation.CreatedAt r) w < maxPerWallet (locks w JoinLock);
  reserved_out : out w' = out w ++ measured JoinLock RecordCreated w
                                ++ notified JoinLock (ReservationCreated r) w }.

Lemma wp_reserveLocked g a w :
  wp (reserveLocked g a) (λ res w', lock_op JoinLock w w' ∧
    match res with
    | Ok r => reserved g a w w' r
    | Err e => locks w' = locks w ∧ ∀ w0, later w0 w → refused g a w0 e
    end) w.
Proof.
  assert (∀ w0 t, later w0 w → t = time w → time w0 ≤ t) as Ht
    by (intros w0 t Hl ->; by apply later_time).
  apply (wp_critical JoinLock g a (λ _, fail ErrGameAlreadyReserved)
    (fail ErrTooManyReservations) (λ r, _ ← record JoinLock RecordCreated;
        _ ← notify JoinLock (ReservationCreated r); mret (Ok r))).
  - intros r w' Hw' Hr Ha. apply wp_ret. split; [by apply later_op|].
    split; [by apply later_locks|].
    intros w0 H0. apply refused_reserved. rewrite (later_lock _ _ _ H0) in Hr.
    unfold live. rewrite Hr. eapply active_at_mono; [by apply (Ht w0)|done].
  - intros w' Hw' _ Hm. apply wp_ret. split; [by apply later_op|].
    split; [by apply later_locks|].
    intros w0 H0. apply refused_limit. unfold counted in *.
    rewrite (later_lock _ _ _ H0) in Hm. etrans; [exact Hm|]. apply inj_le.
    apply length_filter_live_mono. by apply (Ht w0).
  - intros now w' Hw' Hnow Hfree Hroom r w2 Hop.
    apply wp_bind, wp_record, wp_bind, wp_notify, wp_ret.
    split; [etrans; [exact Hop|]; etrans; apply emit_op|].
    constructor; simpl; try done.
    + unfold w2. simpl. by rewrite lookup_insert_eq.
    + intros g' Hg'. unfold w2. simpl. by rewrite lookup_insert_ne.
    + apply view_lookup_None. intros Hl. apply Hfree. eapply live_mono; [|done]. lia.
    + unfold notified, measured, w2. simpl.
      by rewrite (later_out _ _ Hw'), <-app_assoc.
Qed.

Lemma reserved_later g a w w1 w' r :
  later w w1 → reserved g a w1 w' r → reserved g a w w' r.
Proof.
  intros Hl [H1 H2 H3 Ho H4 H5 H6]. pose proof (later_time _ _ Hl).
  unfold counted, measured, notified in *.
  rewrite !(later_lock _ _ _ Hl) in *. rewrite (later_out _ _ Hl) in H6.
  constructor; try done. lia.
Qed.

Lemma admitted_later g a w w1 w' :
  later w w1 → lock_op JoinLock w1 w' → admitted g a w w1 → admitted g a w w'.
Proof.
  intros Hl Hop (game & Hg & Hs & Hown & Hfree). exists game. split_and!; [done..|].
  intros Hp. specialize (Hfree Hp). rewrite (op_others _ _ _ Hop) by done.
  rewrite view_lookup_None in *. intros Hlive. apply Hfree.
  eapply live_mono; [|done]. by eapply op_time.
Qed.

Lemma wp_Reserve {CancelGet : LockService} `{!LockServiceLaws E CancelLock CancelGet} g a w :
  wp (Reserve g a) (λ res w', lock_op JoinLock w w' ∧
    match res with
    | Ok r => admitted g a w w' ∧ reserved g a w w' r
    | Err e => locks w' = locks w ∧ refused g a w e
    end) w.
Proof.
  unfold Reserve. apply wp_rbind. eapply wp_mono; [apply wp_reserveCheck|].
  intros [u|e] w1 [[H1 L1] Hc]; [|done]. destruct Hc as [Hl Hadm].
  eapply wp_mono; [apply wp_reserveLocked|]. intros [r|e] w2 [H2 Hr].
  - split; [by etrans|]. split; [by eapply admitted_later|by eapply reserved_later].
  - destruct Hr as [L2 Hr]. split; [by etrans|]. split; [congruence|auto].
Qed.

(** *** Releasing *)

Lemma wp_Cancel g a w :
  wp (Cancel g a) (λ res w',
    match res with
    | Ok _ => dropped JoinLock g RecordCancelled (ReservationReleased g "cancelled") w w' ∧
              ∃ r, reservations (locks w JoinLock) !! g = Some r ∧ active_at (time w) r ∧
                normalizeReservationWallet (GameReservation.WalletAddress r) =
                normalizeReservationWallet a
    | Err e => later w w' ∧
        ((e = ESentinel ErrReservationNotFound ∧
          ¬ live (reservations (locks w JoinLock)) (time w) g) ∨
         (e = ESentinel ErrNotReservationHolder ∧
          ∃ r, reservations (locks w JoinLock) !! g = Some r ∧ active_at (time w) r ∧
            normalizeReservationWallet (GameReservation.WalletAddress r) ≠
            normalizeReservationWallet a))
    end) w.
Proof.
  apply (wp_find JoinLock g (λ uc found, match found with None => _ | Some r => _ end)).
  { intros w' Hl Hn. apply wp_ret. auto. }
  intros r w' Hl Hr Ha. destruct (sameReservationWallet _ _) eqn:Hs; simpl.
  - apply sameReservationWallet_spec in Hs. eapply wp_retire; [done..|]. eauto 10.
  - apply not_true_iff_false in Hs. rewrite sameReservationWallet_spec in Hs.
    apply wp_ret. split; [done|]. right. eauto.
Qed.

Lemma wp_ReleaseOnJoin g w :
  wp (ReleaseOnJoin g) (λ _ w',
    (¬ live (reservations (locks w JoinLock)) (time w) g ∧ later w w') ∨
    (live (reservations (locks w JoinLock)) (time w) g ∧
     dropped JoinLock g RecordJoined (ReservationReleased g "joined") w w')) w.
Proof.
  apply (wp_find JoinLock g (λ uc found, match found with None => _ | Some r => _ end)).
  { intros w' Hl Hn. apply wp_ret. auto. }
  intros r w' Hl Hr Ha. eapply wp_retire; [done..|]. intros w2 Hd. right.
  split; [|done]. unfold live. by rewrite Hr.
Qed.
(** *** ListByWallet *)

Lemma join_releaseStale_drops g w : drops JoinLock w (releaseStaleReservation g w).2.
Proof.
  unfold releaseStaleReservation, mbind, M_bind, ST_bind, getLock, gets.
  destruct (reservations (locks w JoinLock) !! g) as [r|] eqn:Hr; [|done].
  split; [apply discard_op|apply discard_shrinks].
Qed.

(** *** CleanupExpired *)

(** One visit, and what the later deletion of the stale ids makes of it. *)
Definition visit_swept (t t' g : Z) (before after : option GameReservation.t)
    (v : list Z * list Z) : Prop :=
  swept t t' g before (match v.2 with [] => after | _ => None end) v.1 ∧
  (v.2 = [] ∨ v.2 = [g]).

Lemma wp_cleanupVisit g w : wp (cleanupVisit g) (visited JoinLock visit_swept g w) w.
Proof.
  apply wp_bind. eapply wp_mono; [apply wp_expireEntry|]. intros e w1 (H1 & O1 & F1 & S1).
  apply wp_bind. eapply wp_mono; [apply wp_entryDead|]. intros d w2 [H2 ->].
  pose proof (op_time _ _ _ H1) as T1. pose proof (later_time _ _ H2) as T2.
  apply wp_ret. split; [etrans; [exact H1|by apply later_op]|].
  rewrite (later_out _ _ H2), (later_lock _ _ JoinLock H2).
  split; [done|]. split; [done|].
  destruct (reservations (locks w JoinLock) !! g) as [r|]; unfold visit_swept.
  2: { destruct S1 as [S1 ->]. rewrite S1. split; auto. done. }
  destruct e.
  - destruct S1 as (Hs & He & ->). simpl. split; [|auto]. left. split_and!; try done. lia.
  - destruct S1 as [Heq Hne]. rewrite Heq.
    destruct (GameReservation.IsActive (time w1) r) eqn:Ha; simpl; (split; [|auto]).
    + apply IsActive_spec in Ha. right; right. split; [by eapply active_at_mono|done].
    + apply IsActive_false in Ha. right; left. split_and!; try done.
      intros Ha'. apply Ha. by eapply active_at_mono.
Qed.

Lemma wp_removeStales l w :
  wp (for_each l removeStale) (λ _ w', lock_op JoinLock w w' ∧ out w' = out w ∧
    time w' = time w ∧ ∀ g, reservations (locks w' JoinLock) !! g =
      if bool_decide (g ∈ l) then None else reservations (locks w JoinLock) !! g) w.
Proof.
  revert w. induction l as [|x l IH]; intros w; simpl; [done|].
  apply wp_bind, wp_bind, wp_gets, wp_modify. eapply wp_mono; [apply IH|].
  intros _ w' (H & O & T & F). split; [etrans; [apply forget_op|exact H]|].
  split; [done|]. split; [done|]. intros g. rewrite F. simpl.
  destruct (decide (g = x)) as [->|Hne].
  - rewrite (bool_decide_eq_true_2 (x ∈ x :: l)) by apply list_elem_of_here.
    rewrite lookup_delete_eq. by case_bool_decide.
  - rewrite lookup_delete_ne by done. repeat case_bool_decide; set_solver.
Qed.

Definition expiredNotice (w : World) (gameID : Z) : list Effect :=
  notified JoinLock (ReservationReleased gameID "expired") w ++ measured JoinLock RecordExpired w.

Lemma wp_announceExpired l w :
  wp (for_each l announceExpired)
     (λ _ w', w' = set_out (out w ++ mjoin (expiredNotice w <$> l)) w) w.
Proof.
  apply (wp_announce JoinLock announceExpired (λ uc g,
    (if has_broadcastUC uc then [Broadcast (ReservationReleased g "expired")] else []) ++
    (if has_metrics uc then [Measure JoinLock RecordExpired] else []))).
  intros g w0. apply wp_bind, wp_notify, wp_record. unfold notified, measured. simpl.
  by rewrite <-app_assoc.
Qed.

Lemma wp_CleanupExpired `{!RangePerm E} w :
  wp CleanupExpired (λ _ w', lock_op JoinLock w w' ∧ ∃ expired,
    cleaned E JoinLock w w' expired ∧
    out w' = out w ++ mjoin (expiredNotice w <$> expired)) w.
Proof.
  apply wp_bind, wp_gets, wp_bind. eapply wp_mono; [apply rangeKeys_spec|].
  intros keys w1 (H1 & Hnd & Hkeys). apply wp_bind. eapply wp_mono.
  { apply (wp_visits JoinLock cleanupVisit visit_swept); [|apply wp_cleanupVisit|exact Hnd].
    intros t t1 t1' t' g b a v Ht Ht' [Hs ?]. split; [by eapply swept_mono|done]. }
  intros vs w2 (H2 & O2 & F2 & Q2). apply wp_bind.
  eapply wp_mono; [apply wp_removeStales|]. intros _ w3 (H3 & O3 & T3 & F3).
  eapply wp_mono; [apply wp_announceExpired|]. intros _ w' ->.
  assert (lock_op JoinLock w w3) as H03
    by (etrans; [by apply later_op|]; by etrans; [exact H2|]).
  rewrite !(later_lock _ _ JoinLock H1) in *. pose proof (later_time _ _ H1).
  split; [etrans; [exact H03|apply emit_op]|]. exists (mjoin (fst <$> vs)). split.
  - apply cleaned_out, (swept_cleaned JoinLock w w3 keys); [by eapply op_time|done|done|..].
    + intros g Hg. rewrite F3, F2 by done. case_bool_decide as Hm; [|done].
      destruct (reservations (locks w JoinLock) !! g) eqn:Hr; [|done].
      destruct Hg. apply Hkeys. by rewrite Hr.
    + assert (Forall2 (λ g v, v = [] ∨ v = [g]) keys (snd <$> vs)) as Hst.
      { apply Forall2_fmap_r. eapply Forall2_impl; [exact Q2|]. by intros g v []. }
      pose proof (reports_mem _ _ Hnd Hst) as Hmem. apply Forall2_fmap_r in Hmem.
      apply Forall2_fmap_r. eapply Forall2_impl; [exact (Forall2_conj _ _ _ _ Q2 Hmem)|].
      intros g v [[Hs Hv] Hm]. simpl in *. rewrite F3, T3.
      eapply (swept_mono _ (time w1)); [done|done|].
      destruct (decide (v.2 = [])) as [He|Hne].
      * rewrite bool_decide_eq_false_2 by tauto. by rewrite He in Hs.
      * rewrite bool_decide_eq_true_2 by tauto. by destruct (v.2).
  - simpl. rewrite O3, O2, (later_out _ _ H1).
    assert (∀ g, expiredNotice w3 g = expiredNotice w g) as Hn.
    { intros g. unfold expiredNotice, notified, measured.
      by rewrite (op_config _ _ _ H03). }
    f_equal. f_equal. apply list_fmap_ext. auto.
Qed.

(** *** Properties *)

Section ReserveTheorems.
Context {CancelGet : LockService} `{!LockServiceLaws E CancelLock CancelGet}.

Definition reserve_post (g : Z) (a : string) (w : World)
    (res : result GameReservation.t) (w' : World) : Prop :=
  lock_op JoinLock w w' ∧
  match res with
  | Ok r => admitted g a w w' ∧ reserved g a w w' r
  | Err e => locks w' = locks w ∧ refused g a w e
  end.

(** C2: [Reserve] refines the abstract lock table: whatever it returns, the join
    locks only move by abstract acquisitions and releases; a success stores exactly
    the returned reservation for a waiting game of somebody else that was free, with
    room in the wallet and no active cancel lock, and announces it once; an error
    leaves every lock as it was and has the cause the error names. *)
Theorem Reserve_spec g a w : wp (Reserve g a) (reserve_post g a w) w.
Proof. apply wp_Reserve. Qed.

(** [Reserve] never refuses without a cause: a stored waiting game of another
    player, free of cancel and join locks, is reserved for a wallet below its limit
    whenever the repository answers. *)
Theorem Reserve_complete g a w game :
  (GetByID g w).1 = Ok (Some game) →
  Game.Status game = GameStatusWaitingForOpponent →
  normalizeReservationWallet (Game.PlayerOneAddress game) ≠ normalizeReservationWallet a →
  (has_peer (locks w JoinLock) = true →
     view (time w) (locks w CancelLock) !! g = None) →
  view (time w) (locks w JoinLock) !! g = None →
  counted JoinLock a (time w) w < maxPerWallet (locks w JoinLock) →
  ∃ r, (Reserve g a w).1 = Ok r.
Proof.
  intros Hget Hst Hown Hcancel Hfree Hroom. pose proof (GetByID_found _ _ _ Hget) as Hg.
  rewrite view_lookup_None in *.
  destruct (wp_Reserve g a w) as [_ H]. destruct (Reserve g a w).1 as [r|e]; [eauto|].
  destruct H as [_ Hr]. inversion Hr; subst; try congruence; try lia; try done.
  - naive_solver.
  - by destruct Hcancel.
Qed.
End ReserveTheorems.

Definition cancel_post (g : Z) (a : string) (w : World) (res : result unit) (w' : World) :
    Prop :=
  match res with
  | Ok _ => dropped JoinLock g RecordCancelled (ReservationReleased g "cancelled") w w' ∧
            ∃ r, reservations (locks w JoinLock) !! g = Some r ∧ active_at (time w) r ∧
              normalizeReservationWallet (GameReservation.WalletAddress r) =
              normalizeReservationWallet a
  | Err e => later w w' ∧
      ((e = ESentinel ErrReservationNotFound ∧
        view (time w) (locks w JoinLock) !! g = None) ∨
       (e = ESentinel ErrNotReservationHolder ∧
        ∃ r, reservations (locks w JoinLock) !! g = Some r ∧ active_at (time w) r ∧
          normalizeReservationWallet (GameReservation.WalletAddress r) ≠
          normalizeReservationWallet a))
  end.

(** [Cancel] frees a game's join lock for its holder only: it succeeds exactly when
    the lock is active and held by the caller's normalized wallet, then the game is
    free, no other game's lock moves and the release is announced once; otherwise
    nothing changes and the error tells a missing lock from somebody else's. *)
Theorem Cancel_spec g a w : wp (Cancel g a) (cancel_post g a w) w.
Proof.
  eapply wp_mono; [apply wp_Cancel|]. intros [u|e] w'; [done|]. unfold cancel_post.
  by rewrite view_lookup_None.
Qed.

Definition listing_post (a : string) (w : World)
    (res : result (list GameReservation.t)) (w' : World) : Prop :=
  drops JoinLock w w' ∧
  ∀ l, res = Ok l → listed JoinLock GameStatusWaitingForOpponent a w w' l.

(** [ListByWallet] returns, newest first, exactly the active locks under the
    wallet's index entry whose game still waits for an opponent; releasing the others
    is all it does to the lock table. *)
Theorem ListByWallet_spec a w : wp (ListByWallet a) (listing_post a w) w.
Proof. exact (wp_listByWallet _ _ _ join_releaseStale_drops a w). Qed.

Definition cleanup_post `{!RangePerm E} (w w' : World) : Prop :=
  lock_op JoinLock w w' ∧ ∃ expired,
    cleaned E JoinLock w w' expired ∧
    out w' = out w ++ mjoin (expiredNotice w <$> expired).

(** [CleanupExpired] removes no lock that is still active when it ends, leaves no
    entry that was inactive when it started, and announces each expired game once:
    all those past their deadline at the start and none still within it at the end. *)
Theorem CleanupExpired_spec `{!RangePerm E} w : wp CleanupExpired (λ _, cleanup_post w) w.
Proof. apply wp_CleanupExpired. Qed.
End Proofs.

(** ** Witnesses *)

Module ReservationRun.
Import Run.
#[local] Existing Instance Run.ticking.

Definition w0 : World :=
  Run.world (Run.tables_of [Run.game 7 1 "EQalice" None; Run.game 8 1 "EQalice" None]) 3 60.
Definition run {A} (m : M A) (w : World) : World := (m w).2.
Definition w1 : World :=
  run (Reservation.Reserve (CancelGet := getActive CancelLock) 7 " eqBOB ") w0.

Lemma Reserve_spec_witness :
  ∃ r, (Reservation.Reserve (CancelGet := getActive CancelLock) 7 " eqBOB " w0).1 = Ok r ∧
    reserve_post 7 " eqBOB " w0 (Ok r) w1.
Proof.
  pose proof (Reserve_spec (E := Run.ticking) (CancelGet := getActive CancelLock) 7 " eqBOB " w0) as H.
  unfold wp in H. eexists. split; [|exact H]. vm_compute. reflexivity.
Defined.

Lemma Reserve_complete_witness :
  ∃ r, (Reservation.Reserve (CancelGet := getActive CancelLock) 8 "EQbob" w1).1 = Ok r.
Proof.
  apply (Reserve_complete (E := Run.ticking) (CancelGet := getActive CancelLock) 8 "EQbob" w1
           (Run.game 8 1 "EQalice" None)); try (vm_compute; reflexivity).
  vm_compute. discriminate.
Defined.

Lemma Cancel_spec_witness :
  (Reservation.Cancel 7 "eqbob" w1).1 = Ok tt ∧
  cancel_post 7 "eqbob" w1 (Ok tt) (Reservation.Cancel 7 "eqbob" w1).2.
Proof.
  pose proof (Cancel_spec 7 "eqbob" w1) as H. unfold wp in H. split; [|exact H].
  vm_compute. reflexivity.
Defined.

Lemma ListByWallet_spec_witness :
  ∃ r, (Reservation.ListByWallet "EQBOB" w1).1 = Ok [r] ∧ GameReservation.GameID r = 7 ∧
    listing_post "EQBOB" w1 (Ok [r]) (Reservation.ListByWallet "EQBOB" w1).2.
Proof.
  pose proof (ListByWallet_spec "EQBOB" w1) as H. unfold wp in H.
  eexists. split; [|split; [|exact H]]; vm_compute; reflexivity.
Defined.

(** The lock of game 7 has expired at tick 100. *)
Lemma CleanupExpired_spec_witness :
  let w := set_ticks 100 w1 in
  reservations (locks (run Reservation.CleanupExpired w) JoinLock) = ∅ ∧
  cleanup_post w (run Reservation.CleanupExpired w).
Proof.
  split; [vm_compute; reflexivity|exact (CleanupExpired_spec (set_ticks 100 w1))].
Defined.
End ReservationRun.
