(* ===== verification/CancelReservation.v ===== *)
(** * Cancel reservations (internal/usecase/cancel_reservation.go)

    The creator of a waiting game takes a lock on it before cancelling it on chain, so
    that nobody reserves a join meanwhile.  Entries are deleted, never flipped. *)
From S2P Require Import Prelude GoTypes Entity World LockSpec Store Repo Locks LockOps.

Module CancelReservation.
Section CancelReservation.
Context `{E : Env} {R : GameRepository}.

Definition NewCancelReservationUseCase (hasRepo hasReservationUC hasBroadcast : bool)
    (cfgMaxPerWallet cfgTimeoutSeconds cfgCleanupIntervalSeconds : Z) : LockUC :=
  newLockUC 60 3 hasRepo hasReservationUC hasBroadcast
    cfgMaxPerWallet cfgTimeoutSeconds cfgCleanupIntervalSeconds.

Definition recordError (errorType : string) : M unit :=
  record CancelLock (RecordError errorType).

Definition Get (gameID : Z) : M (result (option GameReservation.t)) :=
  getActive CancelLock gameID.

(** *** Reserve *)

Section Reserve.
Context {JoinGet : LockService}.   (* uc.reservationUC.GetReservation *)

Definition reserveCheck (gameID : Z) (walletAddress : string) : M (result unit) :=
  let normalizedWallet := normalizeReservationWallet walletAddress in
  found <-? GetByID gameID ;;
  let unavailable := _ ← recordError "cancel_not_available"; fail ErrCancelNotAvailable in
  match found with
  | None => unavailable
  | Some game =>
      if negb (Game.Status game =? GameStatusWaitingForOpponent) then unavailable
      else if negb (sameReservationWallet (Game.PlayerOneAddress game) normalizedWallet) then
        _ ← recordError "not_game_creator"; fail ErrNotGameCreator
      else
        uc ← getLock CancelLock;
        if has_peer uc then
          whenFree JoinGet gameID
            (_ ← recordError "join_conflict"; fail ErrGameAlreadyReserved)
        else mret (Ok tt)
  end.

Definition reserveLocked (gameID : Z) (walletAddress : string) :
    M (result GameReservation.t) :=
  let normalizedWallet := normalizeReservationWallet walletAddress in
  uc ← getLock CancelLock;
  existing ← lookupActive (reservations uc) gameID;
  match existing with
  | Some _ => _ ← recordError "already_reserved"; fail ErrCancelAlreadyReserved
  | None =>
      activeCount ← countActive (reservations uc)
                      (index_of (walletReservations uc) normalizedWallet);
      if maxPerWallet uc <=? activeCount then
        _ ← recordError "too_many_reservations"; fail ErrTooManyCancelReservations
      else
        now ← Now;
        let reservation := newReservation gameID walletAddress now uc in
        _ ← putLock CancelLock (storeReservation normalizedWallet reservation uc);
        _ ← record CancelLock RecordCreated;
        _ ← notify CancelLock (CancelReservationCreated reservation);
        mret (Ok reservation)
  end.

Definition Reserve (gameID : Z) (walletAddress : string) : M (result GameReservation.t) :=
  _ <-? reserveCheck gameID walletAddress ;;
  reserveLocked gameID walletAddress.
End Reserve.

(** *** ListByWallet *)

Definition isCancelableGameAvailable (gameID : Z) : M (result bool) :=
  gameInStatus CancelLock GameStatusWaitingForOpponent gameID.

Definition releaseStaleReservation (reason : string) (gameID : Z) : M unit :=
  uc ← getLock CancelLock;
  match reservations uc !! gameID with
  | None => mret tt
  | Some r =>
      _ ← putLock CancelLock (discard gameID r uc);
      _ ← record CancelLock RecordResolved;
      _ ← notify CancelLock (CancelReservationReleased gameID reason);
      mret tt
  end.

Definition ListByWallet (walletAddress : string) : M (result (list GameReservation.t)) :=
  listByWallet CancelLock GameStatusWaitingForOpponent (releaseStaleReservation "resolved")
    walletAddress.

(** *** Cancel and ReleaseOnUnavailable *)

Definition Cancel (gameID : Z) (walletAddress : string) : M (result unit) :=
  let normalizedWallet := normalizeReservationWallet walletAddress in
  uc ← getLock CancelLock;
  found ← lookupActive (reservations uc) gameID;
  match found with
  | None => _ ← recordError "not_found"; fail ErrCancelReservationNotFound
  | Some reservation =>
      if negb (sameReservationWallet (GameReservation.WalletAddress reservation)
                 normalizedWallet) then
        _ ← recordError "not_holder"; fail ErrNotCancelReservationHolder
      else
        _ ← putLock CancelLock (discard gameID reservation uc);
        _ ← record CancelLock RecordCancelled;
        _ ← notify CancelLock (CancelReservationReleased gameID "cancelled");
        mret (Ok tt)
  end.

Definition releaseReason (reason : string) : string :=
  if bool_decide (reason = EmptyString) then "resolved" else reason.

Definition ReleaseOnUnavailable (gameID : Z) (reason : string) : M unit :=
  uc ← getLock CancelLock;
  found ← lookupActive (reservations uc) gameID;
  match found with
  | None => mret tt
  | Some reservation =>
      _ ← putLock CancelLock (discard gameID reservation uc);
      _ ← record CancelLock RecordResolved;
      _ ← notify CancelLock (CancelReservationReleased gameID (releaseReason reason));
      mret tt
  end.

(** *** CleanupExpired *)

Definition cleanupVisit (gameID : Z) : M (list Z) :=
  uc ← getLock CancelLock;
  match reservations uc !! gameID with
  | Some r =>
      if bool_decide (GameReservation.Status r = ReservationStatusActive) then
        now ← Now;
        if GameReservation.IsExpired now r then
          _ ← putLock CancelLock (discard gameID r uc); mret [gameID]
        else mret []
      else mret []
  | None => mret []
  end.

Definition announceExpired (gameID : Z) : M unit :=
  _ ← record CancelLock RecordExpired;
  notify CancelLock (CancelReservationReleased gameID "expired").

Definition CleanupExpired : M unit :=
  uc ← getLock CancelLock;
  keys ← rangeKeys (reservations uc);
  expired ← mapM cleanupVisit keys;
  for_each (mjoin expired) announceExpired.

Definition GetActiveCount : M Z :=
  uc ← getLock CancelLock; activeCount (reservations uc).

Definition StopCleanupLoop : M unit := stopCleanupLoop CancelLock.
Definition SetMetrics : LockUC → LockUC := setMetrics.
End CancelReservation.

#[export] Instance service `{E : Env} : LockService := Get.
#[export] Instance service_laws `{E : Env} `{!ClockMono E} :
  LockServiceLaws E CancelLock service := getActive_laws CancelLock.
End CancelReservation.

(** ** Correctness *)

Section Proofs.
Context `{E : Env} `{!ClockMono E} {R : GameRepository} `{!GameRepositoryLaws E R}.
Import CancelReservation.

(** The game waits for an opponent, the caller created it, and no join lock on it is
    active when the check ends in [w']. *)
Definition cancel_admitted (g : Z) (a : string) (w w' : World) : Prop :=
  ∃ game, games (tables w) !! g = Some game ∧
    Game.Status game = GameStatusWaitingForOpponent ∧
    normalizeReservationWallet (Game.PlayerOneAddress game) = normalizeReservationWallet a ∧
    (has_peer (locks w CancelLock) = true → view (time w') (locks w' JoinLock) !! g = None).

(** Why [Reserve] may refuse, with the error metric it records. *)
Inductive cancel_refused (g : Z) (a : string) (w : World) : error → list Metric → Prop :=
| cancel_refused_repository e : (GetByID g w).1 = Err e → cancel_refused g a w e []
| cancel_refused_status :
    (∀ game, games (tables w) !! g = Some game →
       Game.Status game ≠ GameStatusWaitingForOpponent) →
    cancel_refused g a w (ESentinel ErrCancelNotAvailable) [RecordError "cancel_not_available"]
| cancel_refused_creator game :
    games (tables w) !! g = Some game →
    normalizeReservationWallet (Game.PlayerOneAddress game) ≠ normalizeReservationWallet a →
    cancel_refused g a w (ESentinel ErrNotGameCreator) [RecordError "not_game_creator"]
| cancel_refused_joining :
    has_peer (locks w CancelLock) = true →
    live (reservations (locks w JoinLock)) (time w) g →
    cancel_refused g a w (ESentinel ErrGameAlreadyReserved) [RecordError "join_conflict"]
| cancel_refused_reserved :
    live (reservations (locks w CancelLock)) (time w) g →
    cancel_refused g a w (ESentinel ErrCancelAlreadyReserved) [RecordError "already_reserved"]
| cancel_refused_limit :
    maxPerWallet (locks w CancelLock) ≤ counted CancelLock a (time w) w →
    cancel_refused g a w (ESentinel ErrTooManyCancelReservations)
      [RecordError "too_many_reservations"].

Definition measures (k : LockKind) (w : World) (ms : list Metric) : list Effect :=
  mjoin ((λ m, measured k m w) <$> ms).

(** A refusal: the locks are untouched, the error has its cause and its metric. *)
Definition cancel_refusal (g : Z) (a : string) (w w' : World) (e : error) : Prop :=
  locks w' = locks w ∧ ∃ ms, cancel_refused g a w e ms ∧
    out w' = out w ++ measures CancelLock w ms.

Lemma measured_later k m w w' : later w w' → measured k m w' = measured k m w.
Proof. intros Hl. unfold measured. by rewrite (later_lock _ _ _ Hl). Qed.

(** The branches that record a metric and return an error. *)
Lemma wp_refuse {A} g a s kind w w' (Q : result A → World → Prop) :
  later w w' → cancel_refused g a w (ESentinel s) [RecordError kind] →
  (∀ w2, unchanged CancelLock w w2 → unchanged CancelLock w' w2 →
     cancel_refusal g a w w2 (ESentinel s) → Q (Err (ESentinel s)) w2) →
  wp (_ ← recordError kind; fail s) Q w'.
Proof.
  intros Hl Hr HQ. apply wp_bind, wp_record, wp_ret, HQ; [by apply emit_unchanged..|].
  split; [by destruct (emit_unchanged CancelLock (measured CancelLock (RecordError kind) w') w w')|].
  exists [RecordError kind]. split; [done|]. unfold measures. simpl.
  by rewrite app_nil_r, (later_out _ _ Hl), (measured_later _ _ _ _ Hl).
Qed.

Lemma wp_cancel_reserveCheck {JoinGet : LockService} `{!LockServiceLaws E JoinLock JoinGet} g a w :
  wp (reserveCheck g a) (λ r w', unchanged CancelLock w w' ∧
    match r with
    | Ok _ => later w w' ∧ cancel_admitted g a w w'
    | Err e => cancel_refusal g a w w' e
    end) w.
Proof.
  unfold reserveCheck. apply wp_rbind. unfold wp at 1.
  pose proof (GetByID_quiet g w) as Hq. pose proof (GetByID_found g w) as Hf.
  pose proof (GetByID_absent g w) as Ha. unfold cancel_admitted.
  destruct (GetByID g w) as [[[game|]|e] w1] eqn:Hget; simpl in *.
  2: { eapply (wp_refuse g a _ _ w); [done|apply cancel_refused_status; by rewrite Ha|done]. }
  2: { split; [by apply later_unchanged|]. split; [by apply later_locks|]. exists [].
       split; [apply cancel_refused_repository; by rewrite Hget|].
       rewrite (later_out _ _ Hq). symmetry. apply app_nil_r. }
  specialize (Hf game eq_refl).
  destruct (Z.eqb_spec (Game.Status game) GameStatusWaitingForOpponent) as [Hst|]; simpl.
  2: { eapply (wp_refuse g a _ _ w); [done|apply cancel_refused_status; naive_solver|done]. }
  destruct (sameReservationWallet _ _) eqn:Hsame; simpl.
  2: { apply not_true_iff_false in Hsame. rewrite sameReservationWallet_spec in Hsame.
       eapply (wp_refuse g a _ _ w); [done|by eapply cancel_refused_creator|done]. }
  apply sameReservationWallet_spec in Hsame.
  apply wp_bind, wp_gets. rewrite (later_lock _ _ _ Hq).
  destruct (has_peer (locks w CancelLock)) eqn:Hpeer.
  2: { split; [by apply later_unchanged|]. split; [done|]. exists game. by split_and!. }
  eapply wp_whenFree; [done| |].
  - intros w' Hw' Hlive. assert (later w w') by (by etrans). eapply (wp_refuse g a _ _ w); [done| |done].
    apply cancel_refused_joining; [done|]. rewrite (later_lock _ _ _ Hq) in Hlive.
    eapply live_mono; [|done]. by apply later_time.
  - intros w' Hw' Hfree. assert (later w w') by (by etrans).
    split; [by apply later_unchanged|]. split; [done|]. exists game. by split_and!.
Qed.

Record cancel_reserved (g : Z) (a : string) (w w' : World) (r : GameReservation.t) : Prop := {
  cancel_reserved_stored : reservations (locks w' CancelLock) !! g = Some r;
  cancel_reserved_fields :
    r = newReservation g a (GameReservation.CreatedAt r) (locks w CancelLock);
  cancel_reserved_time : time w ≤ GameReservation.CreatedAt r ≤ time w';
  cancel_reserved_others g' : g' ≠ g →
    reservations (locks w' CancelLock) !! g' = reservations (locks w CancelLock) !! g';
  cancel_reserved_free : view (GameReservation.CreatedAt r) (locks w CancelLock) !! g = None;
  cancel_reserved_room :
    counted CancelLock a (GameReservation.CreatedAt r) w < maxPerWallet (locks w CancelLock);
  cancel_reserved_out : out w' = out w ++ measured CancelLock RecordCreated w
                                ++ notified CancelLock (CancelReservationCreated r) w }.

Lemma wp_cancel_reserveLocked g a w0 w :
  later w0 w →
  wp (reserveLocked g a) (λ res w', lock_op CancelLock w w' ∧
    match res with
    | Ok r => cancel_reserved g a w0 w' r
    | Err e => cancel_refusal g a w0 w' e
    end) w.
Proof.
  intros H0. pose proof (later_time _ _ H0) as T0.
  apply (wp_critical CancelLock g a
    (λ _, _ ← recordError "already_reserved"; fail ErrCancelAlreadyReserved)
    (_ ← recordError "too_many_reservations"; fail ErrTooManyCancelReservations)
    (λ r, _ ← record CancelLock RecordCreated;
          _ ← notify CancelLock (CancelReservationCreated r); mret (Ok r))).
  - intros r w' Hw' Hr Ha. assert (later w0 w') by (by etrans).
    eapply (wp_refuse g a _ _ w0); [done| |].
    + apply cancel_refused_reserved. rewrite (later_lock _ _ _ H0) in Hr.
      unfold live. rewrite Hr. by eapply active_at_mono.
    + intros w2 _ [H2 _] Hr2. split; [|done]. etrans; [by apply later_op|done].
  - intros w' Hw' _ Hm. assert (later w0 w') by (by etrans).
    eapply (wp_refuse g a _ _ w0); [done| |].
    + apply cancel_refused_limit. unfold counted in *.
      rewrite (later_lock _ _ _ H0) in Hm. etrans; [exact Hm|]. apply inj_le.
      by apply length_filter_live_mono.
    + intros w2 _ [H2 _] Hr2. split; [|done]. etrans; [by apply later_op|done].
  - intros now w' Hw' Hnow Hfree Hroom r w2 Hop.
    apply wp_bind, wp_record, wp_bind, wp_notify, wp_ret.
    split; [etrans; [exact Hop|]; etrans; apply emit_op|].
    unfold counted in Hroom.
    assert (r = newReservation g a now (locks w0 CancelLock)) as Hr
      by (unfold r; by rewrite (later_lock _ _ _ H0)).
    rewrite (later_lock _ _ _ H0) in Hroom, Hfree.
    assert (out w' = out w0) as Ho by (apply later_out; by etrans).
    constructor; try done.
    + unfold w2. simpl. by rewrite lookup_insert_eq.
    + split; [simpl; lia|apply Hnow].
    + intros g' Hg'. unfold w2. simpl. rewrite (later_lock _ _ _ H0). by rewrite lookup_insert_ne.
    + apply view_lookup_None. intros Hl. apply Hfree. eapply live_mono; [|done]. simpl. lia.
    + unfold notified, measured, w2. simpl. rewrite (later_lock _ _ _ H0), Ho. simpl.
      by rewrite <-app_assoc.
Qed.

Lemma wp_cancel_Reserve {JoinGet : LockService} `{!LockServiceLaws E JoinLock JoinGet} g a w :
  wp (Reserve g a) (λ res w', lock_op CancelLock w w' ∧
    match res with
    | Ok r => cancel_admitted g a w w' ∧ cancel_reserved g a w w' r
    | Err e => cancel_refusal g a w w' e
    end) w.
Proof.
  unfold Reserve. apply wp_rbind. eapply wp_mono; [apply wp_cancel_reserveCheck|].
  intros [u|e] w1 [[H1 L1] Hc]; [|done]. destruct Hc as [Hl Hadm].
  eapply wp_mono; [by apply (wp_cancel_reserveLocked g a w)|]. intros [r|e] w2 [H2 Hr].
  - split; [by etrans|]. split; [|done]. destruct Hadm as (game & Hg & Hs & Hown & Hfree).
    exists game. split_and!; [done..|]. intros Hp. specialize (Hfree Hp).
    rewrite (op_others _ _ _ H2) by done. rewrite view_lookup_None in *. intros Hlive.
    apply Hfree. eapply live_mono; [|done]. by eapply op_time.
  - split; [by etrans|done].
Qed.

(** *** Releasing *)

Lemma cancel_releaseStale_drops reason g w :
  drops CancelLock w (releaseStaleReservation reason g w).2.
Proof.
  apply (wp_bind (getLock CancelLock) _ (λ _ w', drops CancelLock w w')), wp_gets.
  destruct (reservations (locks w CancelLock) !! g) as [r|]; [|by apply wp_ret].
  eapply wp_discard; [done|]. intros w'. apply dropped_drops.
Qed.

Lemma wp_cancel_Cancel g a w :
  wp (Cancel g a) (λ res w', lock_op CancelLock w w' ∧
    match res with
    | Ok _ =>
        dropped CancelLock g RecordCancelled (CancelReservationReleased g "cancelled") w w' ∧
        ∃ r, reservations (locks w CancelLock) !! g = Some r ∧ active_at (time w) r ∧
          normalizeReservationWallet (GameReservation.WalletAddress r) =
          normalizeReservationWallet a
    | Err e => locks w' = locks w ∧
        ((e = ESentinel ErrCancelReservationNotFound ∧
          view (time w) (locks w CancelLock) !! g = None ∧
          out w' = out w ++ measured CancelLock (RecordError "not_found") w) ∨
         (e = ESentinel ErrNotCancelReservationHolder ∧
          out w' = out w ++ measured CancelLock (RecordError "not_holder") w ∧
          ∃ r, reservations (locks w CancelLock) !! g = Some r ∧ active_at (time w) r ∧
            normalizeReservationWallet (GameReservation.WalletAddress r) ≠
            normalizeReservationWallet a))
    end) w.
Proof.
  apply (wp_find CancelLock g (λ uc found, match found with None => _ | Some r => _ end)).
  { intros w' Hl Hn. apply wp_bind, wp_record, wp_ret.
    destruct (emit_unchanged CancelLock (measured CancelLock (RecordError "not_found") w') w w' Hl)
      as [Hop HL]. split; [done|]. split; [done|]. left. split; [done|].
    rewrite view_lookup_None. split; [done|].
    simpl. by rewrite (later_out _ _ Hl), (measured_later _ _ _ _ Hl). }
  intros r w' Hl Hr Ha. destruct (sameReservationWallet _ _) eqn:Hs; simpl.
  - apply sameReservationWallet_spec in Hs. eapply wp_discard; [done|]. intros w2 Hd.
    split; [by eapply dropped_op|]. eauto.
  - apply not_true_iff_false in Hs. rewrite sameReservationWallet_spec in Hs.
    apply wp_bind, wp_record, wp_ret.
    destruct (emit_unchanged CancelLock (measured CancelLock (RecordError "not_holder") w') w w' Hl)
      as [Hop HL]. split; [done|]. split; [done|]. right. split; [done|]. split; [|eauto].
    simpl. by rewrite (later_out _ _ Hl), (measured_later _ _ _ _ Hl).
Qed.

Lemma wp_ReleaseOnUnavailable g reason w :
  wp (ReleaseOnUnavailable g reason) (λ _ w',
    (¬ live (reservations (locks w CancelLock)) (time w) g ∧ later w w') ∨
    (live (reservations (locks w CancelLock)) (time w) g ∧
     dropped CancelLock g RecordResolved
       (CancelReservationReleased g (releaseReason reason)) w w')) w.
Proof.
  apply (wp_find CancelLock g (λ uc found, match found with None => _ | Some r => _ end)).
  { intros w' Hl Hn. apply wp_ret. auto. }
  intros r w' Hl Hr Ha. eapply wp_discard; [done|]. intros w2 Hd. right.
  split; [|done]. unfold live. by rewrite Hr.
Qed.

(** *** CleanupExpired *)

(** Past its deadline, its status still active: what the cleanup looks for. *)
Definition overdue (t : Z) (r : GameReservation.t) : Prop :=
  GameReservation.Status r = ReservationStatusActive ∧ GameReservation.ExpiresAt r < t.

Definition evicted (t t' g : Z) (before after : option GameReservation.t) (v : list Z) : Prop :=
  match before with
  | None => after = None ∧ v = []
  | Some r => (overdue t' r ∧ after = None ∧ v = [g]) ∨
              (¬ overdue t r ∧ after = Some r ∧ v = [])
  end.

Lemma evicted_mono t t1 t1' t' g b a v :
  t ≤ t1 → t1' ≤ t' → evicted t1 t1' g b a v → evicted t t' g b a v.
Proof.
  intros H1 H2. unfold evicted, overdue. destruct b as [r|]; [|done].
  intros [([]&?&?)|(?&?&?)]; [left|right]; split_and!; try done; [lia|].
  intros []. eauto with lia.
Qed.

Lemma wp_cancel_cleanupVisit g w : wp (cleanupVisit g) (visited CancelLock evicted g w) w.
Proof.
  apply wp_bind, wp_gets.
  destruct (reservations (locks w CancelLock) !! g) as [r|] eqn:Hr.
  2: { apply wp_ret. split; [done|]. split; [done|]. split; [done|]. by rewrite Hr. }
  case_bool_decide as Hs.
  2: { apply wp_ret. split; [done|]. split; [done|]. split; [done|]. rewrite Hr.
       right. split; [by intros []|done]. }
  apply wp_bind. unfold wp at 1. simpl. pose proof (later_tick w) as Ht.
  pose proof (later_time _ _ Ht) as T.
  destruct (GameReservation.IsExpired (time w) r) eqn:He;
    unfold GameReservation.IsExpired in He; [apply Z.ltb_lt in He|apply Z.ltb_ge in He].
  - apply wp_bind, wp_modify, wp_ret.
    split; [etrans; [by apply later_op|exact (discard_op CancelLock g r (set_ticks (S (ticks w)) w))]|].
    split; [done|]. split.
    + intros g' Hg'. simpl. by rewrite lookup_delete_ne.
    + rewrite Hr. simpl. rewrite lookup_delete_eq. left. split; [|done]. split; [done|].
      eapply Z.lt_le_trans; [exact He|exact T].
  - apply wp_ret. split; [by apply later_op|]. split; [done|]. split; [done|].
    simpl. rewrite Hr. right. split; [|done]. intros []. lia.
Qed.

Definition cancel_expiredNotice (w : World) (gameID : Z) : list Effect :=
  measured CancelLock RecordExpired w ++
  notified CancelLock (CancelReservationReleased gameID "expired") w.

Lemma wp_cancel_announceExpired l w :
  wp (for_each l announceExpired)
     (λ _ w', w' = set_out (out w ++ mjoin (cancel_expiredNotice w <$> l)) w) w.
Proof.
  apply (wp_announce CancelLock announceExpired (λ uc g,
    (if has_metrics uc then [Measure CancelLock RecordExpired] else []) ++
    (if has_broadcastUC uc then [Broadcast (CancelReservationReleased g "expired")] else []))).
  intros g w0. apply wp_bind, wp_record, wp_notify. unfold notified, measured. simpl.
  by rewrite <-app_assoc.
Qed.

(** The run deletes the ids it announces and nothing else. *)
Record evictions (w w' : World) (expired : list Z) : Prop := {
  evictions_told g : g ∈ expired →
    (∃ r, reservations (locks w CancelLock) !! g = Some r ∧ overdue (time w') r) ∧
    reservations (locks w' CancelLock) !! g = None;
  evictions_rest g : g ∉ expired →
    reservations (locks w' CancelLock) !! g = reservations (locks w CancelLock) !! g;
  evictions_all g r :
    reservations (locks w CancelLock) !! g = Some r → overdue (time w) r → g ∈ expired;
  evictions_once : NoDup expired }.

Lemma evictions_drops w w' l : lock_op CancelLock w w' → evictions w w' l → drops CancelLock w w'.
Proof.
  intros Hop [Htold Hrest _ _]. split; [done|]. intros g r Hr _.
  destruct (decide (g ∈ l)) as [Hg|Hg]; [destruct (Htold g Hg); congruence|].
  by rewrite <-Hrest.
Qed.

Lemma wp_cancel_CleanupExpired `{!RangePerm E} w :
  wp CleanupExpired (λ _ w', lock_op CancelLock w w' ∧ ∃ expired, evictions w w' expired ∧
    out w' = out w ++ mjoin (cancel_expiredNotice w <$> expired)) w.
Proof.
  apply wp_bind, wp_gets, wp_bind. eapply wp_mono; [apply rangeKeys_spec|].
  intros keys w1 (H1 & Hnd & Hkeys). apply wp_bind. eapply wp_mono.
  { apply (wp_visits CancelLock cleanupVisit evicted evicted_mono wp_cancel_cleanupVisit _ _ Hnd). }
  intros vs w2 (H2 & O2 & F2 & Q2).
  eapply wp_mono; [apply wp_cancel_announceExpired|]. intros _ w' ->.
  assert (lock_op CancelLock w w2) as H02 by (etrans; [by apply later_op|done]).
  rewrite !(later_lock _ _ CancelLock H1) in *. pose proof (later_time _ _ H1).
  split; [etrans; [exact H02|apply emit_op]|]. exists (mjoin vs). split.
  - destruct (reports_spec _ _ _ Hnd Q2) as (Honce & Htold & Hcase & Hall).
    { intros g v. unfold evicted.
      destruct (reservations (locks w CancelLock) !! g); naive_solver. }
    constructor; simpl; [| | |done].
    + intros g [Hg Hs]%Htold. apply Hkeys in Hg as [r Hr]. unfold evicted in Hs.
      rewrite Hr in *. destruct Hs as [(?&?&?)|(?&?&?)]; [|done]. eauto.
    + intros g Hg. destruct (decide (g ∈ keys)) as [Hk|Hk]; [|auto].
      destruct (Hcase g Hk) as [[? _]|[_ Hs]]; [done|]. unfold evicted in Hs.
      apply Hkeys in Hk as [r Hr]. rewrite Hr in *.
      destruct Hs as [(?&?&?)|(?&?&?)]; done.
    + intros g r Hr Ho. assert (g ∈ keys) as Hk by (by apply Hkeys; rewrite Hr).
      destruct (Hcase g Hk) as [[? _]|[_ Hs]]; [done|]. unfold evicted in Hs. rewrite Hr in Hs.
      destruct Hs as [(?&?&?)|(Hn&?&?)]; [done|]. destruct Hn, Ho. split; [done|lia].
  - simpl. rewrite O2, (later_out _ _ H1). f_equal. f_equal. apply list_fmap_ext.
    intros _ g _. unfold cancel_expiredNotice, notified, measured.
    by rewrite (op_config _ _ _ H02).
Qed.

(** *** Properties *)

Section ReserveTheorems.
Context {JoinGet : LockService} `{!LockServiceLaws E JoinLock JoinGet}.

Definition cancel_reserve_post (g : Z) (a : string) (w : World)
    (res : result GameReservation.t) (w' : World) : Prop :=
  lock_op CancelLock w w' ∧
  match res with
  | Ok r => cancel_admitted g a w w' ∧ cancel_reserved g a w w' r
  | Err e => cancel_refusal g a w w' e
  end.

(** A cancel reservation refines the abstract lock table and is granted only to
    the creator of a waiting game on which no join lock is active; a refusal leaves
    every lock as it was, names its cause and records the matching error metric. *)
Theorem cancel_Reserve_spec g a w : wp (Reserve g a) (cancel_reserve_post g a w) w.
Proof. apply wp_cancel_Reserve. Qed.
End ReserveTheorems.

Definition cancel_listing_post (a : string) (w : World)
    (res : result (list GameReservation.t)) (w' : World) : Prop :=
  drops CancelLock w w' ∧
  ∀ l, res = Ok l → listed CancelLock GameStatusWaitingForOpponent a w w' l.

Lemma wp_cancel_ListByWallet a w : wp (ListByWallet a) (cancel_listing_post a w) w.
Proof. exact (wp_listByWallet _ _ _ (cancel_releaseStale_drops "resolved") a w). Qed.

Definition cancel_release_post (g : Z) (reason : string) (w w' : World) : Prop :=
  view (time w') (locks w' CancelLock) !! g = None ∧
  ((view (time w) (locks w CancelLock) !! g = None ∧ later w w') ∨
   dropped CancelLock g RecordResolved
     (CancelReservationReleased g (releaseReason reason)) w w').

(** After [ReleaseOnUnavailable] no cancel lock on the game is active; if one was,
    the release is announced once, with the given reason or [resolved], and otherwise
    nothing is announced and nothing changes. *)
Theorem ReleaseOnUnavailable_spec g reason w :
  wp (ReleaseOnUnavailable g reason) (λ _, cancel_release_post g reason w) w.
Proof.
  eapply wp_mono; [apply wp_ReleaseOnUnavailable|]. intros _ w' [[Hn Hl]|[_ Hd]].
  - rewrite <-view_lookup_None in Hn. split; [by apply view_free_later with w|auto].
  - split; [by eapply dropped_free|auto].
Qed.

Definition cancel_cleanup_post `{!RangePerm E} (w w' : World) : Prop :=
  lock_op CancelLock w w' ∧ ∃ expired, evictions w w' expired ∧
    out w' = out w ++ mjoin (cancel_expiredNotice w <$> expired).

(** The cancel cleanup deletes exactly the locks it announces: every one overdue
    when it starts, none that is still within its deadline when it ends, each once,
    with a metric and a broadcast; all other entries stay as they are. *)
Theorem cancel_CleanupExpired_spec `{!RangePerm E} w :
  wp CleanupExpired (λ _, cancel_cleanup_post w) w.
Proof. apply wp_cancel_CleanupExpired. Qed.
End Proofs.

(** ** Witnesses *)

Module CancelReservationRun.
Import Run.
#[local] Existing Instance Run.ticking.

Definition w0 : World :=
  Run.world (Run.tables_of [Run.game 7 1 "EQalice" None; Run.game 8 1 "EQalice" None]) 3 60.
Definition w1 : World :=
  (CancelReservation.Reserve (JoinGet := getActive JoinLock) 7 "eqalice" w0).2.

Lemma cancel_Reserve_spec_witness :
  ∃ r, (CancelReservation.Reserve (JoinGet := getActive JoinLock) 7 "eqalice" w0).1 = Ok r ∧
    cancel_reserve_post 7 "eqalice" w0 (Ok r) w1.
Proof.
  pose proof (cancel_Reserve_spec (E := Run.ticking) (JoinGet := getActive JoinLock)
                7 "eqalice" w0) as H.
  unfold wp in H. eexists. split; [|exact H]. vm_compute. reflexivity.
Defined.

Lemma ReleaseOnUnavailable_spec_witness :
  let w' := (CancelReservation.ReleaseOnUnavailable 7 EmptyString w1).2 in
  last (out w') = Some (Broadcast (CancelReservationReleased 7 "resolved")) ∧
  cancel_release_post 7 EmptyString w1 w'.
Proof.
  split; [vm_compute; reflexivity|exact (ReleaseOnUnavailable_spec 7 EmptyString w1)].
Defined.

Lemma cancel_CleanupExpired_spec_witness :
  let w := set_ticks 100 w1 in
  reservations (locks (CancelReservation.CleanupExpired w).2 CancelLock) = ∅ ∧
  cancel_cleanup_post w (CancelReservation.CleanupExpired w).2.
Proof.
  split; [vm_compute; reflexivity|exact (cancel_CleanupExpired_spec (set_ticks 100 w1))].
Defined.
End CancelReservationRun.
