(* ===== verification/RevealReservation.v ===== *)
(** * Reveal reservations (internal/usecase/reveal_reservation.go)

    Locks on games that wait for their bids to be opened, taken one at a time or as an
    all-or-nothing batch under one acquisition of the mutex. *)
From S2P Require Import Prelude GoTypes Entity World LockSpec Store Repo Locks LockOps.

Module RevealReservation.
Section RevealReservation.
Context `{E : Env} {R : GameRepository}.

Definition NewRevealReservationUseCase (hasRepo hasBroadcast : bool)
    (cfgMaxPerWallet cfgTimeoutSeconds cfgCleanupIntervalSeconds : Z) : LockUC :=
  newLockUC 90 5 hasRepo false hasBroadcast
    cfgMaxPerWallet cfgTimeoutSeconds cfgCleanupIntervalSeconds.

Definition isGameParticipant (game : Game.t) (normalizedWallet : string) : bool :=
  if sameReservationWallet (Game.PlayerOneAddress game) normalizedWallet then true
  else match Game.PlayerTwoAddress game with
       | Some p2 => sameReservationWallet p2 normalizedWallet
       | None => false
       end.

(** *** ReserveBatch *)

(** The loop that validates every game before the mutex is taken. *)
Fixpoint preflight (normalized : string) (gameIDs : list Z) : M (result unit) :=
  match gameIDs with
  | [] => mret (Ok tt)
  | gameID :: gameIDs =>
      found <-? GetByID gameID ;;
      match found with
      | None => fail ErrRevealNotAvailable
      | Some game =>
          if negb (Game.Status game =? GameStatusWaitingForOpenBids) then
            fail ErrRevealNotAvailable
          else if negb (isGameParticipant game normalized) then fail ErrNotAPlayer
          else preflight normalized gameIDs
      end
  end.

(** Is one of the games locked already?  The loop stops at the first that is. *)
Fixpoint anyReserved (rs : gmap Z GameReservation.t) (gameIDs : list Z) : M bool :=
  match gameIDs with
  | [] => mret false
  | gameID :: gameIDs =>
      existing ← lookupActive rs gameID;
      match existing with
      | Some _ => mret true
      | None => anyReserved rs gameIDs
      end
  end.

Definition create (normalized walletAddress : string) (now : Z) (gameID : Z) :
    M GameReservation.t :=
  uc ← getLock RevealLock;
  let r := newReservation gameID walletAddress now uc in
  _ ← putLock RevealLock (storeReservation normalized r uc);
  mret r.

Definition announceCreated (r : GameReservation.t) : M unit :=
  _ ← record RevealLock RecordCreated;
  notify RevealLock (RevealReservationCreated r).

Definition reserveBatchLocked (gameIDs : list Z) (walletAddress : string) :
    M (result (list GameReservation.t)) :=
  let normalized := normalizeReservationWallet walletAddress in
  uc ← getLock RevealLock;
  activeCount ← countActive (reservations uc) (index_of (walletReservations uc) normalized);
  if maxPerWallet uc <? activeCount + Z.of_nat (length gameIDs) then
    fail ErrTooManyRevealReservations
  else
    busy ← anyReserved (reservations uc) gameIDs;
    if (busy : bool) then fail ErrRevealAlreadyReserved
    else
      now ← Now;
      created ← mapM (create normalized walletAddress now) gameIDs;
      _ ← for_each created announceCreated;
      mret (Ok created).

Definition ReserveBatch (gameIDs : list Z) (walletAddress : string) :
    M (result (list GameReservation.t)) :=
  match gameIDs with
  | [] => fail ErrRevealNotAvailable
  | _ =>
      let normalized := normalizeReservationWallet walletAddress in
      if bool_decide (normalized = EmptyString) then fail ErrNotAPlayer
      else
        _ <-? preflight normalized gameIDs ;;
        reserveBatchLocked gameIDs walletAddress
  end.

Definition Reserve (gameID : Z) (walletAddress : string) : M (result GameReservation.t) :=
  res <-? ReserveBatch [gameID] walletAddress ;;
  match res with
  | [] => fail ErrRevealReservationNotFound
  | r :: _ => mret (Ok r)
  end.

(** *** Get, ListByWallet, Cancel, ReleaseOnTerminal *)

Definition Get (gameID : Z) : M (result (option GameReservation.t)) :=
  getActive RevealLock gameID.

Definition ListByWallet (walletAddress : string) : M (result (list GameReservation.t)) :=
  uc ← getLock RevealLock;
  out ← collectActive (reservations uc)
          (index_of (walletReservations uc) (normalizeReservationWallet walletAddress));
  mret (Ok (SliceStable newestFirst out)).

Definition Cancel (gameID : Z) (walletAddress : string) : M (result unit) :=
  let normalized := normalizeReservationWallet walletAddress in
  uc ← getLock RevealLock;
  found ← lookupActive (reservations uc) gameID;
  match found with
  | None => fail ErrRevealReservationNotFound
  | Some r =>
      if negb (sameReservationWallet (GameReservation.WalletAddress r) normalized) then
        fail ErrNotRevealReservationHolder
      else
        _ ← putLock RevealLock (retire ReservationStatusReleased gameID r uc);
        _ ← record RevealLock RecordCancelled;
        _ ← notify RevealLock (RevealReservationReleased gameID "cancelled");
        mret (Ok tt)
  end.

Definition ReleaseOnTerminal (gameID : Z) : M unit :=
  uc ← getLock RevealLock;
  found ← lookupActive (reservations uc) gameID;
  match found with
  | None => mret tt
  | Some r =>
      _ ← putLock RevealLock (retire ReservationStatusReleased gameID r uc);
      _ ← record RevealLock RecordRevealed;
      _ ← notify RevealLock (RevealReservationReleased gameID "revealed");
      mret tt
  end.

(** *** cleanupExpired *)

Definition announceExpired (gameID : Z) : M unit :=
  _ ← record RevealLock RecordExpired;
  notify RevealLock (RevealReservationReleased gameID "expired").

Definition cleanupExpired : M unit :=
  expired ← sweep RevealLock;
  for_each expired announceExpired.

Definition GetActiveCount : M Z :=
  uc ← getLock RevealLock; activeCount (reservations uc).

Definition StopCleanupLoop : M unit := stopCleanupLoop RevealLock.
Definition SetMetrics : LockUC → LockUC := setMetrics.
End RevealReservation.
End RevealReservation.

(** ** Correctness *)

Section Proofs.
Context `{E : Env} `{!ClockMono E} {R : GameRepository} `{!GameRepositoryLaws E R}.
Import RevealReservation.

Definition participant (game : Game.t) (wallet : string) : Prop :=
  normalizeReservationWallet (Game.PlayerOneAddress game) = wallet ∨
  ∃ p2, Game.PlayerTwoAddress game = Some p2 ∧ normalizeReservationWallet p2 = wallet.

Lemma isGameParticipant_spec game n : isGameParticipant game n = true ↔ participant game n.
Proof.
  unfold isGameParticipant, participant.
  destruct (sameReservationWallet (Game.PlayerOneAddress game) n) eqn:H1.
  { rewrite sameReservationWallet_spec in H1. tauto. }
  apply not_true_iff_false in H1. rewrite sameReservationWallet_spec in H1.
  destruct (Game.PlayerTwoAddress game) as [p2|]; [|naive_solver].
  rewrite sameReservationWallet_spec. naive_solver.
Qed.

(** The game waits for open bids and the wallet plays in it. *)
Definition revealable (w : World) (wallet : string) (g : Z) : Prop :=
  ∃ game, games (tables w) !! g = Some game ∧
    Game.Status game = GameStatusWaitingForOpenBids ∧ participant game wallet.

(** Why a batch may be refused. *)
Inductive reveal_refused (gs : list Z) (a : string) (w : World) : error → Prop :=
| reveal_refused_empty : gs = [] → reveal_refused gs a w (ESentinel ErrRevealNotAvailable)
| reveal_refused_wallet :
    normalizeReservationWallet a = EmptyString → reveal_refused gs a w (ESentinel ErrNotAPlayer)
| reveal_refused_repository g e w1 :
    g ∈ gs → later w w1 → (GetByID g w1).1 = Err e → reveal_refused gs a w e
| reveal_refused_status g :
    g ∈ gs →
    (∀ game, games (tables w) !! g = Some game →
       Game.Status game ≠ GameStatusWaitingForOpenBids) →
    reveal_refused gs a w (ESentinel ErrRevealNotAvailable)
| reveal_refused_player g game :
    g ∈ gs → games (tables w) !! g = Some game →
    ¬ participant game (normalizeReservationWallet a) →
    reveal_refused gs a w (ESentinel ErrNotAPlayer)
| reveal_refused_limit :
    maxPerWallet (locks w RevealLock) < counted RevealLock a (time w) w + Z.of_nat (length gs) →
    reveal_refused gs a w (ESentinel ErrTooManyRevealReservations)
| reveal_refused_reserved g :
    g ∈ gs → live (reservations (locks w RevealLock)) (time w) g →
    reveal_refused gs a w (ESentinel ErrRevealAlreadyReserved).

Lemma wp_preflight gs0 gs a w0 w :
  later w0 w → (∀ g, g ∈ gs → g ∈ gs0) →
  wp (preflight (normalizeReservationWallet a) gs) (λ r w', later w0 w' ∧
    match r with
    | Ok _ => ∀ g, g ∈ gs → revealable w0 (normalizeReservationWallet a) g
    | Err e => reveal_refused gs0 a w0 e
    end) w.
Proof.
  revert w. induction gs as [|g gs IH]; intros w H0 Hin; simpl.
  { apply wp_ret. split; [done|]. set_solver. }
  apply wp_rbind. unfold wp at 1.
  pose proof (GetByID_quiet g w) as Hq. pose proof (GetByID_found g w) as Hf.
  pose proof (GetByID_absent g w) as Ha.
  destruct (GetByID g w) as [[[game|]|e] w1] eqn:Hget; simpl in *;
    assert (later w0 w1) as H1 by (by etrans); assert (g ∈ gs0) as Hg by (apply Hin; set_solver).
  2: { apply wp_ret. split; [done|]. apply (reveal_refused_status _ _ _ g); [done|].
       rewrite <-(later_tables _ _ H0), Ha; done. }
  2: { split; [done|]. apply (reveal_refused_repository _ _ _ g _ w); [done..|]. by rewrite Hget. }
  specialize (Hf game eq_refl). rewrite (later_tables _ _ H0) in Hf.
  destruct (Z.eqb_spec (Game.Status game) GameStatusWaitingForOpenBids) as [Hst|]; simpl.
  2: { apply wp_ret. split; [done|]. apply (reveal_refused_status _ _ _ g); [done|].
       naive_solver. }
  destruct (isGameParticipant game _) eqn:Hp; simpl.
  - apply isGameParticipant_spec in Hp. eapply wp_mono; [apply IH; [done|set_solver]|].
    intros [u|e] w2 [H2 Hr]; (split; [done|]); [|done].
    intros g' [->|?]%elem_of_cons; [|auto]. exists game. auto.
  - apply wp_ret. split; [done|]. apply (reveal_refused_player _ _ _ g game); [done..|].
    rewrite <-isGameParticipant_spec, Hp. done.
Qed.

Lemma wp_anyReserved rs gs w :
  wp (anyReserved rs gs) (λ b w', later w w' ∧
    if b then ∃ g, g ∈ gs ∧ live rs (time w) g
    else ∀ g, g ∈ gs → ¬ live rs (time w') g) w.
Proof.
  revert w. induction gs as [|g gs IH]; intros w; simpl.
  { apply wp_ret. split; [done|]. set_solver. }
  apply wp_bind, wp_lookupActive. intros w1 H1.
  pose proof (later_time _ _ H1). destruct (if bool_decide _ then _ else _) eqn:Hf.
  - apply lookup_live in Hf as [Hr ?]. apply wp_ret. split; [done|].
    exists g. split; [apply list_elem_of_here|]. unfold live. by rewrite Hr.
  - apply lookup_not_live in Hf. eapply wp_mono; [apply IH|]. intros b w2 [H2 Hb].
    assert (later w w2) as H02 by (by etrans). split; [done|]. destruct b.
    + destruct Hb as (g' & ? & ?). exists g'. split; [set_solver|]. by eapply live_mono.
    + intros g' [->|?]%elem_of_cons; [|auto]. intros Hl. apply Hf.
      eapply live_mono; [|done]. by apply later_time.
Qed.

(** *** The insertion loop *)

Definition storeAll (key a : string) (now : Z) (gs : list Z) (uc : LockUC) : LockUC :=
  foldl (λ uc g, storeReservation key (newReservation g a now uc) uc) uc gs.

Lemma storeAll_config key a now gs uc : same_config uc (storeAll key a now gs uc).
Proof.
  revert uc. induction gs as [|g gs IH]; intros uc; simpl; [done|].
  etrans; [|apply IH]. done.
Qed.

Lemma storeAll_ok key a now gs uc :
  key = normalizeReservationWallet a → LockOk uc → LockOk (storeAll key a now gs uc).
Proof.
  intros ->. revert uc. induction gs as [|g gs IH]; intros uc Hok; simpl; [done|].
  by apply IH, storeReservation_ok.
Qed.

Lemma storeAll_lookup key a now gs uc g :
  reservations (storeAll key a now gs uc) !! g =
    if bool_decide (g ∈ gs) then Some (newReservation g a now uc) else reservations uc !! g.
Proof.
  revert uc. induction gs as [|g' gs IH]; intros uc; simpl; [done|].
  rewrite IH. unfold storeReservation, newReservation. simpl.
  destruct (decide (g = g')) as [->|Hne].
  - rewrite (bool_decide_eq_true_2 (g' ∈ g' :: gs)) by apply list_elem_of_here.
    rewrite lookup_insert_eq. by case_bool_decide.
  - rewrite lookup_insert_ne by done. repeat case_bool_decide; set_solver.
Qed.

Lemma held_insert_le key g h (s : lock_table) :
  (size (held_by key (<[g := h]> s)) ≤ S (size (held_by key s)))%nat.
Proof.
  unfold held_by. destruct (decide (h.1 = key)).
  - rewrite map_filter_insert_True by done. rewrite map_size_insert.
    case_match; unfold id; lia.
  - rewrite map_filter_insert_False by done. rewrite map_filter_delete, map_size_delete.
    case_match; unfold id; lia.
Qed.

(** Inserting a batch is a sequence of abstract acquisitions; a repeated id is stored
    twice and acquired once. *)
Lemma steps_storeAll max t a now gs uc :
  let key := normalizeReservationWallet a in
  (∀ g, g ∈ gs → view t uc !! g = None ∨ view t uc !! g = Some (key, now + timeout uc)) →
  Z.of_nat (size (held_by key (view t uc))) + Z.of_nat (length gs) ≤ max →
  steps max (view t uc) (view t (storeAll key a now gs uc)).
Proof.
  intros key. revert uc. induction gs as [|g gs IH]; intros uc Hfree Hroom; simpl; [done|].
  set (r := newReservation g a now uc). cbn [length] in Hroom.
  assert (view t (storeReservation key r uc) = view t uc ∨
          (view t uc !! g = None ∧
           view t (storeReservation key r uc) = <[g := (key, now + timeout uc)]> (view t uc)))
    as Hcase.
  { destruct (decide (active_at t r)) as [Ha|Ha].
    - rewrite view_store by done. change (holder r) with (key, now + timeout uc). simpl.
      destruct (Hfree g) as [Hn|Hs]; [apply list_elem_of_here|auto|].
      left. by apply insert_id.
    - left. rewrite view_store_dead by done. simpl.
      destruct (Hfree g) as [Hn|Hs]; [apply list_elem_of_here|by apply delete_id|].
      apply view_lookup in Hs as (r' & _ & [_ He] & [= _ Heq]).
      destruct Ha. split; [done|]. unfold r. simpl. lia. }
  etrans; [|apply IH].
  - destruct Hcase as [->|[Hn ->]]; [done|]. apply steps_insert; [done|lia].
  - intros g' Hg'. change (timeout (storeReservation key r uc)) with (timeout uc).
    destruct Hcase as [->|[Hn ->]]; [apply Hfree; set_solver|].
    destruct (decide (g' = g)) as [->|]; [right; apply lookup_insert_eq|].
    rewrite lookup_insert_ne by done. apply Hfree. set_solver.
  - destruct Hcase as [->|[Hn ->]]; [lia|].
    pose proof (held_insert_le key g (key, now + timeout uc) (view t uc)). lia.
Qed.

Lemma wp_creates key a now gs w :
  wp (mapM (create key a now) gs) (λ rs w',
    rs = (λ g, newReservation g a now (locks w RevealLock)) <$> gs ∧
    ticks w' = ticks w ∧ out w' = out w ∧ tables w' = tables w ∧
    locks w' RevealLock = storeAll key a now gs (locks w RevealLock) ∧
    ∀ k, k ≠ RevealLock → locks w' k = locks w k) w.
Proof.
  revert w. induction gs as [|g gs IH]; intros w; simpl; [by apply wp_ret|].
  apply wp_bind, wp_bind, wp_gets, wp_bind, wp_modify, wp_ret, wp_bind.
  eapply wp_mono; [apply IH|]. intros rs w' (-> & Ht & Ho & Htb & Hk & Hoth). apply wp_ret.
  simpl in *. split; [done|]. split_and!; [done..|]. intros k Hne. rewrite Hoth by done.
  simpl. by rewrite decide_False.
Qed.

(** What a successful batch is: every game of it, and no other, gets a lock with the
    arguments' and the configuration's fields and one common creation time; all were
    free, the wallet had room for all, and each is announced once, in order. *)
Record batch_reserved (gs : list Z) (a : string) (w w' : World)
    (rs : list GameReservation.t) (now : Z) : Prop := {
  batch_records : rs = (λ g, newReservation g a now (locks w RevealLock)) <$> gs;
  batch_time : time w ≤ now ≤ time w';
  batch_stored g : g ∈ gs →
    reservations (locks w' RevealLock) !! g = Some (newReservation g a now (locks w RevealLock));
  batch_others g : g ∉ gs →
    reservations (locks w' RevealLock) !! g = reservations (locks w RevealLock) !! g;
  batch_free g : g ∈ gs → view now (locks w RevealLock) !! g = None;
  batch_room : counted RevealLock a now w + Z.of_nat (length gs) ≤ maxPerWallet (locks w RevealLock);
  batch_out : out w' = out w ++ mjoin ((λ r, measured RevealLock RecordCreated w ++
                                notified RevealLock (RevealReservationCreated r) w) <$> rs) }.

Lemma wp_announceCreateds rs w :
  wp (for_each rs announceCreated)
     (λ _ w', w' = set_out (out w ++ mjoin ((λ r, measured RevealLock RecordCreated w ++
        notified RevealLock (RevealReservationCreated r) w) <$> rs)) w) w.
Proof.
  revert w. induction rs as [|r rs IH]; intros w; simpl.
  { apply wp_ret. rewrite app_nil_r. by destruct w. }
  apply wp_bind, wp_bind, wp_record, wp_notify. eapply wp_mono; [apply IH|].
  intros _ w' ->. unfold measured, notified. simpl. by rewrite <-!app_assoc.
Qed.

Lemma counted_later w w' k a t : later w w' → counted k a t w' = counted k a t w.
Proof. intros Hl. unfold counted. by rewrite (later_lock _ _ _ Hl). Qed.

Lemma counted_mono w k a t t' : t ≤ t' → counted k a t' w ≤ counted k a t w.
Proof. intros. unfold counted. apply inj_le. by apply length_filter_live_mono. Qed.

(** The insertion of a batch of free games, when the wallet has room for it. *)
Lemma batch_op gs a now w w' :
  (∀ g, g ∈ gs → ¬ live (reservations (locks w RevealLock)) (time w) g) →
  counted RevealLock a (time w) w + Z.of_nat (length gs) ≤ maxPerWallet (locks w RevealLock) →
  ticks w' = ticks w → tables w' = tables w →
  locks w' RevealLock =
    storeAll (normalizeReservationWallet a) a now gs (locks w RevealLock) →
  (∀ k, k ≠ RevealLock → locks w' k = locks w k) →
  lock_op RevealLock w w'.
Proof.
  intros Hfree Hroom Ht Htb Hk Hoth.
  constructor; rewrite ?Hk; try done; [by rewrite Ht|apply storeAll_config|by apply storeAll_ok|].
  intros Hok. replace (time w') with (time w) by (unfold time; by rewrite Ht).
  apply steps_storeAll.
  - intros g Hg. left. by apply view_lookup_None, Hfree.
  - pose proof (held_le_index (time w) _ (normalizeReservationWallet a) Hok).
    unfold counted in Hroom. lia.
Qed.

Lemma wp_reserveBatchLocked gs a w0 w :
  later w0 w →
  wp (reserveBatchLocked gs a) (λ res w', lock_op RevealLock w w' ∧
    match res with
    | Ok rs => ∃ now, batch_reserved gs a w0 w' rs now
    | Err e => later w0 w' ∧ reveal_refused gs a w0 e
    end) w.
Proof.
  intros H0. apply wp_bind, wp_gets, wp_bind. eapply wp_mono; [apply wp_countActive|].
  rewrite (later_lock _ _ _ H0). intros n w1 [H1 [Hlo Hhi]].
  assert (later w0 w1) as H01 by (by etrans).
  pose proof (later_time _ _ H0) as T0. pose proof (later_time _ _ H1) as T1.
  destruct (Z.ltb_spec (maxPerWallet (locks w0 RevealLock)) (n + Z.of_nat (length gs))) as [Hm|Hm].
  { apply wp_ret. split; [by apply later_op|]. split; [done|]. apply reveal_refused_limit.
    pose proof (counted_mono w0 RevealLock a _ _ T0). unfold counted in *. lia. }
  apply wp_bind. eapply wp_mono; [apply wp_anyReserved|]. intros b w2 [H2 Hb].
  assert (later w0 w2) as H02 by (by etrans). assert (later w w2) as Hw2 by (by etrans).
  pose proof (later_time _ _ H2) as T2. destruct b.
  { apply wp_ret. split; [by apply later_op|]. split; [done|].
    destruct Hb as (g & Hg & Hl). apply (reveal_refused_reserved _ _ _ g); [done|].
    eapply live_mono; [|done]. lia. }
  apply wp_bind. unfold wp at 1. simpl. pose proof (later_tick w2) as H3.
  set (w3 := set_ticks (S (ticks w2)) w2) in *. clearbody w3.
  assert (later w0 w3) as H03 by (by etrans). pose proof (later_time _ _ H3) as T3.
  apply wp_bind. eapply wp_mono; [apply wp_creates|].
  intros rs w4 (Hrs & Ht4 & Ho4 & Htb4 & Hk4 & Hoth4).
  apply wp_bind. eapply wp_mono; [apply wp_announceCreateds|]. intros _ w5 ->. apply wp_ret.
  split.
  - etrans; [exact (later_op RevealLock _ _ Hw2)|]. etrans; [by apply later_op|].
    etrans; [|apply emit_op].
    apply (batch_op gs a (time w2)); try done; rewrite ?(counted_later _ _ _ _ _ H03),
      (later_lock _ _ _ H03).
    + intros g Hg Hl. apply (Hb g Hg). by eapply live_mono.
    + pose proof (counted_mono w0 RevealLock a (time w1) (time w3) (Z.le_trans _ _ _ T2 T3)).
      unfold counted in *. lia.
  - rewrite (later_lock _ _ _ H03) in *.
    exists (time w2). constructor; simpl.
    + done.
    + split; [lia|]. unfold time in *. simpl. by rewrite Ht4.
    + intros g Hg. rewrite Hk4, storeAll_lookup. by rewrite bool_decide_eq_true_2.
    + intros g Hg. rewrite Hk4, storeAll_lookup. by rewrite bool_decide_eq_false_2.
    + intros g Hg. by apply view_lookup_None, Hb.
    + pose proof (counted_mono w0 RevealLock a _ _ T2). unfold counted in *. lia.
    + rewrite Ho4, (later_out _ _ H03). f_equal. f_equal. apply list_fmap_ext.
      intros _ r _. unfold measured, notified.
      by rewrite Hk4, (storeAll_config _ a (time w2) gs (locks w0 RevealLock)).
Qed.

Lemma wp_ReserveBatch gs a w :
  wp (ReserveBatch gs a) (λ res w', lock_op RevealLock w w' ∧
    match res with
    | Ok rs => gs ≠ [] ∧ (∀ g, g ∈ gs → revealable w (normalizeReservationWallet a) g) ∧
               ∃ now, batch_reserved gs a w w' rs now
    | Err e => later w w' ∧ reveal_refused gs a w e
    end) w.
Proof.
  unfold ReserveBatch. destruct gs as [|g0 gs0] eqn:Hgs.
  { apply wp_ret. split; [done|]. split; [done|]. by apply reveal_refused_empty. }
  rewrite <-Hgs. case_bool_decide.
  { apply wp_ret. split; [done|]. split; [done|]. by apply reveal_refused_wallet. }
  apply wp_rbind. eapply wp_mono; [by apply (wp_preflight gs gs a w w)|].
  intros [u|e] w1 [H1 Hr]; [|split; [by apply later_op|done]].
  eapply wp_mono; [by apply (wp_reserveBatchLocked gs a w)|]. intros [rs|e] w2 [H2 Hrs].
  - split; [etrans; [by apply later_op|done]|]. split; [by rewrite Hgs|done].
  - split; [etrans; [by apply later_op|done]|done].
Qed.

(** *** Releasing, listing, cleaning up *)

Definition reveal_cancel_post (g : Z) (a : string) (w : World) (res : result unit)
    (w' : World) : Prop :=
  match res with
  | Ok _ => dropped RevealLock g RecordCancelled (RevealReservationReleased g "cancelled") w w' ∧
            ∃ r, reservations (locks w RevealLock) !! g = Some r ∧ active_at (time w) r ∧
              normalizeReservationWallet (GameReservation.WalletAddress r) =
              normalizeReservationWallet a
  | Err e => later w w' ∧
      ((e = ESentinel ErrRevealReservationNotFound ∧
        view (time w) (locks w RevealLock) !! g = None) ∨
       (e = ESentinel ErrNotRevealReservationHolder ∧
        ∃ r, reservations (locks w RevealLock) !! g = Some r ∧ active_at (time w) r ∧
          normalizeReservationWallet (GameReservation.WalletAddress r) ≠
          normalizeReservationWallet a))
  end.

Lemma wp_reveal_Cancel g a w : wp (Cancel g a) (reveal_cancel_post g a w) w.
Proof.
  apply (wp_find RevealLock g (λ uc found, match found with None => _ | Some r => _ end)).
  { intros w' Hl Hn. apply wp_ret. unfold reveal_cancel_post. rewrite view_lookup_None. auto. }
  intros r w' Hl Hr Ha. destruct (sameReservationWallet _ _) eqn:Hs; simpl.
  - apply sameReservationWallet_spec in Hs. eapply wp_retire; [done..|].
    unfold reveal_cancel_post. eauto 10.
  - apply not_true_iff_false in Hs. rewrite sameReservationWallet_spec in Hs.
    apply wp_ret. split; [done|]. right. eauto.
Qed.

Lemma wp_ReleaseOnTerminal g w :
  wp (ReleaseOnTerminal g) (λ _ w',
    (¬ live (reservations (locks w RevealLock)) (time w) g ∧ later w w') ∨
    (live (reservations (locks w RevealLock)) (time w) g ∧
     dropped RevealLock g RecordRevealed (RevealReservationReleased g "revealed") w w')) w.
Proof.
  apply (wp_find RevealLock g (λ uc found, match found with None => _ | Some r => _ end)).
  { intros w' Hl Hn. apply wp_ret. auto. }
  intros r w' Hl Hr Ha. eapply wp_retire; [done..|]. intros w2 Hd. right.
  split; [|done]. unfold live. by rewrite Hr.
Qed.

Lemma wp_reveal_ListByWallet a w :
  wp (ListByWallet a) (λ res w', later w w' ∧ ∃ l, res = Ok l ∧ ordered newestFirst l ∧
    (∀ r, r ∈ l → ∃ g, g ∈ index_of (walletReservations (locks w RevealLock))
         (normalizeReservationWallet a) ∧
       reservations (locks w RevealLock) !! g = Some r ∧ active_at (time w) r)) w.
Proof.
  apply wp_bind, wp_gets, wp_bind. eapply wp_mono; [apply wp_collectActive|].
  intros rs w1 (H1 & Hsound & _). apply wp_ret. split; [done|].
  eexists. split; [done|]. split; [apply newestFirst_ordered|].
  intros r. rewrite elem_of_SliceStable. apply Hsound.
Qed.

Definition reveal_expiredNotice (w : World) (gameID : Z) : list Effect :=
  measured RevealLock RecordExpired w ++
  notified RevealLock (RevealReservationReleased gameID "expired") w.

Lemma wp_reveal_announceExpired l w :
  wp (for_each l announceExpired)
     (λ _ w', w' = set_out (out w ++ mjoin (reveal_expiredNotice w <$> l)) w) w.
Proof.
  apply (wp_announce RevealLock announceExpired (λ uc g,
    (if has_metrics uc then [Measure RevealLock RecordExpired] else []) ++
    (if has_broadcastUC uc then [Broadcast (RevealReservationReleased g "expired")] else []))).
  intros g w0. apply wp_bind, wp_record, wp_notify. unfold notified, measured. simpl.
  by rewrite <-app_assoc.
Qed.

Definition reveal_cleanup_post `{!RangePerm E} (w w' : World) : Prop :=
  lock_op RevealLock w w' ∧ ∃ expired, cleaned E RevealLock w w' expired ∧
    out w' = out w ++ mjoin (reveal_expiredNotice w <$> expired).

Lemma wp_reveal_cleanupExpired `{!RangePerm E} w :
  wp cleanupExpired (λ _, reveal_cleanup_post w) w.
Proof.
  apply wp_bind. eapply wp_mono; [apply wp_sweep|]. intros l w1 (H1 & O1 & C1).
  eapply wp_mono; [apply wp_reveal_announceExpired|]. intros _ w' ->.
  split; [etrans; [exact H1|apply emit_op]|]. exists l. split; [by apply cleaned_out|].
  simpl. rewrite O1. f_equal. f_equal. apply list_fmap_ext. intros _ g _.
  unfold reveal_expiredNotice, notified, measured. by rewrite (op_config _ _ _ H1).
Qed.

(** *** Properties *)

Definition batch_post (gs : list Z) (a : string) (w : World)
    (res : result (list GameReservation.t)) (w' : World) : Prop :=
  lock_op RevealLock w w' ∧
  match res with
  | Ok rs => gs ≠ [] ∧ (∀ g, g ∈ gs → revealable w (normalizeReservationWallet a) g) ∧
             ∃ now, batch_reserved gs a w w' rs now
  | Err e => later w w' ∧ reveal_refused gs a w e
  end.

(** C21: a reveal batch is all or nothing: it either locks every game of the batch for a
    participant, all of them free and in the bid-opening phase and the wallet within
    its limit, or changes no lock and announces nothing, with an error that names its
    cause; either way the locks move by abstract acquisitions and releases only. *)
Theorem ReserveBatch_spec gs a w : wp (ReserveBatch gs a) (batch_post gs a w) w.
Proof. apply wp_ReserveBatch. Qed.

(** Reserving a single reveal is the batch of one: it returns that batch's lock or
    its error, and the answer "reveal reservation not found" it has for an empty batch
    result is never given. *)
Theorem reveal_Reserve_spec g a w :
  match ReserveBatch [g] a w with
  | (Ok rs, w') => ∃ r, rs = [r] ∧ Reserve g a w = (Ok r, w') ∧
                        reservations (locks w' RevealLock) !! g = Some r
  | (Err e, w') => Reserve g a w = (Err e, w')
  end.
Proof.
  pose proof (wp_ReserveBatch [g] a w) as [_ H].
  unfold Reserve, rbind, mbind, M_bind, ST_bind.
  destruct (ReserveBatch [g] a w) as [[rs|e] w']; simpl in *; [|done].
  destruct H as (_ & _ & now & [Hrs _ Hst _ _ _ _]). rewrite Hrs. simpl.
  eexists. split; [done|]. split; [done|]. apply Hst, list_elem_of_here.
Qed.

(** The reveal cleanup removes no lock that is still active when it ends, leaves no
    entry that was inactive when it started, and announces each expired game once. *)
Theorem reveal_cleanupExpired_spec `{!RangePerm E} w :
  wp cleanupExpired (λ _, reveal_cleanup_post w) w.
Proof. apply wp_reveal_cleanupExpired. Qed.
End Proofs.

(** ** Witnesses *)

Module RevealReservationRun.
Import Run.
#[local] Existing Instance Run.ticking.

Definition w0 : World :=
  Run.world (Run.tables_of [Run.game 7 2 "EQalice" (Some "EQbob");
                            Run.game 8 2 "EQbob" (Some "EQcarol")]) 3 60.
Definition w1 : World := (RevealReservation.ReserveBatch [7; 8] "eqbob" w0).2.

Lemma ReserveBatch_spec_witness :
  ∃ r1 r2, (RevealReservation.ReserveBatch [7; 8] "eqbob" w0).1 = Ok [r1; r2] ∧
    batch_post [7; 8] "eqbob" w0 (Ok [r1; r2]) w1.
Proof.
  pose proof (ReserveBatch_spec [7; 8] "eqbob" w0) as H. unfold wp in H.
  eexists _, _. split; [|exact H]. vm_compute. reflexivity.
Defined.

Lemma reveal_Reserve_spec_witness :
  ∃ r, (RevealReservation.Reserve 7 "eqalice" w0).1 = Ok r ∧
    reservations (locks (RevealReservation.Reserve 7 "eqalice" w0).2 RevealLock) !! 7 = Some r.
Proof.
  pose proof (reveal_Reserve_spec 7 "eqalice" w0) as H.
  destruct (RevealReservation.ReserveBatch [7] "eqalice" w0) as [[rs|e] w'] eqn:He.
  - destruct H as (r & _ & -> & Hr). by exists r.
  - vm_compute in He. discriminate He.
Defined.

Lemma reveal_cleanupExpired_spec_witness :
  let w := set_ticks 100 w1 in
  reservations (locks (RevealReservation.cleanupExpired w).2 RevealLock) = ∅ ∧
  reveal_cleanup_post w (RevealReservation.cleanupExpired w).2.
Proof.
  split; [vm_compute; reflexivity|exact (reveal_cleanupExpired_spec (set_ticks 100 w1))].
Defined.
End RevealReservationRun.
