(* ===== verification/ExpiredClaim.v ===== *)
(** * Expired-follow-up claims (internal/usecase/expired_claim.go)

    Locks on ended games that still need a participant's attention.  Claiming one's own
    active claim again resumes it; reading a claim releases it when its game is resolved. *)
From S2P Require Import Prelude GoTypes Entity World LockSpec Store Repo Locks LockOps RevealReservation.

Module ExpiredClaim.
Section ExpiredClaim.
Context `{E : Env} {R : GameRepository}.
Import RevealReservation.

Definition NewExpiredClaimUseCase (hasRepo hasBroadcast : bool)
    (cfgMaxPerWallet cfgTimeoutSeconds cfgCleanupIntervalSeconds : Z) : LockUC :=
  newLockUC 120 5 hasRepo false hasBroadcast
    cfgMaxPerWallet cfgTimeoutSeconds cfgCleanupIntervalSeconds.

(** *** Claim *)

Definition claimCheck (gameID : Z) (normalized : string) : M (result unit) :=
  found <-? GetByID gameID ;;
  match found with
  | None => fail ErrExpiredClaimNotAvailable
  | Some game =>
      if negb (Game.Status game =? GameStatusEnded) then fail ErrExpiredClaimNotAvailable
      else if negb (isGameParticipant game normalized) then fail ErrNotExpiredClaimParticipant
      else mret (Ok tt)
  end.

Definition claimLocked (gameID : Z) (walletAddress : string) : M (result GameReservation.t) :=
  let normalized := normalizeReservationWallet walletAddress in
  uc ← getLock ClaimLock;
  existing ← lookupActive (reservations uc) gameID;
  match existing with
  | Some claim =>
      if sameReservationWallet (GameReservation.WalletAddress claim) normalized then
        mret (Ok claim)
      else fail ErrExpiredClaimAlreadyClaimed
  | None =>
      activeCount ← countActive (reservations uc) (index_of (walletReservations uc) normalized);
      if maxPerWallet uc <=? activeCount then fail ErrTooManyExpiredClaims
      else
        now ← Now;
        let claim := newReservation gameID walletAddress now uc in
        _ ← putLock ClaimLock (storeReservation normalized claim uc);
        _ ← record ClaimLock RecordCreated;
        _ ← notify ClaimLock (ExpiredClaimCreated claim);
        mret (Ok claim)
  end.

Definition Claim (gameID : Z) (walletAddress : string) : M (result GameReservation.t) :=
  let normalized := normalizeReservationWallet walletAddress in
  if bool_decide (normalized = EmptyString) then fail ErrExpiredClaimWalletRequired
  else
    _ <-? claimCheck gameID normalized ;;
    claimLocked gameID walletAddress.

(** *** Releasing *)

Definition releaseWithReason (gameID : Z) (reason : string) (metricsHook : M unit) : M unit :=
  uc ← getLock ClaimLock;
  found ← lookupActive (reservations uc) gameID;
  match found with
  | None => mret tt
  | Some claim =>
      _ ← putLock ClaimLock (retire ReservationStatusReleased gameID claim uc);
      _ ← metricsHook;
      _ ← notify ClaimLock (ExpiredClaimReleased gameID reason);
      mret tt
  end.

Definition ReleaseOnResolved (gameID : Z) : M unit :=
  releaseWithReason gameID "resolved" (record ClaimLock RecordResolved).

Definition Release (gameID : Z) (walletAddress : string) : M (result unit) :=
  let normalized := normalizeReservationWallet walletAddress in
  if bool_decide (normalized = EmptyString) then fail ErrExpiredClaimWalletRequired
  else
    uc ← getLock ClaimLock;
    found ← lookupActive (reservations uc) gameID;
    match found with
    | None => fail ErrExpiredClaimNotFound
    | Some claim =>
        if negb (sameReservationWallet (GameReservation.WalletAddress claim) normalized) then
          fail ErrNotExpiredClaimHolder
        else
          _ ← putLock ClaimLock (retire ReservationStatusReleased gameID claim uc);
          _ ← record ClaimLock RecordCancelled;
          _ ← notify ClaimLock (ExpiredClaimReleased gameID "cancelled");
          mret (Ok tt)
    end.

(** *** Get and ListByWallet *)

Definition peekActiveClaim (gameID : Z) : M (option GameReservation.t) :=
  uc ← getLock ClaimLock; lookupActive (reservations uc) gameID.

Definition isClaimGameActionable (gameID : Z) : M (result bool) :=
  gameInStatus ClaimLock GameStatusEnded gameID.

Definition Get (gameID : Z) : M (result (option GameReservation.t)) :=
  found ← peekActiveClaim gameID;
  match found with
  | None => mret (Ok None)
  | Some claim =>
      isActionable <-? isClaimGameActionable gameID ;;
      if negb isActionable then
        _ ← ReleaseOnResolved gameID; mret (Ok None)
      else mret (Ok (Some claim))
  end.

Definition ListByWallet (walletAddress : string) : M (result (list GameReservation.t)) :=
  if bool_decide (normalizeReservationWallet walletAddress = EmptyString) then mret (Ok [])
  else listByWallet ClaimLock GameStatusEnded ReleaseOnResolved walletAddress.

(** *** CleanupExpired *)

Definition announceExpired (gameID : Z) : M unit :=
  _ ← record ClaimLock RecordExpired;
  notify ClaimLock (ExpiredClaimReleased gameID "expired").

Definition CleanupExpired : M unit :=
  expiredGameIDs ← sweep ClaimLock;
  for_each expiredGameIDs announceExpired.

Definition GetActiveCount : M Z :=
  uc ← getLock ClaimLock; activeCount (reservations uc).

Definition StopCleanupLoop : M unit := stopCleanupLoop ClaimLock.
Definition SetMetrics : LockUC → LockUC := setMetrics.
End ExpiredClaim.
End ExpiredClaim.

(** ** Correctness *)

Section Proofs.
Context `{E : Env} `{!ClockMono E} {R : GameRepository} `{!GameRepositoryLaws E R}.
Import RevealReservation ExpiredClaim.

Inductive claim_refused (g : Z) (a : string) (w : World) : error → Prop :=
| claim_refused_wallet :
    normalizeReservationWallet a = EmptyString →
    claim_refused g a w (ESentinel ErrExpiredClaimWalletRequired)
| claim_refused_repository e : (GetByID g w).1 = Err e → claim_refused g a w e
| claim_refused_status :
    (∀ game, games (tables w) !! g = Some game → Game.Status game ≠ GameStatusEnded) →
    claim_refused g a w (ESentinel ErrExpiredClaimNotAvailable)
| claim_refused_player game :
    games (tables w) !! g = Some game → ¬ participant game (normalizeReservationWallet a) →
    claim_refused g a w (ESentinel ErrNotExpiredClaimParticipant)
| claim_refused_claimed r :
    reservations (locks w ClaimLock) !! g = Some r → active_at (time w) r →
    normalizeReservationWallet (GameReservation.WalletAddress r) ≠ normalizeReservationWallet a →
    claim_refused g a w (ESentinel ErrExpiredClaimAlreadyClaimed)
| claim_refused_limit :
    maxPerWallet (locks w ClaimLock) ≤ counted ClaimLock a (time w) w →
    claim_refused g a w (ESentinel ErrTooManyExpiredClaims).

(** A new claim, or the caller's own active one with nothing changed. *)
Inductive claimed (g : Z) (a : string) (w w' : World) (r : GameReservation.t) : Prop :=
| claimed_new :
    reservations (locks w' ClaimLock) !! g = Some r →
    r = newReservation g a (GameReservation.CreatedAt r) (locks w ClaimLock) →
    time w ≤ GameReservation.CreatedAt r ≤ time w' →
    view (GameReservation.CreatedAt r) (locks w ClaimLock) !! g = None →
    counted ClaimLock a (GameReservation.CreatedAt r) w < maxPerWallet (locks w ClaimLock) →
    (∀ g', g' ≠ g →
       reservations (locks w' ClaimLock) !! g' = reservations (locks w ClaimLock) !! g') →
    out w' = out w ++ measured ClaimLock RecordCreated w
                   ++ notified ClaimLock (ExpiredClaimCreated r) w →
    claimed g a w w' r
| claimed_resumed :
    later w w' → reservations (locks w ClaimLock) !! g = Some r → active_at (time w) r →
    normalizeReservationWallet (GameReservation.WalletAddress r) = normalizeReservationWallet a →
    claimed g a w w' r.

Definition claimable (w : World) (wallet : string) (g : Z) : Prop :=
  ∃ game, games (tables w) !! g = Some game ∧
    Game.Status game = GameStatusEnded ∧ participant game wallet.

Lemma wp_claimCheck g a w :
  wp (claimCheck g (normalizeReservationWallet a)) (λ r w', later w w' ∧
    match r with
    | Ok _ => claimable w (normalizeReservationWallet a) g
    | Err e => claim_refused g a w e
    end) w.
Proof.
  unfold claimCheck. apply wp_rbind. unfold wp at 1.
  pose proof (GetByID_quiet g w) as Hq. pose proof (GetByID_found g w) as Hf.
  pose proof (GetByID_absent g w) as Ha.
  destruct (GetByID g w) as [[[game|]|e] w1] eqn:Hget; simpl in *.
  2: { split; [done|]. apply claim_refused_status. by rewrite Ha. }
  2: { split; [done|]. apply claim_refused_repository. by rewrite Hget. }
  specialize (Hf game eq_refl).
  destruct (Z.eqb_spec (Game.Status game) GameStatusEnded) as [Hst|]; simpl.
  2: { split; [done|]. apply claim_refused_status. naive_solver. }
  destruct (isGameParticipant game _) eqn:Hp; simpl; (split; [done|]).
  - apply isGameParticipant_spec in Hp. by exists game.
  - apply (claim_refused_player _ _ _ game); [done|].
    rewrite <-isGameParticipant_spec, Hp. done.
Qed.

Lemma wp_claimLocked g a w0 w :
  later w0 w →
  wp (claimLocked g a) (λ res w', lock_op ClaimLock w w' ∧
    match res with
    | Ok r => claimed g a w0 w' r
    | Err e => later w0 w' ∧ claim_refused g a w0 e
    end) w.
Proof.
  intros H0. pose proof (later_time _ _ H0) as T0.
  apply (wp_critical ClaimLock g a
    (λ claim, if sameReservationWallet (GameReservation.WalletAddress claim)
                   (normalizeReservationWallet a)
              then mret (Ok claim) else fail ErrExpiredClaimAlreadyClaimed)
    (fail ErrTooManyExpiredClaims)
    (λ r, _ ← record ClaimLock RecordCreated;
          _ ← notify ClaimLock (ExpiredClaimCreated r); mret (Ok r))).
  - intros r w' Hw' Hr Ha. assert (later w0 w') by (by etrans).
    rewrite (later_lock _ _ _ H0) in Hr.
    assert (active_at (time w0) r) by (by eapply active_at_mono).
    destruct (sameReservationWallet _ _) eqn:Hs; apply wp_ret; (split; [by apply later_op|]).
    + apply sameReservationWallet_spec in Hs. by apply claimed_resumed.
    + apply not_true_iff_false in Hs. rewrite sameReservationWallet_spec in Hs.
      split; [done|]. by apply (claim_refused_claimed _ _ _ r).
  - intros w' Hw' _ Hm. apply wp_ret. split; [by apply later_op|].
    split; [by etrans|]. apply claim_refused_limit.
    rewrite (counted_later _ _ _ _ _ H0), (later_lock _ _ _ H0) in Hm.
    etrans; [exact Hm|]. by apply counted_mono.
  - intros now w' Hw' Hnow Hfree Hroom r w2 Hop.
    apply wp_bind, wp_record, wp_bind, wp_notify, wp_ret.
    split; [etrans; [exact Hop|]; etrans; apply emit_op|].
    rewrite (counted_later _ _ _ _ _ H0), (later_lock _ _ _ H0) in Hroom.
    rewrite (later_lock _ _ _ H0) in Hfree.
    assert (out w' = out w0) as Ho by (apply later_out; by etrans).
    apply claimed_new; try done.
    + unfold w2. simpl. by rewrite lookup_insert_eq.
    + unfold r. by rewrite (later_lock _ _ _ H0).
    + split; [simpl; lia|apply Hnow].
    + apply view_lookup_None. intros Hl. apply Hfree. eapply live_mono; [|done]. simpl. lia.
    + intros g' Hg'. unfold w2. simpl. rewrite (later_lock _ _ _ H0).
      by rewrite lookup_insert_ne.
    + unfold notified, measured, w2. simpl. rewrite (later_lock _ _ _ H0), Ho. simpl.
      by rewrite <-app_assoc.
Qed.

Definition claim_post (g : Z) (a : string) (w : World) (res : result GameReservation.t)
    (w' : World) : Prop :=
  lock_op ClaimLock w w' ∧
  match res with
  | Ok r => claimable w (normalizeReservationWallet a) g ∧ claimed g a w w' r
  | Err e => later w w' ∧ claim_refused g a w e
  end.

Lemma wp_Claim g a w : wp (Claim g a) (claim_post g a w) w.
Proof.
  unfold Claim. case_bool_decide.
  { apply wp_ret. split; [done|]. split; [done|]. by apply claim_refused_wallet. }
  apply wp_rbind. eapply wp_mono; [apply wp_claimCheck|].
  intros [u|e] w1 [H1 Hr]; [|split; [by apply later_op|done]].
  eapply wp_mono; [by apply (wp_claimLocked g a w)|]. intros [r|e] w2 [H2 Hc];
    (split; [etrans; [by apply later_op|done]|done]).
Qed.

(** *** Releasing *)

Definition resolved_post (g : Z) (w w' : World) : Prop :=
  view (time w') (locks w' ClaimLock) !! g = None ∧
  ((view (time w) (locks w ClaimLock) !! g = None ∧ later w w') ∨
   dropped ClaimLock g RecordResolved (ExpiredClaimReleased g "resolved") w w').

Lemma wp_ReleaseOnResolved g w : wp (ReleaseOnResolved g) (λ _, resolved_post g w) w.
Proof.
  apply (wp_find ClaimLock g (λ uc found, match found with None => _ | Some r => _ end)).
  { intros w' Hl Hn. apply wp_ret. rewrite <-view_lookup_None in Hn.
    split; [by apply view_free_later with w|auto]. }
  intros r w' Hl Hr Ha. eapply wp_retire; [done..|]. intros w2 Hd.
  split; [by eapply dropped_free|auto].
Qed.

Lemma resolved_drops g w w' : resolved_post g w w' → drops ClaimLock w w'.
Proof.
  intros [_ [[_ Hl]|Hd]]; [by apply later_drops|]. by eapply dropped_drops.
Qed.

Lemma ReleaseOnResolved_drops g w : drops ClaimLock w (ReleaseOnResolved g w).2.
Proof. eapply resolved_drops, wp_ReleaseOnResolved. Qed.

Definition claim_listing_post (a : string) (w : World)
    (res : result (list GameReservation.t)) (w' : World) : Prop :=
  drops ClaimLock w w' ∧
  ∀ l, res = Ok l → normalizeReservationWallet a ≠ EmptyString →
    listed ClaimLock GameStatusEnded a w w' l.

Lemma wp_claim_ListByWallet a w : wp (ListByWallet a) (claim_listing_post a w) w.
Proof.
  unfold ListByWallet. case_bool_decide; [by apply wp_ret|].
  eapply wp_mono; [exact (wp_listByWallet _ _ _ ReleaseOnResolved_drops a w)|].
  intros res w' [? ?]. split; auto.
Qed.

Lemma wp_Release g a w :
  wp (Release g a) (λ res w', drops ClaimLock w w' ∧
    match res with
    | Ok _ => dropped ClaimLock g RecordCancelled (ExpiredClaimReleased g "cancelled") w w' ∧
              ∃ r, reservations (locks w ClaimLock) !! g = Some r ∧ active_at (time w) r ∧
                normalizeReservationWallet (GameReservation.WalletAddress r) =
                normalizeReservationWallet a
    | Err _ => later w w'
    end) w.
Proof.
  unfold Release. case_bool_decide; [by apply wp_ret|].
  apply (wp_find ClaimLock g (λ uc found, match found with None => _ | Some r => _ end)).
  { intros w' Hl Hn. apply wp_ret. split; [by apply later_drops|done]. }
  intros r w' Hl Hr Ha. destruct (sameReservationWallet _ _) eqn:Hs; simpl.
  - apply sameReservationWallet_spec in Hs. eapply wp_retire; [done..|]. intros w2 Hd.
    split; [by eapply dropped_drops|eauto].
  - apply wp_ret. split; [by apply later_drops|done].
Qed.

(** *** Get *)

(** A claim that is returned is the stored, active one of an ended game.  When the
    answer is that there is none, no claim on the game is active any more. *)
Definition get_post (g : Z) (w : World) (res : result (option GameReservation.t))
    (w' : World) : Prop :=
  drops ClaimLock w w' ∧
  match res with
  | Ok (Some r) => later w w' ∧ reservations (locks w ClaimLock) !! g = Some r ∧
                   active_at (time w) r ∧ in_status ClaimLock GameStatusEnded w g
  | Ok None => view (time w') (locks w' ClaimLock) !! g = None
  | Err _ => later w w'
  end.

Lemma wp_Get g w : wp (Get g) (get_post g w) w.
Proof.
  apply (wp_bind (peekActiveClaim g)), wp_bind, wp_gets, wp_lookupActive. intros w1 H1.
  destruct (if bool_decide _ then _ else _) as [r|] eqn:Hf.
  2: { apply lookup_not_live in Hf. apply wp_ret. split; [by apply later_drops|].
       apply view_free_later with w; [done|]. by apply view_lookup_None. }
  apply lookup_live in Hf as [Hr Ha]. apply wp_rbind.
  eapply wp_mono; [apply wp_gameInStatus|]. intros [b|e] w2 [H2 Hb].
  2: { assert (later w w2) by (by etrans). split; [by apply later_drops|done]. }
  assert (later w w2) as H02 by (by etrans). specialize (Hb b eq_refl). subst b.
  case_bool_decide as Hin; simpl.
  - apply wp_ret. split; [by apply later_drops|]. split_and!; try done.
    rewrite <-(in_status_op ClaimLock _ w w1); [done|by apply later_op].
  - apply wp_bind. eapply wp_mono; [apply wp_ReleaseOnResolved|].
    intros _ w3 [Hfree Hd]. apply wp_ret. split; [|done].
    etrans; [by apply later_drops|]. eapply resolved_drops. by split.
Qed.

(** *** Cleaning up *)

Definition claim_expiredNotice (w : World) (gameID : Z) : list Effect :=
  measured ClaimLock RecordExpired w ++
  notified ClaimLock (ExpiredClaimReleased gameID "expired") w.

Lemma wp_claim_announceExpired l w :
  wp (for_each l announceExpired)
     (λ _ w', w' = set_out (out w ++ mjoin (claim_expiredNotice w <$> l)) w) w.
Proof.
  apply (wp_announce ClaimLock announceExpired (λ uc g,
    (if has_metrics uc then [Measure ClaimLock RecordExpired] else []) ++
    (if has_broadcastUC uc then [Broadcast (ExpiredClaimReleased g "expired")] else []))).
  intros g w0. apply wp_bind, wp_record, wp_notify. unfold notified, measured. simpl.
  by rewrite <-app_assoc.
Qed.

Definition claim_cleanup_post `{!RangePerm E} (w w' : World) : Prop :=
  lock_op ClaimLock w w' ∧ ∃ expired, cleaned E ClaimLock w w' expired ∧
    out w' = out w ++ mjoin (claim_expiredNotice w <$> expired).

Lemma wp_claim_CleanupExpired `{!RangePerm E} w :
  wp CleanupExpired (λ _, claim_cleanup_post w) w.
Proof.
  apply wp_bind. eapply wp_mono; [apply wp_sweep|]. intros l w1 (H1 & O1 & C1).
  eapply wp_mono; [apply wp_claim_announceExpired|]. intros _ w' ->.
  split; [etrans; [exact H1|apply emit_op]|]. exists l. split; [by apply cleaned_out|].
  simpl. rewrite O1. f_equal. f_equal. apply list_fmap_ext. intros _ g _.
  unfold claim_expiredNotice, notified, measured. by rewrite (op_config _ _ _ H1).
Qed.

(** *** Properties *)

(** C27: [Claim] grants a claim on an ended game to a participant only, when the game is
    free and the wallet below its limit; claiming one's own active claim again returns
    that claim and changes nothing; every refusal changes nothing and has its cause. *)
Theorem Claim_spec g a w : wp (Claim g a) (claim_post g a w) w.
Proof. apply wp_Claim. Qed.

(** [Get] returns only the stored active claim of a game that is still ended; when
    it answers that there is none, no claim on the game is active, so a claim whose game
    was resolved has been released. *)
Theorem claim_Get_spec g w : wp (Get g) (get_post g w) w.
Proof. apply wp_Get. Qed.
End Proofs.

(** ** Witnesses *)

Module ExpiredClaimRun.
Import Run.
#[local] Existing Instance Run.ticking.

Definition w0 : World :=
  Run.world (Run.tables_of [Run.game 7 3 "EQalice" (Some "EQbob")]) 3 60.
Definition w1 : World := (ExpiredClaim.Claim 7 "eqbob" w0).2.

Lemma Claim_spec_witness :
  ∃ r, (ExpiredClaim.Claim 7 "EQbob " w1).1 = Ok r ∧
    claim_post 7 "EQbob " w1 (Ok r) (ExpiredClaim.Claim 7 "EQbob " w1).2.
Proof.
  pose proof (Claim_spec 7 "EQbob " w1) as H. unfold wp in H.
  eexists. split; [|exact H]. vm_compute. reflexivity.
Defined.

(** The game has been paid since: reading the claim releases it. *)
Lemma claim_Get_spec_witness :
  let w := set_tables (Run.tables_of [Run.game 7 4 "EQalice" (Some "EQbob")]) w1 in
  (ExpiredClaim.Get 7 w).1 = Ok None ∧ get_post 7 w (Ok None) (ExpiredClaim.Get 7 w).2.
Proof.
  pose proof (claim_Get_spec 7
    (set_tables (Run.tables_of [Run.game 7 4 "EQalice" (Some "EQbob")]) w1)) as H.
  unfold wp in H. split; [vm_compute; reflexivity|exact H].
Defined.
End ExpiredClaimRun.
