(* ===== verification/Coordination.v ===== *)
(** * The four lock use cases running together

    Goroutines interleave at mutex granularity: an [action] is one critical section, or
    a whole operation when its caller is alone.  The invariants hold for every
    interleaving; mutual exclusion of join and cancel locks holds when [Reserve] runs
    alone, and fails when two of them interleave. *)
From S2P Require Import Prelude GoTypes Entity World LockSpec Store Repo Locks LockOps Reservation CancelReservation RevealReservation ExpiredClaim.

(** ** Actions *)

Inductive action :=
| JoinCheck (g : Z) (a : string) | JoinLocked (g : Z) (a : string)
| JoinReserve (g : Z) (a : string) | JoinCancel (g : Z) (a : string)
| JoinRelease (g : Z) | JoinStale (g : Z) | JoinList (a : string) | JoinCleanup
| CancelCheck (g : Z) (a : string) | CancelLocked (g : Z) (a : string)
| CancelReserve (g : Z) (a : string) | CancelCancel (g : Z) (a : string)
| CancelRelease (g : Z) (reason : string) | CancelStale (g : Z) | CancelList (a : string)
| CancelCleanup
| RevealLocked (gs : list Z) (a : string) | RevealBatch (gs : list Z) (a : string)
| RevealCancel (g : Z) (a : string) | RevealRelease (g : Z) | RevealCleanup
| ClaimLocked (g : Z) (a : string) | ClaimClaim (g : Z) (a : string)
| ClaimRelease (g : Z) (a : string) | ClaimResolved (g : Z) | ClaimGet (g : Z)
| ClaimList (a : string) | ClaimCleanup
| Wait                                   (* the clock is read somewhere else *)
| Store (t : Tables).                    (* somebody else writes to the database *)

Section Actions.
Context `{E : Env} {R : GameRepository}.

Definition run (m : action) : M unit :=
  match m with
  | JoinCheck g a =>
      _ ← Reservation.reserveCheck (CancelGet := CancelReservation.service) g a; mret tt
  | JoinLocked g a => _ ← Reservation.reserveLocked g a; mret tt
  | JoinReserve g a =>
      _ ← Reservation.Reserve (CancelGet := CancelReservation.service) g a; mret tt
  | JoinCancel g a => _ ← Reservation.Cancel g a; mret tt
  | JoinRelease g => Reservation.ReleaseOnJoin g
  | JoinStale g => Reservation.releaseStaleReservation g
  | JoinList a => _ ← Reservation.ListByWallet a; mret tt
  | JoinCleanup => Reservation.CleanupExpired
  | CancelCheck g a =>
      _ ← CancelReservation.reserveCheck (JoinGet := Reservation.service) g a; mret tt
  | CancelLocked g a => _ ← CancelReservation.reserveLocked g a; mret tt
  | CancelReserve g a =>
      _ ← CancelReservation.Reserve (JoinGet := Reservation.service) g a; mret tt
  | CancelCancel g a => _ ← CancelReservation.Cancel g a; mret tt
  | CancelRelease g reason => CancelReservation.ReleaseOnUnavailable g reason
  | CancelStale g => CancelReservation.releaseStaleReservation "resolved" g
  | CancelList a => _ ← CancelReservation.ListByWallet a; mret tt
  | CancelCleanup => CancelReservation.CleanupExpired
  | RevealLocked gs a => _ ← RevealReservation.reserveBatchLocked gs a; mret tt
  | RevealBatch gs a => _ ← RevealReservation.ReserveBatch gs a; mret tt
  | RevealCancel g a => _ ← RevealReservation.Cancel g a; mret tt
  | RevealRelease g => RevealReservation.ReleaseOnTerminal g
  | RevealCleanup => RevealReservation.cleanupExpired
  | ClaimLocked g a => _ ← ExpiredClaim.claimLocked g a; mret tt
  | ClaimClaim g a => _ ← ExpiredClaim.Claim g a; mret tt
  | ClaimRelease g a => _ ← ExpiredClaim.Release g a; mret tt
  | ClaimResolved g => ExpiredClaim.ReleaseOnResolved g
  | ClaimGet g => _ ← ExpiredClaim.Get g; mret tt
  | ClaimList a => _ ← ExpiredClaim.ListByWallet a; mret tt
  | ClaimCleanup => ExpiredClaim.CleanupExpired
  | Wait => _ ← Now; mret tt
  | Store t => modify (set_tables t)
  end.

(** One action of some goroutine. *)
Inductive act_step : World → World → Prop :=
| act m w : act_step w (run m w).2.

(** The service as it starts: empty maps, configured by the constructors. *)
Definition fresh (w : World) : Prop := ∀ k,
  reservations (locks w k) = ∅ ∧ walletReservations (locks w k) = ∅ ∧
  configured (locks w k).
End Actions.

(** ** Every action is an operation of one use case, or touches none *)

Section Invariants.
Context `{E : Env} `{!ClockMono E} `{!RangePerm E} {R : GameRepository}
  `{!GameRepositoryLaws E R}.

(** What every action does to the four use cases. *)
Record system_op (w w' : World) : Prop := {
  sys_ticks : (ticks w ≤ ticks w')%nat;
  sys_config k : same_config (locks w k) (locks w' k);
  sys_ok k : LockOk (locks w k) → LockOk (locks w' k);
  sys_steps k : LockOk (locks w k) →
    steps (maxPerWallet (locks w k)) (view (time w) (locks w k)) (view (time w') (locks w' k)) }.

#[global] Instance system_op_preorder : PreOrder system_op.
Proof.
  split; [intros w; constructor; intros; try done; reflexivity|].
  intros w1 w2 w3 [a1 b1 c1 d1] [a2 b2 c2 d2].
  constructor; [lia|intros k; etrans; [apply b1|apply b2]|auto|]. intros k Hok. etrans; [by apply d1|].
  rewrite <-(same_config_max _ _ (b1 k)). auto.
Qed.

Lemma lock_op_system k w w' : lock_op k w w' → system_op w w'.
Proof.
  intros Hop. pose proof (op_time _ _ _ Hop). destruct Hop as [Ht _ Hoth Hc Hok Hst].
  constructor; [done|..]; intros k'; (destruct (decide (k' = k)) as [->|Hne]; [by auto|]);
    rewrite Hoth by done; try done.
  intros _. by apply steps_wait.
Qed.

Lemma wp_discard_result {A} (m : M A) (P : World → Prop) w :
  wp m (λ _, P) w → P ((_ ← m; mret tt) w).2.
Proof. intros H. by apply (wp_bind m (λ _, mret tt) (λ _, P)). Qed.

Lemma dropped_or_later k g m n w w' P Q :
  (P ∧ later w w') ∨ (Q ∧ dropped k g m n w w') → drops k w w'.
Proof. intros [[_ ?]|[_ ?]]; [by apply later_drops|by eapply dropped_drops]. Qed.

(** Actions that take no lock. *)
Definition dropping (m : action) : option LockKind :=
  match m with
  | JoinCheck _ _ | JoinCancel _ _ | JoinRelease _ | JoinStale _ | JoinList _ | JoinCleanup =>
      Some JoinLock
  | CancelCheck _ _ | CancelCancel _ _ | CancelRelease _ _ | CancelStale _ | CancelList _
  | CancelCleanup => Some CancelLock
  | RevealCancel _ _ | RevealRelease _ | RevealCleanup => Some RevealLock
  | ClaimRelease _ _ | ClaimResolved _ | ClaimGet _ | ClaimList _ | ClaimCleanup =>
      Some ClaimLock
  | _ => None
  end.

Lemma unchanged_drops k w w' : unchanged k w w' → drops k w w'.
Proof. intros [Hop Hl]. split; [done|]. rewrite Hl. apply shrinks_refl. Qed.

Lemma run_drops m k w : dropping m = Some k → drops k w (run m w).2.
Proof.
  destruct m; intros [= <-]; simpl.
  - apply wp_discard_result. eapply wp_mono; [apply wp_reserveCheck|].
    intros ? ? [? _]. by apply unchanged_drops.
  - apply wp_discard_result. eapply wp_mono; [apply wp_Cancel|].
    intros [u|e] w' [H _]; [by eapply dropped_drops|by apply later_drops].
  - eapply dropped_or_later, wp_ReleaseOnJoin.
  - apply join_releaseStale_drops.
  - apply wp_discard_result. eapply wp_mono.
    { exact (wp_listByWallet _ _ _ join_releaseStale_drops _ w). }
    by intros ? ? [].
  - destruct (wp_CleanupExpired w) as [? (? & ? & _)]. by eapply cleaned_drops.
  - apply wp_discard_result. eapply wp_mono; [apply wp_cancel_reserveCheck|].
    intros ? ? [? _]. by apply unchanged_drops.
  - apply wp_discard_result. eapply wp_mono; [apply wp_cancel_Cancel|].
    intros [u|e] w' [Hop H]; [eapply dropped_drops, H|by apply unchanged_drops; destruct H].
  - eapply dropped_or_later, wp_ReleaseOnUnavailable.
  - apply cancel_releaseStale_drops.
  - apply wp_discard_result. eapply wp_mono; [apply wp_cancel_ListByWallet|]. by intros ? ? [].
  - destruct (wp_cancel_CleanupExpired w) as [? (? & ? & _)]. by eapply evictions_drops.
  - apply wp_discard_result. eapply wp_mono; [apply wp_reveal_Cancel|].
    intros [u|e] w' [H _]; [by eapply dropped_drops|by apply later_drops].
  - eapply dropped_or_later, wp_ReleaseOnTerminal.
  - destruct (wp_reveal_cleanupExpired w) as [? (? & ? & _)]. by eapply cleaned_drops.
  - apply wp_discard_result. eapply wp_mono; [apply wp_Release|]. by intros ? ? [].
  - apply ReleaseOnResolved_drops.
  - apply wp_discard_result. eapply wp_mono; [apply wp_Get|]. by intros ? ? [].
  - apply wp_discard_result. eapply wp_mono; [apply wp_claim_ListByWallet|]. by intros ? ? [].
  - destruct (wp_claim_CleanupExpired w) as [? (? & ? & _)]. by eapply cleaned_drops.
Qed.

(** [m] is an action of the service, not a write by somebody else. *)
Definition own (m : action) : Prop := ∀ t, m ≠ Store t.

Lemma run_op m w : own m → ∃ k, lock_op k w (run m w).2.
Proof.
  intros Hown. destruct (dropping m) as [k|] eqn:Hm; [exists k; by apply run_drops|].
  destruct m; try discriminate Hm; clear Hm; cbn [run];
    [exists JoinLock|exists JoinLock|exists CancelLock|exists CancelLock|exists RevealLock
    |exists RevealLock|exists ClaimLock|exists ClaimLock|exists JoinLock|by destruct (Hown t)].
  1-8: apply wp_discard_result.
  - eapply wp_mono; [apply wp_reserveLocked|]. by intros ? ? [].
  - eapply wp_mono; [apply wp_Reserve|]. by intros ? ? [].
  - eapply wp_mono; [by apply wp_cancel_reserveLocked|]. by intros ? ? [].
  - eapply wp_mono; [apply wp_cancel_Reserve|]. by intros ? ? [].
  - eapply wp_mono; [by apply wp_reserveBatchLocked|]. by intros ? ? [].
  - eapply wp_mono; [apply wp_ReserveBatch|]. by intros ? ? [].
  - eapply wp_mono; [by apply wp_claimLocked|]. by intros ? ? [].
  - eapply wp_mono; [apply wp_Claim|]. by intros ? ? [].
  - apply later_op, later_tick.
Qed.

Lemma run_system m w : system_op w (run m w).2.
Proof.
  assert (own m ∨ ∃ t, m = Store t) as [Hown|[t ->]] by (destruct m; eauto; by left).
  - destruct (run_op m w Hown) as [k Hop]. by eapply lock_op_system.
  - constructor; intros; try done; reflexivity.
Qed.

Lemma reachable_system w w' : rtc act_step w w' → system_op w w'.
Proof.
  induction 1 as [w|w1 w2 w3 [m w] _ IH]; [reflexivity|]. etrans; [apply run_system|done].
Qed.

Lemma fresh_ok w k : fresh w → LockOk (locks w k).
Proof.
  intros Hf. destruct (Hf k) as (Hr & _ & _). split; intros g r; rewrite Hr, lookup_empty; done.
Qed.

Lemma fresh_view t w k : fresh w → view t (locks w k) = ∅.
Proof.
  intros Hf. destruct (Hf k) as (Hr & _ & _). unfold view.
  by rewrite Hr, map_filter_empty, fmap_empty.
Qed.

(** *** Mutual exclusion *)

(** No game has an active join lock and an active cancel lock. *)
Definition exclusive (w : World) : Prop := ∀ g,
  view (time w) (locks w JoinLock) !! g = None ∨ view (time w) (locks w CancelLock) !! g = None.

(** The two use cases ask each other, as app.go wires them. *)
Definition wired (w : World) : Prop :=
  has_peer (locks w JoinLock) = true ∧ has_peer (locks w CancelLock) = true.

(** [Reserve] is not split. *)
Definition atomic (m : action) : Prop :=
  match m with JoinLocked _ _ | CancelLocked _ _ => False | _ => True end.

Inductive atomic_step : World → World → Prop :=
| atomic_act m w : atomic m → atomic_step w (run m w).2.

Lemma same_config_peer uc uc' : same_config uc uc' → has_peer uc' = has_peer uc.
Proof. by intros ->. Qed.

Lemma wired_system w w' : system_op w w' → wired w → wired w'.
Proof.
  intros Hs [H1 H2].
  split; erewrite same_config_peer; [exact H1|apply Hs|exact H2|apply Hs].
Qed.

Lemma view_free_shrinks t t' uc uc' g :
  t ≤ t' → shrinks t' uc uc' → view t uc !! g = None → view t' uc' !! g = None.
Proof.
  intros Ht Hsh. rewrite !view_lookup_None. intros Hn Hl. apply Hn. unfold live in *.
  destruct (reservations uc' !! g) as [r|] eqn:Hr; [|done].
  rewrite (Hsh g r Hr Hl). by eapply active_at_mono.
Qed.

Lemma drops_shrinks k k' w w' :
  drops k w w' → shrinks (time w') (locks w k') (locks w' k').
Proof.
  intros [Hop Hsh]. destruct (decide (k' = k)) as [->|Hne]; [done|].
  rewrite (op_others _ _ _ Hop) by done. apply shrinks_refl.
Qed.

Lemma other_shrinks k k' w w' :
  lock_op k w w' → k' ≠ k → shrinks (time w') (locks w k') (locks w' k').
Proof. intros Hop Hne. rewrite (op_others _ _ _ Hop) by done. apply shrinks_refl. Qed.

Lemma exclusive_shrinks w w' :
  time w ≤ time w' →
  (∀ k, k = JoinLock ∨ k = CancelLock → shrinks (time w') (locks w k) (locks w' k)) →
  exclusive w → exclusive w'.
Proof.
  intros Ht Hsh He g. destruct (He g); [left|right]; eapply view_free_shrinks; eauto.
Qed.

Lemma exclusive_other k w w' :
  lock_op k w w' → k ≠ JoinLock → k ≠ CancelLock → exclusive w → exclusive w'.
Proof.
  intros Hop H1 H2. apply exclusive_shrinks; [by eapply op_time|].
  intros k' [->| ->]; by eapply other_shrinks.
Qed.

Lemma exclusive_refused k w w' :
  lock_op k w w' → locks w' = locks w → exclusive w → exclusive w'.
Proof.
  intros Hop Hl. apply exclusive_shrinks; [by eapply op_time|].
  intros. rewrite Hl. apply shrinks_refl.
Qed.

(** One use case takes a lock on [g], which the other one leaves free. *)
Lemma exclusive_take k k' g w w' :
  (k = JoinLock ∧ k' = CancelLock) ∨ (k = CancelLock ∧ k' = JoinLock) →
  lock_op k w w' →
  (∀ g', g' ≠ g → reservations (locks w' k) !! g' = reservations (locks w k) !! g') →
  view (time w') (locks w' k') !! g = None →
  exclusive w → exclusive w'.
Proof.
  intros Hk Hop Hoth Hfree He g'. pose proof (op_time _ _ _ Hop) as Ht.
  assert (k' ≠ k) as Hne by (by destruct Hk as [[-> ->]|[-> ->]]).
  assert (∀ u, view (time w) (locks w k) !! u = None → u ≠ g →
            view (time w') (locks w' k) !! u = None) as Hkeep.
  { intros u Hu Hug. rewrite view_lookup_None in *. intros Hl. apply Hu. unfold live in *.
    rewrite <-Hoth by done. destruct (reservations (locks w' k) !! u); [|done].
    by eapply active_at_mono. }
  assert (∀ u, view (time w) (locks w k') !! u = None →
            view (time w') (locks w' k') !! u = None) as Hkeep'.
  { intros u. apply view_free_shrinks; [done|by eapply other_shrinks]. }
  destruct (decide (g' = g)) as [->|Hg];
    destruct Hk as [[-> ->]|[-> ->]]; auto; destruct (He g'); auto.
Qed.

Lemma wp_elim {A} (m : M A) Q w : wp m Q w → Q (m w).1 (m w).2.
Proof. done. Qed.

Lemma atomic_exclusive m w : atomic m → wired w → exclusive w → exclusive (run m w).2.
Proof.
  intros Hat [P1 P2] He. destruct (dropping m) as [k|] eqn:Hm.
  { pose proof (run_drops m k w Hm) as Hd.
    eapply exclusive_shrinks; [eapply op_time, Hd|intros; by eapply drops_shrinks|done]. }
  destruct m; try discriminate Hm; try destruct Hat; cbn [run].
  - apply wp_discard_result. eapply wp_mono; [apply wp_Reserve|]. intros [r|e] w' [Hop Hr].
    + destruct Hr as [(game & _ & _ & _ & Hfree) Hres].
      apply (exclusive_take JoinLock CancelLock g w); auto. apply Hres.
    + destruct Hr as [Hl _]. by eapply exclusive_refused.
  - apply wp_discard_result. eapply wp_mono; [apply wp_cancel_Reserve|].
    intros [r|e] w' [Hop Hr].
    + destruct Hr as [(game & _ & _ & _ & Hfree) Hres].
      apply (exclusive_take CancelLock JoinLock g w); auto. apply Hres.
    + destruct Hr as [Hl _]. by eapply exclusive_refused.
  - apply wp_discard_result. eapply wp_mono; [by apply wp_reserveBatchLocked|].
    intros ? w' [Hop _]. by eapply exclusive_other.
  - apply wp_discard_result. eapply wp_mono; [by apply wp_ReserveBatch|].
    intros ? w' [Hop _]. by eapply exclusive_other.
  - apply wp_discard_result. eapply wp_mono; [by apply wp_claimLocked|].
    intros ? w' [Hop _]. by eapply exclusive_other.
  - apply wp_discard_result. eapply wp_mono; [by apply wp_Claim|].
    intros ? w' [Hop _]. by eapply exclusive_other.
  - pose proof (later_tick w) as Hl. eapply exclusive_shrinks; [by apply later_time| |done].
    intros. apply shrinks_refl.
  - done.
Qed.

(** *** Properties *)

(** C9: no interleaving lets a wallet hold more active locks of one kind than the
    configured maximum, at any moment. *)
Theorem wallet_limit w w' k wallet :
  fresh w → rtc act_step w w' →
  Z.of_nat (size (held_by wallet (view (time w') (locks w' k)))) ≤ maxPerWallet (locks w k).
Proof.
  intros Hf Hr%reachable_system. pose proof (fresh_ok w k Hf) as Hok.
  pose proof (sys_steps _ _ Hr k Hok) as Hs. rewrite (fresh_view (time w) w k Hf) in Hs.
  destruct (Hf k) as (_ & _ & Hc). apply (steps_bounded _ _ _ Hs).
  apply bounded_empty. destruct Hc. lia.
Qed.

(** C8: when no [Reserve] of the join or the cancel use case is interrupted between its
    checks and its insertion, no game ever has an active join lock and an active cancel
    lock at the same time. *)
Theorem join_cancel_exclusive w w' :
  fresh w → wired w → rtc atomic_step w w' → exclusive w'.
Proof.
  intros Hf Hw Hr. assert (exclusive w) as He.
  { intros g. left. rewrite fresh_view by done. apply lookup_empty. }
  clear Hf. induction Hr as [w|w1 w2 w3 [m w Hat] _ IH]; [done|].
  apply IH; [by eapply wired_system, Hw; apply run_system|by apply atomic_exclusive].
Qed.
End Invariants.

(** ** Concrete runs *)

Module CoordinationRun.
Import Run.
#[local] Existing Instance Run.ticking.

Definition w0 : World :=
  Run.world (Run.tables_of [Run.game 7 1 "EQalice" None; Run.game 8 1 "EQalice" None;
                            Run.game 9 1 "EQalice" None]) 2 60.

Definition runs (ms : list action) (w : World) : World := foldl (λ w m, (run m w).2) w ms.

Lemma runs_reach ms w : rtc act_step w (runs ms w).
Proof.
  revert w. induction ms as [|m ms IH]; intros w; [constructor|].
  eapply rtc_l; [constructor|apply IH].
Qed.

Lemma runs_atomic ms w : Forall atomic ms → rtc atomic_step w (runs ms w).
Proof.
  revert w. induction ms as [|m ms IH]; intros w Hms; [constructor|].
  inversion_clear Hms. eapply rtc_l; [by constructor|by apply IH].
Qed.

Lemma w0_fresh : fresh w0.
Proof. intros k. split; [done|]. split; [done|]. by constructor. Qed.

Definition race : list action :=
  [JoinCheck 7 "EQbob"; CancelCheck 7 "EQalice"; JoinLocked 7 "EQbob"; CancelLocked 7 "EQalice"].

Definition holders (k : LockKind) (g : Z) (w : World) : option string :=
  fst <$> view (time w) (locks w k) !! g.

(** The checks of [Reserve] and its insertion are not one critical section: if a
    join check and a cancel check both pass before either lock is inserted, the game
    ends up with both locks active. *)
Theorem join_cancel_race :
  rtc act_step w0 (runs race w0) ∧
  holders JoinLock 7 (runs race w0) = Some "eqbob" ∧
  holders CancelLock 7 (runs race w0) = Some "eqalice".
Proof. split; [apply runs_reach|]. split; vm_compute; reflexivity. Qed.

(** The first lock on game 7 expires before any cleanup, then the game is locked
    again. *)
Definition expire (w : World) : World := set_ticks (ticks w + 100) w.
Definition relocked (first second : string) : World :=
  runs [JoinReserve 7 second] (expire (runs [JoinReserve 7 first] w0)).

(** Locking a game again after an expiry that no cleanup has seen leaves the old
    entry of the wallet index behind: the former holder's listing shows the new
    holder's lock, and a wallet that locks the game twice counts it twice, so that a
    limit of two refuses the second game to a wallet that holds one lock. *)
Theorem stale_index :
  (∃ r w, Reservation.ListByWallet "EQbob" (relocked "EQbob" "EQcarol") = (Ok [r], w) ∧
          GameReservation.WalletAddress r = "EQcarol") ∧
  size (held_by "eqbob" (view (time (relocked "EQbob" "EQbob"))
                              (locks (relocked "EQbob" "EQbob") JoinLock))) = 1%nat ∧
  (Reservation.Reserve (CancelGet := CancelReservation.service) 8 "EQbob"
     (relocked "EQbob" "EQbob")).1 = Err (ESentinel ErrTooManyReservations).
Proof.
  split; [|split; vm_compute; reflexivity].
  eexists _, _. split; [vm_compute; reflexivity|vm_compute; reflexivity].
Qed.

Definition busy_day : list action :=
  [JoinReserve 7 "EQbob"; JoinReserve 8 "EQBOB"; JoinReserve 9 "eqbob"; JoinCancel 7 "EQbob";
   JoinReserve 9 "eqbob"; CancelReserve 8 "EQalice"; CancelReserve 7 "EQalice"].

Lemma wallet_limit_witness :
  size (held_by "eqbob" (view (time (runs busy_day w0)) (locks (runs busy_day w0) JoinLock)))
    = 2%nat ∧
  Z.of_nat (size (held_by "eqbob" (view (time (runs busy_day w0))
                                        (locks (runs busy_day w0) JoinLock)))) ≤ 2.
Proof.
  split; [vm_compute; reflexivity|].
  exact (wallet_limit w0 _ JoinLock "eqbob" w0_fresh (runs_reach busy_day w0)).
Defined.

Lemma join_cancel_exclusive_witness :
  holders JoinLock 8 (runs busy_day w0) = Some "eqbob" ∧
  holders CancelLock 7 (runs busy_day w0) = Some "eqalice" ∧
  exclusive (runs busy_day w0).
Proof.
  split; [vm_compute; reflexivity|]. split; [vm_compute; reflexivity|].
  apply (join_cancel_exclusive w0); [apply w0_fresh|done|].
  apply runs_atomic. repeat constructor.
Defined.
End CoordinationRun.
