(* ===== verification/Lifecycle.v ===== *)
(** * The life of a lock, action by action

    [Coordination] bounds what interleaved critical sections can reach.  Here every
    single action is held against the abstract lock table with its actor named: which
    action may take the lock of which game for whom, which may end it, and that an
    active lock passes to nobody else in between. *)
From S2P Require Import Prelude GoTypes Entity World LockSpec Store Repo Locks LockOps Reservation CancelReservation RevealReservation ExpiredClaim Coordination.

Section Lifecycle.
Context `{E : Env} {R : GameRepository}.

(** [m] tries to lock game [g] for [wallet] with a lock of kind [k]. *)
Definition takes (m : action) (k : LockKind) (g : Z) (wallet : string) : Prop :=
  match m, k with
  | JoinLocked g' a, JoinLock | JoinReserve g' a, JoinLock
  | CancelLocked g' a, CancelLock | CancelReserve g' a, CancelLock
  | ClaimLocked g' a, ClaimLock | ClaimClaim g' a, ClaimLock =>
      g = g' ∧ wallet = normalizeReservationWallet a
  | RevealLocked gs a, RevealLock | RevealBatch gs a, RevealLock =>
      g ∈ gs ∧ wallet = normalizeReservationWallet a
  | _, _ => False
  end.

(** [m] may end the lock of kind [k] that [wallet] holds on game [g]: a cancellation
    names the game and the holder, a release names the game, and a listing or a lookup
    ends the locks of games that are no longer in the status the lock is about. *)
Definition releases (m : action) (w : World) (k : LockKind) (g : Z) (wallet : string) : Prop :=
  match m, k with
  | JoinCancel g' a, JoinLock | CancelCancel g' a, CancelLock
  | RevealCancel g' a, RevealLock | ClaimRelease g' a, ClaimLock =>
      g = g' ∧ wallet = normalizeReservationWallet a
  | JoinRelease g', JoinLock | JoinStale g', JoinLock
  | CancelRelease g' _, CancelLock | CancelStale g', CancelLock
  | RevealRelease g', RevealLock | ClaimResolved g', ClaimLock => g = g'
  | JoinList _, JoinLock | CancelList _, CancelLock =>
      ¬ in_status k GameStatusWaitingForOpponent w g
  | ClaimList _, ClaimLock => ¬ in_status k GameStatusEnded w g
  | ClaimGet g', ClaimLock => g = g' ∧ ¬ in_status k GameStatusEnded w g
  | _, _ => False
  end.

(** What an action may make of the lock of one game, [None] being no active lock. *)
Inductive fate (m : action) (k : LockKind) (g : Z) (w w' : World) :
  option (string * Z) → option (string * Z) → Prop :=
| fate_none : fate m k g w w' None None
| fate_kept h : fate m k g w w' (Some h) (Some h)
| fate_expired wallet u : u < time w' → fate m k g w w' (Some (wallet, u)) None
| fate_released wallet u :
    releases m w k g wallet → fate m k g w w' (Some (wallet, u)) None
| fate_taken wallet now before :
    takes m k g wallet →
    time w ≤ now ≤ time w' →
    view now (locks w k) !! g = None →
    Z.of_nat (size (held_by wallet (view now (locks w k)))) < maxPerWallet (locks w k) →
    fate m k g w w' before (Some (wallet, now + timeout (locks w k))).

Definition lock_of (k : LockKind) (g : Z) (w : World) : option (string * Z) :=
  view (time w) (locks w k) !! g.

Definition fate_of (m : action) (k : LockKind) (g : Z) (w w' : World) : Prop :=
  fate m k g w w' (lock_of k g w) (lock_of k g w').
End Lifecycle.

Section Proofs.
Context `{E : Env} `{!ClockMono E} `{!RangePerm E} {R : GameRepository}
  `{!GameRepositoryLaws E R}.
Implicit Types (m : action) (k : LockKind) (g : Z) (w : World).

(** ** Actions that drop locks or leave them alone *)

Lemma lock_of_Some k g w h :
  lock_of k g w = Some h ↔
  ∃ r, reservations (locks w k) !! g = Some r ∧ active_at (time w) r ∧ h = holder r.
Proof. apply view_lookup. Qed.

(** The entry of [g] vanished although it had not expired. *)
Definition ended k g w w' (r : GameReservation.t) : Prop :=
  reservations (locks w k) !! g = Some r ∧ active_at (time w') r ∧
  reservations (locks w' k) !! g ≠ Some r.

Lemma fate_drops m k g w w' :
  time w ≤ time w' →
  (∀ r, reservations (locks w' k) !! g = Some r → active_at (time w') r →
     reservations (locks w k) !! g = Some r) →
  (∀ r, ended k g w w' r →
     releases m w k g (normalizeReservationWallet (GameReservation.WalletAddress r))) →
  fate_of m k g w w'.
Proof.
  intros Ht Hsh Hrel. unfold fate_of. destruct (lock_of k g w') as [h'|] eqn:Hafter.
  - apply lock_of_Some in Hafter as (r & Hr & Ha & ->).
    assert (lock_of k g w = Some (holder r)) as ->; [|constructor].
    apply lock_of_Some. exists r. split; [by apply Hsh|]. split; [by eapply active_at_mono|done].
  - destruct (lock_of k g w) as [h|] eqn:Hbefore; [|constructor].
    apply lock_of_Some in Hbefore as (r & Hr & Ha & ->).
    destruct (decide (active_at (time w') r)) as [Ha'|Hdead].
    + apply fate_released, Hrel. split; [done|]. split; [done|]. intros Hr'.
      assert (lock_of k g w' = Some (holder r)) by (apply lock_of_Some; eauto). congruence.
    + apply fate_expired. destruct Ha as [Hs _]. unfold active_at in Hdead.
      destruct (decide (GameReservation.ExpiresAt r < time w')); [done|].
      destruct Hdead. split; [done|lia].
Qed.

Lemma fate_same m k g w w' :
  time w ≤ time w' →
  reservations (locks w' k) !! g = reservations (locks w k) !! g → fate_of m k g w w'.
Proof.
  intros Ht Hsame. apply fate_drops; [done|by rewrite Hsame|].
  intros r (? & _ & Hn). congruence.
Qed.

(** A lock that was not dropped from [g] did not end. *)
Lemma ended_later k g w w' r : later w w' → ¬ ended k g w w' r.
Proof. intros Hl (Hr & _ & Hn). by rewrite (later_lock _ _ k Hl) in Hn. Qed.

Lemma ended_unchanged k g w w' r : locks w' = locks w → ¬ ended k g w w' r.
Proof. intros Hl (Hr & _ & Hn). by rewrite Hl in Hn. Qed.

Lemma ended_dropped k g g' mt n w w' r : dropped k g' mt n w w' → ended k g w w' r → g = g'.
Proof.
  intros Hd (Hr & _ & Hn). destruct (decide (g = g')) as [|Hne]; [done|].
  by rewrite (dropped_others _ _ _ _ _ _ Hd g Hne) in Hn.
Qed.

Lemma ended_cleaned k g w w' l r : cleaned E k w w' l → ¬ ended k g w w' r.
Proof. intros Hc (Hr & Ha & Hn). by apply Hn, Hc. Qed.

Lemma ended_evictions g w w' l r : evictions w w' l → ¬ ended CancelLock g w w' r.
Proof.
  intros [Htold Hrest _ _] (Hr & [_ Ha] & Hn). destruct (decide (g ∈ l)) as [Hg|Hg].
  - destruct (Htold g Hg) as [(r' & Hr' & _ & He) _].
    rewrite Hr in Hr'. injection Hr' as <-. lia.
  - by rewrite Hrest in Hn.
Qed.

Lemma ended_keeps k status g w w' r :
  keeps_actionable k status w w' → ended k g w w' r → ¬ in_status k status w g.
Proof. intros Hk (Hr & _ & Hn) Hin. by rewrite Hk in Hn. Qed.

Lemma join_releaseStale_only g w g' : g' ≠ g →
  reservations (locks (Reservation.releaseStaleReservation g w).2 JoinLock) !! g' =
  reservations (locks w JoinLock) !! g'.
Proof.
  intros Hne. unfold Reservation.releaseStaleReservation, mbind, M_bind, ST_bind, getLock, gets.
  destruct (reservations (locks w JoinLock) !! g) as [r|]; [|done].
  simpl. by rewrite lookup_delete_ne.
Qed.

Lemma cancel_releaseStale_only reason g w g' : g' ≠ g →
  reservations (locks (CancelReservation.releaseStaleReservation reason g w).2 CancelLock) !! g' =
  reservations (locks w CancelLock) !! g'.
Proof.
  intros Hne. apply (wp_bind (getLock CancelLock) _
    (λ _ w', reservations (locks w' CancelLock) !! g' = _)), wp_gets.
  destruct (reservations (locks w CancelLock) !! g) as [r|]; [|by apply wp_ret].
  eapply wp_discard; [done|]. intros w' Hd. by apply (dropped_others _ _ _ _ _ _ Hd).
Qed.

Lemma resolved_only g w g' : g' ≠ g →
  reservations (locks (ExpiredClaim.ReleaseOnResolved g w).2 ClaimLock) !! g' =
  reservations (locks w ClaimLock) !! g'.
Proof.
  intros Hne. destruct (wp_ReleaseOnResolved g w) as [_ [[_ Hl]|Hd]].
  - by rewrite (later_lock _ _ _ Hl).
  - by apply (dropped_others _ _ _ _ _ _ Hd).
Qed.

(** Looking a claim up ends it only when its game is no longer ended. *)
Lemma claim_Get_ended g g' w r :
  ended ClaimLock g w (ExpiredClaim.Get g' w).2 r →
  g = g' ∧ ¬ in_status ClaimLock GameStatusEnded w g.
Proof.
  apply (wp_bind (ExpiredClaim.peekActiveClaim g') _
    (λ _ w', ended ClaimLock g w w' r → _)), wp_bind, wp_gets, wp_lookupActive. intros w1 H1.
  destruct (if bool_decide _ then _ else _) as [r'|].
  2: { apply wp_ret. by intros He%ended_later. }
  apply wp_rbind. eapply wp_mono; [apply wp_gameInStatus|]. intros [b|e] w2 [H2 Hb].
  2: { intros He%ended_later; [done|]. by etrans. }
  assert (later w w2) as H02 by (by etrans). specialize (Hb b eq_refl).
  destruct b; simpl.
  - apply wp_ret. by intros He%ended_later.
  - apply wp_bind. eapply wp_mono; [apply wp_ReleaseOnResolved|].
    intros _ w3 [_ [[_ Hl]|Hd]]; apply wp_ret; intros He.
    { apply ended_later in He; [done|]. by etrans. }
    assert (g = g') as ->.
    { eapply ended_dropped; [exact Hd|]. destruct He as (Hr & Ha & Hn).
      split; [by rewrite (later_lock _ _ _ H02)|done]. }
    split; [done|]. symmetry in Hb. apply bool_decide_eq_false in Hb.
    intros Hin. apply Hb. by apply (in_status_op ClaimLock _ _ _ _ (later_op ClaimLock _ _ H1)).
Qed.

Lemma claim_ListByWallet_ended g a w r :
  ended ClaimLock g w (ExpiredClaim.ListByWallet a w).2 r →
  ¬ in_status ClaimLock GameStatusEnded w g.
Proof.
  unfold ExpiredClaim.ListByWallet. case_bool_decide.
  - by intros (? & _ & ?).
  - apply ended_keeps, listByWallet_keeps; [done..|apply ReleaseOnResolved_drops|apply resolved_only].
Qed.

Lemma wp_ended {A} (m : M A) Q k g w r (P : Prop) :
  ended k g w ((_ ← m; mret tt) w).2 r → wp m Q w →
  (∀ a w', Q a w' → ended k g w w' r → P) → P.
Proof.
  intros He Hwp HP. apply (HP (m w).1 (m w).2 Hwp). revert He.
  unfold mbind, M_bind, ST_bind. by destruct (m w).
Qed.

Lemma discard_world {A} (m : M A) w : ((_ ← m; mret tt) w).2 = (m w).2.
Proof. unfold mbind, M_bind, ST_bind. by destruct (m w). Qed.

(** A cancellation that succeeded ended the caller's own lock. *)
Lemma ended_own k g g' a mt n w w' r :
  dropped k g' mt n w w' ∧ (∃ r', reservations (locks w k) !! g' = Some r' ∧
    active_at (time w) r' ∧ normalizeReservationWallet (GameReservation.WalletAddress r') =
    normalizeReservationWallet a) →
  ended k g w w' r →
  g = g' ∧ normalizeReservationWallet (GameReservation.WalletAddress r) =
           normalizeReservationWallet a.
Proof.
  intros [Hd (r' & Hr' & _ & Hw)] He.
  pose proof (ended_dropped _ _ _ _ _ _ _ _ Hd He) as ->. split; [done|].
  destruct He as (Hr & _). rewrite Hr' in Hr. by injection Hr as <-.
Qed.

Lemma ended_released k g g' mt n w w' r (P Q : Prop) :
  (P ∧ later w w') ∨ (Q ∧ dropped k g' mt n w w') → ended k g w w' r → g = g'.
Proof.
  intros [[_ Hl]|[_ Hd]] He; [by apply ended_later in He|by eapply ended_dropped].
Qed.

Lemma ended_resolved g g' w w' r :
  resolved_post g' w w' → ended ClaimLock g w w' r → g = g'.
Proof.
  intros [_ [[_ Hl]|Hd]] He; [by apply ended_later in He|by eapply ended_dropped].
Qed.

(** An action that takes no lock ends only the locks it is entitled to end. *)
Lemma join_run_ended m g w r :
  dropping m = Some JoinLock → ended JoinLock g w (run m w).2 r →
  releases m w JoinLock g (normalizeReservationWallet (GameReservation.WalletAddress r)).
Proof.
  destruct m; intros [=]; cbn [run releases]; intros He.
  - eapply wp_ended; [exact He|apply wp_reserveCheck|].
    by intros ? w' [[_ Hl] _] []%ended_unchanged.
  - eapply wp_ended; [exact He|apply wp_Cancel|]. intros [u|e] w' Hp He'.
    + by eapply ended_own.
    + by apply ended_later in He'; [|apply Hp].
  - by eapply ended_released; [apply wp_ReleaseOnJoin|].
  - destruct (decide (g = g0)) as [|Hne]; [done|]. destruct He as (Hr & _ & []).
    by rewrite join_releaseStale_only.
  - rewrite discard_world in He. eapply ended_keeps; [|exact He].
    apply listByWallet_keeps; [done..|apply join_releaseStale_drops|apply join_releaseStale_only].
  - destruct (wp_CleanupExpired w) as [_ (l & Hc & _)].
    by apply (ended_cleaned _ _ _ _ _ _ Hc) in He.
Qed.

Lemma cancel_run_ended m g w r :
  dropping m = Some CancelLock → ended CancelLock g w (run m w).2 r →
  releases m w CancelLock g (normalizeReservationWallet (GameReservation.WalletAddress r)).
Proof.
  destruct m; intros [=]; cbn [run releases]; intros He.
  - eapply wp_ended; [exact He|apply wp_cancel_reserveCheck|].
    by intros ? w' [[_ Hl] _] []%ended_unchanged.
  - eapply wp_ended; [exact He|apply wp_cancel_Cancel|]. intros [u|e] w' [_ Hp] He'.
    + by eapply ended_own.
    + by apply ended_unchanged in He'; [|apply Hp].
  - by eapply ended_released; [apply wp_ReleaseOnUnavailable|].
  - destruct (decide (g = g0)) as [|Hne]; [done|]. destruct He as (Hr & _ & []).
    by rewrite cancel_releaseStale_only.
  - rewrite discard_world in He. eapply ended_keeps; [|exact He].
    apply listByWallet_keeps;
      [done..|apply cancel_releaseStale_drops|apply cancel_releaseStale_only].
  - destruct (wp_cancel_CleanupExpired w) as [_ (l & Hc & _)].
    by apply (ended_evictions _ _ _ _ _ Hc) in He.
Qed.

Lemma reveal_run_ended m g w r :
  dropping m = Some RevealLock → ended RevealLock g w (run m w).2 r →
  releases m w RevealLock g (normalizeReservationWallet (GameReservation.WalletAddress r)).
Proof.
  destruct m; intros [=]; cbn [run releases]; intros He.
  - eapply wp_ended; [exact He|apply wp_reveal_Cancel|]. intros [u|e] w' Hp He'.
    + by eapply ended_own.
    + by apply ended_later in He'; [|apply Hp].
  - by eapply ended_released; [apply wp_ReleaseOnTerminal|].
  - destruct (wp_reveal_cleanupExpired w) as [_ (l & Hc & _)].
    by apply (ended_cleaned _ _ _ _ _ _ Hc) in He.
Qed.

Lemma claim_run_ended m g w r :
  dropping m = Some ClaimLock → ended ClaimLock g w (run m w).2 r →
  releases m w ClaimLock g (normalizeReservationWallet (GameReservation.WalletAddress r)).
Proof.
  destruct m; intros [=]; cbn [run releases]; intros He.
  - eapply wp_ended; [exact He|apply wp_Release|]. intros [u|e] w' [_ Hp] He'.
    + by eapply ended_own.
    + by apply ended_later in He'.
  - by eapply ended_resolved; [apply wp_ReleaseOnResolved|].
  - rewrite discard_world in He. by eapply claim_Get_ended.
  - rewrite discard_world in He. by eapply claim_ListByWallet_ended.
  - destruct (wp_claim_CleanupExpired w) as [_ (l & Hc & _)].
    by apply (ended_cleaned _ _ _ _ _ _ Hc) in He.
Qed.

Lemma run_ended m k g w r :
  dropping m = Some k → ended k g w (run m w).2 r →
  releases m w k g (normalizeReservationWallet (GameReservation.WalletAddress r)).
Proof.
  destruct k; [apply join_run_ended|apply cancel_run_ended|apply reveal_run_ended
              |apply claim_run_ended].
Qed.

(** *** Actions that take locks *)

Lemma fate_take m k g w w' a now :
  takes m k g (normalizeReservationWallet a) → time w ≤ now ≤ time w' → LockOk (locks w k) →
  reservations (locks w' k) !! g = Some (newReservation g a now (locks w k)) →
  view now (locks w k) !! g = None → counted k a now w < maxPerWallet (locks w k) →
  fate_of m k g w w'.
Proof.
  intros Htk Ht Hok Hr Hfree Hroom. unfold fate_of.
  destruct (lock_of k g w') as [h|] eqn:Hafter.
  - apply lock_of_Some in Hafter as (r' & Hr' & _ & ->). rewrite Hr in Hr'. injection Hr' as <-.
    apply (fate_taken m k g w w' (normalizeReservationWallet a) now); try done.
    eapply Z.le_lt_trans; [|exact Hroom]. apply inj_le, held_le_index, Hok.
  - destruct (lock_of k g w) as [h|] eqn:Hbefore; [|constructor].
    apply lock_of_Some in Hbefore as (r & Hr0 & [Hs _] & ->). apply fate_expired.
    apply view_lookup_None in Hfree. unfold live in Hfree. rewrite Hr0 in Hfree.
    unfold active_at in Hfree. destruct (decide (GameReservation.ExpiresAt r < time w')); [done|].
    destruct Hfree. split; [done|lia].
Qed.

(** [m] works on the locks of kind [k] and does to each of them what it may. *)
Definition fated (k : LockKind) (m : action) (w w' : World) : Prop :=
  lock_op k w w' ∧ (LockOk (locks w k) → ∀ g, fate_of m k g w w').

Lemma fated_all k m w w' :
  fated k m w w' → (∀ k, LockOk (locks w k)) → ∀ k' g, fate_of m k' g w w'.
Proof.
  intros [Hop Hf] Hok k' g. destruct (decide (k' = k)) as [->|Hne]; [by apply Hf|].
  apply fate_same; [by eapply op_time|]. by rewrite (op_others _ _ _ Hop).
Qed.

Lemma fated_refused k m w w' : lock_op k w w' → locks w' = locks w → fated k m w w'.
Proof.
  intros Hop Hl. split; [done|]. intros _ g. apply fate_same; [by eapply op_time|]. by rewrite Hl.
Qed.

Lemma fated_one k m g w w' a r now :
  lock_op k w w' →
  (∀ g', g' ≠ g → reservations (locks w' k) !! g' = reservations (locks w k) !! g') →
  takes m k g (normalizeReservationWallet a) → time w ≤ now ≤ time w' →
  reservations (locks w' k) !! g = Some r → r = newReservation g a now (locks w k) →
  view now (locks w k) !! g = None → counted k a now w < maxPerWallet (locks w k) →
  fated k m w w'.
Proof.
  intros Hop Hoth Htk Ht Hr -> Hfree Hroom. split; [done|]. intros Hok g'.
  destruct (decide (g' = g)) as [->|Hne]; [by eapply fate_take|].
  apply fate_same; [by eapply op_time|by apply Hoth].
Qed.

Lemma fated_reserved m g w w' a r :
  lock_op JoinLock w w' → takes m JoinLock g (normalizeReservationWallet a) →
  reserved g a w w' r → fated JoinLock m w w'.
Proof. intros Hop Htk []. by eapply fated_one. Qed.

Lemma fated_cancel_reserved m g w w' a r :
  lock_op CancelLock w w' → takes m CancelLock g (normalizeReservationWallet a) →
  cancel_reserved g a w w' r → fated CancelLock m w w'.
Proof. intros Hop Htk []. by eapply fated_one. Qed.

Lemma fated_claimed m g w w' a r :
  lock_op ClaimLock w w' → takes m ClaimLock g (normalizeReservationWallet a) →
  claimed g a w w' r → fated ClaimLock m w w'.
Proof.
  intros Hop Htk []; [by eapply fated_one|]. apply fated_refused; [done|by apply later_locks].
Qed.

Lemma fated_batch m gs w w' a rs now :
  lock_op RevealLock w w' →
  (∀ g, g ∈ gs → takes m RevealLock g (normalizeReservationWallet a)) →
  batch_reserved gs a w w' rs now → fated RevealLock m w w'.
Proof.
  intros Hop Htk [_ Ht Hst Hoth Hfree Hroom _]. split; [done|]. intros Hok g.
  destruct (decide (g ∈ gs)) as [Hg|Hg].
  - eapply fate_take; [by apply Htk|done..|by apply Hst|by apply Hfree|].
    destruct gs; [set_solver|]. simpl in Hroom. lia.
  - apply fate_same; [by eapply op_time|by apply Hoth].
Qed.

Lemma run_fated m w : own m → ∃ k, fated k m w (run m w).2.
Proof.
  intros Hown. destruct (dropping m) as [k|] eqn:Hm.
  { exists k. pose proof (run_drops m k w Hm) as [Hop Hsh]. split; [done|]. intros _ g.
    apply fate_drops; [by eapply op_time|intros r; apply Hsh|]. intros r.
    by apply run_ended. }
  destruct m; try discriminate Hm; clear Hm; cbn [run];
    [exists JoinLock|exists JoinLock|exists CancelLock|exists CancelLock|exists RevealLock
    |exists RevealLock|exists ClaimLock|exists ClaimLock|exists JoinLock|by destruct (Hown t)].
  1-8: apply wp_discard_result.
  - eapply wp_mono; [apply wp_reserveLocked|]. intros [r|e] w' [Hop Hr].
    + by eapply (fated_reserved _ g).
    + apply fated_refused; [done|apply Hr].
  - eapply wp_mono; [apply wp_Reserve|]. intros [r|e] w' [Hop Hr].
    + by eapply (fated_reserved _ g); [..|apply Hr].
    + apply fated_refused; [done|apply Hr].
  - eapply wp_mono; [by apply wp_cancel_reserveLocked|]. intros [r|e] w' [Hop Hr].
    + by eapply (fated_cancel_reserved _ g).
    + apply fated_refused; [done|apply Hr].
  - eapply wp_mono; [apply wp_cancel_Reserve|]. intros [r|e] w' [Hop Hr].
    + by eapply (fated_cancel_reserved _ g); [..|apply Hr].
    + apply fated_refused; [done|apply Hr].
  - eapply wp_mono; [by apply wp_reserveBatchLocked|]. intros [rs|e] w' [Hop Hr].
    + destruct Hr as [now Hr]. by eapply fated_batch.
    + apply fated_refused; [done|by apply later_locks, Hr].
  - eapply wp_mono; [apply wp_ReserveBatch|]. intros [rs|e] w' [Hop Hr].
    + destruct Hr as (_ & _ & now & Hr). by eapply fated_batch.
    + apply fated_refused; [done|by apply later_locks, Hr].
  - eapply wp_mono; [by apply wp_claimLocked|]. intros [r|e] w' [Hop Hr].
    + by eapply (fated_claimed _ g).
    + apply fated_refused; [done|by apply later_locks, Hr].
  - eapply wp_mono; [apply wp_Claim|]. intros [r|e] w' [Hop Hr].
    + by eapply (fated_claimed _ g); [..|apply Hr].
    + apply fated_refused; [done|by apply later_locks, Hr].
  - apply fated_refused; [apply later_op, later_tick|done].
Qed.
Lemma store_fated t w k g : fate_of (Store t) k g w (run (Store t) w).2.
Proof. by apply fate_same. Qed.

(** *** Property *)

(** C13: whatever interleaving of critical sections came before, no single action does
    more to the lock of a game than the abstract lock table allows the actor: a lock
    appears only by an action that takes locks of that kind on that game, in the name of
    its wallet, at an instant at which the game was free and the wallet held fewer
    active locks than its maximum, and lasts for the configured time from then; it
    disappears only when it has expired, when its own holder cancels it, when the
    release for that game runs, or when a listing or a lookup finds the game in another
    status; otherwise it stays with the same holder and the same deadline. *)
Theorem lock_lifecycle w0 w m k g :
  fresh w0 → rtc act_step w0 w → fate_of m k g w (run m w).2.
Proof.
  intros Hf Hr%reachable_system.
  assert (own m ∨ ∃ t, m = Store t) as [Hown|[t ->]] by (destruct m; eauto; by left);
    [|apply store_fated].
  destruct (run_fated m w Hown) as [k' Hk']. eapply fated_all; [exact Hk'|].
  intros k0. by apply (sys_ok _ _ Hr), fresh_ok.
Qed.
End Proofs.

(** ** A concrete run *)

Module LifecycleRun.
Import Run CoordinationRun.
#[local] Existing Instance Run.ticking.

(** Bob takes game 8, Carol is refused it, and Bob's lock is the one that stays. *)
Lemma lock_lifecycle_witness :
  let w := runs [JoinReserve 8 "EQbob"] w0 in
  let w' := (run (JoinReserve 8 "EQcarol") w).2 in
  fst <$> lock_of JoinLock 8 w = Some "eqbob" ∧ lock_of JoinLock 8 w' = lock_of JoinLock 8 w ∧
  fate (JoinReserve 8 "EQcarol") JoinLock 8 w w' (lock_of JoinLock 8 w) (lock_of JoinLock 8 w').
Proof.
  split; [vm_compute; reflexivity|]. split; [vm_compute; reflexivity|].
  apply (lock_lifecycle w0); [apply w0_fresh|apply runs_reach].
Defined.
End LifecycleRun.
