(* ===== verification/Toncenter.v ===== *)
(** * What TON Center delivers (internal/infrastructure/toncenter)

    Transactions as the API returns them, and the message the parser makes of one. *)
From S2P Require Import Prelude GoTypes.

Module Transaction.
(** [json.RawMessage] fields are [None] when nil. *)
Record t := mk {
  Lt : string; Hash : string; Utime : Z; Data : string; InMsg : option string;
  OutMsgs : option string; PrevTransLt : string; PrevTransHash : string; Fee : string;
  StorageFee : string; OtherFee : string }.
End Transaction.

Module ParsedMessage.
(** [*big.Int] fields are [None] when nil. *)
Record t := mk {
  Opcode : Z; EventType : string; GameID : Z; PlayerOne : string; PlayerTwo : string;
  BidValue : option Z; TotalGainings : option Z; Winner : string; Looser : string;
  Player : string; CoinSide : Z; Required : option Z; Actual : option Z;
  ServiceFeeNumerator : Z; ReferrerFeeNumerator : Z; WaitingForOpenBidSeconds : Z;
  LowestBid : option Z; HighestBid : option Z; MinReferrerPayoutValue : option Z;
  FeeReceiver : string; ProtocolVersion : Z; RawData : string }.
End ParsedMessage.
