(* ===== verification/MessageParser.v ===== *)
(** * From a message of TON Center to a parsed message

    internal/infrastructure/toncenter/message_parser_v2.go (the parser the service runs),
    message_parser.go (the byte parser it replaced, and the legacy JSON form) and
    test_message_builder.go. Cells are those of a library: only its operations are named. *)
From S2P Require Import Prelude GoTypes Entity World Toncenter.
From Stdlib Require Import Ascii SpecFloat.

(** ** Base64 (encoding/base64) *)

Module Base64.
Definition alphabet : list ascii :=
  bytes "ABCDEFGHIJKLMNOPQRSTUVWXYZabcdefghijklmnopqrstuvwxyz0123456789+/".

Definition char_of (d : Z) : ascii := nth (Z.to_nat d) alphabet "A"%char.

Fixpoint position (c : ascii) (l : list ascii) : option Z :=
  match l with
  | [] => None
  | d :: l => if byte_eqb c d then Some 0 else Z.succ <$> position c l
  end.
Definition digit_of (c : ascii) : option Z := position c alphabet.

Definition byte_value (c : ascii) : Z := Z.of_nat (nat_of_ascii c).
Definition byte_of (z : Z) : ascii := ascii_of_nat (Z.to_nat (z mod 256)).

(** [StdEncoding.EncodeToString] *)
Fixpoint encode (l : list ascii) : list ascii :=
  match l with
  | [] => []
  | [a] =>
      let n := byte_value a * 2 ^ 16 in
      [char_of (n / 2 ^ 18 mod 64); char_of (n / 2 ^ 12 mod 64); "="%char; "="%char]
  | [a; b] =>
      let n := byte_value a * 2 ^ 16 + byte_value b * 2 ^ 8 in
      [char_of (n / 2 ^ 18 mod 64); char_of (n / 2 ^ 12 mod 64); char_of (n / 2 ^ 6 mod 64);
       "="%char]
  | a :: b :: c :: l =>
      let n := byte_value a * 2 ^ 16 + byte_value b * 2 ^ 8 + byte_value c in
      char_of (n / 2 ^ 18 mod 64) :: char_of (n / 2 ^ 12 mod 64) :: char_of (n / 2 ^ 6 mod 64)
        :: char_of (n mod 64) :: encode l
  end.
Definition EncodeToString (s : string) : string := of_bytes (encode (bytes s)).

Definition CorruptInputError (offset : Z) : error :=
  ENew ("illegal base64 data at input byte " +:+ FormatInt offset).

(** The bytes of two to four digits; with none, no bytes. *)
Definition quantum (digits : list Z) : list ascii :=
  match digits with
  | [a; b] => [byte_of (a * 4 + b / 16)]
  | [a; b; c] => [byte_of (a * 4 + b / 16); byte_of (b * 16 + c / 4)]
  | [a; b; c; d] => [byte_of (a * 4 + b / 16); byte_of (b * 16 + c / 4); byte_of (c * 64 + d)]
  | _ => []
  end.

Definition newline (c : ascii) : bool :=
  let n := nat_of_ascii c in (n =? 10)%nat || (n =? 13)%nat.

Fixpoint skip_newlines (src : list ascii) (si : Z) : list ascii * Z :=
  match src with
  | c :: src' => if newline c then skip_newlines src' (si + 1) else (src, si)
  | [] => (src, si)
  end.

(** After the padding only newlines may follow. *)
Definition finished (digits : list Z) (src : list ascii) (si : Z) : result (list ascii) :=
  let '(src, si) := skip_newlines src si in
  match src with [] => Ok (quantum digits) | _ => Err (CorruptInputError si) end.

(** A padding character at [si], with [src] after it. *)
Definition padding (digits : list Z) (src : list ascii) (si : Z) : result (list ascii) :=
  match length digits with
  | 2%nat =>
      let '(src, sj) := skip_newlines src (si + 1) in
      match src with
      | [] => Err (CorruptInputError sj)
      | c :: src => if byte_eqb c "="%char then finished digits src (sj + 1)
                    else Err (CorruptInputError (sj - 1))
      end
  | 3%nat => finished digits src (si + 1)
  | _ => Err (CorruptInputError si)
  end.

(** [si] is the offset in the input, [digits] the quantum under way. *)
Fixpoint decode (padded : bool) (src : list ascii) (si : Z) (digits : list Z) :
    result (list ascii) :=
  match src with
  | [] =>
      let j := Z.of_nat (length digits) in
      if j =? 0 then Ok []
      else if (j =? 1) || padded then Err (CorruptInputError (si - j))
      else Ok (quantum digits)
  | c :: src =>
      match digit_of c with
      | Some d =>
          if (length digits =? 3)%nat then
            match decode padded src (si + 1) [] with
            | Ok rest => Ok (quantum (digits ++ [d]) ++ rest)
            | Err e => Err e
            end
          else decode padded src (si + 1) (digits ++ [d])
      | None =>
          if newline c then decode padded src (si + 1) digits
          else if padded && byte_eqb c "="%char then padding digits src si
          else Err (CorruptInputError si)
      end
  end.

(** [StdEncoding.DecodeString] and [RawStdEncoding.DecodeString] *)
Definition DecodeString (padded : bool) (s : string) : result (list ascii) :=
  decode padded (bytes s) 0 [].
End Base64.

Example base64_ex :
  (Base64.EncodeToString "flip!", Base64.DecodeString true "Zmx
pcCE=", Base64.DecodeString false "Zmxp", is_ok (Base64.DecodeString true "Zmx*"))
  = ("ZmxpcCE=", Ok (bytes "flip!"), Ok (bytes "fli"), false).
Proof. vm_compute. reflexivity. Qed.

(** ** What comes from libraries *)

(** A reader of a slice; the slice is left where the read ended. *)
Class CellLib := {
  Cell : Type; Slice : Type; Builder : Type; Addr : Type;
  FromBOC : list ascii → result Cell;
  ToBOC : Cell → list ascii;
  BeginParse : Cell → Slice;
  LoadUInt : Z → ST Slice (result Z);
  LoadBigUInt : Z → ST Slice (result Z);
  LoadAddr : ST Slice (result Addr);
  LoadBigCoins : ST Slice (result Z);
  LoadRef : ST Slice (result Slice);
  BitsLeft : Slice → Z;
  RefsNum : Slice → Z;
  (* The [Must] operations of a builder: [None] is a panic. *)
  BeginCell : Builder;
  StoreUInt : Z → Z → Builder → option Builder;
  StoreBigUInt : Z → Z → Builder → option Builder;
  StoreAddr : Addr → Builder → option Builder;
  StoreBigCoins : Z → Builder → option Builder;
  StoreRef : Cell → Builder → option Builder;
  StoreSlice : list ascii → Z → Builder → option Builder;
  EndCell : Builder → Cell;
  (* package address *)
  NewAddress : Z → ascii → list ascii → Addr;
  addr_ParseAddr : string → result Addr;
  addr_String : Addr → string
}.

(** [json.Unmarshal] of an in_msg: its fields [message] and [msg_data.body], and the object
    a legacy message is; [uint8(f)] for an [f] out of range. *)
Class ParserEnv := {
  json_InMsg : string → result (string * string);
  json_Object : string → result (gmap string dyn);
  float_to_uint8 : spec_float → Z
}.

(** ** Opcodes and event types *)

Definition OpcodeGameInitializedNotify : Z := 3945341079.
Definition OpcodeGameStartedNotify : Z := 102653531.
Definition OpcodeGameFinishedNotify : Z := 535291459.
Definition OpcodeGameCancelledNotify : Z := 388530130.
Definition OpcodeSecretOpenedNotify : Z := 1202198728.
Definition OpcodeDrawNotify : Z := 317981831.
Definition OpcodeInsufficientBalanceNotify : Z := 4148213171.
Definition OpcodeGameInitializedEvent : Z := 2904670482.
Definition OpcodeGameStartedEvent : Z := 3493528925.
Definition OpcodeGameFinishedEvent : Z := 2774366883.
Definition OpcodeGameCancelledEvent : Z := 616834666.
Definition OpcodeDrawEvent : Z := 2466780489.

Definition EventTypeGameInitialized : string := "GameInitializedNotify".
Definition EventTypeGameStarted : string := "GameStartedNotify".
Definition EventTypeGameFinished : string := "GameFinishedNotify".
Definition EventTypeGameCancelled : string := "GameCancelledNotify".
Definition EventTypeSecretOpened : string := "SecretOpenedNotify".
Definition EventTypeDraw : string := "DrawNotify".
Definition EventTypeInsufficientBalance : string := "InsufficientBalanceNotify".

(** A [switch] over integers. *)
Fixpoint switch {A} (z : Z) (cases : list (Z * A)) : option A :=
  match cases with
  | [] => None
  | (k, a) :: cases => if z =? k then Some a else switch z cases
  end.

Definition GetEventTypeForOpcode (opcode : Z) : option string :=
  switch opcode
    [ (OpcodeGameInitializedNotify, EventTypeGameInitialized);
      (OpcodeGameInitializedEvent, EventTypeGameInitialized);
      (OpcodeGameStartedNotify, EventTypeGameStarted);
      (OpcodeGameStartedEvent, EventTypeGameStarted);
      (OpcodeGameFinishedNotify, EventTypeGameFinished);
      (OpcodeGameFinishedEvent, EventTypeGameFinished);
      (OpcodeGameCancelledNotify, EventTypeGameCancelled);
      (OpcodeGameCancelledEvent, EventTypeGameCancelled);
      (OpcodeSecretOpenedNotify, EventTypeSecretOpened);
      (OpcodeDrawNotify, EventTypeDraw);
      (OpcodeDrawEvent, EventTypeDraw);
      (OpcodeInsufficientBalanceNotify, EventTypeInsufficientBalance) ].

(** The verb [%08X]. *)
Definition hex_digit (d : Z) : ascii := nth (Z.to_nat d) (bytes "0123456789ABCDEF") "0"%char.
Fixpoint hex (digits : nat) (z : Z) : list ascii :=
  match digits with
  | O => []
  | S n => hex n (z / 16) ++ [hex_digit (z mod 16)]
  end.
Definition unknown_opcode (opcode : Z) : error :=
  ENew ("unknown opcode: 0x" +:+ of_bytes (hex 8 opcode)).

(** The constants in hexadecimal; the comments of the source give other values for all but
    the first. *)
Example hex_ex :
  map (λ o, of_bytes (hex 8 o))
    [OpcodeGameInitializedNotify; OpcodeGameStartedNotify; OpcodeGameFinishedNotify;
     OpcodeGameCancelledNotify; OpcodeSecretOpenedNotify; OpcodeDrawNotify;
     OpcodeInsufficientBalanceNotify]
  = ["EB292097"; "061E5E5B"; "1FE7E643"; "17287FD2"; "47A818C8"; "12F40487"; "F740B5B3"].
Proof. vm_compute. reflexivity. Qed.

(** Big-endian bytes, [big.Int.SetBytes] and [binary.BigEndian.Uint32]. *)
Definition SetBytes (data : list ascii) : Z :=
  fold_left (λ acc c, acc * 256 + Base64.byte_value c) data 0.

Definition uint32 (z : Z) : Z := z mod 2 ^ 32.
Definition uint8 (z : Z) : Z := z mod 2 ^ 8.

(** The messages with their fields set. *)
Module Msg.
Import ParsedMessage.
(** What the newer factories append to an initialization. *)
Record Config := mkConfig {
  serviceFeeNumerator : Z; referrerFeeNumerator : Z; waitingForOpenBidSeconds : Z;
  lowestBid : option Z; highestBid : option Z; minReferrerPayoutValue : option Z;
  feeReceiver : string; protocolVersion : Z }.
Definition noConfig : Config := mkConfig 0 0 0 None None None EmptyString 0.

Definition gameInitialized (opcode gameID : Z) (playerOne : string) (bidValue : option Z)
    (c : Config) (raw : string) : t :=
  mk opcode EventTypeGameInitialized gameID playerOne EmptyString bidValue None EmptyString
    EmptyString EmptyString 0 None None (serviceFeeNumerator c) (referrerFeeNumerator c)
    (waitingForOpenBidSeconds c) (lowestBid c) (highestBid c) (minReferrerPayoutValue c)
    (feeReceiver c) (protocolVersion c) raw.

Definition gameStarted (opcode gameID : Z) (playerOne playerTwo : string)
    (totalGainings : option Z) (raw : string) : t :=
  mk opcode EventTypeGameStarted gameID playerOne playerTwo None totalGainings EmptyString
    EmptyString EmptyString 0 None None 0 0 0 None None None EmptyString 0 raw.

Definition gameFinished (opcode gameID : Z) (winner looser : string)
    (totalGainings : option Z) (raw : string) : t :=
  mk opcode EventTypeGameFinished gameID EmptyString EmptyString None totalGainings winner
    looser EmptyString 0 None None 0 0 0 None None None EmptyString 0 raw.

Definition gameCancelled (opcode gameID : Z) (playerOne raw : string) : t :=
  mk opcode EventTypeGameCancelled gameID playerOne EmptyString None None EmptyString
    EmptyString EmptyString 0 None None 0 0 0 None None None EmptyString 0 raw.

Definition secretOpened (opcode gameID : Z) (player : string) (coinSide : Z) (raw : string) : t :=
  mk opcode EventTypeSecretOpened gameID EmptyString EmptyString None None EmptyString
    EmptyString player coinSide None None 0 0 0 None None None EmptyString 0 raw.

Definition draw (opcode gameID : Z) (raw : string) : t :=
  mk opcode EventTypeDraw gameID EmptyString EmptyString None None EmptyString EmptyString
    EmptyString 0 None None 0 0 0 None None None EmptyString 0 raw.

Definition insufficientBalance (opcode gameID : Z) (required actual : option Z) (raw : string) : t :=
  mk opcode EventTypeInsufficientBalance gameID EmptyString EmptyString None None EmptyString
    EmptyString EmptyString 0 required actual 0 0 0 None None None EmptyString 0 raw.
End Msg.

(** ** The legacy JSON form *)

Section Legacy.
Context `{E : Env} `{PE : ParserEnv}.

(** [new(big.Int).SetString(s, 10)] *)
Definition SetString (s : string) : option Z := parse_signed s.

Definition legacyString (data : gmap string dyn) (key : string) : string :=
  match data !! key with Some (VString v) => v | _ => EmptyString end.

(** JSON values are strings, floats and values of other types. *)
Definition parseLegacyBigInt (data : gmap string dyn) (key : string) : option Z :=
  match data !! key with
  | Some (VString v) => SetString v
  | Some (VFloat64 v) => Some (float_to_int64 (float_trunc v))
  | Some (VInt64 v) | Some (VInt v) => Some v
  | _ => None
  end.

Definition parseLegacyUint32 (data : gmap string dyn) (key : string) : Z :=
  match parseLegacyBigInt data key with
  | Some v => if (0 <=? v) && (v <? 2 ^ 64) then
                if 2 ^ 32 - 1 <? v then 0 else v
              else 0
  | None => 0
  end.

Definition legacyUint8 (data : gmap string dyn) (key : string) : Z :=
  match data !! key with
  | Some (VFloat64 f) =>
      match float_trunc f with
      | Some z => if (0 <=? z) && (z <? 2 ^ 8) then z else float_to_uint8 f
      | None => float_to_uint8 f
      end
  | _ => 0
  end.

Definition parseLegacyParsedMessage (inMsgJSON : string) : result ParsedMessage.t :=
  match json_Object inMsgJSON with
  | Err e => Err (Errorf "failed to parse legacy JSON" e)
  | Ok data =>
      match data !! "event_type" with
      | Some (VString eventType) =>
          match data !! "game_id" with
          | Some (VFloat64 gameIDFloat) =>
              Ok (ParsedMessage.mk 0 eventType (float_to_int64 (float_trunc gameIDFloat))
                (legacyString data "player_one") (legacyString data "player_two")
                (match data !! "bet_amount" with Some (VString v) => SetString v | _ => None end)
                None (legacyString data "winner") (legacyString data "looser")
                (legacyString data "player") (legacyUint8 data "coin_side") None None
                (parseLegacyUint32 data "service_fee_numerator")
                (parseLegacyUint32 data "referrer_fee_numerator")
                (parseLegacyUint32 data "waiting_for_open_bid_seconds")
                (parseLegacyBigInt data "lowest_bid") (parseLegacyBigInt data "highest_bid")
                (parseLegacyBigInt data "min_referrer_payout_value")
                (legacyString data "fee_receiver") (parseLegacyUint32 data "protocol_version")
                EmptyString)
          | _ => Err (ENew "missing or invalid game_id in legacy JSON")
          end
      | _ => Err (ENew "missing or invalid event_type in legacy JSON")
      end
  end.

(** The body of an in_msg, or its legacy reading. *)
Definition blankMessage (inMsgJSON : string) : bool :=
  bool_decide (inMsgJSON = EmptyString) || bool_decide (inMsgJSON = "null").

(** The first lines of both [ParseInMsg]: the decoded body goes to [k]. *)
Definition decodeBody {A} (lift : result ParsedMessage.t → A) (inMsgJSON : string)
    (k : list ascii → A) : A :=
  if blankMessage inMsgJSON then lift (Err (ENew "empty in_msg"))
  else
    match json_InMsg inMsgJSON with
    | Err _ => lift (parseLegacyParsedMessage inMsgJSON)
    | Ok (message, body) =>
        if bool_decide (message = EmptyString) && bool_decide (body = EmptyString) then
          lift (parseLegacyParsedMessage inMsgJSON)
        else if negb (bool_decide (message = EmptyString)) then
          match Base64.DecodeString true message with
          | Ok data => k data
          | Err _ =>
              match Base64.DecodeString false message with
              | Ok data => k data
              | Err e => lift (Err (Errorf "failed to decode message" e))
              end
          end
        else if negb (bool_decide (body = EmptyString)) then
          match Base64.DecodeString true body with
          | Ok data => k data
          | Err e => lift (Err (Errorf "failed to decode msg_data.body" e))
          end
        else lift (Err (ENew "no message body found in in_msg"))
    end.
End Legacy.

(** ** The parser the service runs *)

Module MessageParserV2.
Section Parser.
Context `{CellLib}.

Definition safeUint256ToInt64 (value : Z) (fieldName : string) : result Z :=
  if MaxInt64 <? value then
    Err (ENew (fieldName +:+ " value " +:+ FormatInt value +:+ " exceeds int64 max ("
               +:+ FormatInt MaxInt64 +:+ ")"))
  else if value <? 0 then
    Err (ENew (fieldName +:+ " value " +:+ FormatInt value +:+ " is negative"))
  else Ok value.

Definition R A := ST Slice (result A).
#[local] Instance R_ret : MRet R := λ A a s, (Ok a, s).

Definition failed_to_read (label field : string) : error → error :=
  Errorf (label +:+ ": failed to read " +:+ field).

Definition loadGameID (label : string) : ST Slice (result Z) :=
  gameIDBig <-? LoadBigUInt 256 else failed_to_read label "gameId" ;;
  gameID <-? lift_result (safeUint256ToInt64 gameIDBig "gameId") else Errorf label ;;
  mret (Ok gameID).

Definition loadAddress (label field : string) : ST Slice (result string) :=
  addr <-? LoadAddr else failed_to_read label field ;;
  mret (Ok (addr_String addr)).

Definition loadUInt (bits : Z) (label field : string) : ST Slice (result Z) :=
  v <-? LoadUInt bits else failed_to_read label field ;; mret (Ok v).
Definition loadCoins (label field : string) : ST Slice (result Z) :=
  v <-? LoadBigCoins else failed_to_read label field ;; mret (Ok v).

(** Reads from the slice of a reference. *)
Definition fromRef {A} (ref : Slice) (m : ST Slice (result A)) : ST Slice (result A) :=
  λ s, ((m ref).1, s).

Definition loadEmittedEventTimestamp (eventName : string) : ST Slice (result unit) :=
  _ <-? loadUInt 32 eventName "timestamp" ;; mret (Ok tt).

Definition parseConfigRef (opcode : Z) (label : string) (c : Msg.Config) :
    ST Slice (result Msg.Config) :=
  highestBid <-? loadCoins label "highestBid" ;;
  minReferrerPayoutValue <-? loadCoins label "minReferrerPayoutValue" ;;
  feeReceiver <-? loadAddress label "feeReceiver" ;;
  protocolVersion <-? loadUInt 32 label "protocolVersion" ;;
  let c := Msg.mkConfig (Msg.serviceFeeNumerator c) (Msg.referrerFeeNumerator c)
             (Msg.waitingForOpenBidSeconds c) (Msg.lowestBid c) (Some highestBid)
             (Some minReferrerPayoutValue) feeReceiver (uint32 protocolVersion) in
  if opcode =? OpcodeGameInitializedEvent then
    _ <-? loadUInt 32 label "timestamp" ;; mret (Ok c)
  else mret (Ok c).

Definition parseGameInitializedConfigSnapshotV2 (opcode : Z) (label : string) :
    ST Slice (result Msg.Config) :=
  serviceFeeNumerator <-? loadUInt 32 label "serviceFeeNumerator" ;;
  referrerFeeNumerator <-? loadUInt 32 label "referrerFeeNumerator" ;;
  waitingForOpenBidSeconds <-? loadUInt 32 label "waitingForOpenBidSeconds" ;;
  lowestBid <-? loadCoins label "lowestBid" ;;
  ref <-? LoadRef else failed_to_read label "config ref" ;;
  fromRef ref (parseConfigRef opcode label
    (Msg.mkConfig (uint32 serviceFeeNumerator) (uint32 referrerFeeNumerator)
       (uint32 waitingForOpenBidSeconds) (Some lowestBid) None None EmptyString 0)).

Definition parseGameInitializedNotifyV2 (opcode : Z) : ST Slice (result ParsedMessage.t) :=
  let label := "GameInitializedNotify" in
  gameID <-? loadGameID label ;;
  playerOne <-? loadAddress label "playerOne" ;;
  bidValue <-? loadCoins label "bidValue" ;;
  slice ← get;
  config <-? (if (32 <? BitsLeft slice) || (0 <? RefsNum slice) then
                parseGameInitializedConfigSnapshotV2 opcode label
              else mret (Ok Msg.noConfig)) ;;
  mret (Ok (Msg.gameInitialized opcode gameID playerOne (Some bidValue) config EmptyString)).

Definition parseGameStartedNotifyV2 (opcode : Z) : ST Slice (result ParsedMessage.t) :=
  let label := "GameStartedNotify" in
  gameID <-? loadGameID label ;;
  playerOne <-? loadAddress label "playerOne" ;;
  playerTwo <-? loadAddress label "playerTwo" ;;
  totalGainings <-? loadCoins label "totalGainings" ;;
  mret (Ok (Msg.gameStarted opcode gameID playerOne playerTwo (Some totalGainings) EmptyString)).

Definition parseGameFinishedNotifyV2 (opcode : Z) : ST Slice (result ParsedMessage.t) :=
  let label := "GameFinishedNotify" in
  gameID <-? loadGameID label ;;
  winner <-? loadAddress label "winner" ;;
  looser <-? loadAddress label "looser" ;;
  totalGainings <-? loadCoins label "totalGainings" ;;
  mret (Ok (Msg.gameFinished opcode gameID winner looser (Some totalGainings) EmptyString)).

Definition parseGameCancelledNotifyV2 (opcode : Z) : ST Slice (result ParsedMessage.t) :=
  let label := "GameCancelledNotify" in
  gameID <-? loadGameID label ;;
  playerOne <-? loadAddress label "playerOne" ;;
  mret (Ok (Msg.gameCancelled opcode gameID playerOne EmptyString)).

Definition parseSecretOpenedNotifyV2 (opcode : Z) : ST Slice (result ParsedMessage.t) :=
  let label := "SecretOpenedNotify" in
  gameID <-? loadGameID label ;;
  player <-? loadAddress label "player" ;;
  coinSide <-? loadUInt 8 label "coinSide" ;;
  mret (Ok (Msg.secretOpened opcode gameID player (uint8 coinSide) EmptyString)).

Definition parseDrawNotifyV2 (opcode : Z) : ST Slice (result ParsedMessage.t) :=
  gameID <-? loadGameID "DrawNotify" ;;
  mret (Ok (Msg.draw opcode gameID EmptyString)).

Definition parseInsufficientBalanceNotifyV2 (opcode : Z) : ST Slice (result ParsedMessage.t) :=
  let label := "InsufficientBalanceNotify" in
  gameID <-? loadGameID label ;;
  required <-? loadCoins label "required" ;;
  actual <-? loadCoins label "actual" ;;
  mret (Ok (Msg.insufficientBalance opcode gameID (Some required) (Some actual) EmptyString)).

(** The emitted form of a message: a timestamp follows. *)
Definition emitted (parse : ST Slice (result ParsedMessage.t)) (eventName : string) :
    ST Slice (result ParsedMessage.t) :=
  parsedMsg <-? parse ;;
  _ <-? loadEmittedEventTimestamp eventName ;;
  mret (Ok parsedMsg).

Definition parseGameInitializedEventV2 (opcode : Z) : ST Slice (result ParsedMessage.t) :=
  parsedMsg <-? parseGameInitializedNotifyV2 opcode ;;
  slice ← get;
  if 32 <=? BitsLeft slice then
    _ <-? loadEmittedEventTimestamp "GameInitializedEvent" ;; mret (Ok parsedMsg)
  else mret (Ok parsedMsg).
Definition parseGameStartedEventV2 (opcode : Z) : ST Slice (result ParsedMessage.t) :=
  emitted (parseGameStartedNotifyV2 opcode) "GameStartedEvent".
Definition parseGameFinishedEventV2 (opcode : Z) : ST Slice (result ParsedMessage.t) :=
  emitted (parseGameFinishedNotifyV2 opcode) "GameFinishedEvent".
Definition parseGameCancelledEventV2 (opcode : Z) : ST Slice (result ParsedMessage.t) :=
  emitted (parseGameCancelledNotifyV2 opcode) "GameCancelledEvent".
Definition parseDrawEventV2 (opcode : Z) : ST Slice (result ParsedMessage.t) :=
  emitted (parseDrawNotifyV2 opcode) "DrawEvent".

Definition parseMessageDataFromSlice (opcode : Z) : ST Slice (result ParsedMessage.t) :=
  match switch opcode
    [ (OpcodeGameInitializedNotify, parseGameInitializedNotifyV2);
      (OpcodeGameInitializedEvent, parseGameInitializedEventV2);
      (OpcodeGameStartedNotify, parseGameStartedNotifyV2);
      (OpcodeGameStartedEvent, parseGameStartedEventV2);
      (OpcodeGameFinishedNotify, parseGameFinishedNotifyV2);
      (OpcodeGameFinishedEvent, parseGameFinishedEventV2);
      (OpcodeGameCancelledNotify, parseGameCancelledNotifyV2);
      (OpcodeGameCancelledEvent, parseGameCancelledEventV2);
      (OpcodeSecretOpenedNotify, parseSecretOpenedNotifyV2);
      (OpcodeDrawNotify, parseDrawNotifyV2);
      (OpcodeDrawEvent, parseDrawEventV2);
      (OpcodeInsufficientBalanceNotify, parseInsufficientBalanceNotifyV2) ] with
  | Some parse => parse opcode
  | None => mret (Err (unknown_opcode opcode))
  end.

Definition parseCellMessage (c : Cell) : result ParsedMessage.t :=
  ((opcode <-? LoadUInt 32 else Errorf "failed to read opcode" ;;
    parseMessageDataFromSlice (uint32 opcode)) (BeginParse c)).1.

(** [None] is a panic of [MustStoreSlice]. *)
Definition parseRawData (data : list ascii) : option (result ParsedMessage.t) :=
  if (length data <? 4)%nat then
    Some (Err (ENew ("message too short: " +:+ FormatInt (Z.of_nat (length data)) +:+ " bytes")))
  else
    let opcode := SetBytes (take 4 data) in
    match GetEventTypeForOpcode opcode with
    | None => Some (Err (unknown_opcode opcode))
    | Some _ =>
        builder ← (if (4 <? length data)%nat then
                     StoreSlice (drop 4 data) (Z.of_nat (length (drop 4 data)) * 8) BeginCell
                   else Some BeginCell);
        Some (parseMessageDataFromSlice opcode (BeginParse (EndCell builder))).1
    end.

Definition parseBody (bocData : list ascii) : option (result ParsedMessage.t) :=
  match FromBOC bocData with
  | Err _ => parseRawData bocData
  | Ok c => Some (parseCellMessage c)
  end.

Context `{E : Env} `{PE : ParserEnv}.

Definition ParseInMsg (inMsgJSON : string) : option (result ParsedMessage.t) :=
  decodeBody Some inMsgJSON parseBody.
End Parser.
End MessageParserV2.

(** ** The byte parser it replaced *)

Module MessageParser.
Section Parser.
Context `{CellLib}.

(** What is left of the bytes; [data[offset:]] in the source. *)
Definition R A := ST (list ascii) (result A).

Definition not_enough (label field : string) : error :=
  ENew (label +:+ ": not enough data for " +:+ field).

(** [n] bytes, or an error. *)
Definition takeBytes (n : nat) (e : error) : ST (list ascii) (result (list ascii)) :=
  data ← get;
  if (length data <? n)%nat then mret (Err e)
  else _ ← modify (drop n); mret (Ok (take n data)).

(** [gameID.Int64()]: the low 64 bits. *)
Definition parseGameID (label : string) : ST (list ascii) (result Z) :=
  data <-? takeBytes 32 (not_enough label "gameId") ;;
  mret (Ok (wrap64 (SetBytes data))).

Definition parseAddress (data : list ascii) : result string :=
  if (length data <? 33)%nat then
    Err (ENew ("address data too short: " +:+ FormatInt (Z.of_nat (length data)) +:+ " bytes"))
  else
    Ok (addr_String (NewAddress 0 (nth 0 data "000"%char) (take 32 (drop 1 data)))).

Definition readAddress (label field : string) : ST (list ascii) (result string) :=
  data <-? takeBytes 33 (not_enough label field) ;;
  addr <-? lift_result (parseAddress data)
    else Errorf (label +:+ ": failed to parse " +:+ field) ;;
  mret (Ok addr).

(** A byte that counts the bytes of the value; the second component counts all of them. *)
Definition parseCoins (data : list ascii) : Z * nat :=
  match data with
  | [] => (0, 0%nat)
  | c :: rest =>
      let length' := nat_of_ascii c in
      if (length' =? 0)%nat then (0, 1%nat)
      else if (length data <? 1 + length')%nat then (0, 1%nat)
      else (SetBytes (take length' rest), (1 + length')%nat)
  end.

(** Coins when bytes are left. *)
Definition readCoins : ST (list ascii) (option Z) :=
  data ← get;
  match data with
  | [] => mret None
  | _ => let '(v, n) := parseCoins data in _ ← modify (drop n); mret (Some v)
  end.

Definition parseGameInitializedNotify (opcode : Z) (raw : string) : R ParsedMessage.t :=
  let label := "GameInitializedNotify" in
  gameID <-? parseGameID label ;;
  playerOne <-? readAddress label "playerOne" ;;
  bidValue ← readCoins;
  mret (Ok (Msg.gameInitialized opcode gameID playerOne bidValue Msg.noConfig raw)).

Definition parseGameStartedNotify (opcode : Z) (raw : string) : R ParsedMessage.t :=
  let label := "GameStartedNotify" in
  gameID <-? parseGameID label ;;
  playerOne <-? readAddress label "playerOne" ;;
  playerTwo <-? readAddress label "playerTwo" ;;
  totalGainings ← readCoins;
  mret (Ok (Msg.gameStarted opcode gameID playerOne playerTwo totalGainings raw)).

Definition parseGameFinishedNotify (opcode : Z) (raw : string) : R ParsedMessage.t :=
  let label := "GameFinishedNotify" in
  gameID <-? parseGameID label ;;
  winner <-? readAddress label "winner" ;;
  looser <-? readAddress label "looser" ;;
  totalGainings ← readCoins;
  mret (Ok (Msg.gameFinished opcode gameID winner looser totalGainings raw)).

Definition parseGameCancelledNotify (opcode : Z) (raw : string) : R ParsedMessage.t :=
  let label := "GameCancelledNotify" in
  gameID <-? parseGameID label ;;
  playerOne <-? readAddress label "playerOne" ;;
  mret (Ok (Msg.gameCancelled opcode gameID playerOne raw)).

Definition parseSecretOpenedNotify (opcode : Z) (raw : string) : R ParsedMessage.t :=
  let label := "SecretOpenedNotify" in
  gameID <-? parseGameID label ;;
  player <-? readAddress label "player" ;;
  data ← get;
  let coinSide := match data with c :: _ => Base64.byte_value c | [] => 0 end in
  mret (Ok (Msg.secretOpened opcode gameID player coinSide raw)).

Definition parseDrawNotify (opcode : Z) (raw : string) : R ParsedMessage.t :=
  gameID <-? parseGameID "DrawNotify" ;;
  mret (Ok (Msg.draw opcode gameID raw)).

Definition parseInsufficientBalanceNotify (opcode : Z) (raw : string) : R ParsedMessage.t :=
  gameID <-? parseGameID "InsufficientBalanceNotify" ;;
  required ← readCoins;
  actual ← readCoins;
  mret (Ok (Msg.insufficientBalance opcode gameID required actual raw)).

Definition parseMessageByOpcode (opcode : Z) (data rawData : list ascii) :
    result ParsedMessage.t :=
  match switch opcode
    [ (OpcodeGameInitializedNotify, parseGameInitializedNotify);
      (OpcodeGameStartedNotify, parseGameStartedNotify);
      (OpcodeGameFinishedNotify, parseGameFinishedNotify);
      (OpcodeGameCancelledNotify, parseGameCancelledNotify);
      (OpcodeSecretOpenedNotify, parseSecretOpenedNotify);
      (OpcodeDrawNotify, parseDrawNotify);
      (OpcodeInsufficientBalanceNotify, parseInsufficientBalanceNotify) ] with
  | Some parse => (parse opcode (of_bytes rawData) data).1
  | None => Err (unknown_opcode opcode)
  end.

Definition parseData (messageData : list ascii) : result ParsedMessage.t :=
  if (length messageData <? 4)%nat then
    Err (ENew ("message too short: " +:+ FormatInt (Z.of_nat (length messageData)) +:+ " bytes"))
  else
    parseMessageByOpcode (SetBytes (take 4 messageData)) (drop 4 messageData) messageData.

Context `{E : Env} `{PE : ParserEnv}.

Definition ParseInMsg (inMsgJSON : string) : result ParsedMessage.t :=
  decodeBody id inMsgJSON parseData.
End Parser.
End MessageParser.

(** ** The message builder *)

Module TestMessageBuilder.
Local Notation "b >-> f" := (mbind (M := option) f b) (at level 50, left associativity).

Section Build.
Context `{CellLib}.

Definition parseOrDefaultAddress (addrStr : string) : Addr :=
  match addr_ParseAddr addrStr with
  | Ok addr => addr
  | Err _ => NewAddress 0 "000"%char (repeat "000"%char 32)
  end.

Definition storeAddress (addr : string) : Builder → option Builder :=
  StoreAddr (parseOrDefaultAddress addr).

(** The opcode and the game every message starts with. *)
Definition header (opcode gameID : Z) : option Builder :=
  StoreUInt opcode 32 BeginCell >-> StoreBigUInt gameID 256.

Definition encoded (b : option Builder) : option string :=
  (λ b, Base64.EncodeToString (of_bytes (ToBOC (EndCell b)))) <$> b.

Definition BuildGameInitializedNotify (gameID : Z) (playerOne : string) (bidValue : Z) :
    option string :=
  encoded (header OpcodeGameInitializedNotify gameID >-> storeAddress playerOne
           >-> StoreBigCoins bidValue).
Definition BuildGameStartedNotify (gameID : Z) (playerOne playerTwo : string)
    (totalGainings : Z) : option string :=
  encoded (header OpcodeGameStartedNotify gameID >-> storeAddress playerOne
           >-> storeAddress playerTwo >-> StoreBigCoins totalGainings).
Definition BuildGameFinishedNotify (gameID : Z) (winner looser : string) (totalGainings : Z) :
    option string :=
  encoded (header OpcodeGameFinishedNotify gameID >-> storeAddress winner
           >-> storeAddress looser >-> StoreBigCoins totalGainings).
Definition BuildGameCancelledNotify (gameID : Z) (playerOne : string) : option string :=
  encoded (header OpcodeGameCancelledNotify gameID >-> storeAddress playerOne).
Definition BuildDrawNotify (gameID : Z) : option string :=
  encoded (header OpcodeDrawNotify gameID).
Definition BuildSecretOpenedNotify (gameID : Z) (player : string) (coinSide : Z) :
    option string :=
  encoded (header OpcodeSecretOpenedNotify gameID >-> storeAddress player
           >-> StoreUInt coinSide 8).
Definition BuildInsufficientBalanceNotify (gameID required actual : Z) : option string :=
  encoded (header OpcodeInsufficientBalanceNotify gameID >-> StoreBigCoins required
           >-> StoreBigCoins actual).

Definition BuildGameInitializedEvent (gameID : Z) (playerOne : string) (bidValue timestamp : Z) :
    option string :=
  encoded (header OpcodeGameInitializedEvent gameID >-> storeAddress playerOne
           >-> StoreBigCoins bidValue >-> StoreUInt timestamp 32).
Definition BuildGameInitializedEventWithConfig (gameID : Z) (playerOne : string) (bidValue : Z)
    (feeReceiver : string) (timestamp : Z) : option string :=
  encoded (
    builder ← header OpcodeGameInitializedEvent gameID >-> storeAddress playerOne
              >-> StoreBigCoins bidValue >-> StoreUInt 500 32 >-> StoreUInt 300 32
              >-> StoreUInt 3600 32 >-> StoreBigCoins 100000000;
    configRef ← StoreBigCoins 100000000000 BeginCell >-> StoreBigCoins 50000000
                >-> storeAddress feeReceiver >-> StoreUInt 2 32 >-> StoreUInt timestamp 32;
    StoreRef (EndCell configRef) builder).
Definition BuildGameStartedEvent (gameID : Z) (playerOne playerTwo : string)
    (totalGainings timestamp : Z) : option string :=
  encoded (header OpcodeGameStartedEvent gameID >-> storeAddress playerOne
           >-> storeAddress playerTwo >-> StoreBigCoins totalGainings >-> StoreUInt timestamp 32).
Definition BuildGameFinishedEvent (gameID : Z) (winner looser : string)
    (totalGainings timestamp : Z) : option string :=
  encoded (header OpcodeGameFinishedEvent gameID >-> storeAddress winner
           >-> storeAddress looser >-> StoreBigCoins totalGainings >-> StoreUInt timestamp 32).
Definition BuildGameCancelledEvent (gameID : Z) (playerOne : string) (timestamp : Z) :
    option string :=
  encoded (header OpcodeGameCancelledEvent gameID >-> storeAddress playerOne
           >-> StoreUInt timestamp 32).
Definition BuildDrawEvent (gameID timestamp : Z) : option string :=
  encoded (header OpcodeDrawEvent gameID >-> StoreUInt timestamp 32).
Definition BuildOpcodeOnlyMessage (opcode : Z) : option string :=
  encoded (StoreUInt opcode 32 BeginCell).
End Build.
End TestMessageBuilder.
