(* ===== verification/MessageParserSpec.v ===== *)
(** * What the message parser promises

    Base64 and every message of the builder are read back; what is parsed is in range and of
    the type its opcode announces; a long body that is not a bag of cells panics. *)
From S2P Require Import Prelude GoTypes Entity World Toncenter MessageParser.
From Stdlib Require Import Ascii.

(** ** Base64 *)

Section Base64.
Import Base64.

Lemma digit_char d : 0 ≤ d < 64 → digit_of (char_of d) = Some d.
Proof.
  intros Hd. assert (∀ n : nat, (n < 64)%nat → digit_of (char_of (Z.of_nat n)) = Some (Z.of_nat n))
    as H.
  { intros n Hn. do 64 (destruct n as [|n]; [vm_compute; reflexivity|]). lia. }
  rewrite <-(Z2Nat.id d) by lia. apply H. lia.
Qed.

Lemma byte_range c : 0 ≤ byte_value c < 256.
Proof. unfold byte_value. pose proof (nat_ascii_bounded c). lia. Qed.

Lemma byte_of_value c z : z mod 256 = byte_value c → byte_of z = c.
Proof.
  intros H. unfold byte_of. rewrite H. unfold byte_value. rewrite Nat2Z.id.
  apply ascii_nat_embedding.
Qed.

Lemma decode_padding src si digits :
  decode true ("="%char :: src) si digits = padding digits src si.
Proof. reflexivity. Qed.

Lemma padding_1 a b si : padding [a; b] ["="%char] si = Ok (quantum [a; b]).
Proof. reflexivity. Qed.
Lemma padding_2 a b c si : padding [a; b; c] [] si = Ok (quantum [a; b; c]).
Proof. reflexivity. Qed.

Lemma decode_digit padded d src si digits :
  0 ≤ d < 64 → (length digits < 3)%nat →
  decode padded (char_of d :: src) si digits = decode padded src (si + 1) (digits ++ [d]).
Proof.
  intros Hd Hl. cbn [decode]. rewrite digit_char by done.
  by assert ((length digits =? 3)%nat = false) as -> by (apply Nat.eqb_neq; lia).
Qed.

Lemma decode_last padded d src si digits rest :
  0 ≤ d < 64 → length digits = 3%nat → decode padded src (si + 1) [] = Ok rest →
  decode padded (char_of d :: src) si digits = Ok (quantum (digits ++ [d]) ++ rest).
Proof. intros Hd Hl Hr. cbn [decode]. rewrite digit_char by done. by rewrite Hl, Hr. Qed.

(** Base64: decoding what was encoded gives the bytes back. *)
Theorem base64_roundtrip s :
  DecodeString true (EncodeToString s) = Ok (bytes s).
Proof.
  unfold DecodeString, EncodeToString. unfold bytes at 1, of_bytes.
  rewrite String.list_ascii_of_string_of_list_ascii.
  assert (∀ n l si, (length l ≤ n)%nat → decode true (encode l) si [] = Ok l) as H;
    [|by apply (H (length (bytes s)))].
  induction n as [|n IH]; intros l si Hl; [by destruct l; [|simpl in Hl; lia]|].
  destruct l as [|a [|b [|c l]]]; [done| | |]; cbn [encode];
    pose proof (byte_range a); try pose proof (byte_range b); try pose proof (byte_range c).
  - rewrite !decode_digit by (simpl; lia || (Z.div_mod_to_equations; lia)).
    rewrite decode_padding. cbn [app]. rewrite padding_1. cbn [quantum]. do 2 f_equal.
    apply byte_of_value. Z.div_mod_to_equations; lia.
  - rewrite !decode_digit by (simpl; lia || (Z.div_mod_to_equations; lia)).
    rewrite decode_padding. cbn [app]. rewrite padding_2. cbn [quantum]. do 2 f_equal; [|f_equal];
      apply byte_of_value; Z.div_mod_to_equations; lia.
  - rewrite !decode_digit by (simpl; lia || (Z.div_mod_to_equations; lia)).
    erewrite decode_last; [|Z.div_mod_to_equations; lia|done|apply IH; simpl in Hl; lia].
    cbn [quantum app]. do 2 f_equal; [|f_equal; [|f_equal]];
      apply byte_of_value; Z.div_mod_to_equations; lia.
Qed.
End Base64.

(** ** What the library of cells documents *)

(** A slice or builder holds bits and references: at most 1023 and 4 in a cell. What was
    stored is loaded; an address is read back in its canonical text form. *)
Class CellLaws (CL : CellLib) := {
  slice_bits : Slice → list bool; slice_refs : Slice → list Cell;
  builder_bits : Builder → list bool; builder_refs : Builder → list Cell;
  uint_bits : Z → Z → list bool;                  (* width and value *)
  addr_bits : Addr → list bool;
  coins_bits : Z → list bool;
  canonical : Addr → string;
  uint_length n v : 0 ≤ n → Z.of_nat (length (uint_bits n v)) = n;
  addr_length a : Z.of_nat (length (addr_bits a)) ≤ 267;
  coins_length v : Z.of_nat (length (coins_bits v)) ≤ 124;
  boc_roundtrip c : FromBOC (ToBOC c) = Ok c;
  boc_header c : ToBOC c ≠ [];
  begin_bits : builder_bits BeginCell = []; begin_refs : builder_refs BeginCell = [];
  end_bits b : slice_bits (BeginParse (EndCell b)) = builder_bits b;
  end_refs b : slice_refs (BeginParse (EndCell b)) = builder_refs b;
  StoreUInt_ok n v b : 0 ≤ n ≤ 64 → 0 ≤ v < 2 ^ n →
    Z.of_nat (length (builder_bits b)) + n ≤ 1023 → ∃ b', StoreUInt v n b = Some b' ∧
    builder_bits b' = builder_bits b ++ uint_bits n v ∧ builder_refs b' = builder_refs b;
  StoreBigUInt_ok n v b : 0 ≤ n ≤ 256 → 0 ≤ v < 2 ^ n →
    Z.of_nat (length (builder_bits b)) + n ≤ 1023 → ∃ b', StoreBigUInt v n b = Some b' ∧
    builder_bits b' = builder_bits b ++ uint_bits n v ∧ builder_refs b' = builder_refs b;
  StoreAddr_ok a b :
    Z.of_nat (length (builder_bits b)) + Z.of_nat (length (addr_bits a)) ≤ 1023 →
    ∃ b', StoreAddr a b = Some b' ∧
    builder_bits b' = builder_bits b ++ addr_bits a ∧ builder_refs b' = builder_refs b;
  StoreBigCoins_ok v b : 0 ≤ v < 2 ^ 120 →
    Z.of_nat (length (builder_bits b)) + Z.of_nat (length (coins_bits v)) ≤ 1023 →
    ∃ b', StoreBigCoins v b = Some b' ∧
    builder_bits b' = builder_bits b ++ coins_bits v ∧ builder_refs b' = builder_refs b;
  StoreRef_ok c b : (length (builder_refs b) < 4)%nat → ∃ b', StoreRef c b = Some b' ∧
    builder_bits b' = builder_bits b ∧ builder_refs b' = builder_refs b ++ [c];
  StoreSlice_ok data n b : 0 ≤ n → is_Some (StoreSlice data n b) ↔
    n ≤ 8 * Z.of_nat (length data) ∧ Z.of_nat (length (builder_bits b)) + n ≤ 1023;
  LoadUInt_ok n v rest s : 0 ≤ n ≤ 64 → 0 ≤ v < 2 ^ n → slice_bits s = uint_bits n v ++ rest →
    ∃ s', LoadUInt n s = (Ok v, s') ∧ slice_bits s' = rest ∧ slice_refs s' = slice_refs s;
  LoadBigUInt_ok n v rest s : 0 ≤ n ≤ 256 → 0 ≤ v < 2 ^ n →
    slice_bits s = uint_bits n v ++ rest →
    ∃ s', LoadBigUInt n s = (Ok v, s') ∧ slice_bits s' = rest ∧ slice_refs s' = slice_refs s;
  LoadAddr_ok a rest s : slice_bits s = addr_bits a ++ rest →
    ∃ a' s', LoadAddr s = (Ok a', s') ∧ addr_String a' = canonical a ∧
    slice_bits s' = rest ∧ slice_refs s' = slice_refs s;
  LoadBigCoins_ok v rest s : 0 ≤ v < 2 ^ 120 → slice_bits s = coins_bits v ++ rest →
    ∃ s', LoadBigCoins s = (Ok v, s') ∧ slice_bits s' = rest ∧ slice_refs s' = slice_refs s;
  LoadRef_ok c refs s : slice_refs s = c :: refs →
    ∃ s', LoadRef s = (Ok (BeginParse c), s') ∧ slice_bits s' = slice_bits s ∧
    slice_refs s' = refs;
  BitsLeft_ok s : BitsLeft s = Z.of_nat (length (slice_bits s));
  RefsNum_ok s : RefsNum s = Z.of_nat (length (slice_refs s))
}.

Section Roundtrip.
Context `{CL : CellLib} `{LAW : !CellLaws CL}.
Import MessageParserV2 TestMessageBuilder.

(** ** Readers *)

(** The reader yields [a] from a slice that starts with [bs], and consumes just that. *)
Definition reads {A} (m : ST Slice (result A)) (a : A) (bs : list bool) : Prop :=
  ∀ s rest, slice_bits s = bs ++ rest →
    ∃ s', m s = (Ok a, s') ∧ slice_bits s' = rest ∧ slice_refs s' = slice_refs s.

Lemma reads_ret {A} (a : A) : reads (mret (Ok a)) a [].
Proof. intros s rest Hs. by exists s. Qed.

Lemma reads_bind {A B} (m : ST Slice (result A)) (k : A → ST Slice (result B)) a b bs cs :
  reads m a bs → reads (k a) b cs → reads (rbind m k) b (bs ++ cs).
Proof.
  intros Hm Hk s rest Hs. rewrite <-app_assoc in Hs. destruct (Hm _ _ Hs) as (s1 & E1 & H1 & R1).
  destruct (Hk _ _ H1) as (s2 & E2 & H2 & R2). exists s2. split; [|by rewrite R2, R1].
  unfold rbind, mbind, ST_bind. by rewrite E1.
Qed.

Lemma reads_wrap {A B} f (m : ST Slice (result A)) (k : A → ST Slice (result B)) a b bs cs :
  reads m a bs → reads (k a) b cs → reads (rbind_wrap f m k) b (bs ++ cs).
Proof.
  intros Hm Hk s rest Hs. rewrite <-app_assoc in Hs. destruct (Hm _ _ Hs) as (s1 & E1 & H1 & R1).
  destruct (Hk _ _ H1) as (s2 & E2 & H2 & R2). exists s2. split; [|by rewrite R2, R1].
  unfold rbind_wrap, mbind, ST_bind. by rewrite E1.
Qed.

Lemma reads_then {A B} (m : ST Slice (result A)) (k : A → ST Slice (result B)) a b bs :
  reads m a bs → reads (k a) b [] → reads (rbind m k) b bs.
Proof. intros Hm Hk. rewrite <-(app_nil_r bs). by eapply reads_bind. Qed.

Lemma reads_wrapped {A} f (m : ST Slice (result A)) a bs :
  reads m a bs → reads (x <-? m else f ;; mret (Ok x)) a bs.
Proof. intros Hm. rewrite <-(app_nil_r bs). eapply reads_wrap; [exact Hm|apply reads_ret]. Qed.

Lemma reads_uint n v label field :
  0 ≤ n ≤ 64 → 0 ≤ v < 2 ^ n → reads (loadUInt n label field) v (uint_bits n v).
Proof. intros Hn Hv. apply reads_wrapped. intros s rest. by apply LoadUInt_ok. Qed.

Lemma reads_coins v label field :
  0 ≤ v < 2 ^ 120 → reads (loadCoins label field) v (coins_bits v).
Proof. intros Hv. apply reads_wrapped. intros s rest. by apply LoadBigCoins_ok. Qed.

Lemma reads_address a label field :
  reads (loadAddress label field) (canonical a) (addr_bits a).
Proof.
  intros s rest Hs. destruct (LoadAddr_ok a rest s Hs) as (a' & s' & E & <- & H & R).
  exists s'. split; [|done]. unfold loadAddress, rbind_wrap, mbind, ST_bind. by rewrite E.
Qed.

Lemma reads_gameID gameID label :
  0 ≤ gameID ≤ MaxInt64 → reads (loadGameID label) gameID (uint_bits 256 gameID).
Proof.
  intros Hg. unfold loadGameID. rewrite <-(app_nil_r (uint_bits _ _)). eapply reads_wrap.
  - intros s rest. apply LoadBigUInt_ok; unfold MaxInt64 in Hg; lia.
  - apply reads_wrapped. intros s rest Hs. exists s. unfold lift_result, safeUint256ToInt64.
    rewrite (proj2 (Z.ltb_ge _ _)), (proj2 (Z.ltb_ge _ _)) by lia. done.
Qed.

(** ** Builders *)

Definition builds (ob : option Builder) (bs : list bool) (refs : list Cell) : Prop :=
  ∃ b, ob = Some b ∧ builder_bits b = bs ∧ builder_refs b = refs.

Notation room bs cs := (Z.of_nat (length bs) + Z.of_nat (length cs) ≤ 1023).

Lemma builds_begin : builds (Some BeginCell) [] [].
Proof. exists BeginCell. split; [done|]. split; [apply begin_bits|apply begin_refs]. Qed.

Lemma builds_uint ob n v bs refs :
  0 ≤ n ≤ 64 → 0 ≤ v < 2 ^ n → builds ob bs refs → room bs (uint_bits n v) →
  builds (ob ≫= StoreUInt v n) (bs ++ uint_bits n v) refs.
Proof.
  intros Hn Hv (b & -> & <- & <-) Hr. rewrite uint_length in Hr by lia.
  destruct (StoreUInt_ok n v b Hn Hv Hr) as (b' & H). by exists b'.
Qed.

Lemma builds_big ob n v bs refs :
  0 ≤ n ≤ 256 → 0 ≤ v < 2 ^ n → builds ob bs refs → room bs (uint_bits n v) →
  builds (ob ≫= StoreBigUInt v n) (bs ++ uint_bits n v) refs.
Proof.
  intros Hn Hv (b & -> & <- & <-) Hr. rewrite uint_length in Hr by lia.
  destruct (StoreBigUInt_ok n v b Hn Hv Hr) as (b' & H). by exists b'.
Qed.

Lemma builds_address ob a bs refs :
  builds ob bs refs → room bs (addr_bits (parseOrDefaultAddress a)) →
  builds (ob ≫= storeAddress a) (bs ++ addr_bits (parseOrDefaultAddress a)) refs.
Proof. intros (b & -> & <- & <-) Hr. destruct (StoreAddr_ok _ b Hr) as (b' & H). by exists b'. Qed.

Lemma builds_coins ob v bs refs :
  0 ≤ v < 2 ^ 120 → builds ob bs refs → room bs (coins_bits v) →
  builds (ob ≫= StoreBigCoins v) (bs ++ coins_bits v) refs.
Proof.
  intros Hv (b & -> & <- & <-) Hr. destruct (StoreBigCoins_ok v b Hv Hr) as (b' & H).
  by exists b'.
Qed.

Ltac fits :=
  rewrite ?length_app, ?Nat2Z.inj_add; change (length (@nil bool)) with 0%nat;
  repeat match goal with
  | |- context [Z.of_nat (length (uint_bits ?n ?v))] => rewrite (uint_length n v) by lia
  | |- context [Z.of_nat (length (addr_bits ?a))] =>
      pose proof (addr_length a); generalize dependent (Z.of_nat (length (addr_bits a))); intros
  | |- context [Z.of_nat (length (coins_bits ?v))] =>
      pose proof (coins_length v); generalize dependent (Z.of_nat (length (coins_bits v))); intros
  end; lia.

Definition is_opcode (op : Z) : Prop := 0 ≤ op < 2 ^ 32.
Definition is_gameID (g : Z) : Prop := 0 ≤ g ≤ MaxInt64.
Definition is_amount (v : Z) : Prop := 0 ≤ v ≤ MaxInt64.

Lemma amount_coins v : is_amount v → 0 ≤ v < 2 ^ 120.
Proof. unfold is_amount, MaxInt64. lia. Qed.

Lemma builds_header op gameID :
  is_opcode op → is_gameID gameID →
  builds (header op gameID) (uint_bits 32 op ++ uint_bits 256 gameID) [].
Proof.
  intros Ho Hg. unfold header. apply builds_big; [lia|unfold is_gameID, MaxInt64 in Hg; lia| |fits].
  apply (builds_uint (Some BeginCell) 32 op []); [lia|done|apply builds_begin|fits].
Qed.

(** ** A message is read back *)

Definition text_of (p : string) : string := canonical (parseOrDefaultAddress p).

(** The message whose cell holds the opcode and what its parser reads. *)
Lemma cell_run op parse p b bs :
  is_opcode op → parseMessageDataFromSlice op = parse op →
  builder_bits b = uint_bits 32 op ++ bs →
  (∀ s, slice_bits s = bs → slice_refs s = builder_refs b → (parse op s).1 = Ok p) →
  parseCellMessage (EndCell b) = Ok p.
Proof.
  intros Ho Hsw Hb Hp. unfold parseCellMessage, rbind_wrap, mbind, ST_bind.
  destruct (LoadUInt_ok 32 op bs (BeginParse (EndCell b))) as (s1 & -> & H1 & R1);
    [lia|done|by rewrite end_bits|].
  replace (uint32 op) with op by (symmetry; apply Z.mod_small, Ho). rewrite Hsw.
  apply Hp; [done|by rewrite R1, end_refs].
Qed.

Definition read_back (built : option string) (p : ParsedMessage.t) : Prop :=
  ∃ text, built = Some text ∧ text ≠ EmptyString ∧
    ∃ data, Base64.DecodeString true text = Ok data ∧ parseBody data = Some (Ok p).

Lemma encoded_read ob bs refs p :
  builds ob bs refs →
  (∀ b, builder_bits b = bs → builder_refs b = refs → parseCellMessage (EndCell b) = Ok p) →
  read_back (encoded ob) p.
Proof.
  intros (b & -> & Hb & Hr) Hp. eexists. split; [reflexivity|]. split.
  - intros E. pose proof (base64_roundtrip (of_bytes (ToBOC (EndCell b)))) as H.
    rewrite E in H. unfold bytes, of_bytes in H.
    rewrite String.list_ascii_of_string_of_list_ascii in H.
    apply (boc_header (EndCell b)). by injection H as <-.
  - eexists. split; [apply base64_roundtrip|]. unfold parseBody, bytes, of_bytes.
    rewrite String.list_ascii_of_string_of_list_ascii, boc_roundtrip. by rewrite Hp.
Qed.

Lemma plain_read ob op parse p bs :
  is_opcode op → parseMessageDataFromSlice op = parse op → reads (parse op) p bs →
  builds ob (uint_bits 32 op ++ bs) [] → read_back (encoded ob) p.
Proof.
  intros Ho Hsw Hr Hb. eapply encoded_read; [exact Hb|]. intros b E _.
  eapply cell_run; [exact Ho|exact Hsw|exact E|]. intros s Hs _.
  destruct (Hr s []) as (s' & -> & _); [by rewrite app_nil_r|done].
Qed.

(** The values read are found at the end, when the message is. *)
Ltac read_step :=
  match goal with
  | |- reads (rbind (loadGameID _) _) _ _ => eapply reads_bind; [eapply reads_gameID|]
  | |- reads (rbind (loadAddress _ _) _) _ _ => eapply reads_bind; [eapply reads_address|]
  | |- reads (rbind (loadCoins _ _) _) _ _ =>
      eapply reads_bind; [eapply reads_coins, amount_coins|]
  | |- reads (rbind (loadUInt _ _ _) _) _ _ => eapply reads_bind; [eapply reads_uint|]
  | |- reads (mret (Ok _)) _ _ => eapply reads_ret
  end.
Ltac read_all := cbv zeta; repeat read_step; try eassumption; try lia.

Lemma reads_eq {A} (m : ST Slice (result A)) a bs bs' : reads m a bs → bs = bs' → reads m a bs'.
Proof. by intros H <-. Qed.
Lemma builds_eq ob bs bs' refs : builds ob bs refs → bs = bs' → builds ob bs' refs.
Proof. by intros H <-. Qed.
Ltac assoc :=
  repeat rewrite <-app_assoc; first [reflexivity | rewrite ?app_nil_r; reflexivity].

Notation adr a := (addr_bits (parseOrDefaultAddress a)).

Lemma reads_started op g p1 p2 v :
  is_gameID g → is_amount v →
  reads (parseGameStartedNotifyV2 op)
    (Msg.gameStarted op g (text_of p1) (text_of p2) (Some v) EmptyString)
    (uint_bits 256 g ++ adr p1 ++ adr p2 ++ coins_bits v).
Proof. intros Hg Hv. unfold parseGameStartedNotifyV2. eapply reads_eq; [read_all|assoc]. Qed.

Lemma reads_finished op g p1 p2 v :
  is_gameID g → is_amount v →
  reads (parseGameFinishedNotifyV2 op)
    (Msg.gameFinished op g (text_of p1) (text_of p2) (Some v) EmptyString)
    (uint_bits 256 g ++ adr p1 ++ adr p2 ++ coins_bits v).
Proof. intros Hg Hv. unfold parseGameFinishedNotifyV2. eapply reads_eq; [read_all|assoc]. Qed.

Lemma reads_cancelled op g p1 :
  is_gameID g →
  reads (parseGameCancelledNotifyV2 op) (Msg.gameCancelled op g (text_of p1) EmptyString)
    (uint_bits 256 g ++ adr p1).
Proof. intros Hg. unfold parseGameCancelledNotifyV2. eapply reads_eq; [read_all|assoc]. Qed.

Lemma reads_opened op g p side :
  is_gameID g → 0 ≤ side < 2 ^ 8 →
  reads (parseSecretOpenedNotifyV2 op) (Msg.secretOpened op g (text_of p) side EmptyString)
    (uint_bits 256 g ++ adr p ++ uint_bits 8 side).
Proof.
  intros Hg Hs. unfold parseSecretOpenedNotifyV2.
  assert (side = uint8 side) as E by (symmetry; apply Z.mod_small, Hs). rewrite E at 1.
  eapply reads_eq; [read_all|assoc].
Qed.

Lemma reads_draw op g :
  is_gameID g → reads (parseDrawNotifyV2 op) (Msg.draw op g EmptyString) (uint_bits 256 g).
Proof. intros Hg. unfold parseDrawNotifyV2. eapply reads_eq; [read_all|assoc]. Qed.

Lemma reads_balance op g required actual :
  is_gameID g → is_amount required → is_amount actual →
  reads (parseInsufficientBalanceNotifyV2 op)
    (Msg.insufficientBalance op g (Some required) (Some actual) EmptyString)
    (uint_bits 256 g ++ coins_bits required ++ coins_bits actual).
Proof. intros Hg Hr Ha. unfold parseInsufficientBalanceNotifyV2. eapply reads_eq; [read_all|assoc]. Qed.

Lemma reads_timestamp name ts :
  0 ≤ ts < 2 ^ 32 → reads (loadEmittedEventTimestamp name) tt (uint_bits 32 ts).
Proof. intros Ht. unfold loadEmittedEventTimestamp. eapply reads_eq; [read_all|assoc]. Qed.

Lemma reads_emitted parse p bs ts name :
  reads parse p bs → 0 ≤ ts < 2 ^ 32 → reads (emitted parse name) p (bs ++ uint_bits 32 ts).
Proof.
  intros Hp Ht. unfold emitted. eapply reads_bind; [exact Hp|].
  eapply reads_then; [by apply reads_timestamp|apply reads_ret].
Qed.

(** The first part of an initialization leaves the rest of the slice to be looked at. *)
Lemma run_initialized op g p1 v s rest :
  is_gameID g → is_amount v →
  slice_bits s = uint_bits 256 g ++ adr p1 ++ coins_bits v ++ rest →
  ∃ s1, slice_bits s1 = rest ∧ slice_refs s1 = slice_refs s ∧
    parseGameInitializedNotifyV2 op s =
      (config <-? (if (32 <? BitsLeft s1) || (0 <? RefsNum s1) then
                     parseGameInitializedConfigSnapshotV2 op "GameInitializedNotify"
                   else mret (Ok Msg.noConfig)) ;;
       mret (Ok (Msg.gameInitialized op g (text_of p1) (Some v) config EmptyString))) s1.
Proof.
  intros Hg Hv Hs.
  destruct (reads_gameID g "GameInitializedNotify" Hg s _ Hs) as (s1 & E1 & H1 & R1).
  destruct (reads_address (parseOrDefaultAddress p1) "GameInitializedNotify" "playerOne" s1 _ H1)
    as (s2 & E2 & H2 & R2).
  destruct (reads_coins v "GameInitializedNotify" "bidValue" (amount_coins v Hv) s2 _ H2)
    as (s3 & E3 & H3 & R3).
  exists s3. split; [done|]. split; [congruence|]. unfold parseGameInitializedNotifyV2.
  cbv zeta. unfold rbind, mbind, ST_bind, get. by rewrite E1, E2, E3.
Qed.

Lemma run_notify op g p1 v s :
  is_gameID g → is_amount v → slice_refs s = [] →
  slice_bits s = uint_bits 256 g ++ adr p1 ++ coins_bits v →
  (parseGameInitializedNotifyV2 op s).1 =
    Ok (Msg.gameInitialized op g (text_of p1) (Some v) Msg.noConfig EmptyString).
Proof.
  intros Hg Hv Hr Hs. destruct (run_initialized op g p1 v s []) as (s1 & H1 & R1 & ->);
    [done|done|by rewrite app_nil_r|].
  by rewrite BitsLeft_ok, RefsNum_ok, H1, R1, Hr.
Qed.

Lemma run_event op g p1 v ts s :
  is_gameID g → is_amount v → 0 ≤ ts < 2 ^ 32 → slice_refs s = [] →
  slice_bits s = uint_bits 256 g ++ adr p1 ++ coins_bits v ++ uint_bits 32 ts →
  (parseGameInitializedEventV2 op s).1 =
    Ok (Msg.gameInitialized op g (text_of p1) (Some v) Msg.noConfig EmptyString).
Proof.
  intros Hg Hv Ht Hr Hs. destruct (run_initialized op g p1 v s _ Hg Hv Hs) as (s1 & H1 & R1 & E).
  unfold parseGameInitializedEventV2, rbind, mbind, ST_bind, get. rewrite E.
  rewrite BitsLeft_ok, RefsNum_ok, H1, R1, Hr, uint_length by lia.
  change ((32 <? 32) || (0 <? Z.of_nat (length (@nil Cell)))) with false.
  unfold rbind, mbind, ST_bind, mret, ST_ret. cbv beta iota.
  rewrite BitsLeft_ok, H1, uint_length, Z.leb_refl by lia.
  destruct (reads_timestamp "GameInitializedEvent" ts Ht s1 []) as (s2 & -> & _);
    [by rewrite app_nil_r|done].
Qed.

Lemma reads_config_ref op label fee c0 pv ts hb mr :
  op = OpcodeGameInitializedEvent → 0 ≤ pv < 2 ^ 32 → 0 ≤ ts < 2 ^ 32 → is_amount hb →
  is_amount mr →
  reads (parseConfigRef op label c0)
    (Msg.mkConfig (Msg.serviceFeeNumerator c0) (Msg.referrerFeeNumerator c0)
       (Msg.waitingForOpenBidSeconds c0) (Msg.lowestBid c0) (Some hb) (Some mr) (text_of fee) pv)
    (coins_bits hb ++ coins_bits mr ++ adr fee ++ uint_bits 32 pv ++ uint_bits 32 ts).
Proof.
  intros -> Hp Ht Hh Hm. assert (pv = uint32 pv) as E by (symmetry; apply Z.mod_small, Hp).
  rewrite E at 1. unfold parseConfigRef. rewrite Z.eqb_refl.
  eapply reads_eq; [read_all|assoc].
Qed.

Lemma reads_uint32 v label field :
  0 ≤ v < 2 ^ 32 → reads (loadUInt 32 label field) v (uint_bits 32 v) ∧ uint32 v = v.
Proof. intros Hv. split; [apply reads_uint; [lia|done]|apply Z.mod_small, Hv]. Qed.

(** An initialization with a configuration: the last of it, and the timestamp, is in a
    reference. *)
Lemma run_config g p1 v sf rf wait low high mr fee pv ts s c :
  is_gameID g → is_amount v → 0 ≤ sf < 2 ^ 32 → 0 ≤ rf < 2 ^ 32 → 0 ≤ wait < 2 ^ 32 →
  0 ≤ pv < 2 ^ 32 → 0 ≤ ts < 2 ^ 32 → is_amount low → is_amount high → is_amount mr →
  slice_refs s = [c] →
  slice_bits s = uint_bits 256 g ++ adr p1 ++ coins_bits v ++ uint_bits 32 sf ++
    uint_bits 32 rf ++ uint_bits 32 wait ++ coins_bits low →
  slice_bits (BeginParse c) = coins_bits high ++ coins_bits mr ++ adr fee ++ uint_bits 32 pv ++
    uint_bits 32 ts →
  (parseGameInitializedEventV2 OpcodeGameInitializedEvent s).1 =
    Ok (Msg.gameInitialized OpcodeGameInitializedEvent g (text_of p1) (Some v)
      (Msg.mkConfig sf rf wait (Some low) (Some high) (Some mr) (text_of fee) pv) EmptyString).
Proof.
  intros Hg Hv Hsf Hrf Hw Hpv Ht Hl Hh Hm Hr Hs Hc.
  destruct (run_initialized OpcodeGameInitializedEvent g p1 v s _ Hg Hv Hs) as (s1 & H1 & R1 & E).
  unfold parseGameInitializedEventV2, rbind, mbind, ST_bind, get. rewrite E.
  rewrite RefsNum_ok, R1, Hr, orb_true_r.
  set (label := "GameInitializedNotify").
  destruct (reads_uint32 sf label "serviceFeeNumerator" Hsf) as [L2 U2].
  destruct (reads_uint32 rf label "referrerFeeNumerator" Hrf) as [L3 U3].
  destruct (reads_uint32 wait label "waitingForOpenBidSeconds" Hw) as [L4 U4].
  destruct (L2 s1 _ H1) as (s2 & E2 & H2 & R2). destruct (L3 s2 _ H2) as (s3 & E3 & H3 & R3).
  destruct (L4 s3 _ H3) as (s4 & E4 & H4 & R4). rewrite <-(app_nil_r (coins_bits low)) in H4.
  destruct (reads_coins low label "lowestBid" (amount_coins _ Hl) s4 _ H4) as (s5 & E5 & H5 & R5).
  destruct (LoadRef_ok c [] s5) as (s6 & E6 & H6 & R6); [congruence|].
  unfold parseGameInitializedConfigSnapshotV2, rbind, rbind_wrap, fromRef, mbind, ST_bind, mret,
    ST_ret. rewrite E2, E3, E4, E5, E6, U2, U3, U4.
  destruct (reads_config_ref OpcodeGameInitializedEvent label fee
    (Msg.mkConfig sf rf wait (Some low) None None EmptyString 0) pv ts high mr)
    with (s := BeginParse c) (rest := @nil bool) as (s7 & -> & _);
    [done|done|done|done|done|by rewrite app_nil_r|].
  cbn [fst]. cbv beta iota. rewrite BitsLeft_ok, H6, H5. reflexivity.
Qed.

(** ** Every builder *)

Inductive built : option string → ParsedMessage.t → Prop :=
| built_initialized g p v : is_gameID g → is_amount v →
    built (BuildGameInitializedNotify g p v)
      (Msg.gameInitialized OpcodeGameInitializedNotify g (text_of p) (Some v) Msg.noConfig
         EmptyString)
| built_started g p1 p2 v : is_gameID g → is_amount v →
    built (BuildGameStartedNotify g p1 p2 v)
      (Msg.gameStarted OpcodeGameStartedNotify g (text_of p1) (text_of p2) (Some v) EmptyString)
| built_finished g w l v : is_gameID g → is_amount v →
    built (BuildGameFinishedNotify g w l v)
      (Msg.gameFinished OpcodeGameFinishedNotify g (text_of w) (text_of l) (Some v) EmptyString)
| built_cancelled g p : is_gameID g →
    built (BuildGameCancelledNotify g p)
      (Msg.gameCancelled OpcodeGameCancelledNotify g (text_of p) EmptyString)
| built_draw g : is_gameID g →
    built (BuildDrawNotify g) (Msg.draw OpcodeDrawNotify g EmptyString)
| built_opened g p side : is_gameID g → 0 ≤ side < 2 ^ 8 →
    built (BuildSecretOpenedNotify g p side)
      (Msg.secretOpened OpcodeSecretOpenedNotify g (text_of p) side EmptyString)
| built_balance g required actual : is_gameID g → is_amount required → is_amount actual →
    built (BuildInsufficientBalanceNotify g required actual)
      (Msg.insufficientBalance OpcodeInsufficientBalanceNotify g (Some required) (Some actual)
         EmptyString)
| built_initialized_event g p v ts : is_gameID g → is_amount v → 0 ≤ ts < 2 ^ 32 →
    built (BuildGameInitializedEvent g p v ts)
      (Msg.gameInitialized OpcodeGameInitializedEvent g (text_of p) (Some v) Msg.noConfig
         EmptyString)
| built_configured_event g p v fee ts : is_gameID g → is_amount v → 0 ≤ ts < 2 ^ 32 →
    built (BuildGameInitializedEventWithConfig g p v fee ts)
      (Msg.gameInitialized OpcodeGameInitializedEvent g (text_of p) (Some v)
         (Msg.mkConfig 500 300 3600 (Some 100000000) (Some 100000000000) (Some 50000000)
            (text_of fee) 2) EmptyString)
| built_started_event g p1 p2 v ts : is_gameID g → is_amount v → 0 ≤ ts < 2 ^ 32 →
    built (BuildGameStartedEvent g p1 p2 v ts)
      (Msg.gameStarted OpcodeGameStartedEvent g (text_of p1) (text_of p2) (Some v) EmptyString)
| built_finished_event g w l v ts : is_gameID g → is_amount v → 0 ≤ ts < 2 ^ 32 →
    built (BuildGameFinishedEvent g w l v ts)
      (Msg.gameFinished OpcodeGameFinishedEvent g (text_of w) (text_of l) (Some v) EmptyString)
| built_cancelled_event g p ts : is_gameID g → 0 ≤ ts < 2 ^ 32 →
    built (BuildGameCancelledEvent g p ts)
      (Msg.gameCancelled OpcodeGameCancelledEvent g (text_of p) EmptyString)
| built_draw_event g ts : is_gameID g → 0 ≤ ts < 2 ^ 32 →
    built (BuildDrawEvent g ts) (Msg.draw OpcodeDrawEvent g EmptyString).

Lemma builds_ref ob oc c bs :
  oc = Some c → builds ob bs [] →
  builds (builder ← ob; configRef ← oc; StoreRef (EndCell configRef) builder) bs [EndCell c].
Proof.
  intros -> (b & -> & <- & Hr). destruct (StoreRef_ok (EndCell c) b) as (b' & H & Hb & Hr');
    [rewrite Hr; simpl; lia|]. exists b'. split; [exact H|]. by rewrite Hb, Hr', Hr.
Qed.

Ltac build_step :=
  match goal with
  | |- builds (mbind (StoreUInt _ _) _) _ _ => eapply builds_uint
  | |- builds (mbind (storeAddress _) _) _ _ => eapply builds_address
  | |- builds (mbind (StoreBigCoins _) _) _ _ => eapply builds_coins
  | |- builds (header _ _) _ _ => eapply builds_header
  | |- builds (Some BeginCell) _ _ => eapply builds_begin
  end.
Ltac in_range :=
  first [assumption | apply amount_coins; assumption | reflexivity | fits | split; by vm_compute].
Ltac builder := repeat build_step; try in_range.

(** A message without references: [parser] reads it, as [reading] says. *)
Ltac plain op parser reading :=
  eapply (plain_read _ op parser);
    [split; by vm_compute | reflexivity
    | first [eapply reads_emitted; [apply reading|]; eassumption | apply reading; assumption]
    | eapply builds_eq; [builder|assoc]].
Ltac by_cell op parser :=
  eapply encoded_read; [builder|]; intros b Hb Hr;
  eapply (cell_run op parser); [split; by vm_compute|reflexivity|rewrite Hb; assoc|];
  intros s Hs Rs.

Local Notation "b >-> f" := (mbind (M := option) f b) (at level 50, left associativity).

(** The cell that carries the rest of a configuration. *)
Lemma configuration_cell fee ts :
  0 ≤ ts < 2 ^ 32 → ∃ c,
    (StoreBigCoins 100000000000 BeginCell >-> StoreBigCoins 50000000 >-> storeAddress fee
       >-> StoreUInt 2 32 >-> StoreUInt ts 32) = Some c ∧
    builder_bits c = coins_bits 100000000000 ++ coins_bits 50000000 ++ adr fee ++
      uint_bits 32 2 ++ uint_bits 32 ts.
Proof.
  intros Ht.
  assert (builds (Some BeginCell >-> StoreBigCoins 100000000000 >-> StoreBigCoins 50000000
    >-> storeAddress fee >-> StoreUInt 2 32 >-> StoreUInt ts 32)
    (coins_bits 100000000000 ++ coins_bits 50000000 ++ adr fee ++ uint_bits 32 2 ++
     uint_bits 32 ts) []) as (c & Hc & Ec & _); [eapply builds_eq; [builder|assoc]|by exists c].
Qed.

Lemma built_read m p : built m p → read_back m p.
Proof.
  intros H. destruct H.
  - by_cell OpcodeGameInitializedNotify parseGameInitializedNotifyV2.
    apply run_notify; [done|done|congruence|done].
  - plain OpcodeGameStartedNotify parseGameStartedNotifyV2 reads_started.
  - plain OpcodeGameFinishedNotify parseGameFinishedNotifyV2 reads_finished.
  - plain OpcodeGameCancelledNotify parseGameCancelledNotifyV2 reads_cancelled.
  - plain OpcodeDrawNotify parseDrawNotifyV2 reads_draw.
  - plain OpcodeSecretOpenedNotify parseSecretOpenedNotifyV2 reads_opened.
  - plain OpcodeInsufficientBalanceNotify parseInsufficientBalanceNotifyV2 reads_balance.
  - by_cell OpcodeGameInitializedEvent parseGameInitializedEventV2.
    apply (run_event _ g p v ts); [done|done|done|congruence|done].
  - destruct (configuration_cell fee ts) as (c & Hc & Ec); [done|].
    eapply (encoded_read _ (uint_bits 32 OpcodeGameInitializedEvent ++ uint_bits 256 g ++ adr p ++
      coins_bits v ++ uint_bits 32 500 ++ uint_bits 32 300 ++ uint_bits 32 3600 ++
      coins_bits 100000000)).
    + eapply builds_ref; [exact Hc|]. eapply builds_eq; [builder|assoc].
    + intros b Hb Hr.
      eapply (cell_run OpcodeGameInitializedEvent parseGameInitializedEventV2);
        [split; by vm_compute|reflexivity|exact Hb|]. intros s Hs Rs.
      apply (run_config g p v 500 300 3600 100000000 100000000000 50000000 fee 2 ts s (EndCell c));
        try assumption; try (unfold is_amount, MaxInt64; lia); [congruence|].
      by rewrite end_bits.
  - plain OpcodeGameStartedEvent parseGameStartedEventV2 reads_started.
  - plain OpcodeGameFinishedEvent parseGameFinishedEventV2 reads_finished.
  - plain OpcodeGameCancelledEvent parseGameCancelledEventV2 reads_cancelled.
  - plain OpcodeDrawEvent parseDrawEventV2 reads_draw.
Qed.

Context `{E : Env} `{PE : ParserEnv}.

(** C5: The builder and the parser agree: a message of any builder function that takes the
    fields of an event (so not of BuildOpcodeOnlyMessage), with fields in the ranges of the
    format, is text, and an in_msg that carries it is parsed to the message's fields,
    addresses in canonical form. *)
Theorem built_message_parsed m p :
  built m p → ∃ text, m = Some text ∧ ∀ inMsgJSON body,
    blankMessage inMsgJSON = false → json_InMsg inMsgJSON = Ok (text, body) →
    MessageParserV2.ParseInMsg inMsgJSON = Some (Ok p).
Proof.
  intros H. destruct (built_read m p H) as (text & -> & Ht & data & Hd & Hp).
  exists text. split; [done|]. intros js body Hb Hj. unfold ParseInMsg, decodeBody.
  rewrite Hb, Hj, (bool_decide_eq_false_2 _ Ht). cbn [andb negb]. by rewrite Hd.
Qed.
End Roundtrip.

(** ** What is parsed is in range *)

Section Typed.
Context `{CL : CellLib} `{LAW : !CellLaws CL}.
Import MessageParserV2.

(** Every value a reader yields satisfies [P]. *)
Definition yields {S A} (m : ST S (result A)) (P : A → Prop) : Prop :=
  ∀ s a s', m s = (Ok a, s') → P a.

Lemma yields_fst {S A} (m : ST S (result A)) P s a : yields m P → (m s).1 = Ok a → P a.
Proof. intros H. specialize (H s). destruct (m s) as [r s']. cbn. intros ->. by eapply H. Qed.

Lemma yields_ret {S A} (a : A) (P : A → Prop) : P a → yields (S := S) (mret (Ok a)) P.
Proof. intros H s b s' E. by injection E as <- _. Qed.

Lemma yields_err {S A} e (P : A → Prop) : yields (S := S) (mret (Err e)) P.
Proof. intros s b s' E. discriminate E. Qed.

Lemma yields_bind {S A B} (m : ST S (result A)) (k : A → ST S (result B)) P Q :
  yields m P → (∀ a, P a → yields (k a) Q) → yields (rbind m k) Q.
Proof.
  intros Hm Hk s b s'. unfold rbind, mbind, ST_bind. destruct (m s) as [[a|e] s1] eqn:E.
  - apply Hk. by eapply Hm.
  - discriminate 1.
Qed.

Lemma yields_wrap {S A B} f (m : ST S (result A)) (k : A → ST S (result B)) P Q :
  yields m P → (∀ a, P a → yields (k a) Q) → yields (rbind_wrap f m k) Q.
Proof.
  intros Hm Hk s b s'. unfold rbind_wrap, mbind, ST_bind.
  destruct (m s) as [[a|e] s1] eqn:E; [apply Hk; by eapply Hm|discriminate 1].
Qed.

Lemma yields_get {S A} (k : S → ST S (result A)) P :
  (∀ s, yields (k s) P) → yields (s ← get; k s) P.
Proof. intros Hk s b s' E. exact (Hk s s b s' E). Qed.

Lemma yields_fromRef {A} ref (m : ST Slice (result A)) P : yields m P → yields (fromRef ref m) P.
Proof. intros Hm s b s' E. injection E as E _. by eapply yields_fst. Qed.

Lemma yields_any {S A} (m : ST S (result A)) : yields m (λ _, True).
Proof. by intros s a s' _. Qed.

Lemma yields_mono {S A} (m : ST S (result A)) (P Q : A → Prop) :
  (∀ a, P a → Q a) → yields m P → yields m Q.
Proof. intros H Hm s a s' E. by eapply H, Hm. Qed.

Lemma yields_gameID label : yields (loadGameID label) is_gameID.
Proof.
  eapply yields_wrap; [apply yields_any|]. intros v _. eapply yields_wrap; [|by intros; apply yields_ret].
  intros s a s'. unfold lift_result, safeUint256ToInt64.
  destruct (Z.ltb_spec MaxInt64 v); [discriminate 1|].
  destruct (Z.ltb_spec v 0); [discriminate 1|]. intros E. injection E as <- _. by split.
Qed.

(** The fields of fixed width are in range. *)
Definition in_width (p : ParsedMessage.t) : Prop :=
  0 ≤ ParsedMessage.CoinSide p < 2 ^ 8 ∧ 0 ≤ ParsedMessage.ServiceFeeNumerator p < 2 ^ 32 ∧
  0 ≤ ParsedMessage.ReferrerFeeNumerator p < 2 ^ 32 ∧
  0 ≤ ParsedMessage.WaitingForOpenBidSeconds p < 2 ^ 32 ∧
  0 ≤ ParsedMessage.ProtocolVersion p < 2 ^ 32.

Definition config_width (c : Msg.Config) : Prop :=
  0 ≤ Msg.serviceFeeNumerator c < 2 ^ 32 ∧ 0 ≤ Msg.referrerFeeNumerator c < 2 ^ 32 ∧
  0 ≤ Msg.waitingForOpenBidSeconds c < 2 ^ 32 ∧ 0 ≤ Msg.protocolVersion c < 2 ^ 32.

(** A message of opcode [op]: its game is an int64, its type the opcode's, and its fields of
    fixed width in range. *)
Record typed (op : Z) (p : ParsedMessage.t) : Prop := {
  typed_opcode : ParsedMessage.Opcode p = op;
  typed_event : GetEventTypeForOpcode op = Some (ParsedMessage.EventType p);
  typed_game : is_gameID (ParsedMessage.GameID p);
  typed_width : in_width p
}.

Lemma uint32_range z : 0 ≤ uint32 z < 2 ^ 32.
Proof. apply Z.mod_pos_bound. lia. Qed.
Lemma uint8_range z : 0 ≤ uint8 z < 2 ^ 8.
Proof. apply Z.mod_pos_bound. lia. Qed.

Lemma yields_config op label :
  yields (parseGameInitializedConfigSnapshotV2 op label) config_width.
Proof.
  unfold parseGameInitializedConfigSnapshotV2.
  repeat (eapply yields_bind; [apply yields_any|intros ? _]).
  eapply yields_wrap; [apply yields_any|intros ref _]. apply yields_fromRef.
  unfold parseConfigRef. repeat (eapply yields_bind; [apply yields_any|intros ? _]).
  cbv zeta. destruct (op =? _); [eapply yields_bind; [apply yields_any|intros ? _]|];
    apply yields_ret; repeat split; apply uint32_range.
Qed.

Ltac yields :=
  repeat match goal with
  | |- yields (rbind (loadGameID _) _) _ => eapply yields_bind; [apply yields_gameID|intros ? ?]
  | |- yields (rbind (loadAddress _ _) _) _ => eapply yields_bind; [apply yields_any|intros ? _]
  | |- yields (rbind (loadCoins _ _) _) _ => eapply yields_bind; [apply yields_any|intros ? _]
  | |- yields (rbind (loadUInt _ _ _) _) _ => eapply yields_bind; [apply yields_any|intros ? _]
  | |- yields (mret (Ok _)) _ => apply yields_ret
  end.
Lemma config_none : config_width Msg.noConfig.
Proof. by repeat split. Qed.

Lemma yields_initialized op :
  GetEventTypeForOpcode op = Some EventTypeGameInitialized →
  yields (parseGameInitializedNotifyV2 op) (typed op).
Proof.
  intros He. unfold parseGameInitializedNotifyV2. cbv zeta. yields.
  apply yields_get. intros s. eapply (yields_bind _ _ config_width).
  - destruct (_ || _); [apply yields_config|apply yields_ret, config_none].
  - intros c (H1 & H2 & H3 & H4). apply yields_ret. split; [done|exact He|done|].
    split; [cbn; lia|]. repeat split; done || apply H1 || apply H2 || apply H3 || apply H4.
Qed.

Ltac by_fields := cbv zeta; yields; split; [done|done|done|]; repeat split; done || apply uint8_range.

Lemma yields_started op :
  GetEventTypeForOpcode op = Some EventTypeGameStarted →
  yields (parseGameStartedNotifyV2 op) (typed op).
Proof. intros He. unfold parseGameStartedNotifyV2. by_fields. Qed.
Lemma yields_finished op :
  GetEventTypeForOpcode op = Some EventTypeGameFinished →
  yields (parseGameFinishedNotifyV2 op) (typed op).
Proof. intros He. unfold parseGameFinishedNotifyV2. by_fields. Qed.
Lemma yields_cancelled op :
  GetEventTypeForOpcode op = Some EventTypeGameCancelled →
  yields (parseGameCancelledNotifyV2 op) (typed op).
Proof. intros He. unfold parseGameCancelledNotifyV2. by_fields. Qed.
Lemma yields_opened op :
  GetEventTypeForOpcode op = Some EventTypeSecretOpened →
  yields (parseSecretOpenedNotifyV2 op) (typed op).
Proof. intros He. unfold parseSecretOpenedNotifyV2. by_fields. Qed.
Lemma yields_draw op :
  GetEventTypeForOpcode op = Some EventTypeDraw → yields (parseDrawNotifyV2 op) (typed op).
Proof. intros He. unfold parseDrawNotifyV2. by_fields. Qed.
Lemma yields_balance op :
  GetEventTypeForOpcode op = Some EventTypeInsufficientBalance →
  yields (parseInsufficientBalanceNotifyV2 op) (typed op).
Proof. intros He. unfold parseInsufficientBalanceNotifyV2. by_fields. Qed.

Lemma yields_emitted parse name P : yields parse P → yields (emitted parse name) P.
Proof.
  intros Hp. eapply yields_bind; [exact Hp|]. intros p H.
  eapply yields_bind; [apply yields_any|]. intros _ _. by apply yields_ret.
Qed.

Lemma yields_initialized_event op :
  GetEventTypeForOpcode op = Some EventTypeGameInitialized →
  yields (parseGameInitializedEventV2 op) (typed op).
Proof.
  intros He. eapply yields_bind; [by apply yields_initialized|]. intros p H. apply yields_get.
  intros s. destruct (_ <=? _); [eapply yields_bind; [apply yields_any|intros _ _]|];
    by apply yields_ret.
Qed.

Lemma switch_elem {A} z (cases : list (Z * A)) a : switch z cases = Some a → (z, a) ∈ cases.
Proof.
  induction cases as [|[k b] cases IH]; cbn [switch]; [done|]. destruct (Z.eqb_spec z k) as [->|].
  - intros [= ->]. apply list_elem_of_here.
  - intros H. by apply list_elem_of_further, IH.
Qed.

(** The opcode's parser gives a message of the opcode's type. *)
Lemma yields_message op : yields (parseMessageDataFromSlice op) (typed op).
Proof.
  unfold parseMessageDataFromSlice. destruct (switch op _) as [parse|] eqn:E;
    [|apply yields_err]. apply switch_elem in E.
  repeat (apply elem_of_cons in E as [E|E]; [injection E as -> ->|]);
    [..|by apply elem_of_nil in E].
  - by apply yields_initialized.
  - by apply yields_initialized_event.
  - by apply yields_started.
  - by apply yields_emitted, yields_started.
  - by apply yields_finished.
  - by apply yields_emitted, yields_finished.
  - by apply yields_cancelled.
  - by apply yields_emitted, yields_cancelled.
  - by apply yields_opened.
  - by apply yields_draw.
  - by apply yields_emitted, yields_draw.
  - by apply yields_balance.
Qed.

Lemma parseBody_typed data p : parseBody data = Some (Ok p) → ∃ op, typed op p.
Proof.
  unfold parseBody. destruct (FromBOC data) as [c|e].
  - intros [= E]. unfold parseCellMessage in E.
    eapply (yields_fst _ (λ p : ParsedMessage.t, ∃ op, typed op p)); [|exact E].
    eapply yields_wrap; [apply yields_any|]. intros op _.
    eapply yields_mono; [|apply yields_message]. intros q Hq. by exists (uint32 op).
  - unfold parseRawData. destruct (_ <? _)%nat; [done|].
    destruct (GetEventTypeForOpcode _); [|done].
    cbv zeta. match goal with |- mbind _ ?x = _ → _ => destruct x as [b|] end; [|done].
    intros [= E].
    eexists. eapply yields_fst; [apply yields_message|exact E].
Qed.

Context `{E : Env} `{PE : ParserEnv}.

(** C25: A message that is parsed is a legacy one, or has an opcode the parser knows, the event
    type of that opcode, a game identifier that fits int64, and fields in their width. *)
Theorem ParseInMsg_typed inMsgJSON p :
  MessageParserV2.ParseInMsg inMsgJSON = Some (Ok p) →
  parseLegacyParsedMessage inMsgJSON = Ok p ∨ ∃ op, typed op p.
Proof.
  unfold ParseInMsg, decodeBody. destruct (blankMessage _); [done|].
  destruct (json_InMsg _) as [[message body]|]; [|by intros [= ->]; left].
  destruct (_ && _); [by intros [= ->]; left|]. destruct (negb _).
  - destruct (Base64.DecodeString true _); [intros H; right; by eapply parseBody_typed|].
    destruct (Base64.DecodeString false _); [intros H; right; by eapply parseBody_typed|done].
  - destruct (negb _); [|done].
    destruct (Base64.DecodeString true _); [intros H; right; by eapply parseBody_typed|done].
Qed.

(** A message whose bytes are not a bag of cells, but start with an opcode the parser knows,
    panics when it has more than 131 bytes: the rest does not fit the cell it is stored in. *)
Theorem ParseInMsg_panics inMsgJSON text body data e type :
  blankMessage inMsgJSON = false → json_InMsg inMsgJSON = Ok (text, body) → text ≠ EmptyString →
  Base64.DecodeString true text = Ok data → FromBOC data = Err e →
  GetEventTypeForOpcode (SetBytes (take 4 data)) = Some type → (131 < length data)%nat →
  MessageParserV2.ParseInMsg inMsgJSON = None.
Proof.
  intros Hb Hj Ht Hd Hf Ho Hl. unfold ParseInMsg, decodeBody.
  rewrite Hb, Hj, (bool_decide_eq_false_2 _ Ht). cbn [andb negb]. rewrite Hd.
  unfold parseBody, parseRawData. rewrite Hf, Ho.
  rewrite (proj2 (Nat.ltb_ge _ _)), (proj2 (Nat.ltb_lt _ _)) by lia. cbv zeta.
  destruct (StoreSlice _ _ BeginCell) as [b|] eqn:Es; [|done].
  apply mk_is_Some, StoreSlice_ok in Es as [_ H]; [|lia].
  rewrite begin_bits, length_drop in H. simpl length in H. lia.
Qed.
End Typed.
