(* ===== verification/MessageParserRun.v ===== *)
(** * The message parser at work

    A library of cells and its laws, and messages on which the promises of the parser are
    seen. *)
From S2P Require Import Prelude GoTypes Entity World Toncenter MessageParser MessageParserSpec.
From Stdlib Require Import Ascii SpecFloat.

Module Cells.
(** The lowest bit first. *)
Fixpoint bits_of (n : nat) (v : Z) : list bool :=
  match n with O => [] | S n => Z.odd v :: bits_of n (v / 2) end.
Fixpoint value (l : list bool) : Z :=
  match l with [] => 0 | b :: l => Z.b2z b + 2 * value l end.

Lemma length_bits n v : length (bits_of n v) = n.
Proof. revert v. induction n as [|n IH]; intros v; cbn; [done|by rewrite IH]. Qed.

Lemma value_bits n v : value (bits_of n v) = v mod 2 ^ Z.of_nat n.
Proof.
  revert v. induction n as [|n IH]; intros v; cbn [bits_of value]; [by rewrite Z.mod_1_r|].
  rewrite IH, Nat2Z.inj_succ, Z.pow_succ_r by lia.
  pose proof (Zdiv2_odd_eqn v) as H. rewrite Zdiv2_div in H.
  rewrite Z.rem_mul_r by lia. rewrite Zmod_odd. destruct (Z.odd v); cbn [Z.b2z]; lia.
Qed.

(** A cell: a leaf with the bits, then the references. *)
Definition cell : Type := gen_tree (list bool).
Definition content : Type := list bool * list cell.

Fixpoint of_pos (p : positive) : list ascii :=
  match p with
  | xH => ["|"%char]
  | xO p => "0"%char :: of_pos p
  | xI p => "1"%char :: of_pos p
  end.
Fixpoint to_pos (l : list ascii) : option positive :=
  match l with
  | [c] => if byte_eqb c "|"%char then Some xH else None
  | c :: l => if byte_eqb c "0"%char then xO <$> to_pos l
              else if byte_eqb c "1"%char then xI <$> to_pos l else None
  | [] => None
  end.

Lemma to_of_pos p : to_pos (of_pos p) = Some p.
Proof.
  induction p as [p IH|p IH|]; [| |done]; cbn [of_pos];
    (destruct (of_pos p) as [|c l]; [done|]).
  - change (to_pos ("1"%char :: c :: l)) with (xI <$> to_pos (c :: l)). by rewrite IH.
  - change (to_pos ("0"%char :: c :: l)) with (xO <$> to_pos (c :: l)). by rewrite IH.
Qed.

Definition FromBOC (l : list ascii) : result cell :=
  match to_pos l ≫= decode with Some c => Ok c | None => Err (ENew "not a bag of cells") end.

Definition load {A} (n : nat) (f : list bool → A) : ST content (result A) :=
  λ s, if (length s.1 <? n)%nat then (Err (ENew "not enough bits"), s)
       else (Ok (f (take n s.1)), (drop n s.1, s.2)).

Definition store (l : list bool) (b : content) : option content :=
  if Z.of_nat (length b.1) + Z.of_nat (length l) <=? 1023 then Some (b.1 ++ l, b.2) else None.

Definition BeginParse (c : cell) : content :=
  match c with GenNode _ (GenLeaf l :: refs) => (l, refs) | _ => ([], []) end.

Definition LoadRef : ST content (result content) := λ s,
  match s.2 with
  | c :: more => (Ok (BeginParse c), (s.1, more))
  | [] => (Err (ENew "no more refs"), s)
  end.

#[export] Instance lib : CellLib := {|
  Cell := cell; Slice := content; Builder := content; Addr := Z;
  MessageParser.FromBOC := FromBOC;
  ToBOC c := of_pos (encode c);
  MessageParser.BeginParse := BeginParse;
  LoadUInt n := load (Z.to_nat n) value;
  LoadBigUInt n := load (Z.to_nat n) value;
  LoadAddr := load 267 value;
  LoadBigCoins := load 124 value;
  MessageParser.LoadRef := LoadRef;
  BitsLeft s := Z.of_nat (length s.1);
  RefsNum s := Z.of_nat (length s.2);
  BeginCell := ([], []);
  StoreUInt v n := store (bits_of (Z.to_nat n) v);
  StoreBigUInt v n := store (bits_of (Z.to_nat n) v);
  StoreAddr a := store (bits_of 267 a);
  StoreBigCoins v := store (bits_of 124 v);
  StoreRef c b := if (length b.2 <? 4)%nat then Some (b.1, b.2 ++ [c]) else None;
  StoreSlice data n b :=
    if n <=? 8 * Z.of_nat (length data) then
      store (take (Z.to_nat n) (data ≫= λ c, bits_of 8 (Base64.byte_value c))) b
    else None;
  EndCell b := GenNode 0 (GenLeaf b.1 :: b.2);
  NewAddress _ w data := SetBytes (w :: data);
  addr_ParseAddr s := match parse_signed s with Some z => Ok z | None => Err (ENew s) end;
  addr_String a := FormatInt a
|}.

Lemma load_bits n v rest s :
  s.1 = bits_of n v ++ rest →
  ∃ s', load n value s = (Ok (v mod 2 ^ Z.of_nat n), s') ∧ s'.1 = rest ∧ s'.2 = s.2.
Proof.
  intros Hs. unfold load. rewrite Hs, length_app, length_bits.
  rewrite (proj2 (Nat.ltb_ge _ _)) by lia. exists (rest, s.2). split; [|done].
  by rewrite take_app_length', drop_app_length', value_bits by (by rewrite length_bits).
Qed.

Lemma load_ok n v rest s :
  0 ≤ v < 2 ^ Z.of_nat n → s.1 = bits_of n v ++ rest →
  ∃ s', load n value s = (Ok v, s') ∧ s'.1 = rest ∧ s'.2 = s.2.
Proof. intros Hv Hs. pose proof (load_bits n v rest s Hs) as H. by rewrite Z.mod_small in H. Qed.

Lemma storing_ok l b :
  Z.of_nat (length b.1) + Z.of_nat (length l) ≤ 1023 →
  ∃ b', store l b = Some b' ∧ b'.1 = b.1 ++ l ∧ b'.2 = b.2.
Proof. intros H. unfold store. rewrite (proj2 (Z.leb_le _ _)) by done. by eexists. Qed.

Lemma length_data_bits data :
  length (data ≫= λ c, bits_of 8 (Base64.byte_value c)) = (8 * length data)%nat.
Proof.
  induction data as [|c data IH]; [done|]. rewrite bind_cons, length_app, IH, length_bits.
  cbn [length]. lia.
Qed.

#[export] Instance laws : CellLaws lib.
Proof.
  unshelve refine {|
    slice_bits := fst : content → _; slice_refs := snd : content → _;
    builder_bits := fst : content → _; builder_refs := snd : content → _;
    uint_bits n v := bits_of (Z.to_nat n) v;
    addr_bits a := bits_of 267 a; coins_bits v := bits_of 124 v;
    canonical a := FormatInt (a mod 2 ^ 267)
  |}; cbn -[bits_of Z.pow].
  - intros n v Hn. rewrite length_bits. lia.
  - intros a. by rewrite length_bits.
  - intros v. by rewrite length_bits.
  - intros c. unfold FromBOC. rewrite to_of_pos. cbn [mbind option_bind]. by rewrite decode_encode.
  - intros c. by destruct (encode c).
  - done.
  - done.
  - done.
  - done.
  - intros n v b Hn _ Hr. apply storing_ok. rewrite length_bits. lia.
  - intros n v b Hn _ Hr. apply storing_ok. rewrite length_bits. lia.
  - intros a b. apply storing_ok.
  - intros v b _. apply storing_ok.
  - intros c b Hr. destruct (Nat.leb_spec (length b.2) 3); [by eexists|lia].
  - intros data n b Hn. destruct (Z.leb_spec n (8 * Z.of_nat (length data))) as [Hl|Hl].
    + unfold store. rewrite length_take, length_data_bits, Nat.min_l, Z2Nat.id by lia.
      destruct (Z.leb_spec (Z.of_nat (length b.1) + n) 1023); split; done || lia.
    + split; [by intros [? ?]|lia].
  - intros n v rest s Hn Hv. apply load_ok. by rewrite Z2Nat.id by lia.
  - intros n v rest s Hn Hv. apply load_ok. by rewrite Z2Nat.id by lia.
  - intros a rest s Hs. destruct (load_bits 267 a rest s Hs) as (s' & H & ?). by eexists _, s'.
  - intros v rest s Hv. apply load_ok. split; [lia|]. etrans; [apply Hv|]. by vm_compute.
  - intros c refs s Hs. unfold LoadRef. rewrite Hs. by eexists.
  - done.
  - done.
Defined.
End Cells.

(** ** Messages *)

Section Examples.
Import Cells TestMessageBuilder.

(** Every in_msg is the text of a message. *)
#[local] Existing Instance Run.ticking.
#[local] Instance texts : ParserEnv := {|
  json_InMsg js := Ok (js, EmptyString);
  json_Object js := Err (ENew js);
  float_to_uint8 _ := 0
|}.

Lemma built_message_parsed_witness :
  ∃ text, BuildGameInitializedEventWithConfig 7 "11" 5000000000 "12" 1700000000 = Some text ∧
    ∀ inMsgJSON body, blankMessage inMsgJSON = false →
      json_InMsg inMsgJSON = Ok (text, body) →
      MessageParserV2.ParseInMsg inMsgJSON =
        Some (Ok (Msg.gameInitialized OpcodeGameInitializedEvent 7 "11" (Some 5000000000)
          (Msg.mkConfig 500 300 3600 (Some 100000000) (Some 100000000000) (Some 50000000)
             "12" 2) EmptyString)).
Proof.
  assert (text_of "11" = "11" ∧ text_of "12" = "12") as [E1 E2] by (split; vm_compute; reflexivity).
  assert (built (BuildGameInitializedEventWithConfig 7 "11" 5000000000 "12" 1700000000)
    (Msg.gameInitialized OpcodeGameInitializedEvent 7 (text_of "11") (Some 5000000000)
       (Msg.mkConfig 500 300 3600 (Some 100000000) (Some 100000000000) (Some 50000000)
          (text_of "12") 2) EmptyString)) as H
    by (apply built_configured_event; split; by vm_compute).
  rewrite E1, E2 in H. exact (built_message_parsed _ _ H).
Defined.

Definition a_draw : string := default EmptyString (BuildDrawNotify 7).

Lemma ParseInMsg_typed_witness :
  parseLegacyParsedMessage a_draw = Ok (Msg.draw OpcodeDrawNotify 7 EmptyString) ∨
  ∃ op, typed op (Msg.draw OpcodeDrawNotify 7 EmptyString).
Proof. apply ParseInMsg_typed. vm_compute. reflexivity. Defined.

(** The opcode of a draw and 128 more bytes. *)
Definition long_bytes : list ascii :=
  map Base64.byte_of [18; 244; 4; 135] ++ repeat "000"%char 128.

Lemma ParseInMsg_panics_witness :
  MessageParserV2.ParseInMsg (Base64.EncodeToString (of_bytes long_bytes)) = None.
Proof.
  apply (ParseInMsg_panics _ (Base64.EncodeToString (of_bytes long_bytes)) EmptyString long_bytes
    (ENew "not a bag of cells") EventTypeDraw); vm_compute; done || lia.
Defined.
End Examples.
