(* ===== verification/Poller.v ===== *)
(** * The HTTP poller

    internal/infrastructure/toncenter/client.go and poller.go: fetching pages of
    transactions from TON Center, the logical-time cursor, the backfill of gaps,
    and the adaptive interval. *)
From S2P Require Import Prelude GoTypes Toncenter.
From Stdlib Require Import Ascii.

(** ** What the client gets from outside *)

Class ClientEnv := {
  breakerRefuses : nat → option error;            (* gobreaker, for the n-th call *)
  http_NewRequest : string → option error;        (* is the URL malformed? *)
  http_Do : nat → string → result (Z * string);   (* status and body of the n-th call *)
  json_DecodeTransactions : string → result (bool * list Transaction.t * string);
  mapOrder : nat → list Transaction.t → list Transaction.t;  (* n-th range over a map *)
  sort_Slice : nat → (Transaction.t → Transaction.t → bool) → list Transaction.t →
               list Transaction.t;                (* the n-th unstable sort *)
  bigint_undefined : string → Z                   (* big.Int after a failed SetString *)
}.

(** The order is a strict weak order, as [sort.Slice] wants it. *)
Definition strict_weak {A} (less : A → A → bool) : Prop :=
  (∀ x y, less x y = true → less y x = false) ∧
  (∀ x y z, less y x = false → less z y = false → less z x = false).

Class ClientLaws (CE : ClientEnv) : Prop := {
  mapOrder_perm n l : mapOrder n l ≡ₚ l;
  sort_perm n less l : sort_Slice n less l ≡ₚ l;
  sort_ordered n less l : strict_weak less → ordered less (sort_Slice n less l)
}.

(** How many calls were made, and how many times an unspecified order was chosen. *)
Record Net := mkNet { calls : nat; chances : nat }.

Definition chance {A} (f : nat → A) : ST Net A :=
  λ n, (f (chances n), mkNet (calls n) (S (chances n))).

(** ** Logical times *)

Definition defaultLastProcessedLt : string := "0".

Definition normalizeLt (lt : string) : string :=
  if bool_decide (lt = EmptyString) then defaultLastProcessedLt else lt.

Section LogicalTime.
Context `{CE : ClientEnv}.

(** [n.SetString(lt, 10)], then the value of [n]. *)
Definition lt_value (lt : string) : Z := default (bigint_undefined lt) (parse_signed lt).

Definition compareLtValues (lt1 lt2 : string) : comparison :=
  lt_value (normalizeLt lt1) ?= lt_value (normalizeLt lt2).

Definition compareLt (lt1 lt2 : string) : bool :=
  match compareLtValues lt1 lt2 with Gt => true | _ => false end.

Definition transactionDedupKey (tx : Transaction.t) : string :=
  normalizeLt (Transaction.Lt tx) +:+ String "000"%char (Transaction.Hash tx).

Definition lessByLt (ascending : bool) (x y : Transaction.t) : bool :=
  match compareLtValues (Transaction.Lt x) (Transaction.Lt y) with
  | Eq => String.ltb (Transaction.Hash x) (Transaction.Hash y)
  | Lt => ascending
  | Gt => negb ascending
  end.

Definition sortTransactionsByLt (txs : list Transaction.t) (ascending : bool) :
    ST Net (list Transaction.t) :=
  chance (λ n, sort_Slice n (lessByLt ascending) txs).

(** The transactions kept in [uniqueTxs], and the number of those dropped. *)
Fixpoint uniqueTxs (seen : list string) (txs : list Transaction.t) : list Transaction.t * Z :=
  match txs with
  | [] => ([], 0)
  | tx :: txs =>
      let key := transactionDedupKey tx in
      if bool_decide (key ∈ seen) then
        let '(unique, duplicateCount) := uniqueTxs seen txs in (unique, duplicateCount + 1)
      else
        let '(unique, duplicateCount) := uniqueTxs (key :: seen) txs in
        (tx :: unique, duplicateCount)
  end.

Definition normalizeTransactionsByLt (txs : list Transaction.t) (ascending : bool) :
    ST Net (list Transaction.t * Z) :=
  match txs with
  | [] => mret ([], 0)
  | _ =>
      let '(unique, duplicateCount) := uniqueTxs [] txs in
      normalized ← chance (λ n, mapOrder n unique);
      normalized ← sortTransactionsByLt normalized ascending;
      mret (normalized, duplicateCount)
  end.
End LogicalTime.

(** ** The client *)

Module Client.
Record t := mk { v2BaseURL : string; contractAddress : string }.

Section Client.
Context `{CE : ClientEnv} (c : t).

(** The URL of a request. *)
Definition url (limit : Z) (lt : option Z) (hash : option string) : string :=
  v2BaseURL c +:+ "/getTransactions?address=" +:+ contractAddress c +:+ "&limit="
  +:+ FormatInt limit +:+ "&archival=true"
  +:+ match lt with Some z => "&lt=" +:+ FormatInt z | None => EmptyString end
  +:+ match hash with Some h => "&hash=" +:+ h | None => EmptyString end.

(** The request and the decoded answer, before it is normalized. *)
Definition fetch (n : nat) (limit : Z) (lt : option Z) (hash : option string) :
    result (list Transaction.t) :=
  match http_NewRequest (url limit lt hash) with
  | Some e => Err (Errorf "create request" e)
  | None =>
      match http_Do n (url limit lt hash) with
      | Err e => Err (Errorf "http request" e)
      | Ok (status, body) =>
          if negb (status =? 200) then
            Err (ENew ("unexpected status " +:+ FormatInt status +:+ ": " +:+ body))
          else
            match json_DecodeTransactions body with
            | Err e => Err (Errorf "decode transactions" e)
            | Ok (ok, result, message) =>
                if negb ok then Err (ENew ("API error: " +:+ message)) else Ok result
            end
      end
  end.

Definition doGetTransactions (n : nat) (limit : Z) (lt : option Z) (hash : option string) :
    ST Net (result (list Transaction.t)) :=
  match fetch n limit lt hash with
  | Err e => mret (Err e)
  | Ok txs => normalized ← normalizeTransactionsByLt txs false; mret (Ok normalized.1)
  end.

Definition GetTransactions (limit : Z) (lt : option Z) (hash : option string) :
    ST Net (result (list Transaction.t)) :=
  n ← gets calls;
  _ ← modify (λ net, mkNet (S n) (chances net));
  match breakerRefuses n with
  | Some e => mret (Err (Errorf "circuit breaker" e))
  | None => result ← doGetTransactions n limit lt hash;
            mret (map_err (Errorf "circuit breaker") result)
  end.
End Client.
End Client.

(** ** The poller *)

(** The interface the event sources call: [HandleTransaction] over the state [S] of the
    implementation. *)
Definition EventHandler (S : Type) : Type := Transaction.t → ST S (result unit).

Module Poller.
Definition MinPollInterval : Z := 5 * 10 ^ 9.
Definition MaxPollInterval : Z := 30 * 10 ^ 9.
Definition PollBatchSize : Z := 100.
Definition BackoffInitial : Z := 1 * 10 ^ 9.
Definition BackoffMax : Z := 16 * 10 ^ 9.

Record t (S : Type) := mk {
  client : Client.t; handler : EventHandler S;
  currentInterval : Z; minInterval : Z; maxInterval : Z;
  lastProcessedLt : string;
  ticker : option Z;                      (* the period of the ticker, once created *)
  stopCh_closed : bool;
  backoffDuration : Z; consecutiveErrors : Z;
  isRunning : bool;
  onLtUpdated : option (string → ST S unit) }.
Arguments mk {S}.
Arguments client {S}. Arguments handler {S}. Arguments currentInterval {S}.
Arguments minInterval {S}. Arguments maxInterval {S}. Arguments lastProcessedLt {S}.
Arguments ticker {S}. Arguments stopCh_closed {S}. Arguments backoffDuration {S}.
Arguments consecutiveErrors {S}. Arguments isRunning {S}. Arguments onLtUpdated {S}.

Section Fields.
Context {S : Type} (p : t S).

Definition set_intervals (current min max : Z) (tick : option Z) : t S :=
  mk (client p) (handler p) current min max (lastProcessedLt p) tick (stopCh_closed p)
    (backoffDuration p) (consecutiveErrors p) (isRunning p) (onLtUpdated p).
Definition set_lastProcessedLt (lt : string) : t S :=
  mk (client p) (handler p) (currentInterval p) (minInterval p) (maxInterval p) lt (ticker p)
    (stopCh_closed p) (backoffDuration p) (consecutiveErrors p) (isRunning p) (onLtUpdated p).
Definition set_backoff (errors backoff : Z) : t S :=
  mk (client p) (handler p) (currentInterval p) (minInterval p) (maxInterval p)
    (lastProcessedLt p) (ticker p) (stopCh_closed p) backoff errors (isRunning p)
    (onLtUpdated p).
Definition set_running (running closed : bool) : t S :=
  mk (client p) (handler p) (currentInterval p) (minInterval p) (maxInterval p)
    (lastProcessedLt p) (ticker p) closed (backoffDuration p) (consecutiveErrors p) running
    (onLtUpdated p).
End Fields.

Definition normalizePollIntervals (minInterval maxInterval : Z) : Z * Z :=
  let minInterval := if minInterval <=? 0 then MinPollInterval else minInterval in
  let maxInterval := if maxInterval <=? 0 then MaxPollInterval else maxInterval in
  let maxInterval := if maxInterval <? minInterval then minInterval else maxInterval in
  (minInterval, maxInterval).

Section Construction.
Context {S : Type}.

Definition NewPollerWithIntervals (c : Client.t) (h : EventHandler S) (startBlock : Z)
    (minInterval maxInterval : Z) : t S :=
  let '(minInterval, maxInterval) := normalizePollIntervals minInterval maxInterval in
  mk c h maxInterval minInterval maxInterval defaultLastProcessedLt None false 0 0 false None.

Definition NewPoller (c : Client.t) (h : EventHandler S) (startBlock : Z) : t S :=
  NewPollerWithIntervals c h startBlock MinPollInterval MaxPollInterval.

Definition SetOnLtUpdated (callback : option (string → ST S unit)) (p : t S) : t S :=
  mk (client p) (handler p) (currentInterval p) (minInterval p) (maxInterval p)
    (lastProcessedLt p) (ticker p) (stopCh_closed p) (backoffDuration p) (consecutiveErrors p)
    (isRunning p) callback.

Definition Subscribe (h : EventHandler S) (p : t S) : t S :=
  mk (client p) h (currentInterval p) (minInterval p) (maxInterval p)
    (lastProcessedLt p) (ticker p) (stopCh_closed p) (backoffDuration p) (consecutiveErrors p)
    (isRunning p) (onLtUpdated p).

Definition GetLastProcessedLt (p : t S) : string := lastProcessedLt p.
Definition SetLastProcessedLt (lt : string) (p : t S) : t S :=
  set_lastProcessedLt p (normalizeLt lt).
Definition GetLastProcessedBlock (p : t S) : Z := 0.
Definition SetLastProcessedBlock (block : Z) (p : t S) : t S := p.
Definition IsConnected (p : t S) : bool := isRunning p.

(** The state when the goroutine starts waiting for the ticker. *)
Definition Start (p : t S) : t S :=
  let '(minInterval, maxInterval) :=
    normalizePollIntervals (minInterval p) (maxInterval p) in
  let current := if currentInterval p <=? 0 then maxInterval else currentInterval p in
  set_running (set_intervals p current minInterval maxInterval (Some current)) true
    (stopCh_closed p).

(** [None] when the channel was closed before: closing it again panics. *)
Definition Stop (p : t S) : option (t S) :=
  if stopCh_closed p then None
  else Some (set_running p false true).

Definition adjustInterval (hasActivity : bool) (p : t S) : t S :=
  let oldInterval := currentInterval p in
  let current :=
    if hasActivity then
      let current := Z.quot (wrap64 (oldInterval * 2)) 3 in
      if current <? minInterval p then minInterval p else current
    else
      let current := Z.quot (wrap64 (oldInterval * 3)) 2 in
      if maxInterval p <? current then maxInterval p else current in
  set_intervals p current (minInterval p) (maxInterval p)
    (match ticker p with
     | Some _ => if current =? oldInterval then ticker p else Some current
     | None => None
     end).

(** The sleep itself is not a state change. *)
Definition handleError (p : t S) : t S :=
  let backoff :=
    if backoffDuration p =? 0 then BackoffInitial
    else let doubled := wrap64 (backoffDuration p * 2) in
         if BackoffMax <? doubled then BackoffMax else doubled in
  adjustInterval false (set_backoff p (wrap64 (consecutiveErrors p + 1)) backoff).
End Construction.

Section Poll.
Context `{CE : ClientEnv} {S : Type}.

(** The poller, the network, and the state of the handler. *)
Definition PS : Type := t S * (Net * S).

Definition PM := ST PS.
#[local] Instance PM_ret : MRet PM := ST_ret.
#[local] Instance PM_bind : MBind PM := ST_bind.

Definition poller : PM (t S) := gets fst.
Definition update (f : t S → t S) : PM unit := modify (λ s, (f s.1, s.2)).
Definition onNet {A} (m : ST Net A) : PM A :=
  zoom (λ s, s.2.1) (λ net s, (s.1, (net, s.2.2))) m.
Definition onHandler {A} (m : ST S A) : PM A :=
  zoom (λ s, s.2.2) (λ hs s, (s.1, (s.2.1, hs))) m.

Definition newer (p : t S) (tx : Transaction.t) : bool :=
  compareLt (Transaction.Lt tx) (lastProcessedLt p).

(** The condition of the backfill loop. *)
Definition hasGap (p : t S) (oldestTx : Transaction.t) : bool :=
  negb (bool_decide (Transaction.PrevTransLt oldestTx = EmptyString)) &&
  negb (bool_decide (Transaction.PrevTransLt oldestTx = "0")) &&
  compareLt (Transaction.PrevTransLt oldestTx) (lastProcessedLt p).

(** The loop that fetches older pages: [None] when [fuel] runs out, [Some None] when
    the poll gives up, else the transactions to process. *)
Fixpoint backfill (fuel : nat) (newTxs : list Transaction.t) (oldestTx : Transaction.t) :
    PM (option (option (list Transaction.t))) :=
  match fuel with
  | O => mret None
  | Datatypes.S fuel =>
      p ← poller;
      if negb (hasGap p oldestTx) then mret (Some (Some newTxs))
      else
        match ParseUint (Transaction.PrevTransLt oldestTx) with
        | None => mret (Some (Some newTxs))
        | Some prevLt =>
            r ← onNet (Client.GetTransactions (client p) PollBatchSize (Some prevLt)
                         (Some (Transaction.PrevTransHash oldestTx)));
            match r with
            | Err _ => _ ← update handleError; mret (Some None)
            | Ok [] => mret (Some (Some newTxs))
            | Ok backfilledTxs =>
                match List.filter (newer p) backfilledTxs with
                | [] => mret (Some (Some newTxs))
                | added =>
                    normalized ← onNet (normalizeTransactionsByLt (newTxs ++ added) true);
                    backfill fuel normalized.1 (List.hd oldestTx normalized.1)
                end
            end
        end
  end.

(** Process in order, stopping at the first failure: the last successful lt, and
    whether there was a failure. *)
Fixpoint process (txs : list Transaction.t) (lastSuccessfulLt : string) : PM (string * bool) :=
  match txs with
  | [] => mret (lastSuccessfulLt, false)
  | tx :: txs =>
      p ← poller;
      r ← onHandler (handler p tx);
      match r with
      | Err _ => mret (lastSuccessfulLt, true)
      | Ok _ =>
          if newer p tx then
            _ ← update (λ p, set_lastProcessedLt p (Transaction.Lt tx));
            process txs (Transaction.Lt tx)
          else process txs lastSuccessfulLt
      end
  end.

(** The part of [poll] after the transactions are collected. *)
Definition processAll (newTxs : list Transaction.t) : PM unit :=
  done ← process newTxs EmptyString;
  let '(lastSuccessfulLt, hasFailure) := done in
  p ← poller;
  _ ← match onLtUpdated p with
      | Some callback =>
          if bool_decide (lastSuccessfulLt = EmptyString) then mret tt
          else onHandler (callback lastSuccessfulLt)
      | None => mret tt
      end;
  update (adjustInterval (negb hasFailure)).

(** [n1.Cmp(n2) < 0], on the values as they are. *)
Definition olderFirst (x y : Transaction.t) : bool :=
  lt_value (Transaction.Lt x) <? lt_value (Transaction.Lt y).

(** One cycle; [None] when [fuel] runs out in the backfill loop. *)
Definition poll (fuel : nat) : PM (option unit) :=
  p ← poller;
  r ← onNet (Client.GetTransactions (client p) PollBatchSize None None);
  match r with
  | Err _ => _ ← update handleError; mret (Some tt)
  | Ok txs =>
      _ ← update (λ p, set_backoff p 0 BackoffInitial);
      normalized ← onNet (normalizeTransactionsByLt (List.filter (newer p) txs) true);
      match normalized.1 with
      | [] => _ ← update (adjustInterval false); mret (Some tt)
      | newTxs =>
          newTxs ← onNet (chance (λ n, sort_Slice n olderFirst newTxs));
          collected ←
            match newTxs with
            | oldestTx :: _ =>
                if bool_decide (lastProcessedLt p = "0") then mret (Some (Some newTxs))
                else backfill fuel newTxs oldestTx
            | [] => mret (Some (Some newTxs))
            end;
          match collected with
          | None => mret None
          | Some None => mret (Some tt)
          | Some (Some newTxs) => _ ← processAll newTxs; mret (Some tt)
          end
      end
  end.
End Poll.
Arguments PS S : clear implicits.
Arguments PM S A : clear implicits.
End Poller.
