(* ===== verification/PollerSpec.v ===== *)
(** * What the poller promises

    The pages of transactions are normalized to a sorted list without duplicates; the
    polling interval and the error backoff stay within their limits; and against a
    server that answers from one growing chain of transactions, a poll hands the
    transactions after its cursor to the handler in order, none skipped, and moves the
    cursor to the last one that was handled. *)
From S2P Require Import Prelude GoTypes Toncenter Poller.
From Stdlib Require Import Ascii.

(** ** Sorted lists *)

Lemma StronglySorted_impl_in {A} (P Q : A → A → Prop) l :
  (∀ x y, x ∈ l → y ∈ l → P x y → Q x y) → StronglySorted P l → StronglySorted Q l.
Proof.
  intros Himp Hl. induction Hl as [|x l Hl IH Hx]; [constructor|].
  constructor; [apply IH; set_solver|]. rewrite Forall_forall in Hx |- *.
  intros y Hy. apply Himp; [left|by right|auto].
Qed.

Section Sorted.
Context {A : Type} (f : A → Z).

Definition ascending (l : list A) : Prop := StronglySorted (λ x y, f x < f y) l.

Lemma ascending_app l k :
  ascending (l ++ k) ↔
  ascending l ∧ ascending k ∧ ∀ x y, x ∈ l → y ∈ k → f x < f y.
Proof.
  unfold ascending. rewrite StronglySorted_app. split; intros; destruct_and?; eauto.
Qed.

(** Two strictly ascending lists with the same elements are the same list. *)
Lemma ascending_unique l k :
  ascending l → ascending k → (∀ x, x ∈ l ↔ x ∈ k) → l = k.
Proof.
  unfold ascending. intros Hl. revert k. induction Hl as [|x l Hl IH Hx]; intros k Hk Heq.
  - destruct k as [|y k]; [done|]. exfalso. eapply not_elem_of_nil, Heq. left.
  - destruct Hk as [|y k Hk Hy]; [exfalso; eapply not_elem_of_nil, Heq; left|].
    rewrite Forall_forall in Hx, Hy.
    assert (x = y) as ->.
    { destruct (proj1 (elem_of_cons _ _ _) (proj1 (Heq x) (list_elem_of_here _ _)))
        as [|Hxk]; [done|].
      destruct (proj1 (elem_of_cons _ _ _) (proj2 (Heq y) (list_elem_of_here _ _)))
        as [|Hyl]; [done|].
      specialize (Hy _ Hxk). specialize (Hx _ Hyl). lia. }
    f_equal. apply IH; [done|]. intros z. specialize (Heq z). rewrite !elem_of_cons in Heq.
    split; intros Hz.
    + destruct (proj1 Heq (or_intror Hz)) as [->|]; [|done]. specialize (Hx _ Hz). lia.
    + destruct (proj2 Heq (or_intror Hz)) as [->|]; [|done]. specialize (Hy _ Hz). lia.
Qed.

(** In an ascending list the elements above a bound are a suffix. *)
Lemma ascending_filter l c :
  ascending l →
  ∃ pre, l = pre ++ List.filter (λ x, c <? f x) l ∧ ∀ x, x ∈ pre → f x ≤ c.
Proof.
  induction 1 as [|x l Hl (pre & Heq & Hpre) Hx]; simpl.
  { exists []. split; [done|]. intros x Hx. by apply not_elem_of_nil in Hx. }
  destruct (c <? f x) eqn:E.
  - exists []. split; [|intros y Hy; by apply not_elem_of_nil in Hy].
    simpl. f_equal. symmetry. apply forallb_filter_id, forallb_forall.
    intros y Hy%list_elem_of_In. rewrite Forall_forall in Hx. specialize (Hx _ Hy).
    apply Z.ltb_lt in E. apply Z.ltb_lt. lia.
  - exists (x :: pre). split; [simpl; by f_equal|].
    intros y [->|Hy]%elem_of_cons; [apply Z.ltb_ge in E; lia|auto].
Qed.
End Sorted.

(** ** The order of [sortTransactionsByLt] *)

Lemma ascii_compare_N (a b : ascii) : Ascii.compare a b = N.compare (N_of_ascii a) (N_of_ascii b).
Proof. done. Qed.

Lemma string_compare_trans s1 s2 s3 :
  String.compare s1 s2 ≠ Gt → String.compare s2 s3 ≠ Gt → String.compare s1 s3 ≠ Gt.
Proof.
  revert s2 s3. induction s1 as [|a s1 IH]; intros [|b s2] [|c s3]; simpl; try done.
  rewrite !ascii_compare_N.
  destruct (N.compare_spec (N_of_ascii a) (N_of_ascii b)) as [E1|E1|E1],
    (N.compare_spec (N_of_ascii b) (N_of_ascii c)) as [E2|E2|E2],
    (N.compare_spec (N_of_ascii a) (N_of_ascii c)) as [E3|E3|E3];
    try done; try lia; eauto.
Qed.

Lemma ltb_false_trans x y z :
  String.ltb y x = false → String.ltb z y = false → String.ltb z x = false.
Proof.
  unfold String.ltb. rewrite (String.compare_antisym y x), (String.compare_antisym z y),
    (String.compare_antisym z x). pose proof (string_compare_trans x y z).
  destruct (String.compare x y), (String.compare y z), (String.compare x z); naive_solver.
Qed.

Lemma ltb_asym x y : String.ltb x y = true → String.ltb y x = false.
Proof.
  unfold String.ltb. rewrite (String.compare_antisym y x). by destruct (String.compare x y).
Qed.

Section Spec.
Context `{CE : ClientEnv}.

(** The value of a transaction's logical time, as it is compared. *)
Definition lt_of (tx : Transaction.t) : Z := lt_value (normalizeLt (Transaction.Lt tx)).

Lemma compareLt_spec lt1 lt2 :
  compareLt lt1 lt2 = true ↔ lt_value (normalizeLt lt2) < lt_value (normalizeLt lt1).
Proof.
  unfold compareLt, compareLtValues.
  destruct (Z.compare_spec (lt_value (normalizeLt lt1)) (lt_value (normalizeLt lt2)));
    split; try done; lia.
Qed.

Lemma lessByLt_spec asc x y :
  lessByLt asc x y = true ↔
  (if asc then lt_of x < lt_of y else lt_of y < lt_of x) ∨
  lt_of x = lt_of y ∧ String.ltb (Transaction.Hash x) (Transaction.Hash y) = true.
Proof.
  unfold lessByLt, compareLtValues. fold (lt_of x) (lt_of y).
  destruct (Z.compare_spec (lt_of x) (lt_of y)), asc; simpl;
    (split; [|intros [|[??]]]); intros; try done; try lia; auto with lia.
Qed.

Lemma lessByLt_weak asc : strict_weak (lessByLt asc).
Proof.
  split.
  - intros x y Hxy. apply not_true_iff_false. rewrite lessByLt_spec. apply lessByLt_spec in Hxy.
    pose proof (ltb_asym (Transaction.Hash x) (Transaction.Hash y)).
    intros Hyx. destruct asc, Hxy as [|[? Hh]], Hyx as [|[? Hh']]; try lia;
      rewrite H in Hh' by done; done.
  - intros x y z. rewrite <-!not_true_iff_false, !lessByLt_spec. intros Hyx Hzy Hzx.
    pose proof (ltb_false_trans (Transaction.Hash x) (Transaction.Hash y)
      (Transaction.Hash z)) as Ht. rewrite <-!not_true_iff_false in Ht.
    apply Decidable.not_or in Hyx as [Hyx Hyx'], Hzy as [Hzy Hzy'].
    destruct Hzx as [|[Heq Hlt]]; [destruct asc; lia|].
    assert (lt_of y = lt_of x ∧ lt_of z = lt_of y) as [??] by (destruct asc; lia).
    apply Ht in Hlt; tauto.
Qed.

(** ** Normalization *)

Notation key := transactionDedupKey.

Lemma uniqueTxs_spec seen txs :
  let u := (uniqueTxs seen txs).1 in
  (∀ x, x ∈ u → x ∈ txs ∧ key x ∉ seen) ∧
  (∀ x, x ∈ txs → key x ∈ seen ∨ ∃ y, y ∈ u ∧ key y = key x) ∧
  NoDup (key <$> u) ∧
  (uniqueTxs seen txs).2 = Z.of_nat (length txs) - Z.of_nat (length u).
Proof.
  revert seen. induction txs as [|tx txs IH]; intros seen; simpl.
  { split_and!; [intros x Hx; by apply not_elem_of_nil in Hx..|constructor|done]. }
  case_bool_decide as Hseen.
  - specialize (IH seen). destruct (uniqueTxs seen txs) as [u d]. simpl in *.
    destruct IH as (Hsub & Hcov & Hnd & Hd). split_and!; [|..|done|lia].
    + intros x Hx. rewrite elem_of_cons. naive_solver.
    + intros x [->|Hx]%elem_of_cons; auto.
  - specialize (IH (key tx :: seen)). destruct (uniqueTxs (key tx :: seen) txs) as [u d].
    simpl in *. destruct IH as (Hsub & Hcov & Hnd & Hd). split_and!; [| | |lia].
    + intros x [->|Hx]%elem_of_cons; rewrite elem_of_cons; [auto|].
      apply Hsub in Hx as [Hx Hk]. apply not_elem_of_cons in Hk. tauto.
    + intros x Hx.
      assert (key x = key tx ∨ key x ∈ seen ∨ ∃ y, y ∈ u ∧ key y = key x) as Hk.
      { apply elem_of_cons in Hx as [->|Hx]; [auto|].
        destruct (Hcov x Hx) as [Hk|]; [apply elem_of_cons in Hk; tauto|tauto]. }
      destruct Hk as [Hk|[Hk|(y & Hy & Hk)]]; [right; exists tx|by left|right; exists y];
        by rewrite elem_of_cons; auto.
    + constructor; [|done]. rewrite list_elem_of_fmap. intros (x & Hk & Hx).
      apply Hsub in Hx as [_ Hx]. rewrite <-Hk in Hx. apply Hx. left.
Qed.

(** What normalizing makes of a page. *)
Record normalized (asc : bool) (txs l : list Transaction.t) (dropped : Z) : Prop := {
  normalized_sub x : x ∈ l → x ∈ txs;
  normalized_cover x : x ∈ txs → ∃ y, y ∈ l ∧ key y = key x;
  normalized_nodup : NoDup (key <$> l);
  normalized_ordered : ordered (lessByLt asc) l;
  normalized_dropped : dropped = Z.of_nat (length txs) - Z.of_nat (length l) }.

Context `{CL : !ClientLaws CE}.

Lemma wp_normalize txs asc (Q : list Transaction.t * Z → Net → Prop) net :
  (∀ l d n, normalized asc txs l d → Q (l, d) (mkNet (calls net) n)) →
  wp (normalizeTransactionsByLt txs asc) Q net.
Proof.
  intros HQ. unfold normalizeTransactionsByLt. destruct txs as [|tx txs].
  { destruct net as [c n]. apply HQ. split; simpl; [done| |constructor|constructor|lia].
    intros x Hx. by apply not_elem_of_nil in Hx. }
  pose proof (uniqueTxs_spec [] (tx :: txs)) as Hu.
  destruct (uniqueTxs [] (tx :: txs)) as [u d]. cbn [fst snd] in Hu.
  destruct Hu as (Hsub & Hcov & Hnd & ->).
  unfold wp, sortTransactionsByLt, chance, mbind, ST_bind, mret, ST_ret.
  cbn [fst snd calls chances]. apply HQ.
  set (l := sort_Slice _ _ _).
  assert (l ≡ₚ u) as Hl by (unfold l; by rewrite sort_perm, mapOrder_perm).
  split.
  - intros x. rewrite Hl. apply Hsub.
  - intros x Hx. destruct (Hcov x Hx) as [Hk|(y & Hy & Hk)]; [by apply not_elem_of_nil in Hk|].
    exists y. by rewrite Hl.
  - by rewrite Hl.
  - apply sort_ordered, lessByLt_weak.
  - by rewrite Hl.
Qed.

Lemma wp_GetTransactions c limit lt hash (Q : result (list Transaction.t) → Net → Prop) net :
  (∀ e n, Q (Err e) (mkNet (S (calls net)) n)) →
  (∀ txs l d n, Client.fetch c (calls net) limit lt hash = Ok txs →
     normalized false txs l d → Q (Ok l) (mkNet (S (calls net)) n)) →
  wp (Client.GetTransactions c limit lt hash) Q net.
Proof.
  intros Herr Hok. unfold Client.GetTransactions. apply wp_bind, wp_gets, wp_bind, wp_modify.
  destruct (breakerRefuses (calls net)); [apply wp_ret, Herr|]. apply wp_bind.
  unfold Client.doGetTransactions. destruct (Client.fetch c _ limit lt hash) as [txs|e] eqn:Hf.
  - apply wp_bind, wp_normalize. intros l d n Hl. apply wp_ret, wp_ret. simpl. eauto.
  - apply wp_ret, wp_ret, Herr.
Qed.

(** ** A chain of transactions *)

(** The transactions of one account: logical times are positive decimal numbers, they
    ascend, and every transaction links to the one before it. *)
Record chain_ok (chain : list Transaction.t) : Prop := {
  chain_lt tx : tx ∈ chain → ∃ z, ParseUint (Transaction.Lt tx) = Some z ∧ 0 < z;
  chain_asc : ascending lt_of chain;
  chain_first tx : head chain = Some tx → Transaction.PrevTransLt tx = "0";
  chain_link pre a b post : chain = pre ++ a :: b :: post →
    Transaction.PrevTransLt b = Transaction.Lt a ∧
    Transaction.PrevTransHash b = Transaction.Hash a }.

Lemma digit_byte c :
  is_digit c = true → byte_eqb c "-"%char = false ∧ byte_eqb c "+"%char = false ∧
  c ≠ "000"%char.
Proof.
  intros Hc. unfold byte_eqb. rewrite !bool_decide_eq_false.
  split_and!; intros ->; vm_compute in Hc; done.
Qed.

Lemma parse_digits_all acc l z : parse_digits acc l = Some z → forallb is_digit l = true.
Proof.
  revert acc. induction l as [|c l IH]; intros acc; simpl; [done|].
  destruct (is_digit c); [|done]. apply IH.
Qed.

(** A number [ParseUint] reads is the value the comparisons use. *)
Lemma ParseUint_digits lt z :
  ParseUint lt = Some z →
  lt ≠ EmptyString ∧ forallb is_digit (bytes lt) = true ∧ lt_value (normalizeLt lt) = z.
Proof.
  unfold ParseUint, parse_nat. intros Hp.
  destruct (bytes lt) as [|c l] eqn:Hb; [done|].
  destruct (parse_digits 0 (c :: l)) as [z'|] eqn:Hd; [|done].
  destruct (z' <? 2 ^ 64); [|done]. injection Hp as ->.
  pose proof (parse_digits_all _ _ _ Hd) as Hall.
  assert (lt ≠ EmptyString) as Hne by (intros ->; done). split_and!; [done..|].
  unfold normalizeLt. rewrite bool_decide_eq_false_2 by done.
  unfold lt_value, parse_signed, parse_nat. rewrite Hb.
  simpl in Hall. apply andb_true_iff in Hall as [Hc _].
  destruct (digit_byte _ Hc) as (-> & -> & _). by rewrite Hd.
Qed.

Lemma digits_app_inj (a b h k : list ascii) :
  forallb is_digit a = true → forallb is_digit b = true →
  a ++ "000"%char :: h = b ++ "000"%char :: k → a = b.
Proof.
  revert b. induction a as [|x a IH]; intros [|y b]; simpl;
    rewrite ?andb_true_iff; intros Ha Hb Heq; [done| | |].
  - injection Heq as <- _. by destruct Hb.
  - injection Heq as -> _. by destruct Ha.
  - injection Heq as -> Heq. f_equal. eapply IH; [apply Ha|apply Hb|exact Heq].
Qed.

Lemma bytes_inj s t : bytes s = bytes t → s = t.
Proof.
  intros H. rewrite <-(String.string_of_list_ascii_of_string s), <-(String.string_of_list_ascii_of_string t).
  unfold bytes in H. by rewrite H.
Qed.

Section Chain.
Context (chain : list Transaction.t) (HC : chain_ok chain).

Lemma chain_digits tx :
  tx ∈ chain → Transaction.Lt tx ≠ EmptyString ∧
  forallb is_digit (bytes (Transaction.Lt tx)) = true ∧
  ParseUint (Transaction.Lt tx) = Some (lt_of tx) ∧ 0 < lt_of tx.
Proof.
  intros Htx. destruct (chain_lt _ HC tx Htx) as (z & Hz & Hpos).
  destruct (ParseUint_digits _ _ Hz) as (Hne & Hd & Hv).
  split_and!; [done|done| |]; unfold lt_of; by rewrite Hv.
Qed.

Lemma chain_key_lt x y : x ∈ chain → y ∈ chain → key x = key y → lt_of x = lt_of y.
Proof.
  intros Hx Hy Hk. destruct (chain_digits x Hx) as (Hx0 & Hxd & _).
  destruct (chain_digits y Hy) as (Hy0 & Hyd & _).
  unfold key, normalizeLt in Hk. rewrite !bool_decide_eq_false_2 in Hk by done.
  apply (f_equal bytes) in Hk. rewrite !bytes_app in Hk. simpl in Hk.
  apply digits_app_inj in Hk; [|done..]. unfold lt_of. by rewrite (bytes_inj _ _ Hk).
Qed.

Lemma chain_lt_inj x y : x ∈ chain → y ∈ chain → lt_of x = lt_of y → x = y.
Proof.
  intros Hx Hy Heq. pose proof (chain_asc _ HC) as Hasc.
  apply list_elem_of_split in Hx as (l1 & l2 & E). rewrite E in Hy, Hasc.
  apply ascending_app in Hasc as (_ & Hasc & H1). inversion_clear Hasc as [|? ? _ H2].
  rewrite Forall_forall in H2. apply elem_of_app in Hy as [Hy|[->|Hy]%elem_of_cons]; [|done|].
  - specialize (H1 _ _ Hy (list_elem_of_here _ _)). lia.
  - specialize (H2 _ Hy). lia.
Qed.

Lemma chain_key_inj x y : x ∈ chain → y ∈ chain → key x = key y → x = y.
Proof. eauto using chain_lt_inj, chain_key_lt. Qed.

Lemma chain_strictly l :
  l ⊆ chain → NoDup l → StronglySorted (λ x y, lt_of x ≤ lt_of y) l → ascending lt_of l.
Proof.
  intros Hsub Hnd Hl. induction Hl as [|x l Hl IH Hx]; [constructor|].
  apply NoDup_cons in Hnd as [Hk Hnd]. constructor; [apply IH; set_solver|].
  rewrite Forall_forall in Hx |- *. intros y Hy. specialize (Hx y Hy).
  assert (lt_of x ≠ lt_of y); [|lia]. intros Heq. apply Hk.
  rewrite (chain_lt_inj x y); set_solver.
Qed.

(** Transactions of the chain, normalized in ascending order, are a segment of it when
    they were one before. *)
Lemma normalized_chain txs seg l d :
  normalized true txs l d → seg ⊆ chain → ascending lt_of seg →
  (∀ x, x ∈ txs ↔ x ∈ seg) → l = seg.
Proof.
  intros Hn Hsub Hasc Htxs.
  assert (∀ x, x ∈ l → x ∈ chain) as Hl.
  { intros x Hx. apply Hsub, Htxs. by eapply normalized_sub. }
  apply (ascending_unique lt_of); [|done|].
  - apply chain_strictly; [exact Hl|by eapply NoDup_fmap_1, normalized_nodup|].
    eapply StronglySorted_impl_in; [|by eapply normalized_ordered]. intros x y _ _ Hyx.
    apply not_true_iff_false in Hyx. rewrite lessByLt_spec in Hyx. lia.
  - intros x. rewrite <-Htxs. split; [by eapply normalized_sub|]. intros Hx.
    destruct (normalized_cover _ _ _ _ Hn x Hx) as (y & Hy & Hk).
    replace x with y; [done|]. apply chain_key_inj; auto. by apply Hsub, Htxs.
Qed.

Lemma normalized_elements asc txs l d :
  normalized asc txs l d → (∀ x, x ∈ txs → x ∈ chain) → ∀ x, x ∈ l ↔ x ∈ txs.
Proof.
  intros Hn Hin x. split; [by eapply normalized_sub|]. intros Hx.
  destruct (normalized_cover _ _ _ _ Hn x Hx) as (y & Hy & Hk).
  replace x with y; [done|]. apply chain_key_inj; auto. apply Hin. by eapply normalized_sub.
Qed.
End Chain.

(** ** The server *)

(** A server that answers from one growing chain, [chain n] at the [n]-th call: the page
    of newest transactions is an end of it, and the page up to a transaction is the
    part of it that ends there. *)
Record honest (c : Client.t) (chain : nat → list Transaction.t) : Prop := {
  honest_grows n : chain n `prefix_of` chain (S n);
  honest_ok n : chain_ok (chain n);
  honest_newest n txs : Client.fetch c n Poller.PollBatchSize None None = Ok txs →
    ∃ pre page, chain n = pre ++ page ∧ (∀ x, x ∈ txs ↔ x ∈ page) ∧ (page = [] → pre = []);
  honest_older n txs tx : tx ∈ chain n →
    Client.fetch c n Poller.PollBatchSize (Some (lt_of tx)) (Some (Transaction.Hash tx)) = Ok txs →
    ∃ pre page post, chain n = pre ++ page ++ tx :: post ∧
      (∀ x, x ∈ txs ↔ x ∈ page ++ [tx]) }.

(** Where a list of transactions sits in the chain: those after it are newer, those
    before it are not after the cursor [cz]. *)
Record collected (cz : Z) (chain pre seg post : list Transaction.t) : Prop := {
  collected_chain : chain = pre ++ seg ++ post;
  collected_new x : x ∈ seg → cz < lt_of x }.

Section Segments.
Context (chain : list Transaction.t) (HC : chain_ok chain).

Lemma chain_split_unique l x k l' k' :
  chain = l ++ x :: k → chain = l' ++ x :: k' → l = l'.
Proof.
  intros H1 H2. pose proof (chain_asc _ HC) as Hasc. rewrite H1 in Hasc.
  rewrite H1 in H2. clear H1. revert l' H2. induction l as [|y l IH]; intros [|y' l'] Heq;
    [done| | |]; simplify_eq/=.
  - apply ascending_app with (l := [y']) in Hasc as (_ & _ & Hlt).
    assert (y' ∈ l' ++ y' :: k') as Hin by set_solver.
    specialize (Hlt y' y' (list_elem_of_here _ _) Hin). lia.
  - apply ascending_app with (l := x :: l) in Hasc as (_ & _ & Hlt).
    specialize (Hlt x x (list_elem_of_here _ _) (list_elem_of_here _ _)). lia.
  - f_equal. apply IH; [|done]. by inversion_clear Hasc.
Qed.

Lemma chain_segment pre seg post : chain = pre ++ seg ++ post → ascending lt_of seg ∧ seg ⊆ chain.
Proof.
  intros E. pose proof (chain_asc _ HC) as Hasc. rewrite E in Hasc.
  apply ascending_app in Hasc as (_ & Hasc & _). apply ascending_app in Hasc as (Hasc & _ & _).
  split; [done|]. rewrite E. set_solver.
Qed.
End Segments.

Section Cursor.
Context {S : Type} (p : Poller.t S).

Definition cursor : Z := lt_value (normalizeLt (Poller.lastProcessedLt p)).

Lemma newer_spec tx : Poller.newer p tx = true ↔ cursor < lt_of tx.
Proof. apply compareLt_spec. Qed.

Lemma elem_of_newer tx txs :
  tx ∈ List.filter (Poller.newer p) txs ↔ tx ∈ txs ∧ cursor < lt_of tx.
Proof. by rewrite !list_elem_of_In, filter_In, newer_spec. Qed.

(** The transaction a gap points to. *)
Lemma hasGap_true chain pre old post :
  chain_ok chain → chain = pre ++ old :: post → Poller.hasGap p old = true →
  ∃ pre0 prev, pre = pre0 ++ [prev] ∧ cursor < lt_of prev ∧
    Transaction.PrevTransLt old = Transaction.Lt prev ∧
    Transaction.PrevTransHash old = Transaction.Hash prev.
Proof.
  intros HC E Hgap. unfold Poller.hasGap in Hgap.
  apply andb_true_iff in Hgap as [[_ Hz]%andb_true_iff Hgt].
  apply negb_true_iff, bool_decide_eq_false in Hz. apply compareLt_spec in Hgt.
  destruct pre as [|prev pre0 _] using rev_ind.
  { exfalso. apply Hz. apply (chain_first _ HC). by rewrite E. }
  rewrite <-app_assoc in E. destruct (chain_link _ HC _ _ _ _ E) as [Hlt Hhash].
  exists pre0, prev. rewrite Hlt in Hgt. done.
Qed.

Lemma hasGap_false chain pre old post :
  chain_ok chain → chain = pre ++ old :: post → Poller.hasGap p old = false →
  ∀ x, x ∈ pre → lt_of x ≤ cursor.
Proof.
  intros HC E Hgap. destruct pre as [|prev pre0 _] using rev_ind.
  { intros x Hx. by apply not_elem_of_nil in Hx. }
  pose proof E as E'. rewrite <-app_assoc in E'.
  destruct (chain_link _ HC _ _ _ _ E') as [Hlt _].
  assert (prev ∈ chain) as Hin by (rewrite E; set_solver).
  destruct (chain_digits _ HC _ Hin) as (Hne & _ & Hp & Hpos).
  assert (lt_of prev ≤ cursor) as Hle.
  { unfold Poller.hasGap in Hgap. rewrite Hlt in Hgap.
    rewrite bool_decide_eq_false_2 in Hgap by done.
    rewrite bool_decide_eq_false_2 in Hgap; simpl in Hgap.
    - apply Z.nlt_ge. intros Hgt. apply not_true_iff_false in Hgap.
      apply Hgap, compareLt_spec, Hgt.
    - intros H0. rewrite H0 in Hp. change (ParseUint "0") with (Some 0) in Hp.
      injection Hp. lia. }
  pose proof (chain_asc _ HC) as Hasc. rewrite E in Hasc.
  apply ascending_app in Hasc as (Hasc & _ & _). apply ascending_app in Hasc as (_ & _ & Hasc).
  intros x [Hx|Hx]%elem_of_app.
  - specialize (Hasc _ _ Hx (list_elem_of_here _ _)). lia.
  - apply list_elem_of_singleton in Hx as ->. done.
Qed.
End Cursor.

(** ** The backfill loop *)

#[local] Arguments normalizeTransactionsByLt : simpl never.
#[local] Arguments Client.GetTransactions : simpl never.

Section Poll.
Context {S : Type} (c : Client.t) (chain : nat → list Transaction.t) (HH : honest c chain).

Lemma wp_onNet {A} (m : ST Net A) (Q : A → Poller.PS S → Prop) p net s :
  wp m (λ a net', Q a (p, (net', s))) net → wp (Poller.onNet m) Q (p, (net, s)).
Proof. intros H. apply wp_zoom. exact H. Qed.

Lemma wp_chance {A} (f : nat → A) (Q : A → Net → Prop) net :
  Q (f (chances net)) (mkNet (calls net) (Datatypes.S (chances net))) → wp (chance f) Q net.
Proof. done. Qed.

(** What was collected stays a segment when the chain grows. *)
Lemma collected_grows cz n pre seg post :
  collected cz (chain n) pre seg post →
  ∃ post', collected cz (chain (Datatypes.S n)) pre seg post'.
Proof.
  intros [E Hnew]. destruct (honest_grows _ _ HH n) as [more E'].
  exists (post ++ more). split; [|done]. by rewrite E', E, <-!app_assoc.
Qed.

(** One older page extends the segment to the left, by its last transaction at least. *)
Lemma older_page (p : Poller.t S) n txs l dropped pre0 prev seg post :
  let cz := cursor p in
  collected cz (chain n) (pre0 ++ [prev]) seg post → cz < lt_of prev →
  Client.fetch c n Poller.PollBatchSize (Some (lt_of prev)) (Some (Transaction.Hash prev))
    = Ok txs →
  normalized false txs l dropped →
  ∃ pre' ext, collected cz (chain n) pre' (ext ++ prev :: seg) post ∧
    (∀ x, x ∈ List.filter (Poller.newer p) l ↔ x ∈ ext ++ [prev]) ∧
    (length pre' ≤ length pre0)%nat.
Proof.
  intros cz [E Hnew] Hprev Hf Hl. pose proof (honest_ok _ _ HH n) as HC.
  assert (prev ∈ chain n) as Hin by (rewrite E; set_solver).
  destruct (honest_older _ _ HH _ _ _ Hin Hf) as (pre1 & page & post1 & E1 & Htxs).
  assert (pre0 = pre1 ++ page) as Hpre0.
  { eapply (chain_split_unique _ HC); [by rewrite E, <-app_assoc|by rewrite E1, app_assoc]. }
  assert (ascending lt_of page) as Hpage.
  { eapply (chain_segment _ HC pre1 page); exact E1. }
  destruct (ascending_filter lt_of page cz Hpage) as (low & Epage & Hlow).
  set (ext := List.filter (λ x, cz <? lt_of x) page) in *.
  assert (∀ x, x ∈ ext ↔ x ∈ page ∧ cz < lt_of x) as Hext.
  { intros x. unfold ext. by rewrite !list_elem_of_In, filter_In, Z.ltb_lt. }
  assert (∀ x, x ∈ l ↔ x ∈ page ++ [prev]) as Hlm.
  { intros x. rewrite <-Htxs. eapply (normalized_elements _ HC); [done|].
    intros y Hy%Htxs. rewrite E1. set_solver. }
  exists (pre1 ++ low), ext. split_and!.
  - split.
    + rewrite E, Hpre0, Epage. rewrite <- ?app_assoc. simpl. by rewrite <- ?app_assoc.
    + intros x [Hx|Hx]%elem_of_app; [by apply Hext|].
      apply elem_of_cons in Hx as [->|Hx]; [done|auto].
  - intros x. rewrite elem_of_newer, Hlm, !elem_of_app, Hext, list_elem_of_singleton.
    fold cz. naive_solver.
  - rewrite Hpre0, Epage, !length_app. lia.
Qed.

(** What the loop leaves: it collected everything after the cursor, or it gave up. *)
Definition backfilled (fuel : nat) (pre : list Transaction.t) (p : Poller.t S) (s : S) (n : nat)
    (r : option (option (list Transaction.t))) (st : Poller.PS S) : Prop :=
  ∃ net', st.2 = (net', s) ∧ (n ≤ calls net')%nat ∧
  match r with
  | Some (Some seg) => st.1 = p ∧ ∃ pre post,
      collected (cursor p) (chain (calls net')) pre seg post ∧
      (∀ x, x ∈ pre → lt_of x ≤ cursor p) ∧ seg ≠ []
  | Some None => st.1 = Poller.handleError p
  | None => (fuel ≤ length pre)%nat
  end.

Lemma wp_backfill fuel p net s pre newTxs post old seg :
  Poller.client p = c → newTxs = old :: seg →
  collected (cursor p) (chain (calls net)) pre newTxs post →
  wp (Poller.backfill fuel newTxs old) (backfilled fuel pre p s (calls net)) (p, (net, s)).
Proof.
  intros Hc. revert pre net newTxs seg post old.
  induction fuel as [|fuel IH]; intros pre net newTxs seg post old -> Hcol.
  { apply wp_ret. exists net. split_and!; [done..|lia]. }
  pose proof (honest_ok _ _ HH (calls net)) as HC. simpl. apply wp_bind, wp_gets. simpl.
  destruct (Poller.hasGap p old) eqn:Hgap; simpl.
  2: { apply wp_ret. exists net. split_and!; [done|lia|done|]. exists pre, post.
       split_and!; [done| |done]. eapply hasGap_false; [done| |done]. apply Hcol. }
  destruct (hasGap_true p _ _ _ _ HC (collected_chain _ _ _ _ _ Hcol) Hgap)
    as (pre0 & prev & -> & Hprev & Hlt & Hhash).
  assert (prev ∈ chain (calls net)) as Hin.
  { rewrite (collected_chain _ _ _ _ _ Hcol). set_solver. }
  destruct (chain_digits _ HC _ Hin) as (_ & _ & Hparse & _).
  rewrite Hlt, Hhash, Hparse, Hc. apply wp_bind, wp_onNet, wp_GetTransactions.
  { intros e n. apply wp_bind, wp_modify, wp_ret. eexists. split_and!; [done|simpl; lia|done]. }
  intros txs l d n Hf Hl. cbn beta iota.
  destruct (older_page p _ _ _ _ _ _ _ _ Hcol Hprev Hf Hl)
    as (pre' & ext & Hcol' & Hadd & Hlen).
  assert (prev ∈ List.filter (Poller.newer p) l) as Hne by (apply Hadd; set_solver).
  destruct l as [|x0 l0]; [by apply not_elem_of_nil in Hne|].
  set (l := x0 :: l0) in *. clearbody l.
  destruct (List.filter (Poller.newer p) l) as [|x1 l1] eqn:El;
    [by apply not_elem_of_nil in Hne|].
  apply wp_bind, wp_onNet, wp_normalize. intros l' d' n' Hl'. cbn [fst].
  destruct (collected_grows _ _ _ _ _ Hcol') as [post' Hcol''].
  assert (l' = ext ++ prev :: old :: seg) as ->.
  { eapply (normalized_chain _ HC); [exact Hl'|..].
    - rewrite (collected_chain _ _ _ _ _ Hcol'). set_solver.
    - eapply (chain_segment _ HC). apply Hcol'.
    - intros x. rewrite elem_of_cons, elem_of_app, Hadd. set_solver. }
  assert (∃ tl, ext ++ prev :: old :: seg = List.hd old (ext ++ prev :: old :: seg) :: tl)
    as [tl Htl] by (destruct ext; simpl; eauto).
  eapply wp_mono; [eapply (IH pre'); [exact Htl|exact Hcol'']|].
  intros r st (net' & Hst & Hle & Hr). exists net'. split_and!; [done|simpl in Hle; lia|].
  destruct r as [[?|]|]; [done..|]. rewrite length_app. simpl. lia.
Qed.

(** ** Processing *)

(** A run of the handler over transactions it accepts. *)
Inductive Handled (h : EventHandler S) : S → list Transaction.t → S → Prop :=
| handled_nil s : Handled h s [] s
| handled_cons s tx s1 txs s2 :
    h tx s = (Ok tt, s1) → Handled h s1 txs s2 → Handled h s (tx :: txs) s2.

(** What is left when the handler is done with all or refuses one. *)
Inductive Stopped (h : EventHandler S) : list Transaction.t → S → S → bool → Prop :=
| stopped_done s : Stopped h [] s s false
| stopped_failed tx txs s e s' : h tx s = (Err e, s') → Stopped h (tx :: txs) s s' true.

(** The cursor after a run of successes. *)
Definition advance (lt : string) (seg : list Transaction.t) : string :=
  match last seg with Some tx => Transaction.Lt tx | None => lt end.

Lemma advance_cons lt tx seg : advance lt (tx :: seg) = advance (Transaction.Lt tx) seg.
Proof. unfold advance. rewrite last_cons. by destruct (last seg). Qed.

Lemma advance_app lt l k : advance lt (l ++ k) = advance (advance lt l) k.
Proof. unfold advance. rewrite last_app. by destruct (last k). Qed.

Lemma wp_process txs acc p net s :
  ascending lt_of txs → (∀ x, x ∈ txs → cursor p < lt_of x) →
  wp (Poller.process txs acc)
    (λ r st, ∃ seg rest s1 s2, txs = seg ++ rest ∧ Handled (Poller.handler p) s seg s1 ∧
       Stopped (Poller.handler p) rest s1 s2 r.2 ∧ r.1 = advance acc seg ∧
       st = (Poller.set_lastProcessedLt p (advance (Poller.lastProcessedLt p) seg), (net, s2)))
    (p, (net, s)).
Proof.
  intros Hasc. revert acc p s. induction Hasc as [|tx txs Hasc IH Htx]; intros acc p s Hnew.
  { apply wp_ret. exists [], [], s, s. split_and!; [done|constructor|constructor|done|].
    by destruct p. }
  simpl. apply wp_bind, wp_gets. simpl. apply wp_bind, wp_zoom. simpl. unfold wp at 1.
  destruct (Poller.handler p tx s) as [[[]|e] s1] eqn:Hh; simpl.
  2: { apply wp_ret. exists [], (tx :: txs), s, s1.
       split_and!; [done|constructor|by econstructor|done|by destruct p]. }
  rewrite (proj2 (newer_spec p tx)) by (apply Hnew; left).
  apply wp_bind, wp_modify. simpl.
  eapply wp_mono; [apply IH|].
  - intros x Hx. rewrite Forall_forall in Htx. exact (Htx _ Hx).
  - intros r st (seg & rest & s2 & s3 & -> & Hrun & Hstop & Hr & ->).
    exists (tx :: seg), rest, s2, s3. split_and!; [done|by econstructor|done| |].
    + by rewrite advance_cons.
    + by rewrite advance_cons.
Qed.

Definition called_back (p : Poller.t S) (seg : list Transaction.t) (s : S) : S :=
  match Poller.onLtUpdated p, last seg with
  | Some callback, Some tx => (callback (Transaction.Lt tx) s).2
  | _, _ => s
  end.

(** The fields a poll leaves alone. *)
Record wired (p p' : Poller.t S) : Prop := {
  wired_client : Poller.client p' = Poller.client p;
  wired_handler : Poller.handler p' = Poller.handler p;
  wired_callback : Poller.onLtUpdated p' = Poller.onLtUpdated p }.

(** What one poll does, when the chain is [ch] at its end: nothing that matters, or the
    transactions that follow the cursor are handled in order up to a failure. *)
Inductive polled (p : Poller.t S) (s : S) (ch : list Transaction.t) :
    Poller.t S → S → Prop :=
| polled_idle p' :
    Poller.lastProcessedLt p' = Poller.lastProcessedLt p → polled p s ch p' s
| polled_run p' pre seg rest post s1 s2 failed :
    collected (cursor p) ch pre (seg ++ rest) post →
    (∀ x, x ∈ pre → lt_of x ≤ cursor p) →
    Handled (Poller.handler p) s seg s1 →
    Stopped (Poller.handler p) rest s1 s2 failed →
    Poller.lastProcessedLt p' = advance (Poller.lastProcessedLt p) seg →
    polled p s ch p' (called_back p seg s2).

Lemma wp_processAll p net s pre seg post ch :
  chain_ok ch → collected (cursor p) ch pre seg post →
  (∀ x, x ∈ pre → lt_of x ≤ cursor p) →
  wp (Poller.processAll seg)
    (λ _ st, wired p st.1 ∧ st.2.1 = net ∧ polled p s ch st.1 st.2.2) (p, (net, s)).
Proof.
  intros HC Hcol Hpre. pose proof (collected_chain _ _ _ _ _ Hcol) as E.
  destruct (chain_segment _ HC _ _ _ E) as [Hasc Hsub].
  unfold Poller.processAll. apply wp_bind. eapply wp_mono.
  { apply wp_process; [done|apply Hcol]. }
  intros [lt failed] st (done & rest & s1 & s2 & -> & Hrun & Hstop & Hlt & ->).
  simpl in *. subst lt. apply wp_bind, wp_gets. simpl. apply wp_bind.
  enough (wp (match Poller.onLtUpdated p with
              | Some callback =>
                  if bool_decide (advance EmptyString done = EmptyString) then mret tt
                  else Poller.onHandler (callback (advance EmptyString done))
              | None => mret tt
              end)
            (λ _ st, st = (Poller.set_lastProcessedLt p
               (advance (Poller.lastProcessedLt p) done), (net, called_back p done s2)))
            (Poller.set_lastProcessedLt p (advance (Poller.lastProcessedLt p) done), (net, s2)))
    as Hcb.
  { eapply wp_mono; [exact Hcb|]. intros _ st ->. apply wp_modify. simpl.
    split_and!; [done|done|]. by eapply polled_run. }
  unfold called_back. destruct (Poller.onLtUpdated p) as [callback|]; [|by apply wp_ret].
  unfold advance. destruct (last done) as [tx|] eqn:Hlast; [|by apply wp_ret].
  apply last_Some_elem_of in Hlast.
  destruct (chain_digits _ HC tx) as (Hne & _); [apply Hsub, elem_of_app; by left|].
  rewrite bool_decide_eq_false_2 by done. apply wp_zoom. done.
Qed.

(** The second sort of [poll] finds the transactions in order. *)
Lemma sort_again n ch pre seg post :
  chain_ok ch → ch = pre ++ seg ++ post → sort_Slice n Poller.olderFirst seg = seg.
Proof.
  intros HC E. destruct (chain_segment _ HC _ _ _ E) as [Hasc Hsub].
  assert (∀ x, x ∈ seg → lt_value (Transaction.Lt x) = lt_of x) as Hlt.
  { intros x Hx. destruct (chain_digits _ HC x) as (Hne & _); [by apply Hsub|].
    unfold lt_of, normalizeLt. by rewrite bool_decide_eq_false_2. }
  assert (∀ x, x ∈ sort_Slice n Poller.olderFirst seg ↔ x ∈ seg) as Hin
    by (intros x; by rewrite sort_perm).
  apply (ascending_unique lt_of); [|done|done].
  apply (chain_strictly _ HC); [set_solver| |].
  - rewrite sort_perm. clear -Hasc. induction Hasc as [|x l Hl IH Hx]; constructor; [|done].
    intros Hxl. rewrite Forall_forall in Hx. specialize (Hx _ Hxl). lia.
  - assert (ordered Poller.olderFirst (sort_Slice n Poller.olderFirst seg)) as Hord.
    { apply sort_ordered. unfold Poller.olderFirst.
      split; intros *; rewrite ?Z.ltb_lt, ?Z.ltb_ge; lia. }
    eapply StronglySorted_impl_in; [|exact Hord]. intros x y Hx Hy.
    unfold Poller.olderFirst. rewrite !Hlt by (by apply Hin). rewrite Z.ltb_ge. done.
Qed.

(** The newest page, filtered and normalized, is what it holds after the cursor. *)
Lemma newest_page (p : Poller.t S) n txs l l' d d' :
  Client.fetch c n Poller.PollBatchSize None None = Ok txs →
  normalized false txs l d → normalized true (List.filter (Poller.newer p) l) l' d' →
  ∃ pre, collected (cursor p) (chain n) pre l' [].
Proof.
  intros Hf Hl Hl'. pose proof (honest_ok _ _ HH n) as HC.
  destruct (honest_newest _ _ HH _ _ Hf) as (pre & page & E & Htxs & _).
  assert (ascending lt_of page) as Hpage.
  { eapply (chain_segment _ HC pre page []). by rewrite app_nil_r. }
  destruct (ascending_filter lt_of page (cursor p) Hpage) as (low & Epage & Hlow).
  set (ext := List.filter (λ x, cursor p <? lt_of x) page) in *.
  assert (chain n = (pre ++ low) ++ ext ++ []) as E'.
  { rewrite E, Epage, app_nil_r. by rewrite <-app_assoc. }
  assert (∀ x, x ∈ ext ↔ x ∈ page ∧ cursor p < lt_of x) as Hext.
  { intros x. unfold ext. by rewrite !list_elem_of_In, filter_In, Z.ltb_lt. }
  assert (l' = ext) as ->.
  { eapply (normalized_chain _ HC); [exact Hl'| | |].
    - rewrite E'. set_solver.
    - eapply (chain_segment _ HC); exact E'.
    - intros x. rewrite elem_of_newer, Hext, <-Htxs. apply and_iff_compat_r.
      eapply (normalized_elements _ HC); [exact Hl|]. intros y Hy%Htxs. rewrite E. set_solver. }
  exists (pre ++ low). split; [done|]. intros x. rewrite Hext. tauto.
Qed.

Lemma polled_backoff p errors backoff s ch p' s' :
  polled (Poller.set_backoff p errors backoff) s ch p' s' → polled p s ch p' s'.
Proof.
  intros Hp. destruct Hp as [p2 H|p2 pre seg rest post s1 s2 failed Hc H1 H2 H3 H4].
  - apply polled_idle. exact H.
  - exact (polled_run p s ch p2 pre seg rest post s1 s2 failed Hc H1 H2 H3 H4).
Qed.

Lemma wp_poll fuel p net s :
  Poller.client p = c → Poller.lastProcessedLt p ≠ "0" →
  wp (Poller.poll fuel)
    (λ r st, (calls net ≤ calls st.2.1)%nat ∧
       (r = None → (fuel ≤ length (chain (Datatypes.S (calls net))))%nat) ∧
       (r = Some tt → wired p st.1 ∧ polled p s (chain (calls st.2.1)) st.1 st.2.2))
    (p, (net, s)).
Proof.
  intros Hc Hlt. unfold Poller.poll. apply wp_bind, wp_gets. simpl. rewrite Hc.
  apply wp_bind, wp_onNet, wp_GetTransactions.
  { intros e n. apply wp_bind, wp_modify, wp_ret. simpl. split_and!; [lia|done|].
    intros _. split; [done|by constructor]. }
  intros txs l d n Hf Hl. apply wp_bind, wp_modify. simpl. apply wp_bind, wp_onNet, wp_normalize.
  intros l' d' n' Hl'. simpl. destruct l' as [|old seg].
  { apply wp_bind, wp_modify, wp_ret. simpl. split_and!; [lia|done|].
    intros _. split; [done|by constructor]. }
  destruct (newest_page p _ _ _ _ _ _ Hf Hl Hl') as [pre Hcol].
  destruct (collected_grows _ _ _ _ _ Hcol) as [post Hcol'].
  pose proof (honest_ok _ _ HH (Datatypes.S (calls net))) as HC.
  set (p1 := Poller.set_backoff p 0 Poller.BackoffInitial).
  apply wp_bind, wp_onNet, wp_chance. simpl.
  rewrite (sort_again _ _ _ _ _ HC (collected_chain _ _ _ _ _ Hcol')).
  rewrite bool_decide_eq_false_2 by done. apply wp_bind.
  eapply wp_mono; [eapply (wp_backfill fuel p1 _ s pre); [exact Hc|reflexivity|exact Hcol']|].
  intros r [p2 [net2 s2]] (net' & Hst & Hle & Hr). simpl in *. simplify_eq.
  destruct r as [[l'|]|].
  - destruct Hr as [-> (pre' & post' & Hcol'' & Hpre & Hne)]. apply wp_bind.
    eapply wp_mono; [eapply (wp_processAll p1); [by apply (honest_ok _ _ HH)|exact Hcol''|done]|].
    intros _ st (Hw & Hnet & Hpoll). apply wp_ret. rewrite Hnet. split_and!; [lia|done|].
    intros _. split; [by destruct Hw|exact (polled_backoff _ _ _ _ _ _ _ Hpoll)].
  - apply wp_ret. simpl. subst p2. split_and!; [lia|done|]. intros _. split; [done|by constructor].
  - apply wp_ret. split_and!; [simpl; lia| |done]. intros _.
    rewrite (collected_chain _ _ _ _ _ Hcol'), length_app. lia.
Qed.
End Poll.

(** ** Any number of polls *)

Lemma threshold_unique {A} (P : A → Prop) (l k l' k' : list A) :
  l ++ k = l' ++ k' → Forall P l → Forall P l' → Forall (λ x, ¬ P x) k →
  Forall (λ x, ¬ P x) k' → l = l'.
Proof.
  revert l'. induction l as [|x l IH]; intros [|x' l'] Heq Hl Hl' Hk Hk'; simplify_eq/=;
    rewrite ?Forall_cons in *; destruct_and?; try done. f_equal. by eapply IH.
Qed.

Section Log.
Context {S : Type} (h : EventHandler S) (callback : option (string → ST S unit)).

(** The handler, with a log of the transactions it accepted. *)
Definition logged : EventHandler (S * list Transaction.t) := λ tx s,
  let '(r, s') := h tx s.1 in (r, (s', if is_ok r then s.2 ++ [tx] else s.2)).

Definition unlogged (cb : string → ST S unit) : string → ST (S * list Transaction.t) unit :=
  λ lt s, let '(u, s') := cb lt s.1 in (u, (s', s.2)).

Lemma logged_handled s seg s' : Handled logged s seg s' → s'.2 = s.2 ++ seg.
Proof.
  induction 1 as [s|s tx s1 txs s2 Hh _ IH]; [by rewrite app_nil_r|].
  rewrite IH. unfold logged in Hh. destruct (h tx s.1) as [r s0]. simplify_eq/=.
  by rewrite <-app_assoc.
Qed.

Lemma logged_stopped rest s s' b : Stopped logged rest s s' b → s'.2 = s.2.
Proof.
  destruct 1 as [s|tx txs s e s' Hh]; [done|]. unfold logged in Hh.
  destruct (h tx s.1) as [r s0]. by simplify_eq/=.
Qed.

Lemma unlogged_back p seg s :
  Poller.onLtUpdated p = unlogged <$> callback → (called_back p seg s).2 = s.2.
Proof.
  unfold called_back. intros ->. destruct callback as [cb|]; [|done]. simpl.
  destruct (last seg) as [tx|]; [|done]. unfold unlogged. by destruct (cb _ s.1).
Qed.

Context (c : Client.t) (chain : nat → list Transaction.t) (HH : honest c chain).
Context (lt0 : string).

Definition poll_step (st st' : Poller.PS (S * list Transaction.t)) : Prop :=
  ∃ fuel, Poller.poll fuel st = (Some tt, st').

(** The accepted transactions are the part of the chain that follows the first cursor. *)
Record consumed (st : Poller.PS (S * list Transaction.t)) : Prop := {
  consumed_client : Poller.client st.1 = c;
  consumed_handler : Poller.handler st.1 = logged;
  consumed_callback : Poller.onLtUpdated st.1 = unlogged <$> callback;
  consumed_cursor : Poller.lastProcessedLt st.1 = advance lt0 st.2.2.2;
  consumed_log : ∃ pre post,
    collected (lt_value (normalizeLt lt0)) (chain (calls st.2.1)) pre st.2.2.2 post ∧
    ∀ x, x ∈ pre → lt_of x ≤ lt_value (normalizeLt lt0) }.

Lemma grows_le i j : (i ≤ j)%nat → chain i `prefix_of` chain j.
Proof. induction 1; [done|]. etrans; [done|]. apply (honest_grows _ _ HH). Qed.

Lemma consumed_live st : lt0 ≠ "0" → consumed st → Poller.lastProcessedLt st.1 ≠ "0".
Proof.
  intros Hlt [_ _ _ -> (pre & post & [E _] & _)]. unfold advance.
  destruct (last st.2.2.2) as [tx|] eqn:Hlast; [|done]. intros H0.
  destruct (chain_digits _ (honest_ok _ _ HH (calls st.2.1)) tx) as (_ & _ & Hp & Hpos).
  { rewrite E. apply last_Some_elem_of in Hlast. set_solver. }
  rewrite H0 in Hp. change (ParseUint "0") with (Some 0) in Hp. injection Hp. lia.
Qed.

(** Handling the transactions right after the cursor extends the log. *)
Lemma collected_log ch pre log post pre' seg post' :
  chain_ok ch → collected (lt_value (normalizeLt lt0)) ch pre log post →
  (∀ x, x ∈ pre → lt_of x ≤ lt_value (normalizeLt lt0)) →
  let cz := lt_value (normalizeLt (advance lt0 log)) in
  collected cz ch pre' seg post' → (∀ x, x ∈ pre' → lt_of x ≤ cz) →
  ∃ pre0 post0, collected (lt_value (normalizeLt lt0)) ch pre0 (log ++ seg) post0 ∧
    ∀ x, x ∈ pre0 → lt_of x ≤ lt_value (normalizeLt lt0).
Proof.
  intros HC [E Hlog] Hpre cz [E' Hseg] Hpre'.
  destruct (decide (seg = [])) as [->|Hne].
  { exists pre, post. by rewrite app_nil_r. }
  destruct (last log) as [tx|] eqn:Hlast.
  2: { apply last_None in Hlast as ->. by exists pre', post'. }
  pose proof (chain_asc _ HC) as Hasc.
  assert (cz = lt_of tx) as Hcz by (unfold cz, advance; by rewrite Hlast).
  assert (pre ++ log = pre') as Heq.
  { apply last_Some in Hlast as [log0 ->].
    eapply (threshold_unique (λ x, lt_of x ≤ cz)) with (k := post) (k' := seg ++ post');
      [by rewrite <-E', E, <-app_assoc|..]; rewrite ?Forall_forall.
    - rewrite E, !app_assoc in Hasc. apply ascending_app in Hasc as (Hasc & _ & _).
      apply ascending_app in Hasc as (_ & _ & Hb).
      intros x Hx. rewrite Hcz. rewrite app_assoc in Hx. apply elem_of_app in Hx as [Hx|Hx].
      + specialize (Hb _ tx Hx (list_elem_of_here _ _)). lia.
      + apply list_elem_of_singleton in Hx as ->. lia.
    - intros x Hx. by apply Hpre'.
    - rewrite E, app_assoc in Hasc. apply ascending_app in Hasc as (_ & _ & Hb).
      intros x Hx. specialize (Hb tx x ltac:(set_solver) Hx). lia.
    - rewrite E' in Hasc. apply ascending_app in Hasc as (_ & Hasc & _).
      apply ascending_app in Hasc as (_ & _ & Hb).
      destruct seg as [|y seg]; [done|]. intros x [Hx|Hx]%elem_of_app.
      + specialize (Hseg _ Hx). lia.
      + specialize (Hb y x (list_elem_of_here _ _) Hx).
        specialize (Hseg y (list_elem_of_here _ _)). lia. }
  exists pre, post'. split; [split|done].
  - rewrite E', <-Heq. by rewrite <-!app_assoc.
  - intros x [Hx|Hx]%elem_of_app; [auto|]. specialize (Hseg _ Hx).
    apply last_Some_elem_of in Hlast. specialize (Hlog _ Hlast). lia.
Qed.

Lemma consumed_step st st' : lt0 ≠ "0" → consumed st → poll_step st st' → consumed st'.
Proof.
  intros Hlt Hcons [fuel Hpoll]. pose proof (consumed_live _ Hlt Hcons) as Hlive.
  destruct Hcons as [Hc Hh Hcb Hcur (pre & post & Hcol & Hpre)].
  destruct st as [p [net [s log]]]. cbn [fst snd] in *.
  pose proof (wp_poll c chain HH fuel p net (s, log) Hc Hlive) as Hwp.
  unfold wp in Hwp. rewrite Hpoll in Hwp. cbn [fst snd] in Hwp.
  destruct Hwp as (Hle & _ & Hok). destruct (Hok eq_refl) as [[Hc' Hh' Hcb'] Hstep].
  destruct st' as [p' [net' [s' log']]]. cbn [fst snd] in *.
  destruct (grows_le _ _ Hle) as [more Hmore].
  assert (collected (lt_value (normalizeLt lt0)) (chain (calls net')) pre log (post ++ more))
    as Hcol'.
  { destruct Hcol as [E Hnew]. split; [|done]. by rewrite Hmore, E, <-!app_assoc. }
  assert (∃ seg, log' = log ++ seg ∧ Poller.lastProcessedLt p' = advance lt0 (log ++ seg) ∧
    ∃ pre0 post0, collected (lt_value (normalizeLt lt0)) (chain (calls net')) pre0
      (log ++ seg) post0 ∧ ∀ x, x ∈ pre0 → lt_of x ≤ lt_value (normalizeLt lt0))
    as (seg & -> & Hcur' & Hlog); [|split; cbn [fst snd]; congruence || done].
  remember (s', log') as sl eqn:Hsl.
  destruct Hstep as [p2 Hsame|p2 pre' seg rest post' s1 s2 failed Hcol2 Hpre2 Hrun Hstop Hadv].
  - injection Hsl as -> ->. exists []. rewrite app_nil_r. split_and!; [done|congruence|].
    by exists pre, (post ++ more).
  - rewrite Hh in Hrun, Hstop. apply logged_handled in Hrun. apply logged_stopped in Hstop.
    pose proof (unlogged_back p seg s2 Hcb) as Hback. rewrite Hsl in Hback.
    cbn [fst snd] in *. exists seg. split_and!; [congruence| |].
    + by rewrite Hadv, Hcur, advance_app.
    + eapply (collected_log _ pre log _ pre' seg (rest ++ post')); [by apply (honest_ok _ _ HH)|done..| |].
      * unfold cursor in Hcol2. rewrite Hcur in Hcol2. destruct Hcol2 as [E2 Hn2].
        split; [by rewrite E2, <-!app_assoc|]. intros x Hx. apply Hn2. set_solver.
      * intros x Hx. specialize (Hpre2 x Hx). unfold cursor in Hpre2. by rewrite Hcur in Hpre2.
Qed.

Lemma consumed_polls st : lt0 ≠ "0" → consumed st → ∀ fuel,
  (length (chain (Datatypes.S (calls st.2.1))) < fuel)%nat →
  (Poller.poll fuel st).1 = Some tt.
Proof.
  intros Hlt Hcons fuel Hfuel. pose proof (consumed_live _ Hlt Hcons) as Hlive.
  destruct st as [p [net s]]. destruct Hcons as [Hc _ _ _ _].
  destruct (wp_poll c chain HH fuel p net s Hc Hlive) as (_ & Hnone & _).
  destruct (Poller.poll fuel (p, (net, s))) as [[[]|] st']; [done|]. simpl in *.
  specialize (Hnone eq_refl). lia.
Qed.

Lemma consumed_start p net s :
  Poller.client p = c → Poller.handler p = logged →
  Poller.onLtUpdated p = unlogged <$> callback → Poller.lastProcessedLt p = lt0 →
  consumed (p, (net, (s, []))).
Proof.
  intros. split; cbn [fst snd]; [done..|]. exists [], (chain (calls net)). split; [split; [done|]|];
    intros x Hx; by apply not_elem_of_nil in Hx.
Qed.

(** C4: against a server that answers from one growing chain, and starting from a cursor
    that is not the initial one, any number of polls, with any failures of the network and
    of the handler in between, hands the handler the transactions of the chain that
    follow the cursor, each accepted once, in order and without a gap, and the cursor is
    that of the last one accepted; and every poll ends, in at most one round of backfill
    per transaction of the chain. *)
Theorem poller_exactly_once p net s st :
  lt0 ≠ "0" → Poller.client p = c → Poller.handler p = logged →
  Poller.onLtUpdated p = unlogged <$> callback → Poller.lastProcessedLt p = lt0 →
  rtc poll_step (p, (net, (s, []))) st →
  consumed st ∧
  ∀ fuel, (length (chain (Datatypes.S (calls st.2.1))) < fuel)%nat →
    (Poller.poll fuel st).1 = Some tt.
Proof.
  intros Hlt Hc Hh Hcb Hlt0 Hsteps.
  assert (consumed st) as Hcons; [|split; [done|by apply consumed_polls]].
  pose proof (consumed_start p net s Hc Hh Hcb Hlt0) as Hstart.
  revert Hstart. induction Hsteps; eauto using consumed_step.
Qed.
End Log.

(** Normalizing keeps one transaction per logical time and hash, orders them, and
    counts those it drops. *)
Theorem normalizeTransactionsByLt_spec txs asc net :
  normalized asc txs (normalizeTransactionsByLt txs asc net).1.1
    (normalizeTransactionsByLt txs asc net).1.2.
Proof. by apply (wp_normalize txs asc (λ r _, normalized asc txs r.1 r.2)). Qed.
End Spec.

(** ** Pacing *)

Section Pacing.
Context `{CE : ClientEnv} {S : Type}.

(** The interval is within its limits, far from overflowing, and the ticker has it. *)
Record paced (p : Poller.t S) : Prop := {
  paced_min : 0 < Poller.minInterval p ≤ Poller.currentInterval p;
  paced_max : Poller.currentInterval p ≤ Poller.maxInterval p;
  paced_range : 3 * Poller.maxInterval p ≤ MaxInt64;
  paced_ticker : Poller.ticker p = None ∨ Poller.ticker p = Some (Poller.currentInterval p);
  paced_backoff : 0 ≤ Poller.backoffDuration p ≤ Poller.BackoffMax }.

Lemma adjust_paced active p : paced p → paced (Poller.adjustInterval active p).
Proof.
  intros [Hmin Hmax Hrange Htick Hback]. unfold Poller.adjustInterval.
  unfold MaxInt64 in Hrange.
  assert (wrap64 (Poller.currentInterval p * 2) = Poller.currentInterval p * 2) as ->
    by (apply wrap64_id; unfold in_int64, MinInt64, MaxInt64; lia).
  assert (wrap64 (Poller.currentInterval p * 3) = Poller.currentInterval p * 3) as ->
    by (apply wrap64_id; unfold in_int64, MinInt64, MaxInt64; lia).
  rewrite !Z.quot_div_nonneg by lia.
  pose proof (Z.div_mod (Poller.currentInterval p * 2) 3 ltac:(lia)).
  pose proof (Z.mod_pos_bound (Poller.currentInterval p * 2) 3 ltac:(lia)).
  pose proof (Z.div_mod (Poller.currentInterval p * 3) 2 ltac:(lia)).
  pose proof (Z.mod_pos_bound (Poller.currentInterval p * 3) 2 ltac:(lia)).
  destruct active.
  - destruct (Z.ltb_spec (Poller.currentInterval p * 2 / 3) (Poller.minInterval p)); split; simpl;
      try done; try (unfold MaxInt64; lia); try lia;
      (destruct Htick as [-> | ->]; [by left|right]); case_match eqn:E; simpl; try done;
      apply Z.eqb_eq in E; congruence.
  - destruct (Z.ltb_spec (Poller.maxInterval p) (Poller.currentInterval p * 3 / 2)); split; simpl;
      try done; try (unfold MaxInt64; lia); try lia;
      (destruct Htick as [-> | ->]; [by left|right]); case_match eqn:E; simpl; try done;
      apply Z.eqb_eq in E; congruence.
Qed.

Lemma backoff_paced p errors backoff :
  paced p → 0 ≤ backoff ≤ Poller.BackoffMax → paced (Poller.set_backoff p errors backoff).
Proof. intros [] ?. by split. Qed.

Lemma lt_paced p lt : paced p → paced (Poller.set_lastProcessedLt p lt).
Proof. intros []. by split. Qed.

Lemma handleError_paced p : paced p → paced (Poller.handleError p).
Proof.
  intros Hp. unfold Poller.handleError. apply adjust_paced, backoff_paced; [done|].
  pose proof (paced_backoff _ Hp). unfold Poller.BackoffInitial, Poller.BackoffMax in *.
  case_match; [lia|]. rewrite wrap64_id by (unfold in_int64, MinInt64, MaxInt64; lia).
  case_match eqn:E; [lia|]. apply Z.ltb_ge in E. lia.
Qed.

Definition pkeeps {A} (m : Poller.PM S A) : Prop := ∀ st, paced st.1 → paced (m st).2.1.

Lemma pkeeps_bind {A B} (m : Poller.PM S A) (f : A → Poller.PM S B) :
  pkeeps m → (∀ a, pkeeps (f a)) → pkeeps (m ≫= f).
Proof.
  intros Hm Hf st Hst. unfold mbind, Poller.PM_bind, ST_bind. specialize (Hm st Hst).
  destruct (m st) as [a st']. by apply Hf.
Qed.

Lemma pkeeps_ret {A} (a : A) : pkeeps (mret a).
Proof. by intros st. Qed.

Lemma pkeeps_update f : (∀ p, paced p → paced (f p)) → pkeeps (Poller.update f).
Proof. intros Hf [p st] Hp. by apply Hf. Qed.

Lemma pkeeps_read : pkeeps Poller.poller.
Proof. by intros st. Qed.

Lemma pkeeps_onNet {A} (m : ST Net A) : pkeeps (Poller.onNet m).
Proof. intros [p [net s]] Hp. unfold Poller.onNet, zoom. simpl. by destruct (m net). Qed.

Lemma pkeeps_onHandler {A} (m : ST S A) : pkeeps (Poller.onHandler m).
Proof. intros [p [net s]] Hp. unfold Poller.onHandler, zoom. simpl. by destruct (m s). Qed.

(** Walk through a program of the poller. *)
Local Ltac pkeeps_step :=
  match goal with
  | |- pkeeps (_ ≫= _) => apply pkeeps_bind; [|intros ?]
  | |- pkeeps (mret _) => apply pkeeps_ret
  | |- pkeeps Poller.poller => apply pkeeps_read
  | |- pkeeps (Poller.onNet _) => apply pkeeps_onNet
  | |- pkeeps (Poller.onHandler _) => apply pkeeps_onHandler
  | |- pkeeps (Poller.update _) => apply pkeeps_update; intros ? ?
  | |- pkeeps (if ?b then _ else _) => destruct b
  | |- pkeeps (match ?x with _ => _ end) => destruct x
  end.

Lemma backfill_paced fuel newTxs old : pkeeps (Poller.backfill fuel newTxs old).
Proof.
  revert newTxs old. induction fuel; intros newTxs old; cbn [Poller.backfill];
    repeat pkeeps_step; auto using handleError_paced.
Qed.

Lemma process_paced txs lt : pkeeps (Poller.process txs lt).
Proof.
  revert lt. induction txs; intros lt; cbn [Poller.process]; repeat pkeeps_step;
    auto using lt_paced.
Qed.

Lemma poll_paced fuel : pkeeps (Poller.poll fuel).
Proof.
  unfold Poller.poll, Poller.processAll.
  repeat (pkeeps_step || apply backfill_paced || apply process_paced);
    auto using handleError_paced, adjust_paced.
  all: apply backoff_paced; [done|]; unfold Poller.BackoffInitial, Poller.BackoffMax; lia.
Qed.

(** Whatever the configured intervals (below a third of the range of a duration), the
    poller is created with a positive minimum, a current interval between the minimum and
    the maximum and an error backoff of at most 16 seconds; starting it and any poll,
    whatever the network and the handler answer, keep it so, with the ticker set to the
    current interval. *)
Theorem poller_paced c h min max fuel p net s :
  3 * min ≤ MaxInt64 → 3 * max ≤ MaxInt64 → paced p →
  paced (Poller.NewPollerWithIntervals (S := S) c h 0 min max) ∧
  paced (Poller.Start p) ∧ paced (Poller.poll fuel (p, (net, s))).2.1.
Proof.
  intros Hmin Hmax Hp. split_and!; [| |by apply poll_paced].
  - unfold Poller.NewPollerWithIntervals, Poller.normalizePollIntervals,
      Poller.MinPollInterval, Poller.MaxPollInterval. unfold MaxInt64 in *.
    destruct (Z.leb_spec min 0), (Z.leb_spec max 0); cbv zeta;
      (case_match eqn:E; [apply Z.ltb_lt in E|apply Z.ltb_ge in E]);
      split; simpl; unfold MaxInt64, Poller.BackoffMax; try lia; by left.
  - destruct Hp as [Hm HM Hr Ht Hb]. unfold Poller.Start, Poller.normalizePollIntervals.
    destruct (Z.leb_spec (Poller.minInterval p) 0), (Z.leb_spec (Poller.maxInterval p) 0);
      try lia; cbv zeta. destruct (Z.ltb_spec (Poller.maxInterval p) (Poller.minInterval p)); [lia|].
    destruct (Z.leb_spec (Poller.currentInterval p) 0); [lia|].
    split; simpl; try lia; try done. by right.
Qed.
End Pacing.

(** ** Runs *)

Module PollerRun.
Definition tx_in (inMsg : option string) (lt prev : string) : Transaction.t := {|
  Transaction.Lt := lt; Transaction.Hash := "h" +:+ lt; Transaction.Utime := 0;
  Transaction.Data := EmptyString; Transaction.InMsg := inMsg; Transaction.OutMsgs := None;
  Transaction.PrevTransLt := prev; Transaction.PrevTransHash := "h" +:+ prev;
  Transaction.Fee := EmptyString; Transaction.StorageFee := EmptyString;
  Transaction.OtherFee := EmptyString |}.
Definition tx : string → string → Transaction.t := tx_in None.

(** A network that answers a URL with a page. *)
Definition serving (page : string → list Transaction.t) : ClientEnv := {|
  breakerRefuses := λ _, None; http_NewRequest := λ _, None;
  http_Do := λ _ url, Ok (200, url);
  json_DecodeTransactions := λ body, Ok (true, page body, EmptyString);
  mapOrder := λ _ l, l; sort_Slice := λ _ less l, SliceStable less l;
  bigint_undefined := λ _, 0 |}.

#[export] Instance serving_laws page : ClientLaws (serving page).
Proof.
  split; simpl; [done|intros; apply SliceStable_perm|].
  intros _ less l [H1 H2]. by apply SliceStable_ordered.
Defined.

Definition client : Client.t := Client.mk "https://toncenter" "EQ".

(** Three transactions with given messages, and pages of one transaction. *)
Definition chain_of (a b c : option string) : list Transaction.t :=
  [tx_in a "5" "0"; tx_in b "6" "5"; tx_in c "7" "6"].
Definition page_of (a b c : option string) (url : string) : list Transaction.t :=
  let at_ lt hash := bool_decide (url = Client.url client Poller.PollBatchSize lt hash) in
  if at_ None None then [tx_in c "7" "6"]
  else if at_ (Some 7) (Some "h7") then [tx_in c "7" "6"]
  else if at_ (Some 6) (Some "h6") then [tx_in b "6" "5"]
  else if at_ (Some 5) (Some "h5") then [tx_in a "5" "0"]
  else [].
Definition chain : list Transaction.t := chain_of None None None.
Definition page : string → list Transaction.t := page_of None None None.

(** The second attempt of all is refused. *)
Definition handler : EventHandler nat := λ _ n,
  (if Nat.eqb n 1 then Err (ENew "database down") else Ok tt, S n).

Definition poller {S} (h : EventHandler S) (lt : string) : Poller.t S :=
  Poller.SetLastProcessedLt lt (Poller.NewPoller client h 0).

Definition start : Poller.PS (nat * list Transaction.t) :=
  (poller (logged handler) "5", (mkNet 0 0, (0%nat, []))).

Definition poll_once `{CE : ClientEnv} {S} (st : Poller.PS S) : Poller.PS S :=
  (Poller.poll 5 st).2.

Lemma poll_once_step `{CE : ClientEnv} {S} (st : Poller.PS (S * list Transaction.t)) :
  (Poller.poll 5 st).1 = Some tt → poll_step st (poll_once st).
Proof. intros H. exists 5%nat. by apply injective_projections. Qed.

Lemma honest_pages a b c :
  honest (CE := serving (page_of a b c)) client (λ _, chain_of a b c).
Proof.
  split.
  - intros n. done.
  - intros _. split.
    + intros x Hx. unfold chain_of in Hx.
      repeat (apply elem_of_cons in Hx as [->|Hx]; [eexists; split; [vm_compute; done|done]|]).
      by apply not_elem_of_nil in Hx.
    + unfold ascending. repeat (constructor; [|repeat constructor]). constructor.
    + intros x [= <-]. done.
    + intros pre x y post E. unfold chain_of in E.
      destruct pre as [|? [|? [|? [|??]]]]; simplify_eq/=; done.
  - intros n txs Hf. vm_compute in Hf. injection Hf as <-.
    exists [tx_in a "5" "0"; tx_in b "6" "5"], [tx_in c "7" "6"]. split_and!; [done|done|done].
  - intros n txs x Hx Hf. unfold chain_of in Hx.
    repeat (apply elem_of_cons in Hx as [->|Hx]; [vm_compute in Hf; injection Hf as <-|]);
      [| | |by apply not_elem_of_nil in Hx].
    + by exists [], [], [tx_in b "6" "5"; tx_in c "7" "6"].
    + by exists [tx_in a "5" "0"], [], [tx_in c "7" "6"].
    + by exists [tx_in a "5" "0"; tx_in b "6" "5"], [], [].
Qed.

Lemma honest_page : honest (CE := serving page) client (λ _, chain).
Proof. apply honest_pages. Qed.

(** Two polls from the cursor 5: the gap is backfilled, transaction 7 is refused once. *)
Lemma poller_exactly_once_witness :
  let CE := serving page in
  let st := poll_once (poll_once start) in
  st.2.2 = (3%nat, [tx "6" "5"; tx "7" "6"]) ∧
  consumed handler None client (λ _, chain) "5" st.
Proof.
  split; [vm_compute; reflexivity|].
  apply (poller_exactly_once (CE := serving page) handler None client (λ _, chain) honest_page
    "5" (poller (logged handler) "5") (mkNet 0 0) 0%nat
    (poll_once (CE := serving page) (poll_once (CE := serving page) start)));
    [discriminate|reflexivity..|].
  apply rtc_l with (poll_once (CE := serving page) start);
    [|apply rtc_once]; apply poll_once_step; vm_compute; reflexivity.
Defined.

Lemma normalizeTransactionsByLt_spec_witness :
  let CE := serving page in
  (normalizeTransactionsByLt [tx "7" "6"; tx "5" "0"; tx "7" "6"] true (mkNet 0 0)).1
    = ([tx "5" "0"; tx "7" "6"], 1) ∧
  normalized true [tx "7" "6"; tx "5" "0"; tx "7" "6"] [tx "5" "0"; tx "7" "6"] 1.
Proof.
  split; [vm_compute; reflexivity|].
  apply (normalizeTransactionsByLt_spec (CE := serving page)
    [tx "7" "6"; tx "5" "0"; tx "7" "6"] true (mkNet 0 0)).
Defined.

Lemma poller_paced_witness :
  let CE := serving page in
  paced (Poller.poll 5 (poller handler "5", (mkNet 0 0, 0%nat))).2.1.
Proof.
  apply (poller_paced (CE := serving page) client handler Poller.MinPollInterval
    Poller.MaxPollInterval 5 (poller handler "5") (mkNet 0 0) 0%nat);
    [vm_compute; discriminate..|].
  split; vm_compute; intuition (discriminate || auto).
Defined.

(** The very first poll only looks at the newest page: from the initial cursor the
    backfill is skipped, and the older transactions are never handled. *)
Theorem first_poll_skips :
  let CE := serving page in
  let st := poll_once (poll_once (poller (logged handler) "0", (mkNet 0 0, (5%nat, [])))) in
  st.2.2.2 = [tx "7" "6"] ∧ Poller.lastProcessedLt st.1 = "7".
Proof. vm_compute. done. Qed.

(** A server that keeps answering with the same page newer than the cursor keeps the
    backfill loop of one poll running for ever. *)
Theorem backfill_diverges fuel :
  let CE := serving (λ _, [tx "7" "6"]) in
  (Poller.poll fuel (poller handler "5", (mkNet 0 0, 0%nat))).1 = None.
Proof.
  pose (CE := serving (λ _, [tx "7" "6"])).
  set (q := Poller.set_backoff (poller handler "5") 0 Poller.BackoffInitial).
  assert (∀ n net s, wp (Poller.backfill n [tx "7" "6"] (tx "7" "6")) (λ r _, r = None)
    (q, (net, s))) as Hloop.
  2: { assert (wp (Poller.poll fuel) (λ r _, r = None) (poller handler "5", (mkNet 0 0, 0%nat)))
         as H; [|exact H].
       unfold Poller.poll. apply wp_bind, wp_gets. do 4 (apply wp_bind; cbn -[Poller.backfill]).
       apply wp_zoom, wp_bind. change (bool_decide (normalizeLt "5" = "0")) with false.
       eapply wp_mono; [apply Hloop|]. intros r st ->. by apply wp_ret. }
  induction n as [|n IH]; intros [k i] s; [by apply wp_ret|].
  cbn [Poller.backfill]. apply wp_bind, wp_gets. cbn [fst].
  replace (Poller.hasGap q (tx "7" "6")) with true by (vm_compute; reflexivity).
  change (ParseUint (Transaction.PrevTransLt (tx "7" "6"))) with (Some 6). cbn [negb].
  apply wp_bind, wp_zoom. unfold wp at 1.
  replace (Client.GetTransactions _ _ _ _ _)
    with (Ok [tx "7" "6"] : result _, mkNet (S k) (S (S i))) by (vm_compute; reflexivity).
  cbn [fst snd].
  replace (List.filter (Poller.newer q) [tx "7" "6"]) with [tx "7" "6"]
    by (vm_compute; reflexivity).
  apply wp_bind, wp_zoom. unfold wp at 1.
  replace (normalizeTransactionsByLt _ _ _)
    with (([tx "7" "6"], 1), mkNet (S k) (S (S (S (S i))))) by (vm_compute; reflexivity).
  apply IH.
Qed.
End PollerRun.
