(* ===== verification/WebSocket.v ===== *)
(** * The WebSocket event source

    internal/infrastructure/toncenter/websocket_client.go and
    websocket_subscriber.go: the connection, its messages, the backoff between
    reconnections, and the cursor that moves as transactions are handled. *)
From S2P Require Import Prelude GoTypes Toncenter Poller.

(** ** What the client gets from outside *)

(** A message after [json.Unmarshal]; the raw parts stay strings. *)
Record WebSocketMessage := mkMessage {
  msg_Method : string; msg_Params : option string; msg_Result : option string;
  msg_Error : option (Z * string) }.

Class WsEnv := {
  url_Parse : string → result string;            (* and [u.String()] *)
  dial : nat → string → option error;            (* the n-th dial *)
  write : nat → option error;                    (* the n-th write on a connection *)
  ws_clock : nat → Z;                            (* the n-th [time.Now] *)
  json_Message : string → result WebSocketMessage;
  json_Subscription : string → result string;    (* [result.Subscription] *)
  json_Notification : string → result Transaction.t
}.

(** How many dials, writes and clock readings there have been. *)
Record Wire := mkWire { dials : nat; writes : nat; readings : nat }.

(** A context is the path of its cancellations: [context.Background()] is the empty path. *)
Definition Context : Type := list nat.
Definition Background : Context := [].

(** ** The client *)

Module WebSocketClient.
Definition WSBackoffInitial : Z := 1 * 10 ^ 9.
Definition WSBackoffMax : Z := 16 * 10 ^ 9.
Definition WSPingInterval : Z := 30 * 10 ^ 9.
Definition WSPongTimeout : Z := 10 * 10 ^ 9.

(** The closure [fallbackHandler]: the handler and the flag it captures. *)
Record Fallback (O : Type) := mkFallback {
  fallbackHandler : EventHandler O; fallbackTriggered : bool }.
Arguments mkFallback {O}. Arguments fallbackHandler {O}. Arguments fallbackTriggered {O}.

(** [stopped] is set where [stopCh] is closed; the guard [disconnecting] is not needed
    where a disconnection is one step; the handler is the subscriber the client is in. *)
Record t (O : Type) := mk {
  wsURL : string; contractAddress : string;
  conn : bool;                                  (* [c.conn != nil] *)
  isConnected : bool; subscribed : bool; stopped : bool;
  subscriptionID : string;
  reconnectAttempt : Z; maxReconnect : Z;
  pingInterval : Z; lastPong : Z;
  onFallback : option (Fallback O) }.
Arguments mk {O}. Arguments wsURL {O}. Arguments contractAddress {O}. Arguments conn {O}.
Arguments isConnected {O}. Arguments subscribed {O}. Arguments stopped {O}.
Arguments subscriptionID {O}. Arguments reconnectAttempt {O}. Arguments maxReconnect {O}.
Arguments pingInterval {O}. Arguments lastPong {O}. Arguments onFallback {O}.

Section Fields.
Context {O : Type} (c : t O).

Definition set_link (conn isConnected subscribed stopped : bool) : t O :=
  mk (wsURL c) (contractAddress c) conn isConnected subscribed stopped (subscriptionID c)
    (reconnectAttempt c) (maxReconnect c) (pingInterval c) (lastPong c) (onFallback c).
Definition set_subscriptionID (id : string) : t O :=
  mk (wsURL c) (contractAddress c) (conn c) (isConnected c) (subscribed c) (stopped c) id
    (reconnectAttempt c) (maxReconnect c) (pingInterval c) (lastPong c) (onFallback c).
Definition set_attempt (n : Z) : t O :=
  mk (wsURL c) (contractAddress c) (conn c) (isConnected c) (subscribed c) (stopped c)
    (subscriptionID c) n (maxReconnect c) (pingInterval c) (lastPong c) (onFallback c).
Definition set_lastPong (now : Z) : t O :=
  mk (wsURL c) (contractAddress c) (conn c) (isConnected c) (subscribed c) (stopped c)
    (subscriptionID c) (reconnectAttempt c) (maxReconnect c) (pingInterval c) now
    (onFallback c).
Definition set_onFallback (fb : option (Fallback O)) : t O :=
  mk (wsURL c) (contractAddress c) (conn c) (isConnected c) (subscribed c) (stopped c)
    (subscriptionID c) (reconnectAttempt c) (maxReconnect c) (pingInterval c) (lastPong c) fb.
End Fields.

Definition NewWebSocketClient {O} (wsURL contractAddress : string)
    (maxReconnect pingInterval : Z) (onFallback : option (Fallback O)) : t O :=
  let pingInterval := if pingInterval =? 0 then WSPingInterval else pingInterval in
  let maxReconnect := if maxReconnect =? 0 then 10 else maxReconnect in
  mk wsURL contractAddress false false false false EmptyString 0 maxReconnect pingInterval 0
    onFallback.

(** The loop of [reconnect] that doubles the wait [n] times. *)
Fixpoint growBackoff (n : nat) (backoff : Z) : Z :=
  match n with
  | O => backoff
  | S n => let backoff := wrap64 (backoff * 2) in
           if WSBackoffMax <? backoff then WSBackoffMax else growBackoff n backoff
  end.

(** The wait before reconnection number [attempt]. *)
Definition reconnectBackoff (attempt : Z) : Z :=
  growBackoff (Z.to_nat (attempt - 1)) WSBackoffInitial.

Definition handleDisconnect {O} (c : t O) : t O :=
  if isConnected c then set_link c false false false (stopped c) else c.

Definition Stop {O} (c : t O) : t O :=
  if stopped c then c else set_link c false false false true.

Definition IsConnected {O} (c : t O) : bool := isConnected c.
Definition IsSubscribed {O} (c : t O) : bool := subscribed c.
Definition GetSubscriptionID {O} (c : t O) : string := subscriptionID c.
Definition GetLastPongTime {O} (c : t O) : Z := lastPong c.

Section Client.
Context `{WE : WsEnv} {O : Type}.

(** The client and the wire. *)
Definition CM := ST (t O * Wire).
#[local] Instance CM_ret : MRet CM := ST_ret.
#[local] Instance CM_bind : MBind CM := ST_bind.

Definition client : CM (t O) := gets fst.
Definition update (f : t O → t O) : CM unit := modify (λ s, (f s.1, s.2)).
Definition onWire {A} (m : ST Wire A) : CM A := zoom snd (λ w s, (s.1, w)) m.

Definition now : ST Wire Z := λ w,
  (ws_clock (readings w), mkWire (dials w) (writes w) (S (readings w))).
Definition dialContext (url : string) : ST Wire (option error) := λ w,
  (dial (dials w) url, mkWire (S (dials w)) (writes w) (readings w)).
Definition writeMessage : ST Wire (option error) := λ w,
  (write (writes w), mkWire (dials w) (S (writes w)) (readings w)).

Definition Connect : CM (result unit) :=
  c ← client;
  if isConnected c then mret (Ok tt)
  else
    match url_Parse (wsURL c) with
    | Err e => mret (Err (Errorf "invalid WebSocket URL" e))
    | Ok u =>
        failed ← onWire (dialContext u);
        match failed with
        | Some e => mret (Err (Errorf "WebSocket dial failed" e))
        | None =>
            pong ← onWire now;
            _ ← update (λ c, set_lastPong
                  (set_attempt (set_link c true true (subscribed c) (stopped c)) 0) pong);
            mret (Ok tt)
        end
    end.

Definition Subscribe : CM (result unit) :=
  c ← client;
  if negb (conn c) || negb (isConnected c) then mret (Err (ENew "not connected to WebSocket"))
  else
    failed ← onWire writeMessage;
    match failed with
    | Some e => mret (Err (Errorf "failed to send subscription" e))
    | None => _ ← update (λ c, set_link c (conn c) (isConnected c) true (stopped c));
              mret (Ok tt)
    end.

(** One tick of [pingLoop]. *)
Definition ping : CM unit :=
  c ← client;
  if negb (isConnected c) then mret tt
  else
    failed ← (if conn c then onWire writeMessage else mret None);
    match failed with
    | Some _ => update handleDisconnect
    | None =>
        t ← onWire now;
        if pingInterval c + WSPongTimeout <? t - lastPong c then update handleDisconnect
        else mret tt
    end.
End Client.
Arguments CM O A : clear implicits.
End WebSocketClient.

(** ** The subscriber *)

Module WebSocketSubscriber.
Record t (O : Type) := mk {
  client : WebSocketClient.t O;
  handler : option (EventHandler O);
  lastProcessedLt : string; lastProcessedHash : string;
  onLtUpdated : option (string → ST O unit);
  ctx : option Context }.
Arguments mk {O}. Arguments client {O}. Arguments handler {O}. Arguments lastProcessedLt {O}.
Arguments lastProcessedHash {O}. Arguments onLtUpdated {O}. Arguments ctx {O}.

Section Subscriber.
Context {O : Type}.

Definition set_client (c : WebSocketClient.t O) (s : t O) : t O :=
  mk c (handler s) (lastProcessedLt s) (lastProcessedHash s) (onLtUpdated s) (ctx s).
Definition set_checkpoint (lt hash : string) (s : t O) : t O :=
  mk (client s) (handler s) lt hash (onLtUpdated s) (ctx s).
Definition set_ctx (c : Context) (s : t O) : t O :=
  mk (client s) (handler s) (lastProcessedLt s) (lastProcessedHash s) (onLtUpdated s) (Some c).

Definition NewWebSocketSubscriber (wsURL contractAddress : string) (maxReconnect : Z)
    (onFallback : option (WebSocketClient.Fallback O)) : t O :=
  mk (WebSocketClient.NewWebSocketClient wsURL contractAddress maxReconnect
        WebSocketClient.WSPingInterval onFallback)
    None defaultLastProcessedLt EmptyString None None.

Definition Subscribe (h : EventHandler O) (s : t O) : t O :=
  mk (client s) (Some h) (lastProcessedLt s) (lastProcessedHash s) (onLtUpdated s) (ctx s).
Definition GetLastProcessedLt (s : t O) : string := lastProcessedLt s.
Definition SetLastProcessedLt (lt : string) (s : t O) : t O :=
  set_checkpoint (normalizeLt lt) EmptyString s.
Definition SetOnLtUpdated (callback : option (string → ST O unit)) (s : t O) : t O :=
  mk (client s) (handler s) (lastProcessedLt s) (lastProcessedHash s) callback (ctx s).
Definition IsConnected (s : t O) : bool := WebSocketClient.IsConnected (client s).

Context `{CE : ClientEnv} `{WE : WsEnv}.

(** The subscriber and what its handler acts on. *)
Definition SM := ST (t O * O).
#[local] Instance SM_ret : MRet SM := ST_ret.
#[local] Instance SM_bind : MBind SM := ST_bind.

Definition subscriber : SM (t O) := gets fst.
Definition update (f : t O → t O) : SM unit := modify (λ s, (f s.1, s.2)).
Definition outside {A} (m : ST O A) : SM A := zoom snd (λ o s, (s.1, o)) m.

Definition HandleTransaction (tx : Transaction.t) : SM (result unit) :=
  let txLt := normalizeLt (Transaction.Lt tx) in
  let txHash := Transaction.Hash tx in
  s ← subscriber;
  let lastProcessedLt' := normalizeLt (lastProcessedLt s) in
  if bool_decide (txLt = lastProcessedLt') then mret (Ok tt)
  else if negb (compareLt txLt lastProcessedLt') then mret (Ok tt)
  else
    handled ← match handler s with
              | Some h => outside (h tx)
              | None => mret (Ok tt)
              end;
    match handled with
    | Err e => mret (Err e)
    | Ok _ =>
        s ← subscriber;
        if compareLt txLt (normalizeLt (lastProcessedLt s)) then
          _ ← update (set_checkpoint txLt txHash);
          _ ← match onLtUpdated s with
              | Some callback => outside (callback txLt)
              | None => mret tt
              end;
          mret (Ok tt)
        else mret (Ok tt)
    end.

(** [processMessage] of the client, whose handler is this subscriber. *)
Definition processMessage (data : string) : SM (result unit) :=
  match json_Message data with
  | Err e => mret (Err (Errorf "failed to parse WebSocket message" e))
  | Ok msg =>
      match msg_Error msg with
      | Some (code, message) =>
          mret (Err (ENew ("WebSocket error [" +:+ FormatInt code +:+ "]: " +:+ message)))
      | None =>
          let confirmation :=
            match msg_Result msg with
            | Some result =>
                if bool_decide (msg_Method msg = EmptyString) then
                  match json_Subscription result with
                  | Ok id => if bool_decide (id = EmptyString) then None else Some id
                  | Err _ => None
                  end
                else None
            | None => None
            end in
          match confirmation with
          | Some id =>
              _ ← update (λ s, set_client (WebSocketClient.set_subscriptionID (client s) id) s);
              mret (Ok tt)
          | None =>
              if bool_decide (msg_Method msg = "subscription") then
                match msg_Params msg with
                | Some params =>
                    match json_Notification params with
                    | Err e => mret (Err (Errorf "failed to parse transaction notification" e))
                    | Ok tx => _ ← HandleTransaction tx; mret (Ok tt)
                    end
                | None => mret (Ok tt)
                end
              else mret (Ok tt)
          end
      end
  end.
End Subscriber.
Arguments SM O A : clear implicits.
End WebSocketSubscriber.
