(* ===== verification/EventSource.v ===== *)
(** * Event sources and their factory

    internal/infrastructure/toncenter/factory.go and event_source.go: the sources live
    in a heap and are shared by reference; the factory's mutex, the contexts and the
    goroutines of the sources are explicit, so that a cancelled context, a goroutine
    that ends and a mutex locked twice can be seen. *)
From S2P Require Import Prelude GoTypes Toncenter Poller WebSocket.

(** ** State *)

(** The two implementations of the interface [EventSource]. *)
Inductive Source (O : Type) :=
  | HTTP (p : Poller.t O)
  | WS (s : WebSocketSubscriber.t O).
Arguments HTTP {O}. Arguments WS {O}.

Definition SourceTypeWebSocket : string := "websocket".
Definition SourceTypeHTTP : string := "http".

(** Where a goroutine is. [PollLoop] has not yet reached its first [select], or loops;
    [ReadLoop] is at its [select], or blocked in [ReadMessage]. *)
Inductive Phase := Entering | Looping | Selecting | Reading.
Inductive Loop :=
  | PollLoop (src : nat) (ctx : Context) (at_ : Phase)
  | ReadLoop (src : nat) (ctx : Context) (at_ : Phase)
  | PingLoop (src : nat) (ctx : Context)
  | StartLoop (src : nat) (ctx : Context)             (* [go uc.Subscribe(ctx)] *)
  | CheckpointNotice                                  (* the end of the handler's [Start] *)
  | FallbackNotice                                    (* [go f.onFallback()] *)
  | Ended.

Record FactoryConfig := mkFactoryConfig {
  V2BaseURL : string; ContractAddress : string;
  cfgMinPollInterval : Z; cfgMaxPollInterval : Z;
  V3WSURL : string; EnableWebSocket : bool; EventSourceType : string;
  MaxReconnect : Z; OnFallback : bool }.

Record Factory (O : Type) := mkFactory {
  config : FactoryConfig;
  httpClient : Client.t;
  currentSource : option nat;
  sourceMu : bool;                                    (* is it locked? *)
  onFallback : bool;
  onLtUpdated : option (string → ST O unit) }.
Arguments mkFactory {O}. Arguments config {O}. Arguments httpClient {O}.
Arguments currentSource {O}. Arguments sourceMu {O}. Arguments onFallback {O}.
Arguments onLtUpdated {O}.

Record Process (O : Type) := mkProcess {
  sources : list (Source O);
  loops : list Loop;
  contexts : nat;                                     (* how many were created *)
  cancelled : list nat;
  factory : Factory O;
  wire : Wire;
  net : Net;
  world : O }.
Arguments mkProcess {O}. Arguments sources {O}. Arguments loops {O}. Arguments contexts {O}.
Arguments cancelled {O}. Arguments factory {O}. Arguments wire {O}. Arguments net {O}.
Arguments world {O}.

Section Fields.
Context {O : Type}.

Definition set_sources (l : list (Source O)) (w : Process O) : Process O :=
  mkProcess l (loops w) (contexts w) (cancelled w) (factory w) (wire w) (net w) (world w).
Definition set_loops (l : list Loop) (w : Process O) : Process O :=
  mkProcess (sources w) l (contexts w) (cancelled w) (factory w) (wire w) (net w) (world w).
Definition set_contexts (n : nat) (l : list nat) (w : Process O) : Process O :=
  mkProcess (sources w) (loops w) n l (factory w) (wire w) (net w) (world w).
Definition set_factory (f : Factory O) (w : Process O) : Process O :=
  mkProcess (sources w) (loops w) (contexts w) (cancelled w) f (wire w) (net w) (world w).
Definition set_wire (i : Wire) (w : Process O) : Process O :=
  mkProcess (sources w) (loops w) (contexts w) (cancelled w) (factory w) i (net w) (world w).
Definition set_net (n : Net) (w : Process O) : Process O :=
  mkProcess (sources w) (loops w) (contexts w) (cancelled w) (factory w) (wire w) n (world w).
Definition set_world (o : O) (w : Process O) : Process O :=
  mkProcess (sources w) (loops w) (contexts w) (cancelled w) (factory w) (wire w) (net w) o.

Definition set_currentSource (src : option nat) (f : Factory O) : Factory O :=
  mkFactory (config f) (httpClient f) src (sourceMu f) (onFallback f) (onLtUpdated f).
Definition set_sourceMu (locked : bool) (f : Factory O) : Factory O :=
  mkFactory (config f) (httpClient f) (currentSource f) locked (onFallback f) (onLtUpdated f).
Definition set_onLtUpdated (cb : option (string → ST O unit)) (f : Factory O) : Factory O :=
  mkFactory (config f) (httpClient f) (currentSource f) (sourceMu f) (onFallback f) cb.
End Fields.

(** ** Operations that may block for ever or panic *)

Inductive Outcome (O A : Type) := Done (a : A) (w : Process O) | Deadlock | Panic.
Arguments Done {O A}. Arguments Deadlock {O A}. Arguments Panic {O A}.

Definition PrM (O A : Type) : Type := Process O → Outcome O A.
#[export] Instance PrM_ret {O} : MRet (PrM O) := λ A a w, Done a w.
#[export] Instance PrM_bind {O} : MBind (PrM O) := λ A B k m w,
  match m w with Done a w => k a w | Deadlock => Deadlock | Panic => Panic end.

Definition process {O} : PrM O (Process O) := λ w, Done w w.
Definition change {O} (f : Process O → Process O) : PrM O unit := λ w, Done tt (f w).
Definition panic {O A} : PrM O A := λ _, Panic.

(** [mu.Lock(); defer mu.Unlock()]: locking a mutex one already holds blocks for ever. *)
Definition withSourceMu {O A} (m : PrM O A) : PrM O A := λ w,
  if sourceMu (factory w) then Deadlock
  else match m (set_factory (set_sourceMu true (factory w)) w) with
       | Done a w => Done a (set_factory (set_sourceMu false (factory w)) w)
       | Deadlock => Deadlock
       | Panic => Panic
       end.

(** ** Contexts and goroutines *)

Section Contexts.
Context {O : Type}.

(** [context.WithCancel(parent)] *)
Definition WithCancel (parent : Context) : PrM O Context := λ w,
  Done (contexts w :: parent) (set_contexts (S (contexts w)) (cancelled w) w).

Definition cancel (c : Context) : PrM O unit := change (λ w,
  match c with [] => w | n :: _ => set_contexts (contexts w) (n :: cancelled w) w end).

(** [ctx.Done()] is closed when the context or one above it was cancelled. *)
Definition done (w : Process O) (c : Context) : bool :=
  existsb (λ n, bool_decide (n ∈ cancelled w)) c.

Definition spawn (l : Loop) : PrM O unit := change (λ w, set_loops (loops w ++ [l]) w).
End Contexts.

(** ** The sources, by reference *)

Section Sources.
Context `{CE : ClientEnv} `{WE : WsEnv} {O : Type}.

Definition source (i : nat) : PrM O (option (Source O)) := w ← process; mret (sources w !! i).
Definition put (i : nat) (s : Source O) : PrM O unit :=
  change (λ w, set_sources (<[i := s]> (sources w)) w).
Definition new (s : Source O) : PrM O nat := λ w,
  Done (length (sources w)) (set_sources (sources w ++ [s]) w).

(** A method of the WebSocket client of source [i]. *)
Definition onClient {A} (i : nat) (s : WebSocketSubscriber.t O) (m : WebSocketClient.CM O A) :
    PrM O A := λ w,
  let '(a, (c, wire')) := m (WebSocketSubscriber.client s, wire w) in
  Done a (set_wire wire'
    (set_sources (<[i := WS (WebSocketSubscriber.set_client c s)]> (sources w)) w)).

Definition sourceLt (s : Source O) : string :=
  match s with
  | HTTP p => Poller.GetLastProcessedLt p
  | WS s => WebSocketSubscriber.GetLastProcessedLt s
  end.
Definition setSourceLt (lt : string) (s : Source O) : Source O :=
  match s with
  | HTTP p => HTTP (Poller.SetLastProcessedLt lt p)
  | WS s => WS (WebSocketSubscriber.SetLastProcessedLt lt s)
  end.
Definition setSourceCallback (cb : option (string → ST O unit)) (s : Source O) : Source O :=
  match s with
  | HTTP p => HTTP (Poller.SetOnLtUpdated cb p)
  | WS s => WS (WebSocketSubscriber.SetOnLtUpdated cb s)
  end.
Definition subscribeSource (h : EventHandler O) (s : Source O) : Source O :=
  match s with
  | HTTP p => HTTP (Poller.Subscribe h p)
  | WS s => WS (WebSocketSubscriber.Subscribe h s)
  end.
Definition sourceConnected (s : Source O) : bool :=
  match s with
  | HTTP p => Poller.IsConnected p
  | WS s => WebSocketSubscriber.IsConnected s
  end.
Definition GetSourceType (s : Source O) : string :=
  match s with HTTP _ => SourceTypeHTTP | WS _ => SourceTypeWebSocket end.

(** A setter of source [i]. *)
Definition onSource (i : nat) (f : Source O → Source O) : PrM O unit :=
  s ← source i; match s with Some s => put i (f s) | None => panic end.

Definition StopSource (i : nat) : PrM O unit :=
  s ← source i;
  match s with
  | Some (HTTP p) => match Poller.Stop p with Some p => put i (HTTP p) | None => panic end
  | Some (WS s) =>
      _ ← match WebSocketSubscriber.ctx s with Some c => cancel c | None => mret tt end;
      put i (WS (WebSocketSubscriber.set_client
                   (WebSocketClient.Stop (WebSocketSubscriber.client s)) s))
  | None => panic
  end.

(** [Poller.Start]: the goroutine is about to enter its loop. *)
Definition StartPoller (i : nat) (ctx : Context) : PrM O unit :=
  s ← source i;
  match s with
  | Some (HTTP p) => _ ← put i (HTTP (Poller.Start p)); spawn (PollLoop i ctx Entering)
  | _ => panic
  end.

(** ** The factory *)

Definition createHTTPPoller (handler : EventHandler O) : PrM O nat :=
  w ← process;
  let cfg := config (factory w) in
  i ← new (HTTP (Poller.NewPollerWithIntervals (httpClient (factory w)) handler 0
                   (cfgMinPollInterval cfg) (cfgMaxPollInterval cfg)));
  _ ← change (λ w, set_factory (set_currentSource (Some i) (factory w)) w);
  mret i.

(** The second half of [fallbackToHTTP] and of [SwitchToHTTP]: a poller that starts
    from [lastLt]. *)
Definition startHTTPPoller (handler : EventHandler O) (lastLt : string) (ctx : Context) :
    PrM O unit :=
  i ← createHTTPPoller handler;
  _ ← onSource i (setSourceLt lastLt);
  w ← process;
  _ ← match onLtUpdated (factory w) with
      | Some cb => onSource i (setSourceCallback (Some cb))
      | None => mret tt
      end;
  StartPoller i ctx.

Definition fallbackToHTTP (handler : EventHandler O) : PrM O unit :=
  withSourceMu (
    w ← process;
    _ ← match currentSource (factory w) with
        | Some i =>
            s ← source i;
            match s with
            | Some s =>
                let ctx := match s with
                           | WS s => default Background (WebSocketSubscriber.ctx s)
                           | HTTP _ => Background
                           end in
                let lastLt := sourceLt s in
                _ ← StopSource i;
                startHTTPPoller handler lastLt ctx
            | None => panic
            end
        | None => mret tt
        end;
    if onFallback (factory w) then spawn FallbackNotice else mret tt).

(** [TriggerFallback]: the closure runs at most once. *)
Definition TriggerFallback (i : nat) : PrM O unit :=
  s ← source i;
  match s with
  | Some (WS s) =>
      let c := WebSocketSubscriber.client s in
      match WebSocketClient.onFallback c with
      | Some fb =>
          if WebSocketClient.fallbackTriggered fb then mret tt
          else
            let fb' := WebSocketClient.mkFallback (WebSocketClient.fallbackHandler fb) true in
            _ ← put i (WS (WebSocketSubscriber.set_client
                             (WebSocketClient.set_onFallback c (Some fb')) s));
            fallbackToHTTP (WebSocketClient.fallbackHandler fb)
      | None => mret tt
      end
  | _ => panic
  end.

(** [WebSocketSubscriber.Start] *)
Definition StartSubscriber (i : nat) (ctx : Context) : PrM O unit :=
  runtimeCtx ← WithCancel ctx;
  s ← source i;
  match s with
  | Some (WS s) =>
      let s := WebSocketSubscriber.set_ctx runtimeCtx s in
      connected ← onClient i s WebSocketClient.Connect;
      match connected with
      | Err _ => TriggerFallback i
      | Ok _ =>
          s ← source i;
          match s with
          | Some (WS s) =>
              subscribed ← onClient i s WebSocketClient.Subscribe;
              match subscribed with
              | Err _ => TriggerFallback i
              | Ok _ => _ ← spawn (PingLoop i runtimeCtx);
                        spawn (ReadLoop i runtimeCtx Selecting)
              end
          | _ => panic
          end
      end
  | _ => panic
  end.

Definition StartSource (i : nat) (ctx : Context) : PrM O unit :=
  s ← source i;
  match s with
  | Some (HTTP _) => StartPoller i ctx
  | Some (WS _) => StartSubscriber i ctx
  | None => panic
  end.

Definition newSubscriber (handler : EventHandler O) : PrM O nat :=
  w ← process;
  let cfg := config (factory w) in
  new (WS (WebSocketSubscriber.Subscribe handler
    (WebSocketSubscriber.NewWebSocketSubscriber (V3WSURL cfg) (ContractAddress cfg)
       (MaxReconnect cfg) (Some (WebSocketClient.mkFallback handler false))))).

Definition NewEventSourceFactory (cfg : FactoryConfig) : Factory O :=
  mkFactory cfg (Client.mk (V2BaseURL cfg) (ContractAddress cfg)) None false (OnFallback cfg)
    None.

Definition CreateEventSource (handler : EventHandler O) : PrM O nat :=
  withSourceMu (
    w ← process;
    let cfg := config (factory w) in
    if EnableWebSocket cfg && bool_decide (EventSourceType cfg = SourceTypeWebSocket) then
      i ← newSubscriber handler;
      _ ← match onLtUpdated (factory w) with
          | Some cb => onSource i (setSourceCallback (Some cb))
          | None => mret tt
          end;
      _ ← change (λ w, set_factory (set_currentSource (Some i) (factory w)) w);
      mret i
    else createHTTPPoller handler).

(** Stop the current source, and hand over its cursor. *)
Definition takeOver : PrM O string :=
  w ← process;
  match currentSource (factory w) with
  | Some i =>
      s ← source i;
      match s with
      | Some s => _ ← StopSource i; mret (sourceLt s)
      | None => panic
      end
  | None => mret EmptyString
  end.

Definition SwitchToWebSocket (ctx : Context) (handler : EventHandler O) :
    PrM O (result unit) :=
  w ← process;
  if negb (EnableWebSocket (config (factory w))) then
    mret (Err (ENew "WebSocket is not enabled in configuration"))
  else
    withSourceMu (
      lastLt ← takeOver;
      i ← newSubscriber handler;
      _ ← onSource i (setSourceLt lastLt);
      w ← process;
      _ ← match onLtUpdated (factory w) with
          | Some cb => onSource i (setSourceCallback (Some cb))
          | None => mret tt
          end;
      _ ← change (λ w, set_factory (set_currentSource (Some i) (factory w)) w);
      _ ← StartSubscriber i ctx;
      mret (Ok tt)).

Definition SwitchToHTTP (ctx : Context) (handler : EventHandler O) : PrM O unit :=
  withSourceMu (lastLt ← takeOver; startHTTPPoller handler lastLt ctx).

Definition SetOnLtUpdated (callback : option (string → ST O unit)) : PrM O unit :=
  withSourceMu (
    _ ← change (λ w, set_factory (set_onLtUpdated callback (factory w)) w);
    w ← process;
    match currentSource (factory w) with
    | Some i => onSource i (setSourceCallback callback)
    | None => mret tt
    end).

Definition GetCurrentSource (w : Process O) : option nat := currentSource (factory w).

Definition currentOf (w : Process O) : option (Source O) :=
  currentSource (factory w) ≫= λ i, sources w !! i.

Definition GetCurrentSourceType (w : Process O) : string :=
  match currentOf w with Some s => GetSourceType s | None => EmptyString end.

Definition IsConnected (w : Process O) : bool :=
  match currentOf w with Some s => sourceConnected s | None => false end.

Definition GetHTTPClient (w : Process O) : Client.t := httpClient (factory w).

(** ** The goroutines *)

(** One call of [reconnect]: the wait is not a state change. *)
Definition reconnect (i : nat) : PrM O (result unit) :=
  s ← source i;
  match s with
  | Some (WS s) =>
      let c := WebSocketSubscriber.client s in
      let attempt := wrap64 (WebSocketClient.reconnectAttempt c + 1) in
      let s := WebSocketSubscriber.set_client (WebSocketClient.set_attempt c attempt) s in
      _ ← put i (WS s);
      if WebSocketClient.maxReconnect c <? attempt then
        _ ← TriggerFallback i;
        mret (Err (ENew "max reconnection attempts exceeded"))
      else
        connected ← onClient i s WebSocketClient.Connect;
        match connected with
        | Err e => mret (Err e)
        | Ok _ =>
            s ← source i;
            match s with
            | Some (WS s) =>
                subscribed ← onClient i s WebSocketClient.Subscribe;
                match subscribed with
                | Err e =>
                    s ← source i;
                    match s with
                    | Some (WS s) =>
                        _ ← onClient i s (WebSocketClient.update WebSocketClient.handleDisconnect);
                        mret (Err e)
                    | _ => panic
                    end
                | Ok _ => mret (Ok tt)
                end
            | _ => panic
            end
        end
  | _ => panic
  end.

(** A method of subscriber [i] together with what its handler acts on. *)
Definition onSubscriber {A} (i : nat) (s : WebSocketSubscriber.t O)
    (m : WebSocketSubscriber.SM O A) : PrM O A := λ w,
  let '(a, (s, o)) := m (s, world w) in
  Done a (set_world o (set_sources (<[i := WS s]> (sources w)) w)).

Definition moveTo (k : nat) (l : Loop) : PrM O unit :=
  change (λ w, set_loops (<[k := l]> (loops w)) w).

(** [readLoop] of goroutine [k] up to its call of [ReadMessage]: where it stops for a
    closed channel it ends. *)
Definition readSelect (k i : nat) (ctx : Context) : PrM O unit :=
  s ← source i;
  w ← process;
  match s with
  | Some (WS s) =>
      if done w ctx || WebSocketClient.stopped (WebSocketSubscriber.client s) then moveTo k Ended
      else if WebSocketClient.isConnected (WebSocketSubscriber.client s) then
        moveTo k (ReadLoop i ctx Reading)
      else
        r ← reconnect i;
        match r with
        | Ok _ => moveTo k (ReadLoop i ctx Reading)
        | Err _ => mret tt
        end
  | _ => panic
  end.

(** [ReadMessage] returns: a message, or an error ([None]). *)
Definition readReturns (k i : nat) (ctx : Context) (data : option string) : PrM O unit :=
  s ← source i;
  match s with
  | Some (WS s) =>
      _ ← match data with
          | Some data =>
              _ ← onSubscriber i s (WebSocketSubscriber.processMessage data); mret tt
          | None => onClient i s (WebSocketClient.update WebSocketClient.handleDisconnect)
          end;
      moveTo k (ReadLoop i ctx Selecting)
  | _ => panic
  end.

(** One cycle of [Poller.poll] for source [i]; [None] when the fuel runs out. *)
Definition pollSource (fuel : nat) (i : nat) (w : Process O) : option (Process O) :=
  match sources w !! i with
  | Some (HTTP p) =>
      let '(r, (p, (net', o))) := Poller.poll fuel (p, (net w, world w)) in
      match r with
      | Some _ => Some (set_world o (set_net net' (set_sources (<[i := HTTP p]> (sources w)) w)))
      | None => None
      end
  | _ => None
  end.

Definition pollerDone (w : Process O) (i : nat) (ctx : Context) : bool :=
  done w ctx ||
  match sources w !! i with Some (HTTP p) => Poller.stopCh_closed p | _ => false end.

(** [defer p.isRunning.Store(false)] *)
Definition endPoller (s : Source O) : Source O :=
  match s with HTTP p => HTTP (Poller.set_running p false (Poller.stopCh_closed p)) | s => s end.

(** What a goroutine may do next. Before its first [select] a poll loop has no tick to
    receive; later, when several channels are ready, [select] takes any of them. *)
Inductive run : Process O → Process O → Prop :=
  | run_start w w' k i ctx :
      loops w !! k = Some (StartLoop i ctx) →
      (_ ← moveTo k Ended; StartSource i ctx) w = Done tt w' →
      run w w'
  | run_poll_enter w k i ctx :
      loops w !! k = Some (PollLoop i ctx Entering) → pollerDone w i ctx = false →
      run w (set_loops (<[k := PollLoop i ctx Looping]> (loops w)) w)
  | run_poll_end w k i ctx ph s :
      loops w !! k = Some (PollLoop i ctx ph) → pollerDone w i ctx = true →
      sources w !! i = Some s →
      run w (set_loops (<[k := Ended]> (loops w))
              (set_sources (<[i := endPoller s]> (sources w)) w))
  | run_poll w w' k i ctx fuel :
      loops w !! k = Some (PollLoop i ctx Looping) → pollSource fuel i w = Some w' →
      run w w'
  | run_read_select w w' k i ctx :
      loops w !! k = Some (ReadLoop i ctx Selecting) → readSelect k i ctx w = Done tt w' →
      run w w'
  | run_read w w' k i ctx data :
      loops w !! k = Some (ReadLoop i ctx Reading) → readReturns k i ctx data w = Done tt w' →
      run w w'
  | run_ping w w' k i ctx s :
      loops w !! k = Some (PingLoop i ctx) → sources w !! i = Some (WS s) →
      onClient i s WebSocketClient.ping w = Done tt w' →
      run w w'
  | run_ping_end w k i ctx s :
      loops w !! k = Some (PingLoop i ctx) → sources w !! i = Some (WS s) →
      done w ctx || WebSocketClient.stopped (WebSocketSubscriber.client s) = true →
      run w (set_loops (<[k := Ended]> (loops w)) w)
  | run_pong w i s now :
      sources w !! i = Some (WS s) →
      run w (set_sources (<[i := WS (WebSocketSubscriber.set_client
               (WebSocketClient.set_lastPong (WebSocketSubscriber.client s) now) s)]>
               (sources w)) w).
End Sources.
