(* ===== verification/EventSourceSpec.v ===== *)
(** * What the WebSocket source and the factory promise

    The WebSocket cursor only moves forward, and moves over transactions that failed; the
    reconnection waits double up to a limit; a switch to HTTP carries the cursor over;
    the automatic fallback ends ingestion, and a switch to WebSocket that cannot connect
    never returns. *)
From S2P Require Import Prelude GoTypes Toncenter Poller PollerSpec WebSocket EventSource.

(** ** The subscriber's cursor *)

Section Subscriber.
Context `{CE : ClientEnv} `{WE : WsEnv} {O : Type}.
Implicit Types s : WebSocketSubscriber.t O.

Definition ws_cursor s : Z := lt_value (normalizeLt (WebSocketSubscriber.lastProcessedLt s)).

Lemma normalizeLt_idem lt : normalizeLt (normalizeLt lt) = normalizeLt lt.
Proof. unfold normalizeLt, defaultLastProcessedLt. by repeat case_bool_decide. Qed.

Definition notified (callback : option (string → ST O unit)) (lt : string) (o : O) : O :=
  match callback with Some f => (f lt o).2 | None => o end.

Definition asked (h : option (EventHandler O)) (tx : Transaction.t) (o : O) : result unit * O :=
  match h with Some h => h tx o | None => (Ok tt, o) end.

(** [HandleTransaction] on every branch. *)
Lemma HandleTransaction_cases s o tx :
  WebSocketSubscriber.HandleTransaction tx (s, o) =
  if ws_cursor s <? lt_of tx then
    match asked (WebSocketSubscriber.handler s) tx o with
    | (Err e, o') => (Err e, (s, o'))
    | (Ok _, o') =>
        (Ok tt, (WebSocketSubscriber.set_checkpoint (normalizeLt (Transaction.Lt tx))
                   (Transaction.Hash tx) s,
                 notified (WebSocketSubscriber.onLtUpdated s)
                   (normalizeLt (Transaction.Lt tx)) o'))
    end
  else (Ok tt, (s, o)).
Proof.
  unfold WebSocketSubscriber.HandleTransaction, ws_cursor, lt_of, mbind, mret,
    WebSocketSubscriber.SM_bind, WebSocketSubscriber.SM_ret, WebSocketSubscriber.outside,
    ST_bind, ST_ret, zoom, gets, WebSocketSubscriber.subscriber, WebSocketSubscriber.update,
    modify.
  pose proof (compareLt_spec (normalizeLt (Transaction.Lt tx))
    (normalizeLt (WebSocketSubscriber.lastProcessedLt s))) as Hc. rewrite !normalizeLt_idem in Hc.
  cbn [fst snd gets].
  set (new := normalizeLt (Transaction.Lt tx)) in *.
  set (old := normalizeLt (WebSocketSubscriber.lastProcessedLt s)) in *.
  assert (compareLt new old = (lt_value old <? lt_value new)) as Hcmp.
  { apply eq_true_iff_eq. by rewrite Hc, Z.ltb_lt. }
  case_bool_decide as Heq.
  { by rewrite Heq, Z.ltb_irrefl. }
  rewrite Hcmp. destruct (lt_value old <? lt_value new) eqn:E; cbn [negb]; [|done].
  unfold asked, notified. destruct (WebSocketSubscriber.handler s) as [h|].
  - cbn [fst snd]. destruct (h tx o) as [[[]|e] o']; cbn [fst snd gets]; [|done]. fold old. rewrite Hcmp.
    cbn [fst snd gets]. destruct (WebSocketSubscriber.onLtUpdated s) as [f|]; [|done].
    cbn [fst snd]. by destruct (f new o') as [[] ?].
  - cbn [fst snd gets]. fold old. rewrite Hcmp. cbn [fst snd].
    destruct (WebSocketSubscriber.onLtUpdated s) as [f|]; [|done].
    cbn [fst snd]. by destruct (f new o) as [[] ?].
Qed.
End Subscriber.

Section Stream.
Context `{CE : ClientEnv} `{WE : WsEnv} {S : Type}.
Context (h : EventHandler S) (callback : option (string → ST S unit)).

(** The subscriber, the state of the handler, and the transactions it accepted. *)
Notation St := (WebSocketSubscriber.t (S * list Transaction.t) * (S * list Transaction.t))%type.
Implicit Types st : St.

(** [processMessage] looks at no result of the handler. *)
Definition deliver (txs : list Transaction.t) : ST St unit :=
  for_each txs (λ tx st, (tt, (WebSocketSubscriber.HandleTransaction tx st).2)).

Definition watched st : Prop :=
  WebSocketSubscriber.handler st.1 = Some (logged h) ∧
  WebSocketSubscriber.onLtUpdated st.1 = unlogged <$> callback.

Lemma HandleTransaction_logged tx st :
  watched st →
  let st' := (WebSocketSubscriber.HandleTransaction tx st).2 in
  watched st' ∧
  if ws_cursor st.1 <? lt_of tx then
    if is_ok (h tx st.2.1).1 then ws_cursor st'.1 = lt_of tx ∧ st'.2.2 = st.2.2 ++ [tx]
    else ws_cursor st'.1 = ws_cursor st.1 ∧ st'.2.2 = st.2.2
  else st' = st.
Proof.
  destruct st as [s o]. intros [Hh Hc]. cbn zeta. cbn [fst snd] in *.
  rewrite HandleTransaction_cases, Hh, Hc. destruct (ws_cursor s <? lt_of tx); [|by split].
  unfold asked, logged. destruct (h tx o.1) as [[[]|e] o']; simpl.
  - unfold ws_cursor, watched, lt_of. simpl. rewrite normalizeLt_idem, Hh, Hc.
    destruct callback as [f|]; simpl; [|done]. unfold unlogged. by destruct (f _ _).
  - by destruct o.
Qed.

(** What a stream of transactions leaves behind. *)
Record streamed (txs : list Transaction.t) st st' (log : list Transaction.t) : Prop := {
  streamed_watched : watched st';
  streamed_log : st'.2.2 = st.2.2 ++ log;
  streamed_ascending : ascending lt_of log;
  streamed_sub x : x ∈ log → x ∈ txs ∧ ws_cursor st.1 < lt_of x ≤ ws_cursor st'.1;
  streamed_cursor : ws_cursor st'.1 = from_option lt_of (ws_cursor st.1) (last log);
  streamed_all : (∀ tx s, is_ok (h tx s).1 = true) →
    (∀ x, x ∈ txs → lt_of x ≤ ws_cursor st'.1) ∧
    (ascending lt_of txs → (∀ x, x ∈ txs → ws_cursor st.1 < lt_of x) → log = txs) }.

Lemma streamed_mono txs st st' log : streamed txs st st' log → ws_cursor st.1 ≤ ws_cursor st'.1.
Proof.
  intros [_ _ _ Hsub -> _]. destruct (last log) as [x|] eqn:Hl; simpl; [|lia].
  apply last_Some_elem_of, Hsub in Hl. lia.
Qed.

Lemma deliver_streamed txs st :
  watched st → ∃ log, streamed txs st (deliver txs st).2 log.
Proof.
  revert st. induction txs as [|tx txs IH]; intros st Hst.
  { exists []. split; simpl; [done|by rewrite app_nil_r|constructor|set_solver|done|set_solver]. }
  pose proof (HandleTransaction_logged tx st Hst) as H. cbn zeta in H.
  change (deliver (tx :: txs) st) with
    (deliver txs (WebSocketSubscriber.HandleTransaction tx st).2).
  set (st1 := (WebSocketSubscriber.HandleTransaction tx st).2) in *. destruct H as [H1 H].
  destruct (IH st1 H1) as [log IHl]. pose proof (streamed_mono _ _ _ _ IHl) as Hmono.
  destruct IHl as [Hw Hlog Hasc Hsub Hcur Hall].
  set (st2 := (deliver txs st1).2) in *. clearbody st1 st2.
  destruct (ws_cursor st.1 <? lt_of tx) eqn:E.
  - apply Z.ltb_lt in E. destruct (is_ok (h tx st.2.1).1) eqn:Hok; destruct H as [Hc1 Hl1].
    + exists (tx :: log). split; [done|by rewrite Hlog, Hl1, <-app_assoc| |..].
      * constructor; [done|]. apply Forall_forall. intros x Hx. apply Hsub in Hx. lia.
      * intros x [->|Hx]%elem_of_cons; [split; [left|lia]|].
        apply Hsub in Hx as [Hx ?]. split; [by right|lia].
      * rewrite Hcur, Hc1. rewrite last_cons. by destruct (last log).
      * intros Hyes. specialize (Hall Hyes) as [Ha Hb]. split.
        { intros x [->|Hx]%elem_of_cons; [lia|auto]. }
        intros Hs Hgt. inversion_clear Hs as [|?? Hs' Hx]. f_equal. apply Hb; [done|].
        intros x Hin. rewrite Forall_forall in Hx. specialize (Hx x Hin). lia.
    + exists log. split; [done|by rewrite Hlog, Hl1|done| |by rewrite Hcur, Hc1|].
      * intros x Hx. apply Hsub in Hx as [Hx ?]. split; [by right|lia].
      * intros Hyes. by rewrite Hyes in Hok.
  - apply Z.ltb_ge in E. subst st1. exists log. split; [done..| |done|].
    + intros x Hx. apply Hsub in Hx as [Hx ?]. split; [by right|lia].
    + intros Hyes. specialize (Hall Hyes) as [Ha Hb]. split.
      { intros x [->|Hx]%elem_of_cons; [lia|auto]. }
      intros _ Hgt. specialize (Hgt tx (list_elem_of_here _ _)). lia.
Qed.

(** Whatever transactions arrive over the WebSocket, and whichever of them the handler
    refuses, those it accepts have strictly increasing logical times above the starting
    cursor, and the cursor is that of the last one accepted; when the handler refuses
    none, the cursor ends above every transaction that arrived, and a stream in order is
    accepted whole. *)
Theorem subscriber_ascending txs st :
  watched st → ∃ log, streamed txs st (deliver txs st).2 log.
Proof. apply deliver_streamed. Qed.

(** A transaction that the handler refused is passed over once a newer one was
    accepted: it is not handed to the handler again, whatever arrives before it is
    delivered again. *)
Theorem refused_passed_over st a e b txs :
  watched st →
  let st1 := (WebSocketSubscriber.HandleTransaction a st).2 in
  (WebSocketSubscriber.HandleTransaction a st).1 = Err e →
  lt_of a < lt_of b → is_ok (h b st1.2.1).1 = true →
  let st2 := (deliver (b :: txs) st1).2 in
  WebSocketSubscriber.HandleTransaction a st2 = (Ok tt, st2).
Proof.
  intros Hst st1 Ha Hab Hb st2.
  pose proof (HandleTransaction_logged a st Hst) as [H1 H]. fold st1 in H1, H.
  pose proof (HandleTransaction_logged b st1 H1) as [H2 H'].
  destruct (deliver_streamed txs (WebSocketSubscriber.HandleTransaction b st1).2 H2)
    as [log Hl%streamed_mono].
  change (deliver txs (WebSocketSubscriber.HandleTransaction b st1).2).2 with st2 in Hl.
  assert (ws_cursor st1.1 = ws_cursor st.1 ∧ ws_cursor st.1 < lt_of a) as [E1 E2].
  { destruct st as [s o]. subst st1. rewrite HandleTransaction_cases in Ha |- *.
    cbn [fst snd] in *. destruct (ws_cursor s <? lt_of a) eqn:E; [|done]. apply Z.ltb_lt in E.
    by destruct (asked (WebSocketSubscriber.handler s) a o) as [[|] ?]. }
  destruct (ws_cursor st1.1 <? lt_of b) eqn:E; [|apply Z.ltb_ge in E; lia].
  rewrite Hb in H'. destruct H' as [H' _]. rewrite H' in Hl.
  destruct st2 as [s2 o2]. rewrite HandleTransaction_cases. cbn [fst] in Hl.
  destruct (ws_cursor s2 <? lt_of a) eqn:E3; [|done]. apply Z.ltb_lt in E3. lia.
Qed.
End Stream.

(** ** Reconnections *)

Lemma growBackoff_double n d :
  0 < d → d ≤ WebSocketClient.WSBackoffMax →
  WebSocketClient.growBackoff n d = Z.min (d * 2 ^ Z.of_nat n) WebSocketClient.WSBackoffMax.
Proof.
  intros Hd. revert d Hd. induction n as [|n IH]; intros d Hd Hmax; cbn [WebSocketClient.growBackoff].
  { rewrite Z.mul_1_r. lia. }
  rewrite wrap64_id by (unfold in_int64, MinInt64, MaxInt64, WebSocketClient.WSBackoffMax in *; lia).
  rewrite Nat2Z.inj_succ, Z.pow_succ_r, Z.mul_assoc by lia.
  destruct (WebSocketClient.WSBackoffMax <? d * 2) eqn:E.
  - apply Z.ltb_lt in E. pose proof (Z.pow_pos_nonneg 2 (Z.of_nat n) ltac:(lia) ltac:(lia)). nia.
  - apply Z.ltb_ge in E. apply IH; lia.
Qed.

(** The wait before reconnection attempt [n] is 1, 2, 4, 8 seconds and so on, doubling
    at every attempt and never above 16 seconds. *)
Theorem reconnectBackoff_spec n :
  1 ≤ n →
  WebSocketClient.reconnectBackoff n = Z.min (2 ^ (n - 1)) 16 * 10 ^ 9 ∧
  10 ^ 9 ≤ WebSocketClient.reconnectBackoff n ≤ WebSocketClient.WSBackoffMax.
Proof.
  intros Hn. assert (WebSocketClient.reconnectBackoff n = Z.min (2 ^ (n - 1)) 16 * 10 ^ 9) as ->.
  { unfold WebSocketClient.reconnectBackoff. rewrite growBackoff_double by done.
    rewrite Z2Nat.id by lia. unfold WebSocketClient.WSBackoffInitial, WebSocketClient.WSBackoffMax.
    lia. }
  pose proof (Z.pow_pos_nonneg 2 (n - 1) ltac:(lia) ltac:(lia)).
  unfold WebSocketClient.WSBackoffMax. split; [done|lia].
Qed.

(** ** A new poller *)

(** Run a program of [PrM] up to the next thing it does not know. *)
Ltac pr_eval := cbv beta iota zeta delta
  [mbind PrM_bind mret PrM_ret process change panic withSourceMu source put new spawn moveTo
   onClient onSource WithCancel cancel set_sources set_loops set_contexts set_factory set_wire
   set_net set_world set_currentSource set_sourceMu set_onLtUpdated sources loops contexts
   cancelled factory wire net world config httpClient currentSource sourceMu onFallback
   onLtUpdated StopSource StartPoller TriggerFallback fallbackToHTTP StartSubscriber
   newSubscriber setSourceLt setSourceCallback default from_option id negb andb orb].
Tactic Notation "pr_eval" "in" hyp(H) := cbv beta iota zeta delta
  [mbind PrM_bind mret PrM_ret process change panic withSourceMu source put new spawn moveTo
   onClient onSource WithCancel cancel set_sources set_loops set_contexts set_factory set_wire
   set_net set_world set_currentSource set_sourceMu set_onLtUpdated sources loops contexts
   cancelled factory wire net world config httpClient currentSource sourceMu onFallback
   onLtUpdated StopSource StartPoller TriggerFallback fallbackToHTTP StartSubscriber
   newSubscriber setSourceLt setSourceCallback default from_option id negb andb orb] in H.

(** A program that starts with a step that is done. *)
Lemma bind_done {O A B} (m : PrM O A) (k : A → PrM O B) w a w' :
  m w = Done a w' → (m ≫= k) w = k a w'.
Proof. unfold mbind, PrM_bind. by intros ->. Qed.

Section Factory.
Context `{CE : ClientEnv} `{WE : WsEnv} {O : Type}.
Implicit Types w : Process O.

Lemma lookup_new {A} (l : list A) (x : A) : (l ++ [x]) !! length l = Some x.
Proof. by rewrite lookup_app_r, Nat.sub_diag by lia. Qed.

Lemma insert_new {A} (l : list A) (x y : A) : <[length l := y]> (l ++ [x]) = l ++ [y].
Proof. by rewrite insert_app_r_alt, Nat.sub_diag by lia. Qed.

(** The poller that takes over: its cursor, its callback, started. *)
Definition freshPoller (f : Factory O) (h : EventHandler O) (lt : string) : Poller.t O :=
  let p := Poller.SetLastProcessedLt lt
             (Poller.NewPollerWithIntervals (httpClient f) h 0
                (cfgMinPollInterval (config f)) (cfgMaxPollInterval (config f))) in
  Poller.Start (match onLtUpdated f with
                | Some cb => Poller.SetOnLtUpdated (Some cb) p
                | None => p
                end).

Lemma startHTTPPoller_eq h lt ctx w :
  startHTTPPoller h lt ctx w =
  Done tt (mkProcess (sources w ++ [HTTP (freshPoller (factory w) h lt)])
             (loops w ++ [PollLoop (length (sources w)) ctx Entering])
             (contexts w) (cancelled w)
             (set_currentSource (Some (length (sources w))) (factory w))
             (wire w) (net w) (world w)).
Proof.
  destruct w as [srcs lps ctxs canc f wr nt o].
  unfold startHTTPPoller, createHTTPPoller, onSource, StartPoller, source, put, new, spawn,
    process, change, mbind, PrM_bind, mret, PrM_ret, freshPoller.
  simpl. rewrite lookup_new. cbn -[Poller.NewPollerWithIntervals Poller.Start].
  destruct f as [cfg hc cur mu fb cb]; cbn -[Poller.NewPollerWithIntervals Poller.Start].
  destruct cb as [cb|]; cbn -[Poller.NewPollerWithIntervals Poller.Start];
    rewrite !insert_new, !lookup_new; cbn -[Poller.NewPollerWithIntervals Poller.Start];
    rewrite ?insert_new, ?lookup_new; cbn -[Poller.NewPollerWithIntervals Poller.Start];
    by rewrite ?insert_new.
Qed.

Lemma freshPoller_spec f h lt :
  Poller.handler (freshPoller f h lt) = h ∧
  Poller.client (freshPoller f h lt) = httpClient f ∧
  Poller.lastProcessedLt (freshPoller f h lt) = normalizeLt lt ∧
  Poller.onLtUpdated (freshPoller f h lt) = onLtUpdated f ∧
  Poller.stopCh_closed (freshPoller f h lt) = false ∧
  Poller.isRunning (freshPoller f h lt) = true.
Proof.
  unfold freshPoller, Poller.NewPollerWithIntervals, Poller.Start.
  destruct (onLtUpdated f) eqn:E; repeat (simpl; case_match; simplify_eq/=); by rewrite ?E.
Qed.

(** The process after a source that was started gave way to a poller. *)
Definition fallenBack (h : EventHandler O) (i : nat) (s : WebSocketSubscriber.t O) w :
    Process O :=
  let ctx := default Background (WebSocketSubscriber.ctx s) in
  mkProcess
    (<[i := WS (WebSocketSubscriber.set_client
                  (WebSocketClient.Stop (WebSocketSubscriber.client s)) s)]> (sources w) ++
     [HTTP (freshPoller (factory w) h (WebSocketSubscriber.lastProcessedLt s))])
    (loops w ++ [PollLoop (length (sources w)) ctx Entering] ++
     if onFallback (factory w) then [FallbackNotice] else [])
    (contexts w) (match ctx with [] => cancelled w | n :: _ => n :: cancelled w end)
    (set_currentSource (Some (length (sources w))) (factory w))
    (wire w) (net w) (world w).

Lemma fallbackToHTTP_eq h i s w :
  sourceMu (factory w) = false → currentSource (factory w) = Some i →
  sources w !! i = Some (WS s) →
  fallbackToHTTP h w = Done tt (fallenBack h i s w).
Proof.
  intros Hmu Hcur Hi. destruct w as [srcs lps ctxs canc [cfg hc cur mu fb cb] wr nt o].
  simpl in *. subst mu cur. pr_eval. rewrite Hi. pr_eval. rewrite Hi. pr_eval.
  unfold fallenBack. destruct (WebSocketSubscriber.ctx s) as [[|n c]|]; pr_eval;
    rewrite startHTTPPoller_eq; pr_eval; rewrite length_insert; destruct fb;
    rewrite ?app_nil_r, <- ?app_assoc; reflexivity.
Qed.

(** Can the current source be stopped without a panic? *)
Definition stoppable w : Prop :=
  match currentSource (factory w) with
  | Some i => match sources w !! i with
              | Some (HTTP p) => Poller.stopCh_closed p = false
              | Some (WS _) => True
              | None => False
              end
  | None => True
  end.

Definition currentLt w : string :=
  match currentOf w with Some s => sourceLt s | None => EmptyString end.

(** What [takeOver] makes of the process: the current source is stopped. *)
Definition stopCurrent w : Process O :=
  match currentSource (factory w) with
  | Some i =>
      match sources w !! i with
      | Some (HTTP p) => set_sources (<[i := HTTP (Poller.set_running p false true)]> (sources w)) w
      | Some (WS s) =>
          set_sources (<[i := WS (WebSocketSubscriber.set_client
                           (WebSocketClient.Stop (WebSocketSubscriber.client s)) s)]> (sources w))
            (match WebSocketSubscriber.ctx s with
             | Some (n :: _) => set_contexts (contexts w) (n :: cancelled w) w
             | _ => w
             end)
      | None => w
      end
  | None => w
  end.

Lemma takeOver_eq w : stoppable w → takeOver w = Done (currentLt w) (stopCurrent w).
Proof.
  unfold stoppable, currentLt, currentOf, stopCurrent.
  destruct w as [srcs lps ctxs canc [cfg hc [i|] mu fb cb] wr nt o]; [|done]. simpl.
  unfold takeOver. pr_eval. destruct (srcs !! i) as [[p|s]|] eqn:Hi; [|intros _|done].
  - intros Hp. rewrite Hi. pr_eval. unfold Poller.Stop. by rewrite Hp.
  - rewrite Hi. pr_eval. by destruct (WebSocketSubscriber.ctx s) as [[|n c]|].
Qed.

Lemma stopCurrent_same w :
  loops (stopCurrent w) = loops w ∧ factory (stopCurrent w) = factory w ∧
  world (stopCurrent w) = world w ∧ wire (stopCurrent w) = wire w ∧
  length (sources (stopCurrent w)) = length (sources w).
Proof.
  unfold stopCurrent. destruct w as [srcs lps ctxs canc [cfg hc [i|] mu fb cb] wr nt o]; [|done].
  cbn -[Poller.set_running WebSocketClient.Stop].
  destruct (srcs !! i) as [[p|s]|]; cbn -[Poller.set_running WebSocketClient.Stop];
    [by rewrite length_insert| |done].
  destruct (WebSocketSubscriber.ctx s) as [[|m c]|];
    cbn -[Poller.set_running WebSocketClient.Stop]; by rewrite length_insert.
Qed.

Lemma stopCurrent_locked b w :
  let f := set_sourceMu b (factory w) in
  sources (stopCurrent (set_factory f w)) = sources (stopCurrent w).
Proof.
  unfold stopCurrent. destruct w as [srcs lps ctxs canc [cfg hc [i|] mu fb cb] wr nt o]; [|done].
  cbn -[Poller.set_running WebSocketClient.Stop].
  by destruct (srcs !! i) as [[p|[? ? ? ? ? [[|m c]|]]]|].
Qed.

(** Switching to HTTP polling stops the source in use, whichever it is, and starts a
    poller with the given handler that goes on from its cursor, with the callback the
    factory has, and becomes the current source. *)
Theorem SwitchToHTTP_spec ctx h w :
  sourceMu (factory w) = false → stoppable w →
  let n := length (sources w) in
  ∃ w' p, SwitchToHTTP ctx h w = Done tt w' ∧
    sources w' = sources (stopCurrent w) ++ [HTTP p] ∧ currentSource (factory w') = Some n ∧
    loops w' = loops w ++ [PollLoop n ctx Entering] ∧
    Poller.lastProcessedLt p = normalizeLt (currentLt w) ∧ Poller.handler p = h ∧
    Poller.onLtUpdated p = onLtUpdated (factory w) ∧ Poller.isRunning p = true ∧
    Poller.stopCh_closed p = false ∧ sourceMu (factory w') = false ∧ world w' = world w.
Proof.
  intros Hmu Hst n. subst n.
  set (f := set_sourceMu true (factory w)).
  assert (stoppable (set_factory f w)) as Hst' by exact Hst.
  unfold SwitchToHTTP, withSourceMu. rewrite Hmu. fold f. unfold mbind, PrM_bind.
  rewrite takeOver_eq by done. rewrite startHTTPPoller_eq.
  change (currentLt (set_factory f w)) with (currentLt w).
  destruct (stopCurrent_same (set_factory f w)) as (E1 & E2 & E3 & _ & E4).
  destruct (freshPoller_spec f h (currentLt w)) as (H1 & H2 & H3 & H4 & H5 & H6).
  eexists _, (freshPoller f h (currentLt w)). split; [reflexivity|].
  cbn -[freshPoller stopCurrent]. rewrite E1, E2, E3, E4. subst f.
  rewrite stopCurrent_locked. by split_and!.
Qed.

(** Switching to the WebSocket when the connection cannot be made blocks for ever: the
    failure triggers the fallback, which locks the factory's mutex that the switch still
    holds. *)
Theorem SwitchToWebSocket_deadlock ctx h w :
  EnableWebSocket (config (factory w)) = true → sourceMu (factory w) = false → stoppable w →
  (∀ u, url_Parse (V3WSURL (config (factory w))) = Ok u → is_Some (dial (dials (wire w)) u)) →
  SwitchToWebSocket ctx h w = Deadlock.
Proof.
  destruct w as [srcs lps ctxs canc [cfg hc cur mu fb cb] wr nt o]. simpl.
  intros Hen -> Hst Hdial. unfold SwitchToWebSocket. pr_eval. rewrite Hen. pr_eval.
  rewrite takeOver_eq by exact Hst. match goal with |- context [stopCurrent ?w] =>
    destruct (stopCurrent_same w) as (_ & E1 & _ & E2 & _); destruct (stopCurrent w) as
    [srcs' lps' ctxs' canc' f' wr' nt' o'] end.
  simpl in E1, E2. subst f' wr'. pr_eval.
  rewrite lookup_new. pr_eval. rewrite insert_new.
  assert (∀ c wr, WebSocketClient.isConnected c = false → WebSocketClient.wsURL c = V3WSURL cfg →
    (∀ u, url_Parse (V3WSURL cfg) = Ok u → is_Some (dial (dials wr) u)) →
    ∃ e wr', WebSocketClient.Connect (O := O) (c, wr) = (Err e, (c, wr'))) as Hconnect.
  { intros c wr1 Hc Hu Hd. unfold WebSocketClient.Connect.
    cbv [mbind WebSocketClient.CM_bind ST_bind WebSocketClient.client gets fst snd].
    rewrite Hc, Hu. destruct (url_Parse (V3WSURL cfg)) as [u|e]; [|by eexists _, _].
    destruct (Hd u eq_refl) as [e He]. eexists _, _.
    unfold WebSocketClient.onWire, zoom, WebSocketClient.dialContext. cbn [fst snd].
    rewrite He. reflexivity. }
  destruct cb as [cb|]; pr_eval; rewrite ?lookup_new; pr_eval; rewrite ?insert_new, ?lookup_new;
    pr_eval;
    match goal with |- context [WebSocketClient.Connect (?c, ?wr)] =>
      destruct (Hconnect c wr) as (e & wr' & ->); [done|done|exact Hdial|] end;
    pr_eval; rewrite ?insert_new, ?lookup_new; pr_eval; reflexivity.
Qed.
End Factory.

(** ** Concrete sources *)

Module SourceRun.
Import PollerRun.

(** No WebSocket server. *)
Definition offline : WsEnv := {|
  url_Parse := λ s, Ok s; dial := λ _ _, Some (ENew "connection refused");
  write := λ _, None; ws_clock := Z.of_nat; json_Message := λ _, Err (ENew "bad message");
  json_Subscription := λ _, Err (ENew "bad message");
  json_Notification := λ _, Err (ENew "bad message") |}.
#[local] Existing Instance offline.
#[local] Instance serves : ClientEnv := serving page.

(** The transaction at 6 is refused. *)
Definition picky : EventHandler nat := λ tx n,
  (if bool_decide (Transaction.Lt tx = "6") then Err (ENew "database down") else Ok tt, S n).
Definition listening {O} (f : EventHandler O) : WebSocketSubscriber.t O :=
  WebSocketSubscriber.SetLastProcessedLt "5" (WebSocketSubscriber.Subscribe f
    (WebSocketSubscriber.NewWebSocketSubscriber "wss://toncenter" "EQ" 5 None)).
Definition stream := (listening (logged picky), (0%nat, [] : list Transaction.t)).

Lemma subscriber_ascending_witness :
  (deliver [tx "5" "0"; tx "6" "5"; tx "7" "6"; tx "6" "5"] stream).2.2 = (2%nat, [tx "7" "6"]) ∧
  ∃ log, streamed picky None [tx "5" "0"; tx "6" "5"; tx "7" "6"; tx "6" "5"] stream
    (deliver [tx "5" "0"; tx "6" "5"; tx "7" "6"; tx "6" "5"] stream).2 log.
Proof.
  split; [vm_compute; reflexivity|].
  apply (subscriber_ascending picky None [tx "5" "0"; tx "6" "5"; tx "7" "6"; tx "6" "5"] stream).
  split; reflexivity.
Defined.

Lemma refused_passed_over_witness :
  let st1 := (WebSocketSubscriber.HandleTransaction (tx "6" "5") stream).2 in
  let st2 := (deliver [tx "7" "6"] st1).2 in
  WebSocketSubscriber.HandleTransaction (tx "6" "5") st2 = (Ok tt, st2).
Proof.
  exact (refused_passed_over picky None stream (tx "6" "5") (ENew "database down") (tx "7" "6") []
    (conj eq_refl eq_refl) eq_refl eq_refl eq_refl).
Defined.

Lemma reconnectBackoff_spec_witness :
  WebSocketClient.reconnectBackoff 4 = 8 * 10 ^ 9 ∧
  WebSocketClient.reconnectBackoff 7 = 16 * 10 ^ 9.
Proof.
  split; [rewrite (proj1 (reconnectBackoff_spec 4 ltac:(lia)))
         |rewrite (proj1 (reconnectBackoff_spec 7 ltac:(lia)))]; reflexivity.
Defined.

(** A process whose current source is a subscriber at 5. *)
Definition running : Process nat :=
  mkProcess [WS (listening picky)] [] 0 []
    (mkFactory (mkFactoryConfig "https://toncenter" "EQ" 0 0 "wss://toncenter" true
       SourceTypeWebSocket 5 true) client (Some 0%nat) false true None)
    (mkWire 0 0 0) (mkNet 0 0) 0%nat.

Lemma SwitchToHTTP_spec_witness : ∃ w' p,
  SwitchToHTTP Background picky running = Done tt w' ∧ currentOf w' = Some (HTTP p) ∧
  Poller.lastProcessedLt p = "5".
Proof.
  destruct (SwitchToHTTP_spec Background picky running eq_refl I)
    as (w' & p & Hd & Hs & Hc & _ & Hlt & _).
  exists w', p. split; [exact Hd|]. split; [|exact Hlt].
  unfold currentOf. rewrite Hc. simpl. rewrite Hs. reflexivity.
Defined.

Lemma SwitchToWebSocket_deadlock_witness :
  SwitchToWebSocket Background picky running = Deadlock.
Proof.
  exact (SwitchToWebSocket_deadlock Background picky running eq_refl eq_refl I
    (λ _ _, mk_is_Some (Some (ENew "connection refused")) _ eq_refl)).
Defined.
End SourceRun.
