(* ===== verification/TonHandler.v ===== *)
(** * The lifecycle of blockchain ingestion

    internal/controller/blockchain/ton_event_handler.go, with the event-source methods of
    internal/usecase/blockchain_subscriber.go: which source is created, from where it
    resumes, and which checkpoints are handed to the callbacks. *)
From S2P Require Import Prelude GoTypes Entity Toncenter Poller WebSocket EventSource.

(** The part of [config.GameBackend] the handler reads; a duration is what
    [time.ParseDuration] makes of its string. *)
Record GameBackend := mkGameBackend {
  TONCenterV2URL : string; TONCenterV3WSURL : string; TONGameContractAddr : string;
  MinPollIntervalCfg : result Z; MaxPollIntervalCfg : result Z;
  EnableWebSocketCfg : bool; BlockchainEventSource : string; WebSocketReconnectMax : Z;
  ResumeFromCheckpoint : bool; ResumeEventSource : bool }.

Record SyncCheckpoint := mkCheckpoint {
  LastProcessedLt : string; EventSourceTypeOf : string; EventSourceConnected : bool }.

Definition resolveInitialEventSourceType (cfg : GameBackend)
    (checkpoint : option BlockchainSyncState.t) : string :=
  let sourceType := BlockchainEventSource cfg in
  match checkpoint with
  | None => sourceType
  | Some checkpoint =>
      if negb (ResumeEventSource cfg) then sourceType
      else
        let saved := BlockchainSyncState.EventSourceType checkpoint in
        if bool_decide (saved = SourceTypeHTTP) || bool_decide (saved = SourceTypeWebSocket)
        then saved else sourceType
  end.

Definition blank (s : string) : bool := bool_decide (TrimSpace s = EmptyString).

Definition shouldResumeCheckpoint (cfg : GameBackend)
    (checkpoint : option BlockchainSyncState.t) : bool :=
  ResumeFromCheckpoint cfg &&
  match checkpoint with
  | None => false
  | Some c =>
      negb (blank (BlockchainSyncState.LastProcessedLt c)) &&
      negb (blank (BlockchainSyncState.ContractAddress c)) &&
      bool_decide (TrimSpace (BlockchainSyncState.ContractAddress c)
                   = TrimSpace (TONGameContractAddr cfg))
  end.

Definition factoryConfig (cfg : GameBackend) (checkpoint : option BlockchainSyncState.t) :
    FactoryConfig := {|
  V2BaseURL := TONCenterV2URL cfg;
  ContractAddress := TONGameContractAddr cfg;
  cfgMinPollInterval :=
    match MinPollIntervalCfg cfg with Ok d => d | Err _ => 5 * 10 ^ 9 end;
  cfgMaxPollInterval :=
    match MaxPollIntervalCfg cfg with Ok d => d | Err _ => 30 * 10 ^ 9 end;
  V3WSURL := TONCenterV3WSURL cfg;
  EnableWebSocket := EnableWebSocketCfg cfg;
  EventSourceType := resolveInitialEventSourceType cfg checkpoint;
  MaxReconnect := WebSocketReconnectMax cfg;
  OnFallback := true |}.

(** What the sources act on: the state of the use case and of the callbacks, and the
    logical times the sources announced. An announcement is acted on when the step of the
    source that made it ends; that step changes nothing the callback reads after it. *)
Notation Outside S := (S * list string)%type.

Section Handler.
Context `{CE : ClientEnv} `{WE : WsEnv} {S : Type}.


Definition onState {A} (m : ST S A) : ST (Outside S) A := zoom fst (λ s o, (s, o.2)) m.
Definition announce (lt : string) : ST (Outside S) unit := modify (λ o, (o.1, o.2 ++ [lt])).

Definition tempEventHandler : EventHandler (Outside S) := λ _ o, (Ok tt, o).

Record Handler := mkHandler {
  subscriberUC : nat;                    (* [subscriberUC.eventSource] *)
  ctx : Context;
  onLtUpdated : option (string → ST S unit);
  onCheckpoint : option (SyncCheckpoint → ST S unit);
  onFallback : option (SyncCheckpoint → ST S unit) }.

(** The methods of the use case that go to its event source. *)
Definition GetLastProcessedLt (h : Handler) (w : Process (Outside S)) : string :=
  match sources w !! subscriberUC h with Some s => sourceLt s | None => EmptyString end.
Definition SetLastProcessedLt (h : Handler) (lt : string) : PrM (Outside S) unit :=
  let lt := if blank lt then "0" else lt in
  onSource (subscriberUC h) (setSourceLt lt).
Definition GetLastProcessedBlock (h : Handler) : Z := 0.
Definition uc_SetLastProcessedBlock (h : Handler) (block : Z) : PrM (Outside S) unit := mret tt.
Definition uc_GetSourceType (h : Handler) (w : Process (Outside S)) : string :=
  match sources w !! subscriberUC h with Some s => GetSourceType s | None => EmptyString end.
Definition uc_IsConnected (h : Handler) (w : Process (Outside S)) : bool :=
  match sources w !! subscriberUC h with Some s => sourceConnected s | None => false end.
Definition uc_Subscribe (h : Handler) : PrM (Outside S) unit := spawn (StartLoop (subscriberUC h) (ctx h)).
Definition uc_Stop (h : Handler) : PrM (Outside S) unit := StopSource (subscriberUC h).

(** [NewBlockchainSubscriberUseCase] registers the use case with its event source. *)
Definition registerUseCase (uc : EventHandler S) (i : nat) : PrM (Outside S) unit :=
  onSource i (subscribeSource (λ tx, onState (uc tx))).

Definition NewTONEventHandler (cfg : GameBackend) (uc : EventHandler S)
    (checkpoint : option BlockchainSyncState.t) : PrM (Outside S) Handler :=
  _ ← change (set_factory (NewEventSourceFactory (factoryConfig cfg checkpoint)));
  i ← CreateEventSource tempEventHandler;
  _ ← registerUseCase uc i;
  ctx ← WithCancel Background;
  let handler := mkHandler i ctx None None None in
  _ ← match checkpoint with
      | Some c =>
          if shouldResumeCheckpoint cfg checkpoint then
            SetLastProcessedLt handler (BlockchainSyncState.LastProcessedLt c)
          else mret tt
      | None => mret tt
      end;
  mret handler.

(** The process before anything was created, around a state of the use case; the servers
    may have answered before. *)
Definition boot (cfg : GameBackend) (checkpoint : option BlockchainSyncState.t) (nt : Net) (s : S) :
    Process (Outside S) :=
  mkProcess [] [] 0 [] (NewEventSourceFactory (factoryConfig cfg checkpoint))
    (mkWire 0 0 0) nt (s, []).

Definition GetSyncCheckpoint (h : Handler) (w : Process (Outside S)) : SyncCheckpoint :=
  mkCheckpoint (GetLastProcessedLt h w) (GetCurrentSourceType w) (IsConnected w).

Definition handler_GetSourceType (w : Process (Outside S)) : string := GetCurrentSourceType w.
Definition handler_IsConnected (w : Process (Outside S)) : bool := IsConnected w.

Definition callback {A} (f : option (A → ST S unit)) (a : A) (w : Process (Outside S)) :
    Process (Outside S) :=
  match f with
  | Some f => set_world (onState (f a) (world w)).2 w
  | None => w
  end.

Definition emitCheckpoint (h : Handler) (w : Process (Outside S)) : Process (Outside S) :=
  callback (onCheckpoint h) (GetSyncCheckpoint h w) w.

Definition emitFallback (h : Handler) (w : Process (Outside S)) : Process (Outside S) :=
  let checkpoint := GetSyncCheckpoint h w in
  callback (onCheckpoint h) checkpoint (callback (onFallback h) checkpoint w).

(** The closure that [refreshLtUpdateCallback] installs, for every announcement. *)
Definition ltUpdated (h : Handler) (w : Process (Outside S)) (lt : string) : Process (Outside S) :=
  emitCheckpoint h (callback (onLtUpdated h) lt w).

Definition drain (h : Handler) (w : Process (Outside S)) : Process (Outside S) :=
  fold_left (ltUpdated h) (world w).2 (set_world ((world w).1, []) w).

Definition refreshLtUpdateCallback : PrM (Outside S) unit := SetOnLtUpdated (Some announce).

Definition SetOnLtUpdated (f : string → ST S unit) (h : Handler) : PrM (Outside S) Handler :=
  _ ← refreshLtUpdateCallback;
  mret (mkHandler (subscriberUC h) (ctx h) (Some f) (onCheckpoint h) (onFallback h)).
Definition SetOnCheckpointUpdated (f : SyncCheckpoint → ST S unit) (h : Handler) :
    PrM (Outside S) Handler :=
  _ ← refreshLtUpdateCallback;
  mret (mkHandler (subscriberUC h) (ctx h) (onLtUpdated h) (Some f) (onFallback h)).
Definition SetOnFallback (f : SyncCheckpoint → ST S unit) (h : Handler) : Handler :=
  mkHandler (subscriberUC h) (ctx h) (onLtUpdated h) (onCheckpoint h) (Some f).

Definition Start (h : Handler) : PrM (Outside S) unit :=
  _ ← uc_Subscribe h; spawn CheckpointNotice.

Definition Stop (h : Handler) : PrM (Outside S) unit :=
  _ ← cancel (ctx h);
  _ ← uc_Stop h;
  change (emitCheckpoint h).

(** What [app.Run] does with the handler: create it, set its callbacks, start it. *)
Definition startIngestion (cfg : GameBackend) (uc : EventHandler S)
    (checkpoint : option BlockchainSyncState.t)
    (persist notify : SyncCheckpoint → ST S unit) : PrM (Outside S) Handler :=
  handler ← NewTONEventHandler cfg uc checkpoint;
  handler ← SetOnCheckpointUpdated persist handler;
  let handler := SetOnFallback notify handler in
  _ ← Start handler;
  mret handler.

(** A step of the process: a goroutine runs and the callbacks act on what it announced,
    the goroutine of a fallback notice runs, or [Start] goes on after its [go] statement. *)
Inductive step (h : Handler) : Process (Outside S) → Process (Outside S) → Prop :=
  | step_run w w' : run w w' → step h w (drain h w')
  | step_notice w k :
      loops w !! k = Some FallbackNotice →
      step h w (emitFallback h (set_loops (<[k := Ended]> (loops w)) w))
  | step_checkpoint w k :
      loops w !! k = Some CheckpointNotice →
      step h w (emitCheckpoint h (set_loops (<[k := Ended]> (loops w)) w)).
End Handler.
Arguments Handler : clear implicits.
