(* ===== verification/TonHandlerSpec.v ===== *)
(** * What the ingestion lifecycle promises

    Which source is created and from where it resumes; that in HTTP mode the process is
    the poller, forever; and that in WebSocket mode the fallback ends ingestion. *)
From S2P Require Import Prelude GoTypes Entity Toncenter Poller PollerSpec WebSocket EventSource EventSourceSpec TonHandler.

Lemma Start_same {O} (p : Poller.t O) :
  Poller.client (Poller.Start p) = Poller.client p ∧
  Poller.handler (Poller.Start p) = Poller.handler p ∧
  Poller.onLtUpdated (Poller.Start p) = Poller.onLtUpdated p ∧
  Poller.lastProcessedLt (Poller.Start p) = Poller.lastProcessedLt p.
Proof. unfold Poller.Start. by destruct (Poller.normalizePollIntervals _ _). Qed.

Section Spec.
Context `{CE : ClientEnv} `{CL : !ClientLaws CE} `{WE : WsEnv} {S : Type}.
Context (cfg : GameBackend) (uc : EventHandler S) (checkpoint : option BlockchainSyncState.t).
Context (persist notify : SyncCheckpoint → ST S unit).

Implicit Types w : Process (Outside S).

Definition usesWebSocket : bool :=
  EnableWebSocketCfg cfg &&
  bool_decide (resolveInitialEventSourceType cfg checkpoint = SourceTypeWebSocket).

(** The logical time ingestion starts from. *)
Definition resumeLt : string :=
  match checkpoint with
  | Some c => if shouldResumeCheckpoint cfg checkpoint
              then normalizeLt (BlockchainSyncState.LastProcessedLt c)
              else defaultLastProcessedLt
  | None => defaultLastProcessedLt
  end.

Definition theFactory : Factory (Outside S) :=
  mkFactory (factoryConfig cfg checkpoint) (Client.mk (TONCenterV2URL cfg) (TONGameContractAddr cfg))
    (Some 0%nat) false true (Some announce).

Definition theHandler : Handler S := mkHandler 0%nat [0%nat] None (Some persist) (Some notify).

(** The process when [app.Run] has started ingestion over the state [s]. *)
Definition started (src : Source (Outside S)) (nt : Net) (s : S) : Process (Outside S) :=
  mkProcess [src] [StartLoop 0 [0%nat]; CheckpointNotice] 1 [] theFactory (mkWire 0 0 0)
    nt (s, []).

Definition theHandlerFn : EventHandler (Outside S) := λ tx, onState (uc tx).

Definition firstPoller : Poller.t (Outside S) :=
  Poller.SetOnLtUpdated (Some announce) (Poller.set_lastProcessedLt
    (Poller.NewPollerWithIntervals (Client.mk (TONCenterV2URL cfg) (TONGameContractAddr cfg))
       theHandlerFn 0 (cfgMinPollInterval (factoryConfig cfg checkpoint))
       (cfgMaxPollInterval (factoryConfig cfg checkpoint))) resumeLt).

Definition firstSubscriber : WebSocketSubscriber.t (Outside S) :=
  WebSocketSubscriber.mk
    (WebSocketClient.NewWebSocketClient (TONCenterV3WSURL cfg) (TONGameContractAddr cfg)
       (WebSocketReconnectMax cfg) WebSocketClient.WSPingInterval
       (Some (WebSocketClient.mkFallback tempEventHandler false)))
    (Some theHandlerFn) resumeLt EmptyString (Some announce) None.

Definition firstSource : Source (Outside S) :=
  if usesWebSocket then WS firstSubscriber else HTTP firstPoller.

Lemma startIngestion_eq nt s :
  startIngestion cfg uc checkpoint persist notify (boot cfg checkpoint nt s)
  = Done theHandler (started firstSource nt s).
Proof.
  assert (∀ h, CreateEventSource (O := Outside S) h (boot cfg checkpoint nt s) = Done 0%nat
    (mkProcess [if usesWebSocket then
                  WS (WebSocketSubscriber.Subscribe h
                    (WebSocketSubscriber.NewWebSocketSubscriber (TONCenterV3WSURL cfg)
                       (TONGameContractAddr cfg) (WebSocketReconnectMax cfg)
                       (Some (WebSocketClient.mkFallback h false))))
                else HTTP (Poller.NewPollerWithIntervals
                       (Client.mk (TONCenterV2URL cfg) (TONGameContractAddr cfg)) h 0
                       (cfgMinPollInterval (factoryConfig cfg checkpoint))
                       (cfgMaxPollInterval (factoryConfig cfg checkpoint)))]
       [] 0 [] (set_currentSource (Some 0%nat)
                  (NewEventSourceFactory (factoryConfig cfg checkpoint)))
       (mkWire 0 0 0) nt (s, []))) as Hcreate.
  { intros h. pose proof (eq_refl usesWebSocket) as E. unfold usesWebSocket at 2 in E.
    unfold CreateEventSource, withSourceMu, mbind, PrM_bind, process.
    cbn -[newSubscriber createHTTPPoller EnableWebSocket EventSourceType] in *.
    change (EnableWebSocket _ && _) with usesWebSocket. clear E.
    by destruct usesWebSocket. }
  cbv beta iota delta [startIngestion NewTONEventHandler mbind PrM_bind change].
  change (set_factory _ (boot cfg checkpoint nt s)) with (boot cfg checkpoint nt s).
  rewrite Hcreate. cbv beta iota.
  unfold started, firstSource, theHandler, theFactory, firstPoller, firstSubscriber, resumeLt.
  destruct usesWebSocket; [|unfold Poller.NewPollerWithIntervals; destruct
    (Poller.normalizePollIntervals _ _)];
    (destruct checkpoint as [c|] eqn:Hc; [|reflexivity]); simpl;
    destruct (shouldResumeCheckpoint cfg (Some c)) eqn:Hr; try reflexivity;
    unfold SetLastProcessedLt; (assert (blank (BlockchainSyncState.LastProcessedLt c) = false) as ->
      by (unfold shouldResumeCheckpoint in Hr; destruct (blank _); [|done];
          by rewrite andb_false_r in Hr)); reflexivity.
Qed.

(** ** HTTP mode: the process is the poller *)

Section HTTPMode.
Context (HTTPmode : usesWebSocket = false).
Context (chain : nat → list Transaction.t).
Context (HH : honest (Client.mk (TONCenterV2URL cfg) (TONGameContractAddr cfg)) chain).
Context (Hlt : resumeLt ≠ "0") (Hdigits : ∃ z, ParseUint resumeLt = Some z).

(** [Good x s]: the use case has dealt with [x]; [Ck z s]: the checkpoint that is saved is
    at most [z]. *)
Context (Good : Transaction.t → S → Prop) (Ck : Z → S → Prop).
Context (Good_handled : ∀ tx s, (uc tx s).1 = Ok tt → Good tx (uc tx s).2).
Context (Good_uc : ∀ x tx s, Good x s → Good x (uc tx s).2).
Context (Good_persist : ∀ x c s, Good x s → Good x (persist c s).2).
Context (Ck_uc : ∀ z tx s, Ck z s → Ck z (uc tx s).2).
Context (Ck_mono : ∀ z z' s, z ≤ z' → Ck z s → Ck z' s).
Context (Ck_persist : ∀ z c s, ParseUint (LastProcessedLt c) = Some z → Ck z s →
  Ck z (persist c s).2).

Definition lt0 : Z := lt_value (normalizeLt resumeLt).

(** The goroutines of HTTP mode. *)
Definition http_loop (l : Loop) : Prop :=
  match l with
  | StartLoop i c => i = 0%nat ∧ c = [0%nat]
  | PollLoop i c _ => i = 0%nat ∧ c = [0%nat]
  | CheckpointNotice | Ended => True
  | _ => False
  end.

(** Everything after the starting point and up to the cursor was dealt with. *)
Record dealt (p : Poller.t (Outside S)) (calls : nat) (s : S) : Prop := {
  dealt_chain : ∃ pre log post, collected lt0 (chain calls) pre log post ∧
    (∀ x, x ∈ pre → lt_of x ≤ lt0) ∧
    Poller.lastProcessedLt p = advance resumeLt log ∧ (∀ x, x ∈ log → Good x s);
  dealt_saved : Ck (lt_value (normalizeLt (Poller.lastProcessedLt p))) s }.

Record http_ok w : Prop := {
  http_source : ∃ p, sources w = [HTTP p] ∧
    Poller.client p = Client.mk (TONCenterV2URL cfg) (TONGameContractAddr cfg) ∧
    Poller.handler p = theHandlerFn ∧ Poller.onLtUpdated p = Some announce ∧
    dealt p (calls (net w)) (world w).1;
  http_loops : ∀ k l, loops w !! k = Some l → http_loop l;
  http_outbox : (world w).2 = [] }.

Lemma Handled_good ob s seg s1 :
  Handled theHandlerFn (s, ob) seg s1 →
  s1.2 = ob ∧ (∀ x, x ∈ seg → Good x s1.1) ∧ (∀ x, Good x s → Good x s1.1) ∧
  (∀ z, Ck z s → Ck z s1.1).
Proof.
  intros H. remember (s, ob) as o eqn:Ho. revert s ob Ho.
  induction H as [o|o tx o1 txs o2 Hh _ IH]; intros s ob ->.
  { split_and!; [done|intros x Hx; by apply not_elem_of_nil in Hx|done|done]. }
  unfold theHandlerFn, onState, zoom in Hh. cbn [fst snd] in Hh.
  pose proof (Good_handled tx s) as Hg. pose proof (λ x, Good_uc x tx s) as Hk.
  pose proof (λ z, Ck_uc z tx s) as Hc.
  destruct (uc tx s) as [r s'] eqn:E. simplify_eq/=. specialize (Hg eq_refl).
  destruct (IH s' ob eq_refl) as (-> & H1 & H2 & H3). split_and!; auto.
  intros x [->|Hx]%elem_of_cons; auto.
Qed.

Lemma Stopped_good ob s rest s1 b :
  Stopped theHandlerFn rest (s, ob) s1 b →
  s1.2 = ob ∧ (∀ x, Good x s → Good x s1.1) ∧ (∀ z, Ck z s → Ck z s1.1).
Proof.
  inversion 1 as [|tx txs ? e o' Hh]; subst; [done|].
  unfold theHandlerFn, onState, zoom in Hh. cbn [fst snd] in Hh.
  pose proof (λ x, Good_uc x tx s) as Hk. pose proof (λ z, Ck_uc z tx s) as Hc.
  destruct (uc tx s) as [r s'] eqn:E. simplify_eq/=. auto.
Qed.

Notation client0 := (Client.mk (TONCenterV2URL cfg) (TONGameContractAddr cfg)).

Lemma dealt_live p n s : dealt p n s → Poller.lastProcessedLt p ≠ "0".
Proof.
  intros [(pre & log & post & [E _] & _ & -> & _) _]. unfold advance.
  destruct (last log) as [tx|] eqn:Hlast; [|done]. intros H0.
  destruct (chain_digits _ (honest_ok _ _ HH n) tx) as (_ & _ & Hp & Hpos).
  { rewrite E. apply last_Some_elem_of in Hlast. set_solver. }
  rewrite H0 in Hp. change (ParseUint "0") with (Some 0) in Hp. injection Hp. lia.
Qed.

Lemma dealt_digits p n s :
  dealt p n s →
  ParseUint (Poller.lastProcessedLt p) = Some (lt_value (normalizeLt (Poller.lastProcessedLt p))).
Proof.
  intros [(pre & log & post & [E _] & _ & -> & _) _]. unfold advance.
  destruct (last log) as [tx|] eqn:Hlast.
  - apply (chain_digits _ (honest_ok _ _ HH n) tx). rewrite E.
    apply last_Some_elem_of in Hlast. set_solver.
  - destruct Hdigits as [z Hz]. destruct (ParseUint_digits _ _ Hz) as (_ & _ & Hv). by rewrite Hv.
Qed.

Lemma collected_later cz n m pre seg post :
  (n ≤ m)%nat → collected cz (chain n) pre seg post →
  ∃ post', collected cz (chain m) pre seg post'.
Proof.
  intros Hle [E Hnew]. destruct (grows_le _ _ HH _ _ Hle) as [more Hmore].
  exists (post ++ more). split; [|done]. by rewrite Hmore, E, <-!app_assoc.
Qed.

(** One poll deals with the transactions it passes. *)
Lemma poll_dealt p nt s fuel st :
  Poller.client p = client0 → Poller.handler p = theHandlerFn →
  Poller.onLtUpdated p = Some announce → dealt p (calls nt) s →
  Poller.poll fuel (p, (nt, (s, []))) = (Some tt, st) →
  wired p st.1 ∧ dealt st.1 (calls st.2.1) st.2.2.1 ∧
  (st.2.2.2 = [] ∨ ∃ lt, st.2.2.2 = [lt]).
Proof.
  intros Hc Hh Hcb Hd Hpoll. pose proof (dealt_live _ _ _ Hd) as Hlive.
  pose proof (wp_poll (S := Outside S) _ chain HH fuel p nt (s, []) Hc Hlive) as Hwp.
  unfold wp in Hwp.  rewrite Hpoll in Hwp. destruct Hwp as (Hle & _ & Hok). cbn [fst snd] in *.
  destruct (Hok eq_refl) as [Hw Hstep]. split; [done|].
  destruct st as [p' [nt' o']]. cbn [fst snd] in *.
  destruct Hd as [(pre & log & post & Hcol & Hpre & Hcur & Hgood) Hck].
  destruct (collected_later _ _ _ _ _ _ Hle Hcol) as [more Hcol'].
  remember (s, []) as o eqn:Ho.
  destruct Hstep as [p2 Hsame|p2 pre' seg rest post' s1 s2 failed Hcol2 Hpre2 Hrun Hstop Hadv];
    subst o.
  { cbn [fst snd]. split; [|by left]. split.
    - exists pre, log, more. split_and!; [done|done|congruence|done].
    - by rewrite Hsame. }
  rewrite Hh in Hrun, Hstop.
  destruct (Handled_good _ _ _ _ Hrun) as (Hb1 & Hg1 & Hk1 & Hc1).
  destruct s1 as [s1 ob]. cbn [fst snd] in *. subst ob.
  destruct (Stopped_good _ _ _ _ _ Hstop) as (Hb2 & Hk2 & Hc2).
  assert ((called_back p seg s2).1 = s2.1 ∧
    ((called_back p seg s2).2 = [] ∨ ∃ lt, (called_back p seg s2).2 = [lt])) as [E1 E2].
  { unfold called_back. rewrite Hcb. destruct (last seg) as [tx|]; simpl; rewrite Hb2; eauto. }
  rewrite E1. split; [|done]. clear E1 E2.
  unfold cursor in Hcol2, Hpre2. rewrite Hcur in Hcol2, Hpre2.
  destruct Hcol2 as [E2 Hn2].
  destruct (collected_log _ _ HH resumeLt (chain (calls nt')) pre log more pre' seg
    (rest ++ post') (honest_ok _ _ HH _) Hcol' Hpre) as (pre0 & post0 & Hcol0 & Hpre0).
  { split; [by rewrite E2, <-!app_assoc|]. intros x Hx. apply Hn2. set_solver. }
  { exact Hpre2. }
  split.
  - exists pre0, (log ++ seg), post0. split_and!; [done|done|by rewrite Hadv, Hcur, advance_app|].
    intros x [Hx|Hx]%elem_of_app; auto.
  - apply Hc2, Hc1. eapply Ck_mono; [|exact Hck]. rewrite Hadv, Hcur.
    unfold advance at 2. destruct (last seg) as [tx|] eqn:Hlast; [|done].
    apply last_Some_elem_of in Hlast. specialize (Hn2 tx ltac:(set_solver)).
    unfold lt_of in Hn2. lia.
Qed.

Lemma dealt_same p p' n s :
  Poller.lastProcessedLt p' = Poller.lastProcessedLt p → dealt p n s → dealt p' n s.
Proof. intros E [H1 H2]. by split; rewrite E. Qed.

Lemma emit_ok w : http_ok w → http_ok (emitCheckpoint theHandler w).
Proof.
  intros [(p & Hs & Hc & Hh & Hcb & Hd) Hl Ho]. unfold emitCheckpoint, callback.
  set (c := GetSyncCheckpoint theHandler w).
  assert (LastProcessedLt c = Poller.lastProcessedLt p) as Hclt.
  { subst c. simpl. unfold GetLastProcessedLt. simpl. by rewrite Hs. }
  clearbody c. destruct w as [srcs lps ctxs canc f wr nt [s ob]]. simpl in *. subst srcs ob.
  unfold set_world, onState, zoom. simpl. destruct (persist c s) as [[] s'] eqn:E. simpl.
  split; simpl; [|done|done]. exists p. split_and!; [done..|].
  destruct Hd as [(pre & log & post & H1 & H2 & H3 & H4) H5].
  assert (s' = (persist c s).2) as -> by (by rewrite E). split.
  - exists pre, log, post. split_and!; [done..|]. intros x Hx. by apply Good_persist, H4.
  - apply Ck_persist; [|done]. rewrite Hclt. apply (dealt_digits p (calls nt) s).
    split; [|done]. by exists pre, log, post.
Qed.

Lemma drain_ok w :
  (world w).2 = [] ∨ (∃ lt, (world w).2 = [lt]) →
  http_ok (set_world ((world w).1, []) w) → http_ok (drain theHandler w).
Proof.
  unfold drain. intros [->|[lt ->]] H; [done|]. simpl. unfold ltUpdated. simpl.
  by apply emit_ok.
Qed.

Lemma loops_insert w k l :
  (∀ k l, loops w !! k = Some l → http_loop l) → http_loop l →
  ∀ k' l', <[k := l]> (loops w) !! k' = Some l' → http_loop l'.
Proof.
  intros Hl Hnew k' l' H. apply list_lookup_insert_Some in H as [(_ & -> & _)|[_ H]]; eauto.
Qed.

Lemma http_run w w' : http_ok w → run w w' → http_ok (drain theHandler w').
Proof.
  intros [(p & Hs & Hc & Hh & Hcb & Hd) Hl Ho] Hrun.
  destruct Hrun as [w w' k i ctx Hk Hstart|w k i ctx Hk Hdone|w k i ctx ph src Hk Hdone Hsrc
    |w w' k i ctx fuel Hk Hpoll|w w' k i ctx Hk _|w w' k i ctx data Hk _|w w' k i ctx src Hk _ _
    |w k i ctx src Hk _ _|w i src now Hsrc];
    try (pose proof (Hl _ _ Hk) as Hi); try done; try destruct Hi as [-> ->].
  - (* the source is started *)
    destruct w as [srcs lps ctxs canc f wr nt [s ob]]. simpl in *. subst srcs ob.
    cbv [mbind PrM_bind moveTo StartSource source process mret PrM_ret StartPoller put spawn
         change set_loops set_sources] in Hstart. simpl in Hstart. simplify_eq.
    apply drain_ok; [by left|]. split; simpl; [|intros k' l' H|done].
    + eexists. split; [done|]. destruct (Start_same p) as (E1 & E2 & E3 & E4).
      split_and!; [congruence..|]. by eapply dealt_same.
    + apply lookup_app_Some in H as [H|[_ H]].
      * apply list_lookup_insert_Some in H as [(_ & <- & _)|[_ H]]; [done|eauto].
      * destruct (k' - _)%nat; [|done]. by simplify_eq/=.
  - destruct w as [srcs lps ctxs canc f wr nt [s ob]]. simpl in *. subst srcs ob.
    apply drain_ok; [by left|]. split; simpl; [by exists p| |done].
    by eapply (loops_insert (mkProcess [HTTP p] lps ctxs canc f wr nt (s, []))).
  - destruct w as [srcs lps ctxs canc f wr nt [s ob]]. simpl in *. subst srcs ob.
    injection Hsrc as <-. apply drain_ok; [by left|]. split; simpl; [| |done].
    + eexists. split; [done|]. split_and!; [done..|]. by eapply dealt_same; [|exact Hd].
    + by eapply (loops_insert (mkProcess [HTTP p] lps ctxs canc f wr nt (s, []))).
  - destruct w as [srcs lps ctxs canc f wr nt [s ob]]. simpl in *. subst srcs ob.
    unfold pollSource in Hpoll. simpl in Hpoll.
    destruct (Poller.poll fuel (p, (nt, (s, [])))) as [[[]|] st] eqn:E;
      destruct st as [p' [nt' [s' ob']]]; [|done]. injection Hpoll as <-.
    destruct (poll_dealt p nt s fuel _ Hc Hh Hcb Hd E) as ([Hc' Hh' Hcb'] & Hd' & Hob).
    simpl in *. apply drain_ok; [done|]. split; simpl; [|done|done].
    exists p'. split_and!; [done|congruence..|done].
  - rewrite Hs in Hsrc. by destruct i as [|[]].
Qed.

Lemma http_step w w' : http_ok w → step theHandler w w' → http_ok w'.
Proof.
  intros Hok Hstep. destruct Hstep as [w w' Hrun|w k Hk|w k Hk].
  - by apply http_run with w.
  - by pose proof (http_loops _ Hok _ _ Hk).
  - apply emit_ok. destruct Hok as [(p & Hs & H) Hl Ho]. split; simpl; [by exists p| |done].
    by apply loops_insert.
Qed.

Lemma http_start nt s : Ck lt0 s → http_ok (started firstSource nt s).
Proof.
  intros Hck. split; simpl; [|intros k l H|done].
  - unfold firstSource. rewrite HTTPmode. exists firstPoller. split; [done|].
    unfold firstPoller, Poller.NewPollerWithIntervals.
    destruct (Poller.normalizePollIntervals _ _). split_and!; [done..|]. split; [|exact Hck].
    exists [], [], (chain (calls nt)). split_and!; [split; [done|]| |done|];
      intros x Hx; by apply not_elem_of_nil in Hx.
  - destruct k as [|[|k]]; simplify_eq/=; done.
Qed.

Lemma http_reachable nt s w :
  Ck lt0 s → rtc (step theHandler) (started firstSource nt s) w → http_ok w.
Proof.
  intros Hck Hsteps. pose proof (http_start nt s Hck) as H. revert H.
  induction Hsteps; eauto using http_step.
Qed.
End HTTPMode.
End Spec.
