(* ===== verification/FallbackSpec.v ===== *)
(** * The fallback from the WebSocket to HTTP polling

    In WebSocket mode the process runs one subscriber until the connection cannot be made,
    or not made again; what it is then left with is a poller that never polls. *)
From S2P Require Import Prelude GoTypes Entity Toncenter Poller PollerSpec WebSocket EventSource EventSourceSpec TonHandler TonHandlerSpec.

(** ** What the client's methods leave alone *)

Section Client.
Context `{CE : ClientEnv} `{WE : WsEnv} {O : Type}.

Definition keepsFallback {A} (m : WebSocketClient.CM O A) : Prop := ∀ c wr,
  WebSocketClient.onFallback (m (c, wr)).2.1 = WebSocketClient.onFallback c ∧
  WebSocketClient.stopped (m (c, wr)).2.1 = WebSocketClient.stopped c.

(** Unfold the monad of the client. *)
Local Ltac client_eval :=
  cbv [mbind WebSocketClient.CM_bind ST_bind WebSocketClient.client gets fst snd mret
       WebSocketClient.CM_ret ST_ret WebSocketClient.onWire zoom WebSocketClient.dialContext
       WebSocketClient.writeMessage WebSocketClient.now WebSocketClient.update modify].

Lemma Connect_keeps : keepsFallback WebSocketClient.Connect.
Proof.
  intros c wr. unfold WebSocketClient.Connect. client_eval.
  destruct (WebSocketClient.isConnected c); [done|].
  destruct (url_Parse _); [|done]. by destruct (dial _ _).
Qed.

Lemma Subscribe_keeps : keepsFallback WebSocketClient.Subscribe.
Proof.
  intros c wr. unfold WebSocketClient.Subscribe. client_eval.
  destruct (negb _ || negb _); [done|]. by destruct (write _).
Qed.

Lemma handleDisconnect_keeps : keepsFallback (WebSocketClient.update WebSocketClient.handleDisconnect).
Proof.
  intros c wr. cbn. unfold WebSocketClient.handleDisconnect.
  by destruct (WebSocketClient.isConnected c).
Qed.

Lemma ping_keeps : keepsFallback WebSocketClient.ping.
Proof.
  intros c wr. pose proof (handleDisconnect_keeps c wr) as Hd. revert Hd.
  unfold WebSocketClient.ping. client_eval. intros Hd.
  destruct (negb _); [done|]. destruct (WebSocketClient.conn c).
  - destruct (write _); [done|]. by destruct (_ <? _).
  - by destruct (_ <? _).
Qed.

(** And the messages. *)
Lemma processMessage_keeps data (s : WebSocketSubscriber.t O) o :
  let s' := (WebSocketSubscriber.processMessage data (s, o)).2.1 in
  WebSocketClient.onFallback (WebSocketSubscriber.client s') =
    WebSocketClient.onFallback (WebSocketSubscriber.client s) ∧
  WebSocketSubscriber.ctx s' = WebSocketSubscriber.ctx s.
Proof.
  cbv zeta. unfold WebSocketSubscriber.processMessage.
  destruct (json_Message data) as [msg|]; [|done]. destruct (msg_Error msg) as [[]|]; [done|].
  destruct (match msg_Result msg with Some _ => _ | None => _ end); [done|].
  case_bool_decide; [|done]. destruct (msg_Params msg); [|done].
  destruct (json_Notification _) as [tx|]; [|done].
  unfold mbind, WebSocketSubscriber.SM_bind, ST_bind. rewrite HandleTransaction_cases.
  destruct (_ <? _); [|done].
  by destruct (asked (WebSocketSubscriber.handler s) tx o) as [[|] ?].
Qed.
End Client.

Section Fallback.
Context `{CE : ClientEnv} `{CL : !ClientLaws CE} `{WE : WsEnv} {S : Type}.
Context (cfg : GameBackend) (uc : EventHandler S) (checkpoint : option BlockchainSyncState.t).
Context (persist notify : SyncCheckpoint → ST S unit).
Context (WSmode : usesWebSocket cfg checkpoint = true).

Notation theHandler := (theHandler persist notify).
Notation theFactory := (theFactory cfg checkpoint).
Implicit Types w : Process (Outside S).

(** ** While the subscriber lives *)

Definition ws_loop (c : option Context) (l : Loop) : Prop :=
  match l with
  | StartLoop i c' => i = 0%nat
  | ReadLoop i c' _ => i = 0%nat ∧ c = Some c'
  | PingLoop i _ => i = 0%nat
  | CheckpointNotice | Ended => True
  | _ => False
  end.

(** At most one goroutine can trigger the fallback. *)
Definition active (l : Loop) : Prop :=
  match l with StartLoop _ _ | ReadLoop _ _ _ => True | _ => False end.

Record ws_ok w : Prop := {
  ws_source : ∃ s, sources w = [WS s] ∧
    WebSocketClient.onFallback (WebSocketSubscriber.client s) =
      Some (WebSocketClient.mkFallback tempEventHandler false) ∧
    (∀ c, WebSocketSubscriber.ctx s = Some c → c ≠ []) ∧
    ∀ k l, loops w !! k = Some l → ws_loop (WebSocketSubscriber.ctx s) l;
  ws_factory : factory w = theFactory;
  ws_unique k k' l l' : loops w !! k = Some l → loops w !! k' = Some l' →
    active l → active l' → k = k';
  ws_outbox : (world w).2 = [] }.

(** ** After the fallback *)

Definition idle_loop w (l : Loop) : Prop :=
  match l with
  | PollLoop i c ph => i = 1%nat ∧ ph = Entering ∧ done w c = true
  | ReadLoop i _ ph => i = 0%nat ∧ ph = Selecting
  | PingLoop i _ => i = 0%nat
  | CheckpointNotice | FallbackNotice | Ended => True
  | StartLoop _ _ => False
  end.

(** What is left: a stopped subscriber, and a poller with the placeholder for a handler,
    whose context was cancelled before its goroutine started. *)
Record fallen (lt : string) w : Prop := {
  fallen_sources : ∃ s p, sources w = [WS s; HTTP p] ∧
    WebSocketClient.stopped (WebSocketSubscriber.client s) = true ∧
    WebSocketSubscriber.lastProcessedLt s = lt ∧
    Poller.handler p = tempEventHandler ∧ Poller.lastProcessedLt p = normalizeLt lt;
  fallen_factory : factory w = set_currentSource (Some 1%nat) theFactory;
  fallen_loops k l : loops w !! k = Some l → idle_loop w l;
  fallen_outbox : (world w).2 = [] }.

Lemma Stop_stopped {O} (c : WebSocketClient.t O) :
  WebSocketClient.stopped (WebSocketClient.Stop c) = true.
Proof. unfold WebSocketClient.Stop. by destruct (WebSocketClient.stopped c) eqn:E. Qed.

(** The fallback of a subscriber that was started and had not fallen back yet. *)
Lemma TriggerFallback_fallen s w n c :
  sources w = [WS s] → factory w = theFactory → (world w).2 = [] →
  WebSocketClient.onFallback (WebSocketSubscriber.client s) =
    Some (WebSocketClient.mkFallback tempEventHandler false) →
  WebSocketSubscriber.ctx s = Some (n :: c) →
  (∀ k l, loops w !! k = Some l → idle_loop w l) →
  ∃ w', TriggerFallback 0 w = Done tt w' ∧ fallen (WebSocketSubscriber.lastProcessedLt s) w' ∧
    world w' = world w.
Proof.
  intros Hs Hf Ho Hfb Hctx Hl. destruct w as [srcs lps ctxs canc f wr nt o].
  simpl in *. subst srcs f.
  set (s' := WebSocketSubscriber.set_client (WebSocketClient.set_onFallback
    (WebSocketSubscriber.client s) (Some (WebSocketClient.mkFallback tempEventHandler true))) s).
  exists (fallenBack tempEventHandler 0 s'
    (mkProcess [WS s'] lps ctxs canc theFactory wr nt o)).
  split; [|split].
  - unfold TriggerFallback. erewrite bind_done by reflexivity. simpl. rewrite Hfb. simpl.
    erewrite bind_done by reflexivity. by apply fallbackToHTTP_eq.
  - unfold fallenBack. simpl. rewrite Hctx. simpl.
    destruct (freshPoller_spec theFactory (tempEventHandler (S := S))
      (WebSocketSubscriber.lastProcessedLt s)) as (H1 & H2 & H3 & H4 & H5 & H6).
    split; simpl; [|done| |done].
    + eexists _, _. split; [done|]. split_and!; [apply Stop_stopped|done|exact H1|exact H3].
    + intros k l [H|[_ H]]%lookup_app_Some.
      * specialize (Hl _ _ H). destruct l; try done. destruct Hl as (-> & -> & Hd).
        split_and!; [done..|]. unfold done in *. simpl in *.
        apply existsb_exists in Hd as (x & Hx & Hin). apply existsb_exists. exists x.
        split; [done|]. apply bool_decide_eq_true in Hin. apply bool_decide_eq_true. by right.
      * destruct (k - length lps)%nat as [|[|]]; simplify_eq/=; [|done].
        split_and!; [done..|]. unfold done. simpl. rewrite bool_decide_eq_true_2; [done|left].
  - done.
Qed.

Lemma onClient_eq {A} i s (m : WebSocketClient.CM (Outside S) A) w :
  let r := m (WebSocketSubscriber.client s, wire w) in
  onClient i s m w = Done r.1 (set_wire r.2.2
    (set_sources (<[i := WS (WebSocketSubscriber.set_client r.2.1 s)]> (sources w)) w)).
Proof. cbv zeta. unfold onClient. by destruct (m _) as [a [c wr]]. Qed.

Lemma set_world_same w : (world w).2 = [] → set_world ((world w).1, []) w = w.
Proof. destruct w as [? ? ? ? ? ? ? [? ob]]. simpl. by intros ->. Qed.

Lemma drain_quiet w : (world w).2 = [] → drain theHandler w = w.
Proof. intros H. unfold drain. rewrite H. simpl. by apply set_world_same. Qed.

Lemma callback_world {A} (f : A → ST S unit) a w :
  callback (Some f) a w = set_world ((f a (world w).1).2, (world w).2) w.
Proof. unfold callback, onState, zoom. simpl. by destruct (f a (world w).1) as [u s]. Qed.

Lemma emitCheckpoint_world w : emitCheckpoint theHandler w =
  set_world ((persist (GetSyncCheckpoint theHandler w) (world w).1).2, (world w).2) w.
Proof. apply callback_world. Qed.

Lemma emitFallback_world w :
  let c := GetSyncCheckpoint theHandler w in
  emitFallback theHandler w =
  set_world ((persist c (notify c (world w).1).2).2, (world w).2) w.
Proof.
  unfold emitFallback. etrans; [apply callback_world|].
  assert (callback (onFallback theHandler) (GetSyncCheckpoint theHandler w) w =
    set_world ((notify (GetSyncCheckpoint theHandler w) (world w).1).2, (world w).2) w) as ->
    by apply callback_world. done.
Qed.

Lemma fallen_world lt w s : fallen lt w → fallen lt (set_world (s, []) w).
Proof. intros [Hs Hf Hl Ho]. by split. Qed.

Lemma idle_moved w k l :
  (∀ k l, loops w !! k = Some l → idle_loop w l) → idle_loop w l →
  ∀ k' l', <[k := l]> (loops w) !! k' = Some l' → idle_loop w l'.
Proof.
  intros Hl Hnew k' l' H. apply list_lookup_insert_Some in H as [(_ & -> & _)|[_ H]]; eauto.
Qed.

Lemma fallen_run lt w w' : fallen lt w → run w w' → fallen lt w' ∧ world w' = world w.
Proof.
  intros [(s & p & Hs & Hst & Hlt & Hh & Hp) Hf Hl Ho] Hrun.
  destruct Hrun as [w w' k i ctx Hk _|w k i ctx Hk Hdone|w k i ctx ph src Hk Hdone Hsrc
    |w w' k i ctx fuel Hk _|w w' k i ctx Hk Hsel|w w' k i ctx data Hk _
    |w w' k i ctx src Hk Hsrc Hping|w k i ctx src Hk _ _|w i src now Hsrc];
    try (pose proof (Hl _ _ Hk) as Hi); try done.
  - destruct Hi as (-> & _ & Hd). unfold pollerDone in Hdone. by rewrite Hd in Hdone.
  - destruct Hi as (-> & _ & _). split; [|done]. rewrite Hs in Hsrc |- *. injection Hsrc as <-.
    split; simpl; [|done| |done]; [by eexists _, _|].
    by apply (idle_moved w).
  - by destruct Hi as (_ & ? & _).
  - destruct Hi as [-> _].
    cbv [readSelect mbind PrM_bind source process mret PrM_ret moveTo change] in Hsel.
    rewrite Hs in Hsel. simpl in Hsel. rewrite Hst, orb_true_r in Hsel. injection Hsel as <-.
    split; [|done]. split; simpl; [by eexists _, _|done| |done]. by apply (idle_moved w).
  - by destruct Hi.
  - simpl in Hi. subst i. rewrite Hs in Hsrc. injection Hsrc as <-.
    rewrite onClient_eq in Hping. injection Hping as _ <-. split; [|done].
    destruct (ping_keeps (WebSocketSubscriber.client s) (wire w)) as [_ Hst'].
    split; simpl; [|done|done|done]. rewrite Hs. eexists _, p. split; [done|].
    split_and!; [by rewrite <-Hst|done..].
  - split; [|done]. split; simpl; [by eexists _, _|done| |done]. by apply (idle_moved w).
  - split; [|done]. rewrite Hs in Hsrc |- *. destruct i as [|[|]]; simplify_eq/=.
    split; simpl; [|done|done|done]. by eexists _, p.
Qed.

Lemma fallen_step (P : S → Prop) lt w w' :
  (∀ c s, P s → P (persist c s).2) → (∀ c s, P s → P (notify c s).2) →
  fallen lt w → P (world w).1 → step theHandler w w' → fallen lt w' ∧ P (world w').1.
Proof.
  intros Hpersist Hnotify Hw HP Hstep. destruct Hstep as [w w' Hrun|w k Hk|w k Hk].
  - destruct (fallen_run _ _ _ Hw Hrun) as [Hw' E].
    rewrite drain_quiet by apply Hw'. by rewrite E.
  - assert (fallen lt (set_loops (<[k := Ended]> (loops w)) w)) as Hw'.
    { destruct Hw as [Hs Hf Hl Ho]. split; simpl; [done|done| |done]. by apply (idle_moved w). }
    rewrite emitFallback_world. cbn [world set_loops]. rewrite (fallen_outbox _ _ Hw).
    split; [exact (fallen_world _ _ _ Hw')|]. cbn [world set_world fst]. auto.
  - assert (fallen lt (set_loops (<[k := Ended]> (loops w)) w)) as Hw'.
    { destruct Hw as [Hs Hf Hl Ho]. split; simpl; [done|done| |done]. by apply (idle_moved w). }
    rewrite emitCheckpoint_world. cbn [world set_loops]. rewrite (fallen_outbox _ _ Hw).
    split; [exact (fallen_world _ _ _ Hw')|]. cbn [world set_world fst]. auto.
Qed.

Lemma passive_idle c l w : ws_loop c l → ¬ active l → idle_loop w l.
Proof. destruct l; simpl; tauto. Qed.

(** Beside the goroutine that may trigger the fallback, all others are idle. *)
Lemma others_idle w k l w' k' l' :
  ws_ok w → loops w !! k = Some l → active l → k' ≠ k → loops w !! k' = Some l' →
  idle_loop w' l' ∧ (∀ c, ws_loop c l') ∧ ¬ active l'.
Proof.
  intros [(s & Hs & _ & _ & Hl) _ Hu _] Hk Ha Hne Hk'.
  assert (¬ active l') as Hn by (intros Ha'; apply Hne; eapply Hu; eauto).
  specialize (Hl _ _ Hk'). split; [by eapply passive_idle|]. split; [|done].
  intros c. destruct l'; simpl in *; tauto.
Qed.

(** The subscriber goes on, with goroutine [k] moved and perhaps others started. *)
Lemma ws_goes_on w w' s k l l' more :
  ws_ok w → loops w !! k = Some l → active l →
  sources w' = [WS s] → factory w' = theFactory → (world w').2 = [] →
  loops w' = <[k := l']> (loops w) ++ more →
  WebSocketClient.onFallback (WebSocketSubscriber.client s) =
    Some (WebSocketClient.mkFallback tempEventHandler false) →
  (∀ c, WebSocketSubscriber.ctx s = Some c → c ≠ []) →
  ws_loop (WebSocketSubscriber.ctx s) l' →
  (∀ x, x ∈ more → ws_loop (WebSocketSubscriber.ctx s) x) →
  (∀ i j x y, (l' :: more) !! i = Some x → (l' :: more) !! j = Some y → active x → active y →
     i = j) →
  ws_ok w'.
Proof.
  intros Hw Hk Ha Hs Hf Ho Hl Hfb Hc Hl' Hmore Hu.
  assert (∀ j x, loops w' !! j = Some x →
    (j = k ∧ x = l') ∨ (length (loops w) ≤ j ∧ more !! (j - length (loops w)) = Some x)%nat ∨
    (∀ c, ws_loop c x) ∧ ¬ active x) as Hcases.
  { intros j x Hj. rewrite Hl in Hj. apply lookup_app_Some in Hj as [Hj|[Hlen Hj]].
    - apply list_lookup_insert_Some in Hj as [(<- & -> & _)|[Hne Hj]]; [by left|].
      right. right. apply (others_idle w k l w j x); auto.
    - rewrite length_insert in Hlen, Hj. right. left. done. }
  split; [|done| |done].
  - exists s. split_and!; [done..|]. intros j x Hj.
    destruct (Hcases _ _ Hj) as [[-> ->]|[[_ Hx]|[Hi Hn]]]; [done| |].
    + apply Hmore. by eapply list_elem_of_lookup_2.
    + apply Hi.
  - intros i j x y Hi Hj Hx Hy.
    assert (k < length (loops w))%nat as Hlt by (by eapply lookup_lt_Some).
    destruct (Hcases _ _ Hi) as [[-> ->]|[[Hli Hxi]|[_ Hn]]]; [| |done];
      (destruct (Hcases _ _ Hj) as [[-> ->]|[[Hlj Hxj]|[_ Hn]]]; [| |done]).
    + done.
    + by specialize (Hu 0%nat (Datatypes.S (j - length (loops w))) _ _ eq_refl Hxj Hx Hy).
    + by specialize (Hu (Datatypes.S (i - length (loops w))) 0%nat _ _ Hxi eq_refl Hx Hy).
    + specialize (Hu (Datatypes.S (i - length (loops w))) (Datatypes.S (j - length (loops w)))
        _ _ Hxi Hxj Hx Hy). lia.
Qed.

(** It falls back, with goroutine [k] at [l']. *)
Lemma ws_falls_back w w1 s k l l' n c :
  ws_ok w → loops w !! k = Some l → active l →
  sources w1 = [WS s] → factory w1 = theFactory → (world w1).2 = [] →
  loops w1 = <[k := l']> (loops w) → idle_loop w1 l' →
  WebSocketClient.onFallback (WebSocketSubscriber.client s) =
    Some (WebSocketClient.mkFallback tempEventHandler false) →
  WebSocketSubscriber.ctx s = Some (n :: c) →
  ∃ w', TriggerFallback 0 w1 = Done tt w' ∧ fallen (WebSocketSubscriber.lastProcessedLt s) w'.
Proof.
  intros Hw Hk Ha Hs Hf Ho Hl Hl' Hfb Hc.
  destruct (TriggerFallback_fallen s w1 n c Hs Hf Ho Hfb Hc) as (w' & H1 & H2 & _); [|eauto].
  intros j x Hj. rewrite Hl in Hj. apply list_lookup_insert_Some in Hj as [(_ & -> & _)|[Hne Hj]].
  - done.
  - apply (others_idle w k l w1 j x Hw Hk Ha); auto.
Qed.

(** The process after a method of the client of the only source. *)
Definition clientDid {A} (s : WebSocketSubscriber.t (Outside S))
    (m : WebSocketClient.CM (Outside S) A) w : Process (Outside S) :=
  let r := m (WebSocketSubscriber.client s, wire w) in
  set_wire r.2.2 (set_sources [WS (WebSocketSubscriber.set_client r.2.1 s)] w).

Lemma onClient_only {A} s0 s (m : WebSocketClient.CM (Outside S) A) w :
  sources w = [s0] →
  onClient 0 s m w = Done (m (WebSocketSubscriber.client s, wire w)).1 (clientDid s m w).
Proof. intros Hs. rewrite onClient_eq, Hs. done. Qed.

Definition afterClient {A} (s : WebSocketSubscriber.t (Outside S))
    (m : WebSocketClient.CM (Outside S) A) w : WebSocketSubscriber.t (Outside S) :=
  WebSocketSubscriber.set_client (m (WebSocketSubscriber.client s, wire w)).2.1 s.

Lemma StartSubscriber_eq s ctx w :
  sources w = [WS s] →
  StartSubscriber 0 ctx w =
  let c := contexts w :: ctx in
  let w0 := set_contexts (Datatypes.S (contexts w)) (cancelled w) w in
  let s1 := WebSocketSubscriber.set_ctx c s in
  let w1 := clientDid s1 WebSocketClient.Connect w0 in
  let s2 := afterClient s1 WebSocketClient.Connect w0 in
  match (WebSocketClient.Connect (WebSocketSubscriber.client s1, wire w0)).1 with
  | Err _ => TriggerFallback 0 w1
  | Ok _ =>
      let w2 := clientDid s2 WebSocketClient.Subscribe w1 in
      match (WebSocketClient.Subscribe (WebSocketSubscriber.client s2, wire w1)).1 with
      | Err _ => TriggerFallback 0 w2
      | Ok _ => Done tt (set_loops (loops w2 ++ [PingLoop 0 c; ReadLoop 0 c Selecting]) w2)
      end
  end.
Proof.
  intros Hs. cbv zeta. unfold StartSubscriber. erewrite bind_done by reflexivity.
  set (w0 := set_contexts _ _ _).
  erewrite bind_done by (unfold source, process, mbind, PrM_bind, mret, PrM_ret; reflexivity).
  change (sources w0) with (sources w). rewrite Hs. simpl (_ !! _). cbv iota beta.
  assert (sources w0 = [WS s]) as Hs0 by exact Hs.
  erewrite bind_done by (eapply onClient_only; exact Hs0).
  destruct (WebSocketClient.Connect _).1; [|done].
  erewrite bind_done by reflexivity. simpl (_ !! _). cbv iota beta.
  erewrite bind_done by (eapply onClient_only; reflexivity).
  destruct (WebSocketClient.Subscribe _).1; [|done].
  erewrite bind_done by reflexivity. unfold spawn, change. simpl. by rewrite <-app_assoc.
Qed.

Lemma reconnect_eq s w :
  sources w = [WS s] →
  reconnect 0 w =
  let c := WebSocketSubscriber.client s in
  let attempt := wrap64 (WebSocketClient.reconnectAttempt c + 1) in
  let s1 := WebSocketSubscriber.set_client (WebSocketClient.set_attempt c attempt) s in
  let w1 := set_sources [WS s1] w in
  if WebSocketClient.maxReconnect c <? attempt then
    match TriggerFallback 0 w1 with
    | Done _ w' => Done (Err (ENew "max reconnection attempts exceeded")) w'
    | Deadlock => Deadlock
    | Panic => Panic
    end
  else
    let w2 := clientDid s1 WebSocketClient.Connect w1 in
    let s2 := afterClient s1 WebSocketClient.Connect w1 in
    match (WebSocketClient.Connect (WebSocketSubscriber.client s1, wire w1)).1 with
    | Err e => Done (Err e) w2
    | Ok _ =>
        let w3 := clientDid s2 WebSocketClient.Subscribe w2 in
        let s3 := afterClient s2 WebSocketClient.Subscribe w2 in
        match (WebSocketClient.Subscribe (WebSocketSubscriber.client s2, wire w2)).1 with
        | Err e =>
            Done (Err e) (clientDid s3 (WebSocketClient.update WebSocketClient.handleDisconnect) w3)
        | Ok _ => Done (Ok tt) w3
        end
    end.
Proof.
  intros Hs. cbv zeta. unfold reconnect.
  erewrite bind_done by (unfold source, process, mbind, PrM_bind, mret, PrM_ret; reflexivity).
  rewrite Hs. simpl (_ !! _). cbv iota beta zeta.
  erewrite bind_done by (unfold put, change; reflexivity). rewrite Hs. simpl (<[_ := _]> _).
  destruct (_ <? _); [done|].
  erewrite bind_done by (eapply onClient_only; reflexivity).
  destruct (WebSocketClient.Connect _).1; [|done].
  erewrite bind_done by reflexivity. simpl (_ !! _). cbv iota beta.
  erewrite bind_done by (eapply onClient_only; reflexivity).
  destruct (WebSocketClient.Subscribe _).1; [done|].
  erewrite bind_done by reflexivity. simpl (_ !! _). cbv iota beta.
  erewrite bind_done by (eapply onClient_only; reflexivity). done.
Qed.

(** What the subscriber needs to go on: its fallback is still to come, and its context
    is the one it had. *)
Record spare (c : option Context) (s : WebSocketSubscriber.t (Outside S)) : Prop := {
  spare_fallback : WebSocketClient.onFallback (WebSocketSubscriber.client s) =
    Some (WebSocketClient.mkFallback tempEventHandler false);
  spare_ctx : WebSocketSubscriber.ctx s = c }.

Lemma spare_client {A} c s (m : WebSocketClient.CM (Outside S) A) w :
  keepsFallback m → spare c s → spare c (afterClient s m w).
Proof.
  intros Hm [H1 H2]. destruct (Hm (WebSocketSubscriber.client s) (wire w)) as [E _].
  split; simpl; congruence.
Qed.

Definition goes_on_or_falls w : Prop := ws_ok w ∨ ∃ lt, fallen lt w.

Lemma falls_back w w1 w' s k l l' n c :
  ws_ok w → loops w !! k = Some l → active l →
  sources w1 = [WS s] → factory w1 = theFactory → (world w1).2 = [] →
  loops w1 = <[k := l']> (loops w) → idle_loop w1 l' → spare (Some (n :: c)) s →
  TriggerFallback 0 w1 = Done tt w' → goes_on_or_falls w'.
Proof.
  intros Hw Hk Ha Hs Hf Ho Hl Hl' [Hfb Hc] Ht.
  destruct (ws_falls_back w w1 s k l l' n c) as (w2 & H1 & H2); try done.
  rewrite H1 in Ht. injection Ht as <-. right. eauto.
Qed.

Lemma started_ok w w' k i ctx :
  ws_ok w → loops w !! k = Some (StartLoop i ctx) →
  (_ ← moveTo k Ended; StartSource i ctx) w = Done tt w' → goes_on_or_falls w'.
Proof.
  intros Hw Hk Hstart. pose proof Hw as [(s & Hs & Hfb & Hc & Hl) Hf _ Ho].
  pose proof (Hl _ _ Hk) as Hi. simpl in Hi. subst i.
  erewrite bind_done in Hstart by reflexivity. unfold StartSource in Hstart.
  erewrite bind_done in Hstart
    by (unfold source, process, mbind, PrM_bind, mret, PrM_ret; reflexivity).
  simpl in Hstart. rewrite Hs in Hstart. simpl in Hstart.
  rewrite (StartSubscriber_eq s) in Hstart by exact Hs. cbv zeta in Hstart.
  set (c := contexts _ :: ctx) in *. set (w0 := set_contexts _ _ _) in *.
  set (s1 := WebSocketSubscriber.set_ctx c s) in *.
  assert (spare (Some c) s1) as H1 by done.
  pose proof (spare_client _ _ WebSocketClient.Connect w0 Connect_keeps H1) as H2.
  set (s2 := afterClient s1 WebSocketClient.Connect w0) in *.
  set (w1 := clientDid s1 WebSocketClient.Connect w0) in *.
  pose proof (spare_client _ _ WebSocketClient.Subscribe w1 Subscribe_keeps H2) as H3.
  destruct (WebSocketClient.Connect _).1.
  2: { eapply (falls_back w w1 w' s2); eauto; done. }
  destruct (WebSocketClient.Subscribe _).1.
  2: { eapply (falls_back w (clientDid s2 WebSocketClient.Subscribe w1) w'
           (afterClient s2 WebSocketClient.Subscribe w1)); eauto; done. }
  injection Hstart as <-. left.
  eapply (ws_goes_on w _ (afterClient s2 WebSocketClient.Subscribe w1) k _ Ended
    [PingLoop 0 c; ReadLoop 0 c Selecting]); eauto; try done.
  - apply H3.
  - rewrite (spare_ctx _ _ H3). by intros ? [= <-].
  - rewrite (spare_ctx _ _ H3). intros x. rewrite !elem_of_cons, elem_of_nil.
    intros [->|[->|[]]]; done.
  - intros [|[|[|]]] [|[|[|]]] x y Hx Hy; simplify_eq/=; done.
Qed.

(** The subscriber goes on as [s]; goroutine [k], one of its own, is now [l']. *)
Lemma stays w w' s k l l' c :
  ws_ok w → loops w !! k = Some l → active l → (∀ s, sources w = [WS s] → ws_loop (WebSocketSubscriber.ctx s) l → WebSocketSubscriber.ctx s = c) →
  sources w' = [WS s] → factory w' = theFactory → (world w').2 = [] →
  loops w' = <[k := l']> (loops w) → spare c s → ws_loop c l' → ws_ok w'.
Proof.
  intros Hw Hk Ha Hc Hs Hf Ho Hl [Hfb Hcs] Hl'.
  pose proof Hw as [(s0 & Hs0 & _ & Hne & Hl0) _ _ _].
  specialize (Hc _ Hs0 (Hl0 _ _ Hk)).
  eapply (ws_goes_on w w' s k l l' []); eauto.
  - by rewrite app_nil_r.
  - rewrite Hcs, <-Hc. exact Hne.
  - by rewrite Hcs.
  - intros x Hx. by apply not_elem_of_nil in Hx.
  - intros [|i] [|j] x y Hx Hy; simplify_eq/=; done.
Qed.

Lemma readSelect_ok w w' k i ctx :
  ws_ok w → loops w !! k = Some (ReadLoop i ctx Selecting) →
  readSelect k i ctx w = Done tt w' → goes_on_or_falls w'.
Proof.
  intros Hw Hk Hsel. pose proof Hw as [(s & Hs & Hfb & Hne & Hl) Hf _ Ho].
  pose proof (Hl _ _ Hk) as [-> Hctx]. unfold readSelect in Hsel.
  erewrite bind_done in Hsel
    by (unfold source, process, mbind, PrM_bind, mret, PrM_ret; reflexivity).
  rewrite Hs in Hsel. simpl (_ !! _) in Hsel. erewrite bind_done in Hsel by reflexivity.
  cbv iota beta in Hsel.
  assert (∀ s0, sources w = [WS s0] → ws_loop (WebSocketSubscriber.ctx s0)
    (ReadLoop 0 ctx Selecting) → WebSocketSubscriber.ctx s0 = Some ctx) as Hc0
    by (by intros s0 _ [_ H]).
  assert (spare (Some ctx) s) as H0 by done.
  assert (<[k := ReadLoop 0 ctx Selecting]> (loops w) = loops w) as Hsame
    by (by apply list_insert_id).
  destruct (done w ctx || _).
  { injection Hsel as <-. left. eapply (stays w _ s k _ Ended (Some ctx)); eauto; done. }
  destruct (WebSocketClient.isConnected _).
  { injection Hsel as <-. left.
    eapply (stays w _ s k _ (ReadLoop 0 ctx Reading) (Some ctx)); eauto; done. }
  unfold mbind, PrM_bind in Hsel. rewrite (reconnect_eq s) in Hsel by done. cbv zeta in Hsel.
  set (s1 := WebSocketSubscriber.set_client _ s) in *. set (w1 := set_sources [WS s1] w) in *.
  assert (spare (Some ctx) s1) as H1 by done.
  destruct (_ <? _).
  { destruct ctx as [|n c]; [by destruct (Hne _ Hctx)|].
    destruct (TriggerFallback 0 w1) as [[] w2| |] eqn:Ht; [|done..].
    injection Hsel as <-. eapply (falls_back w w1 w2 s1 k); eauto; done. }
  pose proof (spare_client _ _ WebSocketClient.Connect w1 Connect_keeps H1) as H2.
  set (s2 := afterClient s1 WebSocketClient.Connect w1) in *.
  set (w2 := clientDid s1 WebSocketClient.Connect w1) in *.
  pose proof (spare_client _ _ WebSocketClient.Subscribe w2 Subscribe_keeps H2) as H3.
  set (s3 := afterClient s2 WebSocketClient.Subscribe w2) in *.
  set (w3 := clientDid s2 WebSocketClient.Subscribe w2) in *.
  pose proof (spare_client _ _ _ w3 handleDisconnect_keeps H3) as H4. left.
  destruct (WebSocketClient.Connect _).1.
  2: { injection Hsel as <-.
       eapply (stays w w2 s2 k _ (ReadLoop 0 ctx Selecting) (Some ctx)); eauto; done. }
  destruct (WebSocketClient.Subscribe _).1; injection Hsel as <-.
  - eapply (stays w _ s3 k _ (ReadLoop 0 ctx Reading) (Some ctx)); eauto; done.
  - eapply (stays w _ _ k _ (ReadLoop 0 ctx Selecting) (Some ctx)); [..|exact H4|]; eauto; done.
Qed.

Lemma ws_world w s : ws_ok w → ws_ok (set_world (s, []) w).
Proof. intros [Hs Hf Hu Ho]. by split. Qed.

(** The callbacks act on the world only. *)
Lemma drain_ws w : ws_ok (set_world ((world w).1, []) w) → ws_ok (drain theHandler w).
Proof.
  unfold drain. intros H. set (v := set_world ((world w).1, []) w) in *. clearbody v. revert v H.
  induction (world w).2 as [|lt lts IH]; intros v H; [done|]. simpl. apply IH.
  unfold ltUpdated. change (callback (onLtUpdated theHandler) lt v) with v.
  rewrite emitCheckpoint_world, (ws_outbox _ H). by apply ws_world.
Qed.

Lemma readReturns_ok w w' k i ctx data :
  ws_ok w → loops w !! k = Some (ReadLoop i ctx Reading) →
  readReturns k i ctx data w = Done tt w' → ws_ok (drain theHandler w').
Proof.
  intros Hw Hk Hread. pose proof Hw as [(s & Hs & Hfb & Hne & Hl) Hf _ Ho].
  pose proof (Hl _ _ Hk) as [-> Hctx]. unfold readReturns in Hread.
  erewrite bind_done in Hread
    by (unfold source, process, mbind, PrM_bind, mret, PrM_ret; reflexivity).
  rewrite Hs in Hread. simpl (_ !! _) in Hread. cbv iota beta in Hread.
  assert (∀ s0, sources w = [WS s0] → ws_loop (WebSocketSubscriber.ctx s0)
    (ReadLoop 0 ctx Reading) → WebSocketSubscriber.ctx s0 = Some ctx) as Hc0
    by (by intros s0 _ [_ H]).
  assert (spare (Some ctx) s) as H0 by done. apply drain_ws.
  destruct data as [data|].
  - destruct (processMessage_keeps data s (world w)) as [E1 E2].
    unfold mbind, PrM_bind, onSubscriber in Hread.
    destruct (WebSocketSubscriber.processMessage data (s, world w)) as [r [s' o']].
    simpl in E1, E2. injection Hread as <-.
    eapply (stays w _ s' k _ (ReadLoop 0 ctx Selecting) (Some ctx)); eauto; try done.
    + simpl. by rewrite Hs.
    + split; congruence.
  - erewrite bind_done in Hread by (eapply onClient_only; exact Hs). injection Hread as <-.
    eapply (stays w _ _ k _ (ReadLoop 0 ctx Selecting) (Some ctx));
      [..|exact (spare_client _ _ _ w handleDisconnect_keeps H0)|]; eauto; done.
Qed.

(** A goroutine that is not one of the two: the subscriber changes in place. *)
Lemma ws_in_place w w' s :
  ws_ok w → sources w' = [WS s] → factory w' = factory w → (world w').2 = [] →
  loops w' = loops w →
  (∀ s0, sources w = [WS s0] → WebSocketClient.onFallback (WebSocketSubscriber.client s) =
     WebSocketClient.onFallback (WebSocketSubscriber.client s0) ∧
     WebSocketSubscriber.ctx s = WebSocketSubscriber.ctx s0) → ws_ok w'.
Proof.
  intros [(s0 & Hs0 & Hfb & Hne & Hl) Hf Hu Ho] Hs Hf' Ho' Hl' H.
  destruct (H _ Hs0) as [E1 E2]. split; rewrite ?Hl'; [|congruence|done|done].
  exists s. rewrite E1, E2. by split_and!.
Qed.

Lemma ws_run w w' : ws_ok w → run w w' → goes_on_or_falls (drain theHandler w').
Proof.
  intros Hw Hrun.
  assert (∀ w', goes_on_or_falls w' → goes_on_or_falls (drain theHandler w')) as Hquiet.
  { intros w1 [H|[lt H]]; (rewrite drain_quiet; [|apply H]); [by left|right; eauto]. }
  pose proof Hw as [(s & Hs & Hfb & Hne & Hl) Hf _ Ho].
  destruct Hrun as [w w' k i ctx Hk Hstart|w k i ctx Hk _|w k i ctx ph src Hk _ _
    |w w' k i ctx fuel Hk _|w w' k i ctx Hk Hsel|w w' k i ctx data Hk Hread
    |w w' k i ctx src Hk Hsrc Hping|w k i ctx src Hk _ _|w i src now Hsrc];
    try (pose proof (Hl _ _ Hk) as Hi); try done.
  - by apply Hquiet, (started_ok w _ k i ctx).
  - by apply Hquiet, (readSelect_ok w _ k i ctx).
  - left. by apply (readReturns_ok w _ k i ctx data).
  - simpl in Hi. subst i. rewrite Hs in Hsrc. injection Hsrc as <-.
    rewrite (onClient_only (WS s)) in Hping by done. injection Hping as _ <-.
    apply Hquiet. left.
    apply (ws_in_place w _ (afterClient s WebSocketClient.ping w)); try done.
    intros s0 Hs0. rewrite Hs in Hs0. injection Hs0 as <-. split; [|done].
    apply (ping_keeps (WebSocketSubscriber.client s) (wire w)).
  - apply Hquiet. left. split; simpl; [|done| |done].
    + exists s. split_and!; [done..|]. intros j x Hj.
      apply list_lookup_insert_Some in Hj as [(_ & <- & _)|[_ Hj]]; [done|eauto].
    + intros a b x y Ha Hb Hx Hy.
      apply list_lookup_insert_Some in Ha as [(_ & <- & _)|[_ Ha]]; [done|].
      apply list_lookup_insert_Some in Hb as [(_ & <- & _)|[_ Hb]]; [done|].
      by eapply (ws_unique _ Hw).
  - apply Hquiet. left. rewrite Hs in Hsrc. destruct i as [|[|]]; simplify_eq/=.
    eapply (ws_in_place w _ _ Hw); simpl; [by rewrite Hs|done|done|done|].
    intros s0 Hs0. rewrite Hs in Hs0. by injection Hs0 as <-.
Qed.

Lemma ws_step w w' : ws_ok w → step theHandler w w' → goes_on_or_falls w'.
Proof.
  intros Hw Hstep. destruct Hstep as [w w' Hrun|w k Hk|w k Hk].
  - by apply ws_run with w.
  - destruct Hw as [(s & _ & _ & _ & Hl) _ _ _]. by destruct (Hl _ _ Hk).
  - left. rewrite emitCheckpoint_world. cbn [world set_loops]. rewrite (ws_outbox _ Hw).
    apply ws_world. destruct Hw as [(s & Hs & Hfb & Hne & Hl) Hf Hu Ho]. split; simpl; [|done| |done].
    + exists s. split_and!; [done..|]. intros j x Hj.
      apply list_lookup_insert_Some in Hj as [(_ & <- & _)|[_ Hj]]; [done|eauto].
    + intros a b x y Ha Hb Hx Hy.
      apply list_lookup_insert_Some in Ha as [(_ & <- & _)|[_ Ha]]; [done|].
      apply list_lookup_insert_Some in Hb as [(_ & <- & _)|[_ Hb]]; [done|]. by eapply Hu.
Qed.

Lemma ws_start nt s : ws_ok (started cfg checkpoint (firstSource cfg uc checkpoint) nt s).
Proof.
  split; simpl; [|done| |done].
  - unfold firstSource. rewrite WSmode. eexists. split_and!; [done|done|done|].
    intros [|[|k]] l H; simplify_eq/=; done.
  - intros [|[|i]] [|[|j]] x y Hi Hj Hx Hy; simplify_eq/=; done.
Qed.

Lemma ws_reachable nt s w :
  rtc (step theHandler) (started cfg checkpoint (firstSource cfg uc checkpoint) nt s) w →
  goes_on_or_falls w.
Proof.
  intros Hsteps. assert (goes_on_or_falls (started cfg checkpoint (firstSource cfg uc checkpoint) nt s))
    as H by (left; apply ws_start). revert H.
  induction Hsteps as [|w w1 w2 Hstep _ IH]; [done|]. intros [H|[lt H]]; apply IH.
  - by apply ws_step with w.
  - right. exists lt. by apply (fallen_step (λ _, True) lt w).
Qed.

(** C6: in WebSocket mode, once the source has fallen back to HTTP polling no transaction is
    handed to the use case any more: its state only changes by the callbacks, and the
    cursor that checkpoints report stays where it was. The poller's context is the one that
    stopping the subscriber cancelled, and its handler is the placeholder the factory was
    given, which drops what it gets. *)
Theorem fallback_ends_ingestion nt s h w0 w w' (P : S → Prop) :
  startIngestion cfg uc checkpoint persist notify (boot cfg checkpoint nt s) = Done h w0 →
  rtc (step h) w0 w → GetCurrentSourceType w = SourceTypeHTTP → rtc (step h) w w' →
  (∀ c s, P s → P (persist c s).2) → (∀ c s, P s → P (notify c s).2) →
  P (world w).1 →
  P (world w').1 ∧ GetLastProcessedLt h w' = GetLastProcessedLt h w ∧
  ∃ p, currentOf w' = Some (HTTP p) ∧ Poller.handler p = tempEventHandler.
Proof.
  rewrite startIngestion_eq. intros [= <- <-] Hsteps Htype Hsteps' Hpersist Hnotify HP.
  destruct (ws_reachable nt s w Hsteps) as [H|[lt H]].
  { destruct H as [(s1 & Hs & _) Hf _ _]. unfold GetCurrentSourceType, currentOf in Htype.
    rewrite Hf in Htype. simpl in Htype. rewrite Hs in Htype. done. }
  assert (∀ w, fallen lt w → GetLastProcessedLt theHandler w = lt ∧
    ∃ p, currentOf w = Some (HTTP p) ∧ Poller.handler p = tempEventHandler) as Hread.
  { intros w1 [(s1 & p & Hs & _ & Hlt & Hh & _) Hf _ _].
    unfold GetLastProcessedLt, currentOf. rewrite Hf. simpl. rewrite Hs. simpl. eauto. }
  assert (fallen lt w' ∧ P (world w').1) as [H' HP'].
  { clear Htype Hsteps. revert H HP. induction Hsteps' as [|w w1 w2 Hstep _ IH]; [done|].
    intros H HP. destruct (fallen_step P lt w w1) as [H1 HP1]; auto. }
  destruct (Hread _ H) as [-> _], (Hread _ H') as [-> Hp]. done.
Qed.
End Fallback.

(** ** A concrete fallback *)

Module FallbackRun.
Import SourceRun.
#[local] Existing Instances offline serves.

Definition cfg : GameBackend :=
  mkGameBackend "https://toncenter" "wss://toncenter" "EQ" (Ok (5 * 10 ^ 9)) (Ok (30 * 10 ^ 9))
    true SourceTypeWebSocket 5 true true.

(** The use case counts transactions, and the callbacks count nothing. *)
Definition count : EventHandler nat := λ _ n, (Ok tt, S n).
Definition ignore : SyncCheckpoint → ST nat unit := λ _, mret tt.

Notation Proc := (Process (Outside nat)).
Definition h0 : Handler nat := theHandler ignore ignore.
Definition w0 : Proc :=
  started cfg None (firstSource cfg count None) (mkNet 0 0) 3%nat.
Notation source_started := ((_ ← moveTo 0 Ended; StartSource 0 [0%nat]) w0).
Definition r1 : Proc := match source_started with Done _ w => w | _ => w0 end.
Definition w1 : Proc := drain h0 r1.
Definition w2 : Proc := emitFallback h0 (set_loops (<[3%nat := Ended]> (loops w1)) w1).

Lemma run1 : run w0 r1.
Proof.
  assert (match source_started with Done _ _ => true | _ => false end = true) as H
    by (vm_compute; reflexivity).
  refine (run_start w0 r1 0 0 [0%nat] _ _); [vm_compute; reflexivity|]. unfold r1.
  revert H. destruct source_started as [[] w| |]; [reflexivity|discriminate..].
Qed.

Lemma w1_reached : rtc (step h0) w0 w1.
Proof. exact (rtc_once _ _ (step_run h0 w0 r1 run1)). Qed.

Lemma w2_reached : rtc (step h0) w1 w2.
Proof. apply rtc_once. unfold w2. apply step_notice. vm_compute. reflexivity. Qed.

(** The dial fails, the fallback replaces the source, and its notice is given. *)
Lemma fallback_ends_ingestion_witness :
  loops w2 = [Ended; CheckpointNotice; PollLoop 1 [1%nat; 0%nat] Entering; Ended] ∧
  (world w2).1 = 3%nat ∧ GetLastProcessedLt h0 w2 = GetLastProcessedLt h0 w1.
Proof.
  split; [vm_compute; reflexivity|].
  destruct (fallback_ends_ingestion cfg count None ignore ignore eq_refl (mkNet 0 0) 3%nat h0 w0
    w1 w2 (λ n, n = 3%nat)) as (H1 & H2 & _); [..|split; [exact H1|exact H2]].
  - apply startIngestion_eq.
  - exact w1_reached.
  - vm_compute. reflexivity.
  - exact w2_reached.
  - intros c n Hn. exact Hn.
  - intros c n Hn. exact Hn.
  - vm_compute. reflexivity.
Defined.
End FallbackRun.
