(* ===== verification/SyncState.v ===== *)
(** * The ingestion checkpoint in the database

    internal/repository/postgres/blockchain_sync_state_repository.go: the single row
    that says from where blockchain ingestion resumes. *)
From S2P Require Import Prelude GoTypes Entity World Repo.
From Stdlib Require Import Ascii.

(** ** What PostgreSQL does with a logical time *)

Class PgNumeric := {
  numeric_ok : string → bool;              (* does [s::numeric] succeed? *)
  numeric_le : string → string → bool;     (* [a::numeric <= b::numeric] *)
  numeric_text : string → string;          (* [s::numeric::varchar] *)
  folded : Z → bool                        (* was a cast of a parameter evaluated while
                                              planning the n-th statement? *)
}.

(** Decimal digits are a number, and numbers are ordered as numbers. *)
Class PgNumericLaws (PN : PgNumeric) : Prop := {
  numeric_digits s z : parse_nat (bytes s) = Some z → numeric_ok s = true;
  numeric_order a b x y :
    parse_nat (bytes a) = Some x → parse_nat (bytes b) = Some y →
    numeric_le a b = (x <=? y);
  numeric_value s z :
    parse_nat (bytes s) = Some z → parse_nat (bytes (numeric_text s)) = Some z
}.

Definition bad_numeric (s : string) : error :=
  ENew ("invalid input syntax for type numeric: " +:+ s).

(** [COALESCE(NULLIF(last_processed_lt, ''), '0')] *)
Definition stored_lt (r : SyncRow) : string :=
  match last_processed_lt r with
  | Some lt => if bool_decide (lt = EmptyString) then "0" else lt
  | None => "0"
  end.

Definition EventSourceHTTP : string := "http".

Module SyncStateRepository.
Section Repository.
Context `{E : Env} `{PN : PgNumeric}.

Definition touched (now : Z) (r : SyncRow) : SyncRow :=
  mkSyncRow (contract_address r) (last_processed_block r) (last_poll_timestamp r) now
    (event_source_type r) (last_processed_lt r) (last_processed_hash r)
    (websocket_connected r) (fallback_count r) (last_fallback_at r).

(** [UPDATE blockchain_sync_state SET ... WHERE id = 1]; the trigger writes [updated_at].
    [set] fails when an expression or an assignment does, [refused] before any row is
    looked at, when a parameter is bound or while planning. *)
Definition updateRow (refused : Z → option error) (set : SyncRow → result SyncRow) :
    M (result Z) :=
  statement (λ n now t,
    match refused n with
    | Some e => Err e
    | None =>
      match sync_state t with
      | None => Ok (0, t)
      | Some r =>
          match set r with
          | Ok r => Ok (1, set_sync_state (Some (touched now r)) t)
          | Err e => Err e
          end
      end
    end).

(** [SELECT ... WHERE id = 1] *)
Definition queryRow {A} (f : SyncRow → A) : M (result A) :=
  row <-? statement (λ _ _ t, match sync_state t with
                              | Some r => Ok (f r, t)
                              | None => Err (ESentinel ErrNoRows)
                              end) else Postgres.query_failed ;;
  mret (Ok row).

Definition scanned (r : SyncRow) : BlockchainSyncState.t := {|
  BlockchainSyncState.ID := 1;
  BlockchainSyncState.ContractAddress := contract_address r;
  BlockchainSyncState.LastProcessedBlock := last_processed_block r;
  BlockchainSyncState.LastPollTimestamp := last_poll_timestamp r;
  BlockchainSyncState.UpdatedAt := updated_at r;
  BlockchainSyncState.EventSourceType := default "http" (event_source_type r);
  BlockchainSyncState.LastProcessedLt := default "0" (last_processed_lt r);
  BlockchainSyncState.LastProcessedHash := default EmptyString (last_processed_hash r);
  BlockchainSyncState.WebSocketConnected := default false (websocket_connected r);
  BlockchainSyncState.FallbackCount := default 0 (fallback_count r);
  BlockchainSyncState.LastFallbackAt := last_fallback_at r |}.

Definition Get : M (result BlockchainSyncState.t) := queryRow scanned.

Definition set_progress (block ts : Z) (lt : option string) (r : SyncRow) : SyncRow :=
  mkSyncRow (contract_address r) block ts (updated_at r) (event_source_type r) lt
    (last_processed_hash r) (websocket_connected r) (fallback_count r) (last_fallback_at r).
Definition set_origin (contract : string) (type : option string) (connected : option bool)
    (r : SyncRow) : SyncRow :=
  mkSyncRow contract (last_processed_block r) (last_poll_timestamp r) (updated_at r) type
    (last_processed_lt r) (last_processed_hash r) connected (fallback_count r)
    (last_fallback_at r).

Definition executed (m : M (result Z)) : M (result unit) :=
  _ <-? m else Postgres.query_failed ;; mret (Ok tt).

Definition UpdateLastProcessedBlock (blockNumber : Z) : M (result unit) :=
  now ← Now;
  executed (updateRow (λ _, None) (λ r, Ok (set_progress blockNumber now (last_processed_lt r) r))).

Definition Initialize (contractAddress : string) (startingBlock : Z) : M (result unit) :=
  n <-? updateRow (λ _, None) (λ r,
      match assign_varchar 66 contractAddress with
      | Some contract =>
          Ok (set_origin contract (event_source_type r) (websocket_connected r)
                (set_progress startingBlock (last_poll_timestamp r) (last_processed_lt r) r))
      | None => Err (too_long 66)
      end) else Postgres.query_failed ;;
  if n =? 0 then mret (Err (ENew "blockchain_sync_state singleton row not found (id=1)"))
  else mret (Ok tt).

Definition GetLastProcessedBlock : M (result Z) := queryRow last_processed_block.

Definition GetEventSourceType : M (result string) :=
  queryRow (λ r, default "http" (event_source_type r)).

Definition SetEventSourceType (sourceType : string) (connected : bool) : M (result unit) :=
  executed (updateRow (λ _, None) (λ r,
    match assign_varchar 20 sourceType with
    | Some type => Ok (set_origin (contract_address r) (Some type) (Some connected) r)
    | None => Err (too_long 20)
    end)).

(** The CASE expressions that only move the checkpoint forward: the new [lt] and
    time when the stored one is not above [lt]. *)
Definition advance (lt : string) (now : Z) (r : SyncRow) : result SyncRow :=
  if negb (numeric_ok (stored_lt r)) then Err (bad_numeric (stored_lt r))
  else if negb (numeric_ok lt) then Err (bad_numeric lt)
  else if numeric_le (stored_lt r) lt then
    match assign_varchar 32 lt with
    | Some lt => Ok (set_progress (last_processed_block r) now (Some lt) r)
    | None => Err (too_long 32)
    end
  else Ok (set_progress (last_processed_block r) (last_poll_timestamp r)
             (Some (stored_lt r)) r).

Definition orZero (lt : string) : string :=
  if bool_decide (TrimSpace lt = EmptyString) then "0" else lt.

(** The cast of the parameter, which is evaluated whatever the row holds. *)
Definition bad_parameter (lt : string) : option error :=
  if numeric_ok lt then None else Some (bad_numeric lt).

(** [$1] is first used as a numeric here, and is sent as one; in [PersistCheckpoint] it is
    first used as a varchar. *)
Definition UpdateLastProcessedLt (lt : string) : M (result unit) :=
  let lt := orZero lt in
  now ← Now;
  executed (updateRow (λ _, bad_parameter lt) (advance (numeric_text lt) now)).

Definition PersistCheckpoint (contractAddress lt sourceType : string) (connected : bool) :
    M (result unit) :=
  let contractAddress := TrimSpace contractAddress in
  let lt := orZero lt in
  let sourceType := if bool_decide (TrimSpace sourceType = EmptyString) then EventSourceHTTP
                    else sourceType in
  now ← Now;
  executed (updateRow (λ n, if folded n then bad_parameter lt else None) (λ r,
    let moved :=
      if bool_decide (contract_address r = contractAddress) then advance lt now r
      else match assign_varchar 32 lt with
           | Some lt => Ok (set_progress (last_processed_block r) now (Some lt) r)
           | None => Err (too_long 32)
           end in
    match moved with
    | Err e => Err e
    | Ok r =>
        match assign_varchar 66 contractAddress, assign_varchar 20 sourceType with
        | Some contract, Some type => Ok (set_origin contract (Some type) (Some connected) r)
        | None, _ => Err (too_long 66)
        | _, None => Err (too_long 20)
        end
    end)).

Definition GetLastProcessedLt : M (result string) :=
  queryRow (λ r, default "0" (last_processed_lt r)).

(** [fallback_count] is an INTEGER: the increment overflows into an error. *)
Definition RecordFallback : M (result unit) :=
  now ← Now;
  executed (updateRow (λ _, None) (λ r,
    let n := default 0 (fallback_count r) + 1 in
    if n <? 2 ^ 31 then
      Ok (set_origin (contract_address r) (Some EventSourceHTTP) (Some false)
        (mkSyncRow (contract_address r) (last_processed_block r) (last_poll_timestamp r)
           (updated_at r) (event_source_type r) (last_processed_lt r) (last_processed_hash r)
           (websocket_connected r) (Some n) (Some now)))
    else Err (ENew "integer out of range"))).
End Repository.
End SyncStateRepository.
