(* ===== verification/SyncStateSpec.v ===== *)
(** * What the checkpoint repository promises

    Whatever happens to the statement, the saved logical time of a contract only moves
    forward, and nothing else of the database changes. *)
From S2P Require Import Prelude GoTypes Entity World Repo Poller PollerSpec SyncState.
From Stdlib Require Import Ascii.

(** A string of decimal digits and its value. *)
Definition numeral (s : string) (z : Z) : Prop := parse_nat (bytes s) = Some z.

Lemma ParseUint_numeral s z : ParseUint s = Some z → numeral s z.
Proof.
  unfold ParseUint, numeral. destruct (parse_nat _); [|done]. by destruct (_ <? _); intros [= ->].
Qed.

Lemma numeral_digits s z : numeral s z → s ≠ EmptyString ∧ forallb is_digit (bytes s) = true.
Proof.
  unfold numeral, parse_nat. destruct (bytes s) as [|c l] eqn:Hb; [done|]. intros Hd.
  split; [by intros ->|]. by apply parse_digits_all in Hd.
Qed.

(** Nothing is trimmed off digits. *)
Lemma strip_digit ps c l :
  is_digit c = true →
  forallb (λ p, match p with [] => false | d :: _ => negb (is_digit d) end) ps = true →
  strip_any ps (c :: l) = None.
Proof.
  intros Hc. induction ps as [|[|d p] ps IH]; [done..|]. simpl.
  intros [Hd Hps]%andb_true_iff. destruct (byte_eqb d c) eqn:E; [|by apply IH].
  apply bool_decide_eq_true in E as ->. by rewrite Hc in Hd.
Qed.

Lemma trim_digits ps fuel l :
  forallb is_digit l = true →
  forallb (λ p, match p with [] => false | d :: _ => negb (is_digit d) end) ps = true →
  trim_left ps fuel l = l.
Proof.
  intros Hl Hps. destruct fuel; [done|]. simpl. destruct l as [|c l].
  - assert (strip_any ps [] = None) as ->; [|done]. clear Hl.
    induction ps as [|[|d p] ps IH]; [done..|]. simpl in *.
    apply andb_true_iff in Hps as [_ Hps]. by apply IH.
  - simpl in Hl. apply andb_true_iff in Hl as [Hc _]. by rewrite strip_digit.
Qed.

Lemma TrimSpace_digits s : forallb is_digit (bytes s) = true → TrimSpace s = s.
Proof.
  intros Hs. unfold TrimSpace. rewrite (trim_digits space_encodings) by done.
  rewrite trim_digits.
  - rewrite rev_involutive. apply String.string_of_list_ascii_of_string.
  - apply forallb_forall. intros x Hx%in_rev. by eapply forallb_forall in Hs.
  - done.
Qed.

Lemma orZero_numeral s z : numeral s z → SyncStateRepository.orZero s = s.
Proof.
  intros [Hne Hd]%numeral_digits. unfold SyncStateRepository.orZero.
  rewrite TrimSpace_digits by done. by rewrite bool_decide_eq_false_2.
Qed.

Lemma no_spaces l :
  forallb is_digit l = true → forallb (λ c, byte_eqb c " "%char) l = true → l = [].
Proof.
  destruct l as [|c l]; [done|]. simpl. intros [Hd _]%andb_true_iff [He _]%andb_true_iff.
  unfold byte_eqb in He. apply bool_decide_eq_true in He. by subst c.
Qed.

(** Digits are stored as they are, or not at all. *)
Lemma assign_varchar_digits n s s' :
  forallb is_digit (bytes s) = true → assign_varchar n s = Some s' → s' = s.
Proof.
  intros Hd. unfold assign_varchar. destruct (fits n s) eqn:Hs; [|done]. intros [= <-].
  apply cut_id, no_spaces; [|exact Hs]. destruct (bytes_cut n s) as [Hk _].
  rewrite Hk, forallb_app in Hd. by apply andb_true_iff in Hd as [_ Hd].
Qed.

Section Spec.
Context `{E : Env} `{PN : PgNumeric} `{!PgNumericLaws PN}.
Import SyncStateRepository.

(** What an UPDATE of the row may leave behind. *)
Definition row_written (set : SyncRow → result SyncRow) (res : result Z) (t t' : Tables) : Prop :=
  t' = t ∧ (is_ok res = true → sync_state t = None) ∨
  ∃ r r' now, sync_state t = Some r ∧ set r = Ok r' ∧
    t' = set_sync_state (Some (touched now r')) t.

Lemma updateRow_written refused set w :
  row_written set (updateRow refused set w).1 (tables w) (tables (updateRow refused set w).2).
Proof.
  unfold updateRow, statement, row_written. cbv zeta.
  set (n := Z.of_nat _). set (now := dbclock _).
  destruct (refused n); [destruct (dbfault _); by left|].
  destruct (sync_state (tables w)) as [r|] eqn:Hr.
  - destruct (set r) as [r'|er] eqn:Hs.
    + destruct (dbfault _); [right|by left|right]; by exists r, r', now.
    + destruct (dbfault _); by left.
  - destruct (dbfault _); by left.
Qed.

Lemma executed_tables m w :
  (executed m w).2 = (m w).2 ∧ is_ok (executed m w).1 = is_ok (m w).1.
Proof.
  unfold executed, rbind_wrap, mbind, M_bind, ST_bind. by destruct (m w) as [[] w'].
Qed.

(** Saving a checkpoint changes no event. *)
Lemma PersistCheckpoint_events contract lt type connected w :
  game_events (tables (PersistCheckpoint contract lt type connected w).2)
  = game_events (tables w).
Proof.
  unfold PersistCheckpoint. cbv beta iota delta [mbind M_bind ST_bind Now]. cbv zeta beta iota.
  match goal with |- context [executed (updateRow ?c ?f) ?w1] =>
    destruct (executed_tables (updateRow c f) w1) as [-> _];
    destruct (updateRow_written c f w1) as [[-> _]|(r & r' & now & _ & _ & ->)]; done end.
Qed.

Lemma stored_lt_numeral r s z :
  last_processed_lt r = Some s → numeral s z → stored_lt r = s.
Proof.
  intros Hr [Hne _]%numeral_digits. unfold stored_lt. rewrite Hr.
  by rewrite bool_decide_eq_false_2.
Qed.

(** The CASE of the statements keeps the old numeral only when it is larger. *)
Lemma advance_numeral lt now r r' x y :
  numeral (stored_lt r) x → numeral lt y → advance lt now r = Ok r' →
  last_processed_lt r' = Some (if x <=? y then lt else stored_lt r).
Proof.
  intros Hx Hy. unfold advance.
  rewrite (numeric_digits _ _ Hx), (numeric_digits _ _ Hy), (numeric_order _ _ _ _ Hx Hy). simpl.
  destruct (x <=? y) eqn:Hle.
  - destruct (assign_varchar 32 lt) as [s|] eqn:Ha; [|done]. intros [= <-].
    by apply assign_varchar_digits in Ha as ->; [|eapply numeral_digits].
  - by intros [= <-].
Qed.

(** What the repository makes of an empty source type. *)
Definition source_or_http (type : string) : string :=
  if bool_decide (TrimSpace type = EmptyString) then EventSourceHTTP else type.

(** The row [r'] after a checkpoint was saved over the row [r]. *)
Record saved_by (contract lt type : string) (connected : bool) (y : Z) (r r' : SyncRow) : Prop := {
  saved_contract : assign_varchar 66 (TrimSpace contract) = Some (contract_address r');
  saved_forward x : contract_address r = TrimSpace contract → numeral (stored_lt r) x →
    stored_lt r' = if x <=? y then lt else stored_lt r;
  saved_other : contract_address r ≠ TrimSpace contract → stored_lt r' = lt;
  saved_type : event_source_type r' = assign_varchar 20 (source_or_http type);
  saved_connected : websocket_connected r' = Some connected }.

(** Saving a checkpoint either changes nothing (an error, or there is no row), or, whether
    the driver reports success or not, rewrites the row and nothing else of the database:
    for the contract the row already belongs to, the new logical time is saved unless the
    old one is larger as a number; for another contract it replaces the old one. *)
Theorem PersistCheckpoint_monotone contract lt type connected y w :
  numeral lt y →
  let out := PersistCheckpoint contract lt type connected w in
  (tables out.2 = tables w ∧ (out.1 = Ok tt → sync_state (tables w) = None)) ∨
  ∃ r r', sync_state (tables w) = Some r ∧ saved_by contract lt type connected y r r' ∧
    tables out.2 = set_sync_state (Some r') (tables w).
Proof.
  intros Hy. unfold PersistCheckpoint. rewrite (orZero_numeral _ _ Hy).
  fold (source_or_http type). cbv beta iota delta [mbind M_bind ST_bind Now].
  cbv zeta beta iota. fold (Nat.add 1).
  match goal with |- context [executed (updateRow ?c ?f)] => set (set_row := f); set (cast := c) end.
  match goal with |- context [executed _ ?w1] =>
    set (w1' := w1); assert (tables w1' = tables w) as <- by done; clearbody w1' end.
  destruct (executed_tables (updateRow cast set_row) w1') as [-> Hok].
  destruct (updateRow_written cast set_row w1') as [[Ht Hn]|(r & r' & now & Hr & Hset & Ht)].
  { left. split; [done|]. intros Hres. apply Hn. by rewrite <-Hok, Hres. }
  right. exists r, (touched now r'). split_and!; [done| |done]. clear Ht Hok.
  subst set_row. cbv beta in Hset. case_bool_decide as Hc.
  - destruct (advance _ _ r) as [r1|] eqn:Ha; [|done].
    destruct (assign_varchar 66 _) as [c|] eqn:H66; [|done].
    destruct (assign_varchar 20 _) as [ty|] eqn:H20; [|done]. injection Hset as <-.
    split; simpl; [done| |done|done|done]. intros x _ Hx.
    pose proof (advance_numeral _ _ _ _ _ _ Hx Hy Ha) as Hs.
    destruct (x <=? y); (eapply stored_lt_numeral; [exact Hs|eassumption]).
  - destruct (assign_varchar 32 lt) as [s|] eqn:Ha; [|done].
    apply assign_varchar_digits in Ha as ->; [|by eapply numeral_digits].
    destruct (assign_varchar 66 _) as [c|] eqn:H66; [|done].
    destruct (assign_varchar 20 _) as [ty|] eqn:H20; [|done]. injection Hset as <-.
    split; simpl; [done|done| |done|done]. intros _. by eapply stored_lt_numeral.
Qed.

(** As a number, the saved logical time of a contract is the larger of the two. *)
Lemma saved_max contract lt type connected x y r r' :
  saved_by contract lt type connected y r r' → contract_address r = TrimSpace contract →
  numeral lt y → numeral (stored_lt r) x → numeral (stored_lt r') (Z.max x y).
Proof.
  intros Hs Hc Hy Hx. rewrite (saved_forward _ _ _ _ _ _ _ Hs x Hc Hx).
  destruct (x <=? y) eqn:Hle; [rewrite Z.max_r by lia|rewrite Z.max_l by lia]; done.
Qed.
End Spec.

(** ** A concrete run *)

Module SyncStateRun.
#[local] Existing Instance Run.ticking.

(** Numbers are strings of digits; no cast is evaluated early. *)
Definition digits : PgNumeric := {|
  numeric_ok s := match parse_nat (bytes s) with Some _ => true | None => false end;
  numeric_le a b := default 0 (parse_nat (bytes a)) <=? default 0 (parse_nat (bytes b));
  numeric_text s := s; folded _ := false |}.
#[local] Existing Instance digits.

#[export] Instance digits_laws : PgNumericLaws digits.
Proof. split; simpl; [by intros s z ->|by intros a b x y -> ->|done]. Qed.

Definition row : SyncRow :=
  mkSyncRow "EQ" 0 0 0 (Some "http") (Some "90") None (Some false) (Some 0) None.
Definition w : World := Run.world (mkTables ∅ ∅ ∅ ∅ (Some row)) 3 1000.
Definition save (lt : string) (w : World) : World :=
  (SyncStateRepository.PersistCheckpoint " EQ " lt "http" true w).2.

(** As numbers: 100 is after 90, and 95 is not after 100. *)
Lemma PersistCheckpoint_monotone_witness :
  stored_lt <$> sync_state (tables (save "95" (save "100" w))) = Some "100" ∧
  ∃ r, sync_state (tables (save "100" w)) = Some r ∧ numeral (stored_lt r) 100.
Proof.
  split; [vm_compute; reflexivity|].
  destruct (PersistCheckpoint_monotone " EQ " "100" "http" true 100 w eq_refl)
    as [[H _]|(r & r' & Hr & Hs & Ht)].
  - exfalso. vm_compute in H. discriminate H.
  - injection Hr as <-. exists r'. split.
    + unfold save. rewrite Ht. reflexivity.
    + exact (saved_max _ _ _ _ 90 _ _ _ Hs eq_refl eq_refl eq_refl).
Defined.
End SyncStateRun.
