(* ===== verification/DeadLetter.v ===== *)
(** * The dead letter queue

    internal/usecase/dead_letter_queue.go over
    internal/repository/postgres/dead_letter_queue_repository.go. *)
From S2P Require Import Prelude GoTypes Entity World Repo Toncenter.

(** ** The repository *)

Module DLQRepository.
Section Repository.
Context `{E : Env}.
Import DeadLetterEntry.

Definition int4 (z : Z) : bool := (- 2 ^ 31 <=? z) && (z <? 2 ^ 31).

(** [status IN ('pending', 'retrying')] *)
Definition is_open (e : t) : bool :=
  bool_decide (Status e = DLQStatusPending) || bool_decide (Status e = DLQStatusRetrying).

(** The ranges of the INTEGER columns and the CHECK of the table. *)
Definition row_check (e : t) : bool :=
  int4 (RetryCount e) && int4 (MaxRetries e) &&
  (is_open e || bool_decide (Status e = DLQStatusResolved)
             || bool_decide (Status e = DLQStatusFailed)).

(** The row that the VARCHAR columns of migration 11 keep of an entry. *)
Definition dlq_row (e : t) : t :=
  {| ID := ID e; TransactionHash := cut 66 (TransactionHash e);
     TransactionLt := cut 50 (TransactionLt e); RawData := RawData e;
     ErrorMessage := ErrorMessage e; ErrorType := cut 50 (ErrorType e);
     RetryCount := RetryCount e; MaxRetries := MaxRetries e; CreatedAt := CreatedAt e;
     LastRetryAt := LastRetryAt e; NextRetryAt := NextRetryAt e; ResolvedAt := ResolvedAt e;
     Status := cut 20 (Status e); ResolutionNotes := ResolutionNotes e |}.

(** That row, or what PostgreSQL refuses about its values. *)
Definition dlq_admit (e : t) : result t :=
  let row := dlq_row e in
  if negb (fits 66 (TransactionHash e)) then Err (too_long 66)
  else if negb (fits 50 (TransactionLt e) && fits 50 (ErrorType e)) then Err (too_long 50)
  else if negb (fits 20 (Status e)) then Err (too_long 20)
  else if negb (row_check row) then Err (Postgres.violates "dlq_status_check")
  else Ok row.

Lemma dlq_admit_ok e row : dlq_admit e = Ok row → row = dlq_row e ∧ row_check row = true.
Proof.
  unfold dlq_admit. repeat (case_match; [discriminate|]). intros [= <-].
  split; [done|]. by apply negb_false_iff.
Qed.

(** Every refusal is another error than [pgx.ErrNoRows]. *)
Lemma dlq_admit_error e er : dlq_admit e = Err er → er ≠ ESentinel ErrNoRows.
Proof. unfold dlq_admit. repeat case_match; by intros [= <-]. Qed.

Definition rows (dl : gmap Z t) : list t := (map_to_list dl).*2.

(** [transaction_hash = hash AND transaction_lt = lt AND status IN (...)] *)
Definition matches (hash lt : string) (e : t) : bool :=
  bool_decide (TransactionHash e = hash) && bool_decide (TransactionLt e = lt) && is_open e.

(** idx_dlq_unique_tx refuses [e] because of another open row. *)
Definition taken (dl : gmap Z t) (e : t) : bool :=
  is_open e && existsb (λ r, negb (ID r =? ID e) &&
                             matches (TransactionHash e) (TransactionLt e) r) (rows dl).

(** The row as inserted: the id of the sequence, [created_at] by default. *)
Definition inserted (id now : Z) (e : t) : t :=
  {| ID := id; TransactionHash := TransactionHash e; TransactionLt := TransactionLt e;
     RawData := RawData e; ErrorMessage := ErrorMessage e; ErrorType := ErrorType e;
     RetryCount := RetryCount e; MaxRetries := MaxRetries e; CreatedAt := now;
     LastRetryAt := None; NextRetryAt := NextRetryAt e; ResolvedAt := None;
     Status := Status e; ResolutionNotes := ResolutionNotes e |}.

(** What the caller's entry becomes when the RETURNING columns are scanned into it. *)
Definition scanned (row e : t) : t :=
  {| ID := ID row; TransactionHash := TransactionHash e; TransactionLt := TransactionLt e;
     RawData := RawData e; ErrorMessage := ErrorMessage e; ErrorType := ErrorType e;
     RetryCount := RetryCount row; MaxRetries := MaxRetries row; CreatedAt := CreatedAt row;
     LastRetryAt := LastRetryAt e; NextRetryAt := NextRetryAt row;
     ResolvedAt := ResolvedAt e; Status := Status row;
     ResolutionNotes := ResolutionNotes row |}.

(** The entry the caller's pointer holds afterwards; a conflict is not an error. *)
Definition Create (entry : t) : M (result t) :=
  entry <-? lift_result (Validate entry) else Errorf "validation failed" ;;
  r ← statement (λ id now t,
        match dlq_admit (inserted id now entry) with
        | Err e => Err e
        | Ok row =>
            if taken (dead_letters t) row then Err (ESentinel ErrNoRows)
            else Ok (row, set_dead_letters (<[id := row]> (dead_letters t)) t)
        end);
  match r with
  | Ok row => mret (Ok (scanned row entry))
  | Err e => if bool_decide (e = ESentinel ErrNoRows) then mret (Ok entry)
             else mret (Err (Postgres.query_failed e))
  end.

(** [QueryRow] over a SELECT: the first row, or [nil, nil] when there is none. *)
Definition queryRow (pick : gmap Z t → option t) : M (result (option t)) :=
  r ← statement (λ _ _ t, match pick (dead_letters t) with
                          | Some e => Ok (e, t)
                          | None => Err (ESentinel ErrNoRows)
                          end);
  match r with
  | Ok e => mret (Ok (Some e))
  | Err e => if bool_decide (e = ESentinel ErrNoRows) then mret (Ok None)
             else mret (Err (Postgres.query_failed e))
  end.

Definition GetByID (id : Z) : M (result (option t)) := queryRow (λ dl, dl !! id).

Definition GetByTransactionHash (hash lt : string) : M (result (option t)) :=
  queryRow (λ dl, List.find (matches hash lt) (rows dl)).

(** [Limit(uint64(limit))]: a negative limit is out of range for PostgreSQL. *)
Definition limited {A} (limit : Z) (l : list A) : result (list A) :=
  if limit <? 0 then Err (ENew "bigint out of range") else Ok (take (Z.to_nat limit) l).

Definition due (now : Z) (e : t) : bool :=
  is_open e &&
  match NextRetryAt e with None => true | Some at_ => at_ <=? now end &&
  (RetryCount e <? MaxRetries e).

Definition oldestFirst (x y : t) : bool := CreatedAt x <? CreatedAt y.
Definition newestFirst (x y : t) : bool := CreatedAt y <? CreatedAt x.

Definition GetPendingForRetry (limit : Z) : M (result (list t)) :=
  entries <-? statement (λ id now t,
      match limited limit (SliceStable oldestFirst
              (scanOrder id _ (List.filter (due now) (rows (dead_letters t))))) with
      | Ok l => Ok (stream id l, t)
      | Err e => Err e
      end) else Postgres.query_failed ;;
  mret (Ok entries).

Definition GetByStatus (status : string) (limit offset : Z) : M (result (list t)) :=
  entries <-? statement (λ id _ t,
      if offset <? 0 then Err (ENew "bigint out of range")
      else match limited limit (drop (Z.to_nat offset) (SliceStable newestFirst
              (scanOrder id _ (List.filter (λ e, bool_decide (Status e = status))
                 (rows (dead_letters t)))))) with
      | Ok l => Ok (stream id l, t)
      | Err e => Err e
      end) else Postgres.query_failed ;;
  mret (Ok entries).

(** [UPDATE dead_letter_queue SET ... WHERE id = id]; no row is an error. *)
Definition updateRow (id : Z) (set : t → t) : M (result unit) :=
  affected <-? statement (λ _ _ t,
      match dead_letters t !! id with
      | None => Ok (0, t)
      | Some e =>
          match dlq_admit (set e) with
          | Err er => Err er
          | Ok row =>
              if taken (dead_letters t) row then Err (Postgres.violates "idx_dlq_unique_tx")
              else Ok (1, set_dead_letters (<[id := row]> (dead_letters t)) t)
          end
      end) else Postgres.query_failed ;;
  if affected =? 0 then mret (Err (ENew ("entry not found: " +:+ FormatInt id)))
  else mret (Ok tt).

(** The columns [Update] writes, from [entry] into the stored row. *)
Definition updated (entry e : t) : t :=
  {| ID := ID e; TransactionHash := TransactionHash e; TransactionLt := TransactionLt e;
     RawData := RawData e; ErrorMessage := ErrorMessage entry; ErrorType := ErrorType entry;
     RetryCount := RetryCount entry; MaxRetries := MaxRetries e; CreatedAt := CreatedAt e;
     LastRetryAt := LastRetryAt entry; NextRetryAt := NextRetryAt entry;
     ResolvedAt := ResolvedAt entry; Status := Status entry;
     ResolutionNotes := ResolutionNotes entry |}.

Definition Update (entry : t) : M (result unit) := updateRow (ID entry) (updated entry).

Definition set_Status (status notes : string) (resolvedAt : option Z) (e : t) : t :=
  {| ID := ID e; TransactionHash := TransactionHash e; TransactionLt := TransactionLt e;
     RawData := RawData e; ErrorMessage := ErrorMessage e; ErrorType := ErrorType e;
     RetryCount := RetryCount e; MaxRetries := MaxRetries e; CreatedAt := CreatedAt e;
     LastRetryAt := LastRetryAt e; NextRetryAt := NextRetryAt e;
     ResolvedAt := match resolvedAt with Some _ => resolvedAt | None => ResolvedAt e end;
     Status := status; ResolutionNotes := notes |}.

(** resolved_at is set for the terminal states only. *)
Definition UpdateStatus (id : Z) (status notes : string) : M (result unit) :=
  if bool_decide (status = DLQStatusResolved) || bool_decide (status = DLQStatusFailed) then
    now ← Now; updateRow id (set_Status status notes (Some now))
  else updateRow id (set_Status status notes None).

Definition retried (now nextRetryAt : Z) (e : t) : t :=
  {| ID := ID e; TransactionHash := TransactionHash e; TransactionLt := TransactionLt e;
     RawData := RawData e; ErrorMessage := ErrorMessage e; ErrorType := ErrorType e;
     RetryCount := RetryCount e + 1; MaxRetries := MaxRetries e; CreatedAt := CreatedAt e;
     LastRetryAt := Some now; NextRetryAt := Some nextRetryAt; ResolvedAt := ResolvedAt e;
     Status := DLQStatusRetrying; ResolutionNotes := ResolutionNotes e |}.

Definition IncrementRetryCount (id nextRetryAt : Z) : M (result unit) :=
  now ← Now; updateRow id (retried now nextRetryAt).

Definition Delete (id : Z) : M (result unit) :=
  affected <-? statement (λ _ _ t,
      match dead_letters t !! id with
      | None => Ok (0, t)
      | Some _ => Ok (1, set_dead_letters (delete id (dead_letters t)) t)
      end) else Postgres.query_failed ;;
  if affected =? 0 then mret (Err (ENew ("entry not found: " +:+ FormatInt id)))
  else mret (Ok tt).

Definition count (p : t → bool) (dl : gmap Z t) : Z :=
  Z.of_nat (List.length (List.filter p (rows dl))).

Definition CountByStatus (status : string) : M (result Z) :=
  n <-? statement (λ _ _ t,
      Ok (count (λ e, bool_decide (Status e = status)) (dead_letters t), t))
    else Postgres.query_failed ;;
  mret (Ok n).

Record DLQStats := mkStats {
  PendingCount : Z; RetryingCount : Z; ResolvedCount : Z; FailedCount : Z; TotalCount : Z;
  ParseErrorCount : Z; PersistenceErrorCount : Z; ValidationErrorCount : Z;
  UnknownErrorCount : Z; ReadyForRetryCount : Z; ExhaustedRetryCount : Z;
  OldestPending : option Z; NextScheduledRetryAt : option Z }.

(** [MIN] of the values that are not NULL. *)
Definition minimum (l : list (option Z)) : option Z :=
  foldr (λ x m, match x, m with
                | Some a, Some b => Some (Z.min a b)
                | Some a, None => Some a
                | None, m => m
                end) None l.

Definition exhausted (e : t) : bool := is_open e && (MaxRetries e <=? RetryCount e).

Definition stats (now : Z) (dl : gmap Z t) : DLQStats :=
  let status s e := bool_decide (Status e = s) in
  let kind s e := bool_decide (ErrorType e = s) in
  mkStats (count (status DLQStatusPending) dl) (count (status DLQStatusRetrying) dl)
    (count (status DLQStatusResolved) dl) (count (status DLQStatusFailed) dl)
    (count (λ _, true) dl) (count (kind DLQErrorTypeParse) dl)
    (count (kind DLQErrorTypePersistence) dl) (count (kind DLQErrorTypeValidation) dl)
    (count (kind DLQErrorTypeUnknown) dl) (count (due now) dl) (count exhausted dl)
    (minimum ((λ e, if is_open e then Some (CreatedAt e) else None) <$> rows dl))
    (minimum ((λ e, if is_open e && (RetryCount e <? MaxRetries e) then NextRetryAt e
                    else None) <$> rows dl)).

Definition GetStats : M (result DLQStats) :=
  s <-? statement (λ _ now t, Ok (stats now (dead_letters t), t)) else Postgres.query_failed ;;
  mret (Ok s).
End Repository.
End DLQRepository.

(** ** The use case *)

Module DeadLetterQueue.
Definition defaultDLQBaseBackoff : Z := 5 * 60 * 10 ^ 9.
Definition defaultDLQMaxRetries : Z := 3.

Definition DLQStoreOutcomeQueued : string := "queued".
Definition DLQStoreOutcomeAlreadyPending : string := "already_pending".

Record StoreFailedTransactionResult := mkStored {
  Outcome : string; EntryID : Z; Status : string; ErrorType : string; RetryCount : Z;
  MaxRetries : Z; NextRetryAt : option Z; ResolutionNotes : string }.

Definition newStoreFailedTransactionResult (outcome : string) (e : DeadLetterEntry.t) :
    StoreFailedTransactionResult :=
  {| Outcome := outcome; EntryID := DeadLetterEntry.ID e; Status := DeadLetterEntry.Status e;
     ErrorType := DeadLetterEntry.ErrorType e; RetryCount := DeadLetterEntry.RetryCount e;
     MaxRetries := DeadLetterEntry.MaxRetries e;
     NextRetryAt := DeadLetterEntry.NextRetryAt e;
     ResolutionNotes := DeadLetterEntry.ResolutionNotes e |}.

Definition pendingDLQResolutionNotes (errorType : string) : string :=
  if bool_decide (errorType = DLQErrorTypeParse) then "queued after parse failure"
  else if bool_decide (errorType = DLQErrorTypeValidation) then
    "queued after validation failure"
  else if bool_decide (errorType = DLQErrorTypePersistence) then
    "queued after persistence retries exhausted"
  else "queued after unknown failure".

Section UseCase.
Context `{E : Env} (baseBackoff : Z).
Import DLQRepository.

Definition serializeTransaction (tx : Transaction.t) : option string :=
  let data : gmap string dyn :=
    {[ "hash" := VString (Transaction.Hash tx); "lt" := VString (Transaction.Lt tx);
       "utime" := VInt64 (Transaction.Utime tx); "data" := VString (Transaction.Data tx);
       "fee" := VString (Transaction.Fee tx);
       "storage_fee" := VString (Transaction.StorageFee tx);
       "other_fee" := VString (Transaction.OtherFee tx) ]} in
  let data := match Transaction.InMsg tx with
              | Some m => <["in_msg" := VRaw m]> data | None => data end in
  let data := match Transaction.OutMsgs tx with
              | Some m => <["out_msgs" := VRaw m]> data | None => data end in
  json_Marshal data.

Definition serialization_failed : string :=
  "{" +:+ quote_char +:+ "error" +:+ quote_char +:+ ": " +:+ quote_char +:+
  "serialization failed" +:+ quote_char +:+ "}".

Definition failedEntry (tx : Transaction.t) (err : error) (errorType : string) :
    DeadLetterEntry.t := {|
  DeadLetterEntry.ID := 0;
  DeadLetterEntry.TransactionHash := Transaction.Hash tx;
  DeadLetterEntry.TransactionLt := Transaction.Lt tx;
  DeadLetterEntry.RawData := default serialization_failed (serializeTransaction tx);
  DeadLetterEntry.ErrorMessage := Error err; DeadLetterEntry.ErrorType := errorType;
  DeadLetterEntry.RetryCount := 0; DeadLetterEntry.MaxRetries := defaultDLQMaxRetries;
  DeadLetterEntry.CreatedAt := 0; DeadLetterEntry.LastRetryAt := None;
  DeadLetterEntry.NextRetryAt := None; DeadLetterEntry.ResolvedAt := None;
  DeadLetterEntry.Status := DLQStatusPending;
  DeadLetterEntry.ResolutionNotes := pendingDLQResolutionNotes errorType |}.

(** The retry count is 0, so scheduling does not panic. *)
Definition StoreFailedTransaction (tx : Transaction.t) (err : error) (errorType : string) :
    M (result StoreFailedTransactionResult) :=
  now ← Now;
  let entry := failedEntry tx err errorType in
  let entry := default entry (DeadLetterEntry.ScheduleNextRetry now baseBackoff entry) in
  entry <-? Create entry ;;
  if DeadLetterEntry.ID entry =? 0 then
    existing <-? GetByTransactionHash (Transaction.Hash tx) (Transaction.Lt tx) ;;
    mret (Ok (newStoreFailedTransactionResult DLQStoreOutcomeAlreadyPending
                (default entry existing)))
  else mret (Ok (newStoreFailedTransactionResult DLQStoreOutcomeQueued entry)).

Definition GetPendingForRetry (limit : Z) : M (result (list DeadLetterEntry.t)) :=
  DLQRepository.GetPendingForRetry limit.

(** [None] when the code panics; the entry is the caller's, changed in place. *)
Definition MarkRetryAttempt (entry : DeadLetterEntry.t) : M (option (result DeadLetterEntry.t)) :=
  now ← Now;
  let entry := DeadLetterEntry.MarkRetrying now entry in
  if DeadLetterEntry.RetryCount entry <? 0 then mret None
  else
    now ← Now;
    match DeadLetterEntry.ScheduleNextRetry now baseBackoff entry with
    | None => mret None
    | Some entry => r ← (_ <-? Update entry ;; mret (Ok entry)); mret (Some r)
    end.

Definition MarkResolved (id : Z) (notes : string) : M (result unit) :=
  UpdateStatus id DLQStatusResolved notes.
Definition MarkFailed (id : Z) (notes : string) : M (result unit) :=
  UpdateStatus id DLQStatusFailed notes.

Definition GetStats : M (result DLQStats) := DLQRepository.GetStats.

Definition GetObservability : M (result (Z * DLQStats)) :=
  stats <-? DLQRepository.GetStats ;; mret (Ok (baseBackoff, stats)).

Definition GetByStatus (status : string) (limit offset : Z) :
    M (result (list DeadLetterEntry.t)) :=
  DLQRepository.GetByStatus status limit offset.
Definition GetByID (id : Z) : M (result (option DeadLetterEntry.t)) := DLQRepository.GetByID id.

Definition CheckDuplicate (hash lt : string) : M (result bool) :=
  entry <-? GetByTransactionHash hash lt ;; mret (Ok (bool_decide (is_Some entry))).
End UseCase.
End DeadLetterQueue.

(** ** Correctness *)

(** *** Backoff *)

Section Backoff.
Import DeadLetterEntry.

(** As long as the product fits, the delay doubles with every retry up to an hour. *)
Lemma backoff_exact base n :
  0 < base → 0 ≤ n → base * 2 ^ n ≤ MaxInt64 → backoff base n = Z.min (base * 2 ^ n) Hour.
Proof.
  intros Hb Hn Hfit. unfold backoff. rewrite Z.shiftl_1_l.
  assert (0 < 2 ^ n) by lia. assert (2 ^ n ≤ base * 2 ^ n) by nia.
  assert (in_int64 (2 ^ n)) by (unfold in_int64, MinInt64, MaxInt64 in *; lia).
  assert (in_int64 (base * 2 ^ n)) by (unfold in_int64, MinInt64, MaxInt64 in *; lia).
  rewrite !wrap64_id by (rewrite ?wrap64_id; done).
  destruct (Z.ltb_spec Hour (base * 2 ^ n)); lia.
Qed.
End Backoff.

(** *** The table *)

Section Queue.
Context `{E : Env}.
Import DLQRepository.

(** Rows are under their ids, which the sequence has passed; they satisfy the CHECK,
    and no two open rows are about the same transaction. *)
Record dlq_ok (w : World) : Prop := {
  dlq_id id e : dead_letters (tables w) !! id = Some e →
    DeadLetterEntry.ID e = id ∧ 0 < id ≤ Z.of_nat (stmts w) ∧ row_check e = true;
  dlq_unique i j x y :
    dead_letters (tables w) !! i = Some x → dead_letters (tables w) !! j = Some y →
    is_open x = true → is_open y = true →
    DeadLetterEntry.TransactionHash x = DeadLetterEntry.TransactionHash y →
    DeadLetterEntry.TransactionLt x = DeadLetterEntry.TransactionLt y → i = j }.

Lemma elem_of_rows dl e : e ∈ rows dl ↔ ∃ id, dl !! id = Some e.
Proof.
  unfold rows. rewrite list_elem_of_fmap. split.
  - intros ([id e'] & -> & Hin). exists id. by apply elem_of_map_to_list.
  - intros [id Hid]. exists (id, e). split; [done|]. by apply elem_of_map_to_list.
Qed.

Lemma taken_false dl e id r :
  taken dl e = false → is_open e = true → dl !! id = Some r →
  DeadLetterEntry.ID r ≠ DeadLetterEntry.ID e →
  matches (DeadLetterEntry.TransactionHash e) (DeadLetterEntry.TransactionLt e) r = false.
Proof.
  unfold taken. intros Ht Ho Hr Hne. rewrite Ho in Ht. simpl in Ht. apply not_true_iff_false. intros Hm.
  apply not_true_iff_false in Ht. apply Ht, existsb_exists. exists r. split.
  - apply list_elem_of_In, elem_of_rows. eauto.
  - rewrite Hm, andb_true_r, negb_true_iff. by apply Z.eqb_neq.
Qed.

Lemma matches_true hash lt e :
  matches hash lt e = true ↔ DeadLetterEntry.TransactionHash e = hash ∧
    DeadLetterEntry.TransactionLt e = lt ∧ is_open e = true.
Proof. unfold matches. rewrite !andb_true_iff, !bool_decide_eq_true. tauto. Qed.

(** Writing a row that passed the checks of the table. *)
Lemma dlq_ok_write w w' id e :
  dlq_ok w → (stmts w ≤ stmts w')%nat → 0 < id ≤ Z.of_nat (stmts w') →
  DeadLetterEntry.ID e = id → row_check e = true → taken (dead_letters (tables w)) e = false →
  dead_letters (tables w') = <[id := e]> (dead_letters (tables w)) → dlq_ok w'.
Proof.
  intros [Hid Huniq] Hst Hrange He Hc Ht Hd. split; rewrite Hd; clear Hd.
  - intros i x [[<- <-]|[_ Hx]]%lookup_insert_Some; [done|].
    destruct (Hid i x Hx) as (? & ? & ?). split_and!; try done; lia.
  - assert (∀ j y, id ≠ j → dead_letters (tables w) !! j = Some y → is_open e = true →
      is_open y = true → DeadLetterEntry.TransactionHash e = DeadLetterEntry.TransactionHash y →
      DeadLetterEntry.TransactionLt e = DeadLetterEntry.TransactionLt y → False) as Hno.
    { intros j y Hne Hy Hoe Hoy Hh Hl. destruct (Hid j y Hy) as (Hj & _).
      eapply eq_true_false_abs, (taken_false _ _ j y Ht Hoe Hy); [|congruence].
      by apply matches_true. }
    intros i j x y [[<- <-]|[Hi Hx]]%lookup_insert_Some
      [[<- <-]|[Hj Hy]]%lookup_insert_Some Hox Hoy Hh Hl; try done.
    + by destruct (Hno j y).
    + by destruct (Hno i x).
    + by eapply Huniq.
Qed.

Lemma dlq_ok_same w w' :
  dlq_ok w → (stmts w ≤ stmts w')%nat → dead_letters (tables w') = dead_letters (tables w) →
  dlq_ok w'.
Proof.
  intros [Hid Hu] Hst Hd. split; rewrite Hd; [|done].
  intros i x Hx. destruct (Hid i x Hx) as (? & ? & ?). split_and!; try done; lia.
Qed.

Lemma dlq_ok_delete w w' id :
  dlq_ok w → (stmts w ≤ stmts w')%nat →
  dead_letters (tables w') = delete id (dead_letters (tables w)) → dlq_ok w'.
Proof.
  intros [Hid Hu] Hst Hd. split; rewrite Hd.
  - intros i x [_ Hx]%lookup_delete_Some. destruct (Hid i x Hx) as (? & ? & ?).
    split_and!; try done; lia.
  - intros i j x y [_ Hx]%lookup_delete_Some [_ Hy]%lookup_delete_Some. by eapply Hu.
Qed.

(** A statement keeps the invariant when what it would write does. *)
Lemma dlq_statement {A} (f : Z → Z → Tables → result (A * Tables)) w :
  dlq_ok w →
  (∀ now a t w', stmts w' = S (stmts w) → tables w' = t →
     f (Z.of_nat (S (stmts w))) now (tables w) = Ok (a, t) → dlq_ok w') →
  dlq_ok (statement f w).2.
Proof.
  intros Hok Hf. unfold statement.
  assert (dlq_ok (set_stmts (S (stmts w)) w)) as Hsame
    by (apply (dlq_ok_same w); simpl; auto).
  destruct (f _ _ _) as [[a t]|e] eqn:Hr; destruct (dbfault (stmts w)); simpl; try done;
    by eapply (Hf _ a t).
Qed.
Lemma Now_dlq : keeps dlq_ok Now.
Proof. intros w Hw. by apply (dlq_ok_same w). Qed.

Lemma read_dlq {A} (f : Z → Z → Tables → result (A * Tables)) :
  (∀ n now t a t', f n now t = Ok (a, t') → t' = t) → keeps dlq_ok (statement f).
Proof.
  intros Hf w Hw. apply dlq_statement; [done|]. intros now a t w' Hs Ht ->%Hf.
  apply (dlq_ok_same w); [done|lia|by rewrite Ht].
Qed.

Lemma Create_dlq e : keeps dlq_ok (Create e).
Proof.
  unfold Create. repeat keeps_world. intros w Hw. apply dlq_statement; [done|].
  intros now row t w' Hs Ht. destruct (dlq_admit _) as [new|] eqn:Ha; [|done].
  apply dlq_admit_ok in Ha as [Hrow Hc].
  destruct (taken _ _) eqn:Htk; [done|]. intros [= <- <-].
  eapply (dlq_ok_write w); [done|lia| | |exact Hc|exact Htk|by rewrite Ht]; simpl; [lia|].
  by rewrite Hrow.
Qed.

Lemma updateRow_dlq id set :
  (∀ e, DeadLetterEntry.ID (set e) = DeadLetterEntry.ID e) → keeps dlq_ok (updateRow id set).
Proof.
  intros Hset. unfold updateRow. repeat keeps_world. intros w Hw. apply dlq_statement; [done|].
  intros now n t w' Hs Ht. destruct (dead_letters (tables w) !! id) as [e|] eqn:He; cbv zeta.
  2: { intros [= <- <-]. apply (dlq_ok_same w); [done|lia|by rewrite Ht]. }
  destruct (dlq_id _ Hw _ _ He) as (Hid & Hr & _).
  destruct (dlq_admit _) as [row|] eqn:Ha; [|done]. apply dlq_admit_ok in Ha as [Hrow Hc].
  destruct (taken _ _) eqn:Htk; [done|]. intros [= <- <-].
  eapply (dlq_ok_write w); [done|lia| | |exact Hc|exact Htk|by rewrite Ht]; simpl; [lia|].
  rewrite Hrow. simpl. by rewrite Hset.
Qed.

Lemma Delete_dlq id : keeps dlq_ok (Delete id).
Proof.
  unfold Delete. repeat keeps_world. intros w Hw. apply dlq_statement; [done|].
  intros now n t w' Hs Ht. destruct (dead_letters (tables w) !! id) eqn:He; intros [= <- <-].
  - apply (dlq_ok_delete w _ id); [done|lia|by rewrite Ht].
  - apply (dlq_ok_same w); [done|lia|by rewrite Ht].
Qed.

Lemma queryRow_dlq pick : keeps dlq_ok (queryRow pick).
Proof.
  unfold queryRow. repeat keeps_world. apply read_dlq. intros n now t a t'.
  destruct (pick _); congruence.
Qed.

Lemma GetPendingForRetry_dlq limit : keeps dlq_ok (GetPendingForRetry limit).
Proof.
  unfold GetPendingForRetry. repeat keeps_world. apply read_dlq. intros n now t a t'.
  destruct (limited _ _); congruence.
Qed.
End Queue.

(** The operations of the use case and of the repository that write. *)
Section Steps.
Context `{E : Env} (baseBackoff : Z).
Import DeadLetterQueue DLQRepository.

Inductive dlq_step : World → World → Prop :=
| dlq_store tx err kind w : dlq_step w (StoreFailedTransaction baseBackoff tx err kind w).2
| dlq_retry e w : dlq_step w (MarkRetryAttempt baseBackoff e w).2
| dlq_resolve id notes w : dlq_step w (MarkResolved id notes w).2
| dlq_fail id notes w : dlq_step w (MarkFailed id notes w).2
| dlq_increment id next w : dlq_step w (IncrementRetryCount id next w).2
| dlq_delete id w : dlq_step w (Delete id w).2
| dlq_list limit w : dlq_step w (GetPendingForRetry limit w).2.

Lemma dlq_step_ok w w' : dlq_step w w' → dlq_ok w → dlq_ok w'.
Proof.
  enough (∀ {A} (m : M A), keeps dlq_ok m → ∀ w, dlq_ok w → dlq_ok (m w).2) as Hk.
  2: { intros A m Hm. exact Hm. }
  intros []; apply Hk;
    unfold StoreFailedTransaction, MarkRetryAttempt, MarkResolved, MarkFailed, UpdateStatus,
      IncrementRetryCount, Update, GetByTransactionHash, DeadLetterQueue.GetPendingForRetry;
    repeat first [apply Create_dlq | apply Now_dlq | apply queryRow_dlq | apply Delete_dlq
                 | apply GetPendingForRetry_dlq | apply updateRow_dlq; reflexivity
                 | keeps_world].
Qed.
End Steps.

Section Specs.
Context `{E : Env} (baseBackoff : Z).
Import DeadLetterQueue DLQRepository.

(** The values of a failed transaction fit their columns. *)
Record short (tx : Transaction.t) (kind : string) : Prop := {
  short_hash : beyond 66 (bytes (Transaction.Hash tx)) = [];
  short_lt : beyond 50 (bytes (Transaction.Lt tx)) = [];
  short_kind : beyond 50 (bytes kind) = [] }.

(** The row a failed transaction gets. *)
Definition queued_row (tx : Transaction.t) (err : error) (kind : string) (now id created : Z) :
    DeadLetterEntry.t :=
  inserted id created
    (DeadLetterEntry.set_defaults
       (DeadLetterEntry.set_NextRetryAt (Some (now + DeadLetterEntry.backoff baseBackoff 0))
          (failedEntry tx err kind))).

Definition queued (tx : Transaction.t) (err : error) (kind : string) (w w' : World)
    (id : Z) : Prop :=
  (∀ i e, dead_letters (tables w) !! i = Some e →
     matches (Transaction.Hash tx) (Transaction.Lt tx) e = false) ∧
  dead_letters (tables w) !! id = None ∧
  ∃ created, dead_letters (tables w') =
    <[id := queued_row tx err kind (time w) id created]> (dead_letters (tables w)).

Definition store_post (tx : Transaction.t) (err : error) (kind : string) (w : World)
    (r : result StoreFailedTransactionResult) (w' : World) : Prop :=
  match r with
  | Ok s =>
      (∃ id created, s = newStoreFailedTransactionResult DLQStoreOutcomeQueued
           (queued_row tx err kind (time w) id created) ∧ queued tx err kind w w' id) ∨
      (∃ id e, s = newStoreFailedTransactionResult DLQStoreOutcomeAlreadyPending e ∧
         dead_letters (tables w) !! id = Some e ∧
         matches (Transaction.Hash tx) (Transaction.Lt tx) e = true ∧
         dead_letters (tables w') = dead_letters (tables w))
  | Err _ => dead_letters (tables w') = dead_letters (tables w) ∨
             ∃ id, queued tx err kind w w' id
  end.

Lemma fresh_id w : dlq_ok w → dead_letters (tables w) !! Z.of_nat (S (stmts w)) = None.
Proof.
  intros Hok. destruct (dead_letters (tables w) !! _) as [e|] eqn:He; [|done].
  destruct (dlq_id _ Hok _ _ He) as (_ & Hr & _). lia.
Qed.

Lemma matches_id dl hash lt :
  (∀ i e, dl !! i = Some e → matches hash lt e = false) ↔ List.find (matches hash lt) (rows dl) = None.
Proof.
  split.
  - intros Hall. destruct (List.find _ _) as [e|] eqn:Hf; [|done].
    apply List.find_some in Hf as [Hin Hm]. apply list_elem_of_In, elem_of_rows in Hin as [i Hi].
    by rewrite (Hall i e Hi) in Hm.
  - intros Hf i e Hi. apply (List.find_none _ _ Hf). apply list_elem_of_In, elem_of_rows. eauto.
Qed.

Lemma taken_true dl e :
  taken dl e = true → ∃ i r, dl !! i = Some r ∧
    matches (DeadLetterEntry.TransactionHash e) (DeadLetterEntry.TransactionLt e) r = true.
Proof.
  unfold taken. intros [_ Hx]%andb_true_iff. apply existsb_exists in Hx as (r & Hin & Hm).
  apply list_elem_of_In, elem_of_rows in Hin as [i Hi]. apply andb_true_iff in Hm as [_ Hm].
  eauto.
Qed.

Lemma find_match dl hash lt i r :
  dl !! i = Some r → matches hash lt r = true →
  ∃ j e, List.find (matches hash lt) (rows dl) = Some e ∧ dl !! j = Some e ∧
         matches hash lt e = true.
Proof.
  intros Hi Hm. destruct (List.find (matches hash lt) (rows dl)) as [e|] eqn:Hf.
  - pose proof (List.find_some _ _ Hf) as [Hin Hme].
    apply list_elem_of_In, elem_of_rows in Hin as [j Hj]. eauto.
  - rewrite <-matches_id in Hf. by rewrite (Hf i r Hi) in Hm.
Qed.

(** A failing connection does not report [pgx.ErrNoRows] itself. *)
Lemma not_no_rows s : bool_decide (ENew s = ESentinel ErrNoRows) = false.
Proof. by apply bool_decide_eq_false_2. Qed.

(** What the table refuses about the row of such a transaction is not a length. *)
Lemma admit_queued tx err kind now id created :
  short tx kind → let row := queued_row tx err kind now id created in
  dlq_admit row = if row_check row then Ok row else Err (Postgres.violates "dlq_status_check").
Proof.
  intros [Hh Hl Hk] row.
  assert (beyond 50 (bytes (DeadLetterEntry.ErrorType row)) = []) as Ht
    by (unfold row; simpl; by case_bool_decide).
  assert (dlq_row row = row) as Hrow by (unfold dlq_row; by rewrite !cut_id).
  unfold dlq_admit. rewrite Hrow. unfold fits.
  change (DeadLetterEntry.TransactionHash row) with (Transaction.Hash tx).
  change (DeadLetterEntry.TransactionLt row) with (Transaction.Lt tx). rewrite Hh, Hl, Ht.
  change (DeadLetterEntry.Status row) with DLQStatusPending.
  by destruct (row_check row).
Qed.

(** *** The insertion *)

Definition create_post (tx : Transaction.t) (err : error) (kind : string) (w0 w : World)
    (r : result DeadLetterEntry.t) (w' : World) : Prop :=
  (stmts w ≤ stmts w')%nat ∧
  match r with
  | Ok e =>
      (∃ id created, 0 < id ∧ e = queued_row tx err kind (time w0) id created ∧
         queued tx err kind w0 w' id) ∨
      (DeadLetterEntry.ID e = 0 ∧ dead_letters (tables w') = dead_letters (tables w0) ∧
       ∃ i r, dead_letters (tables w0) !! i = Some r ∧
         matches (Transaction.Hash tx) (Transaction.Lt tx) r = true)
  | Err _ => dead_letters (tables w') = dead_letters (tables w0) ∨
             ∃ id, queued tx err kind w0 w' id
  end.

Lemma wp_Create tx err kind w0 w :
  short tx kind → dlq_ok w → tables w = tables w0 →
  wp (Create (DeadLetterEntry.set_NextRetryAt
        (Some (time w0 + DeadLetterEntry.backoff baseBackoff 0)) (failedEntry tx err kind)))
     (create_post tx err kind w0 w) w.
Proof.
  intros Hshort Hok Ht0. unfold Create. apply wp_rbind_wrap, wp_ret.
  destruct (DeadLetterEntry.Validate _) as [e|er] eqn:Hv; [|by split; [|left; rewrite Ht0]].
  unfold DeadLetterEntry.Validate in Hv.
  repeat case_bool_decide; try discriminate Hv. injection Hv as <-.
  apply wp_bind. unfold wp, statement. set (id := Z.of_nat (S (stmts w))).
  change (inserted id (dbclock (stmts w)) _) with
    (queued_row tx err kind (time w0) id (dbclock (stmts w))).
  rewrite admit_queued by done. set (row := queued_row _ _ _ _ _ _).
  destruct (row_check row) eqn:Hc; cbn [negb]; cbv iota.
  2: { unfold Postgres.violates. destruct (dbfault (stmts w)); cbn [fst snd];
       rewrite not_no_rows; split; simpl; try lia;
       left; simpl; by rewrite Ht0. }
  destruct (taken (dead_letters (tables w)) row) eqn:Htk.
  - destruct (dbfault (stmts w)); cbn [fst snd];
      [rewrite bool_decide_eq_true_2 by done|rewrite not_no_rows..];
      simpl; (split; [simpl; lia|]).
    2,3: left; simpl; by rewrite Ht0.
    right. split; [done|]. split; [simpl; by rewrite Ht0|]. apply taken_true in Htk. rewrite Ht0 in *. done.
  - assert (queued tx err kind w0
      (set_tables (set_dead_letters (<[id:=row]> (dead_letters (tables w))) (tables w))
         (set_stmts (S (stmts w)) w)) id) as Hq.
    { split_and!; [|rewrite <-Ht0; by apply fresh_id|].
      - intros i r Hi. rewrite <-Ht0 in Hi.
        apply (taken_false _ row i r Htk eq_refl Hi). simpl.
        destruct (dlq_id _ Hok _ _ Hi) as (-> & Hr & _). unfold id. lia.
      - eexists. rewrite <-Ht0. reflexivity. }
    destruct (dbfault (stmts w)); cbn [fst snd]; rewrite ?not_no_rows; simpl; (split; [simpl; lia|]);
      [|left; simpl; by rewrite Ht0|right; by exists id].
    left. exists id, (dbclock (stmts w)). split; [unfold id; lia|]. split; [reflexivity|done].
Qed.

Lemma wp_GetByTransactionHash hash lt w (Q : result (option DeadLetterEntry.t) → World → Prop) :
  (∀ r w', later w w' → (∀ o, r = Ok o →
     o = List.find (matches hash lt) (rows (dead_letters (tables w)))) → Q r w') →
  wp (GetByTransactionHash hash lt) Q w.
Proof.
  intros HQ. apply wp_bind. unfold wp, statement.
  destruct (List.find _ _) as [e|]; destruct (dbfault (stmts w)); cbn [fst snd];
    rewrite ?not_no_rows, ?bool_decide_eq_true_2 by done; apply HQ; try done; by intros o [= <-].
Qed.

Lemma store_ok tx err kind w :
  short tx kind → dlq_ok w → wp (StoreFailedTransaction baseBackoff tx err kind) (store_post tx err kind w) w.
Proof.
  intros Hshort Hok. unfold StoreFailedTransaction. apply wp_bind. unfold wp at 1, Now. cbn [fst snd].
  cbv zeta. apply wp_rbind. eapply wp_mono.
  { apply (wp_Create tx err kind w (set_ticks (S (ticks w)) w)); [done| |done].
    by apply (dlq_ok_same w). }
  intros [e|er] w1 [Hst Hr]; [|exact Hr].
  destruct Hr as [(id & created & Hpos & -> & Hq)|(Hz & Hd & i & r & Hi & Hm)].
  - apply wp_if; [simpl; lia|intros _]. apply wp_ret. left. eauto.
  - apply wp_if; [intros _|lia]. apply wp_rbind, wp_GetByTransactionHash.
    intros [o|er] w2 H2 Ho; [|left; by rewrite (later_tables _ _ H2)].
    rewrite (Ho o eq_refl), Hd. apply wp_ret. right.
    destruct (find_match _ _ _ _ _ Hi Hm) as (j & e' & -> & Hj & Hme).
    exists j, e'. split; [done|]. split; [done|]. split; [done|].
    by rewrite (later_tables _ _ H2).
Qed.
End Specs.

Section Pending.
Context `{E : Env} `{!ScanPerm E}.
Import DLQRepository.

Definition pending_post (limit : Z) (w : World) (r : result (list DeadLetterEntry.t))
    (w' : World) : Prop :=
  tables w' = tables w ∧
  ∀ l, r = Ok l → ∃ now,
    Z.of_nat (length l) ≤ limit ∧ NoDup (DeadLetterEntry.ID <$> l) ∧ ordered oldestFirst l ∧
    (∀ e, e ∈ l → dead_letters (tables w) !! DeadLetterEntry.ID e = Some e ∧
       due now e = true ∧ DeadLetterEntry.CanRetry e = true) ∧
    (∀ i e, dead_letters (tables w) !! i = Some e → due now e = true → e ∉ l →
       (rowsRead (Z.of_nat (S (stmts w))) = None → Z.of_nat (length l) = limit) ∧
       ∀ x, x ∈ l → DeadLetterEntry.CreatedAt x ≤ DeadLetterEntry.CreatedAt e).

Lemma due_CanRetry now e : due now e = true → DeadLetterEntry.CanRetry e = true.
Proof.
  unfold due, is_open, DeadLetterEntry.CanRetry.
  intros [[Ho _]%andb_true_iff ->]%andb_true_iff. rewrite andb_true_r.
  apply orb_true_iff in Ho. rewrite !bool_decide_eq_true in Ho.
  by destruct Ho as [-> | ->].
Qed.

Lemma rows_NoDup dl :
  (∀ id e, dl !! id = Some e → DeadLetterEntry.ID e = id) →
  NoDup (DeadLetterEntry.ID <$> rows dl).
Proof.
  intros Hid. unfold rows. rewrite <-list_fmap_compose.
  replace ((DeadLetterEntry.ID ∘ snd) <$> map_to_list dl) with (map_to_list dl).*1
    by (apply list_fmap_ext; intros n [i e] Hn; simpl; symmetry; apply Hid;
        apply elem_of_map_to_list; by apply list_elem_of_lookup_2 in Hn).
  apply NoDup_fst_map_to_list.
Qed.

Lemma sorted_split {A} (R : A → A → Prop) l k x y :
  StronglySorted R (l ++ k) → x ∈ l → y ∈ k → R x y.
Proof.
  induction l as [|z l IH]; simpl; intros Hs Hx Hy; [by apply not_elem_of_nil in Hx|].
  inversion_clear Hs as [|? ? Hs' Hall]. apply elem_of_cons in Hx as [->|Hx]; [|auto].
  rewrite Forall_forall in Hall. apply Hall, elem_of_app. by right.
Qed.

Lemma sorted_prefix {A} (R : A → A → Prop) l k : StronglySorted R (l ++ k) → StronglySorted R l.
Proof.
  induction l as [|z l IH]; simpl; intros Hs; [constructor|].
  inversion_clear Hs as [|? ? Hs' Hall]. constructor; [auto|].
  by apply Forall_app in Hall as [? _].
Qed.

Lemma pending_ok limit w :
  dlq_ok w → wp (GetPendingForRetry limit) (pending_post limit w) w.
Proof.
  intros Hok. unfold GetPendingForRetry. apply wp_rbind_wrap. unfold wp at 1, statement, limited.
  set (now := dbclock (stmts w)). set (id := Z.of_nat (S (stmts w))).
  set (l := SliceStable oldestFirst
              (scanOrder id _ (List.filter (due now) (rows (dead_letters (tables w)))))).
  destruct (Z.ltb_spec limit 0) as [|Hlim]; destruct (dbfault (stmts w)); cbn [fst snd];
    try (split; [done|by intros ? [=]]).
  apply wp_ret. split; [done|]. intros k [= <-]. exists now.
  destruct (stream_prefix id (take (Z.to_nat limit) l)) as [k' Hk].
  set (k := stream id (take (Z.to_nat limit) l)) in *.
  assert (l = k ++ k' ++ drop (Z.to_nat limit) l) as Hl
    by (by rewrite app_assoc, <-Hk, take_drop).
  assert (ordered oldestFirst l) as Hord.
  { apply SliceStable_ordered; unfold oldestFirst; intros *; rewrite ?Z.ltb_lt, ?Z.ltb_ge; lia. }
  assert (∀ e, e ∈ l ↔ e ∈ rows (dead_letters (tables w)) ∧ due now e = true) as Hin.
  { intros e. unfold l. rewrite elem_of_SliceStable, scan_perm, !list_elem_of_In.
    apply List.filter_In. }
  rewrite Hl in Hord. split_and!.
  - pose proof (f_equal length Hk) as Hlen. rewrite length_app, length_take in Hlen. lia.
  - assert (NoDup (DeadLetterEntry.ID <$> l)) as Hd.
    { unfold l. rewrite SliceStable_perm, scan_perm. apply NoDup_fmap_filter, rows_NoDup.
      intros i e Hi. by apply (dlq_id _ Hok). }
    rewrite Hl, fmap_app in Hd. by apply NoDup_app in Hd as [? _].
  - by eapply sorted_prefix.
  - intros e He. assert (e ∈ l) as Hel by (rewrite Hl; apply elem_of_app; by left).
    apply Hin in Hel as [[i Hi]%elem_of_rows Hd].
    split_and!; [by rewrite (proj1 (dlq_id _ Hok _ _ Hi))|done|by eapply due_CanRetry].
  - intros i e Hi Hd Hno.
    assert (e ∈ l) as Hel by (apply Hin; split; [apply elem_of_rows; eauto|done]).
    rewrite Hl in Hel. apply elem_of_app in Hel as [|Hel]; [done|]. split.
    + intros Hnone. assert (k = take (Z.to_nat limit) l) as Hall
        by (unfold k, stream, id; by rewrite Hnone).
      assert (k' = []) as -> by (apply (app_inv_head k); by rewrite app_nil_r, <-Hk).
      assert (length (drop (Z.to_nat limit) l) ≠ 0)%nat as Hne
        by (destruct (drop _ l); [by apply not_elem_of_nil in Hel|done]).
      rewrite length_drop in Hne. rewrite Hall, length_take. lia.
    + intros x Hx. pose proof (sorted_split _ _ _ _ _ Hord Hx Hel) as Hb.
      unfold oldestFirst in Hb. apply Z.ltb_ge in Hb. lia.
Qed.
End Pending.

(** ** Properties *)

Section Properties.
Context `{E : Env} `{!ClockMono E} `{!ScanPerm E} (baseBackoff : Z).
Import DeadLetterQueue DLQRepository.

(** No sequence of queue operations, under any database faults, leaves two open
    entries for one transaction, or a row under another id or with a bad status. *)
Theorem queue_invariant w w' : dlq_ok w → rtc (dlq_step baseBackoff) w w' → dlq_ok w'.
Proof. intros Hok Hr. induction Hr as [|w1 w2 w3 Hs _ IH]; [done|]. by eapply IH, dlq_step_ok. Qed.

(** C22: storing a failed transaction whose hash, logical time and kind fit their columns, in
    a queue that satisfies the constraints of its table: when no entry is open for this hash
    and logical time, exactly one row is added, pending, with no attempt counted and its
    first retry scheduled one base delay later (an hour at most), and it is reported as
    queued; when one is open, nothing is stored and that entry is reported; an error, which
    any statement may cause, comes with that row stored or with nothing. *)
Theorem StoreFailedTransaction_spec tx err kind w :
  short tx kind → dlq_ok w → wp (StoreFailedTransaction baseBackoff tx err kind) (store_post baseBackoff tx err kind w) w.
Proof. apply store_ok. Qed.

(** The entries picked for a retry are due, distinct, oldest first and at most
    [limit]; an entry that is due is left out only for older ones. *)
Theorem GetPendingForRetry_spec limit w :
  dlq_ok w → wp (DeadLetterQueue.GetPendingForRetry limit) (pending_post limit w) w.
Proof. apply pending_ok. Qed.

(** A retry attempt counts the attempt and schedules the next one [2^count] base
    delays later, at most an hour, as long as that delay fits in 64 bits; the stored
    row is the entry returned, or the queue is left alone. *)
Theorem MarkRetryAttempt_spec e w :
  0 < baseBackoff → 0 ≤ DeadLetterEntry.RetryCount e →
  baseBackoff * 2 ^ (DeadLetterEntry.RetryCount e + 1) ≤ MaxInt64 →
  wp (MarkRetryAttempt baseBackoff e) (λ r w', ∃ res, r = Some res ∧
    ∀ e', res = Ok e' →
      DeadLetterEntry.ID e' = DeadLetterEntry.ID e ∧
      DeadLetterEntry.RetryCount e' = DeadLetterEntry.RetryCount e + 1 ∧
      DeadLetterEntry.Status e' = DLQStatusRetrying ∧
      (∃ now, time w ≤ now ≤ time w' ∧ DeadLetterEntry.NextRetryAt e' = Some
         (now + Z.min (baseBackoff * 2 ^ (DeadLetterEntry.RetryCount e + 1)) Hour)) ∧
      ∃ row, dead_letters (tables w) !! DeadLetterEntry.ID e = Some row ∧
        dead_letters (tables w') =
          <[DeadLetterEntry.ID e := dlq_row (updated e' row)]> (dead_letters (tables w))) w.
Proof.
  intros Hb Hn Hfit. set (n := DeadLetterEntry.RetryCount e) in *.
  assert (2 ^ (n + 1) ≤ baseBackoff * 2 ^ (n + 1)) as Hle by nia.
  assert (n + 1 < 2 ^ (n + 1)) as Hlt by (apply Z.pow_gt_lin_r; lia).
  assert (wrap64 (n + 1) = n + 1) as Hw
    by (apply wrap64_id; unfold in_int64, MinInt64, MaxInt64 in *; lia).
  apply wp_bind. unfold wp at 1, Now. cbn [fst snd]. cbv zeta.
  unfold DeadLetterEntry.MarkRetrying at 1. cbn [DeadLetterEntry.RetryCount]. fold n. rewrite Hw.
  apply wp_if; [lia|intros _]. apply wp_bind. unfold wp at 1. cbn [fst snd].
  unfold DeadLetterEntry.ScheduleNextRetry. cbn [DeadLetterEntry.MarkRetrying DeadLetterEntry.RetryCount].
  fold n. rewrite Hw, (proj2 (Z.ltb_ge (n + 1) 0)) by lia. cbv iota.
  rewrite backoff_exact by lia. set (e' := DeadLetterEntry.set_NextRetryAt _ _).
  apply wp_bind, wp_rbind, wp_rbind_wrap. unfold wp at 1, statement. cbn [ticks stmts tables set_ticks].
  change (DeadLetterEntry.ID e') with (DeadLetterEntry.ID e).
  destruct (dead_letters (tables w) !! DeadLetterEntry.ID e) as [row|] eqn:Hrow; cbv zeta.
  2: { destruct (dbfault (stmts w)); cbn [fst snd]; eexists; split; done. }
  destruct (dlq_admit _) as [new|er] eqn:Ha.
  2: { destruct (dbfault (stmts w)); cbn [fst snd]; eexists; split; done. }
  apply dlq_admit_ok in Ha as [-> _].
  destruct (taken _ _).
  { destruct (dbfault (stmts w)); cbn [fst snd]; eexists; split; done. }
  destruct (dbfault (stmts w)); cbn [fst snd]; eexists; (split; [done|]); try done.
  intros ? [= <-]. split; [done|]. split; [exact Hw|]. split; [done|]. split.
  - eexists. split; [|reflexivity]. split; apply clock_mono; simpl; lia.
  - eauto.
Qed.
End Properties.

(** ** Concrete runs *)

Module DeadLetterRun.
Import Run DeadLetterQueue DLQRepository.
#[local] Existing Instance Run.ticking.

Definition tx : Transaction.t :=
  Transaction.mk "42" "hash" 1000 EmptyString (Some "{}") None "41" "prev" "1" "1" "1".
Definition boom : error := ENew "boom".
Definition base : Z := defaultDLQBaseBackoff.

Definition w0 : World := Run.world (mkTables ∅ ∅ ∅ ∅ None) 3 60.
Definition store (w : World) : World :=
  (StoreFailedTransaction base tx boom DLQErrorTypePersistence w).2.
Definition w1 : World := store w0.

Lemma tx_short : short tx DLQErrorTypePersistence.
Proof. split; reflexivity. Qed.

Lemma w0_ok : dlq_ok w0.
Proof. split; simpl; intros *; by rewrite lookup_empty. Qed.
Lemma w1_ok : dlq_ok w1.
Proof. exact (dlq_step_ok base w0 w1 (dlq_store base tx boom _ w0) w0_ok). Qed.

Lemma StoreFailedTransaction_spec_witness :
  (∃ s, (StoreFailedTransaction base tx boom DLQErrorTypePersistence w1).1 = Ok s ∧
        Outcome s = DLQStoreOutcomeAlreadyPending) ∧
  wp (StoreFailedTransaction base tx boom DLQErrorTypePersistence)
    (store_post base tx boom DLQErrorTypePersistence w1) w1.
Proof.
  split; [eexists; split; vm_compute; reflexivity|].
  exact (StoreFailedTransaction_spec base tx boom DLQErrorTypePersistence w1 tx_short w1_ok).
Defined.

(** After five minutes the entry is due. *)
Lemma GetPendingForRetry_spec_witness :
  let later_on := Run.env (λ _, 10 ^ 12) (λ _, FaultNone) in
  (∃ e, (GetPendingForRetry (E := later_on) 5 w1).1 = Ok [e]) ∧
  pending_post 5 w1 (GetPendingForRetry (E := later_on) 5 w1).1
    (GetPendingForRetry (E := later_on) 5 w1).2.
Proof.
  split; [eexists; vm_compute; reflexivity|].
  exact (GetPendingForRetry_spec (E := Run.env (λ _, 10 ^ 12) (λ _, FaultNone)) 5 w1 w1_ok).
Defined.

Definition entry1 : DeadLetterEntry.t :=
  default (failedEntry tx boom DLQErrorTypePersistence) (dead_letters (tables w1) !! 1).

Lemma MarkRetryAttempt_spec_witness :
  ∃ e', (MarkRetryAttempt base entry1 w1).1 = Some (Ok e') ∧
    DeadLetterEntry.RetryCount e' = 1 ∧
    ∃ now, time w1 ≤ now ≤ time (MarkRetryAttempt base entry1 w1).2 ∧
      DeadLetterEntry.NextRetryAt e' = Some (now + Z.min (base * 2 ^ 1) Hour).
Proof.
  assert (DeadLetterEntry.RetryCount entry1 = 0) as Hz by (vm_compute; reflexivity).
  destruct (MarkRetryAttempt_spec base entry1 w1) as (res & Hres & Hspec).
  - reflexivity.
  - rewrite Hz. lia.
  - rewrite Hz. vm_compute. discriminate.
  - destruct res as [e'|er]; [|vm_compute in Hres; discriminate Hres].
    destruct (Hspec e' eq_refl) as (_ & Hc & _ & (now & Hn & Hx) & _).
    exists e'. split; [exact Hres|]. split; [rewrite Hc, Hz; reflexivity|].
    exists now. split; [exact Hn|]. rewrite Hx, Hz. reflexivity.
Defined.

(** The shift and the product of the backoff are computed in 64 bits before the cap
    of an hour: with the default base, attempt 25 is scheduled in the past. *)
Theorem backoff_overflow :
  DeadLetterEntry.backoff defaultDLQBaseBackoff 24 = Hour ∧
  DeadLetterEntry.backoff defaultDLQBaseBackoff 25 < - 10 ^ 18 ∧
  DeadLetterEntry.backoff defaultDLQBaseBackoff 64 = 0.
Proof. vm_compute. split_and!; reflexivity. Qed.
End DeadLetterRun.
