(* ===== verification/Persistence.v ===== *)
(** * Persistence of blockchain events (internal/usecase/game_persistence.go)

    The seven handlers write the game, event and user tables and release the advisory
    locks a game's progress makes pointless.  They run over the world and the event their
    caller passes by pointer: [Upsert] sets its id, serialization sets its payload. *)
From S2P Require Import Prelude GoTypes Entity World Repo Locks LockOps Reservation CancelReservation RevealReservation ExpiredClaim.
From Stdlib Require Import Ascii.

(** ** Event data *)

Section EventData.
Context `{E : Env}.

(** The text of a [strconv.NumError], for operands that need no escape when quoted. *)
Definition NumError (s : string) : error :=
  let why := match parse_nat (bytes s) with
             | Some _ => "value out of range"
             | None => match bytes s with
                       | c :: l => match parse_nat l with
                                   | Some _ => if byte_eqb c "-"%char || byte_eqb c "+"%char
                                               then "value out of range" else "invalid syntax"
                                   | None => "invalid syntax"
                                   end
                       | [] => "invalid syntax"
                       end
             end in
  ENew ("strconv.ParseInt: parsing " +:+ quote_char +:+ s +:+ quote_char +:+ ": " +:+ why).

Definition lookup_data (data : option (gmap string dyn)) (key : string) : option dyn :=
  match data with Some m => m !! key | None => None end.

Definition extractInt64 (data : option (gmap string dyn)) (key : string) : result Z :=
  match lookup_data data key with
  | None => Err (ENew ("missing " +:+ key))
  | Some val =>
      match val with
      | VInt64 v | VInt v | VUint8 v | VUint16 v | VUint32 v => Ok v
      | VFloat64 f => Ok (float_to_int64 (float_trunc f))
      | VUint64 v =>
          if MaxInt64 <? v then
            Err (ENew (key +:+ " value too large: " +:+ FormatInt v))
          else Ok v
      | VString v =>
          match ParseInt v with
          | Some parsed => Ok parsed
          | None => Err (EWrap ("invalid " +:+ key +:+ ": ") (NumError v) EmptyString)
          end
      | VRaw _ | VOther _ => Err (ENew ("invalid type for " +:+ key +:+ ": " +:+ dyn_type val))
      end
  end.

Definition extractOptionalInt64 (data : option (gmap string dyn)) (key : string)
    (defaultValue : Z) : result Z :=
  match lookup_data data key with
  | None => Ok defaultValue
  | Some _ => extractInt64 data key
  end.

Definition extractString (data : option (gmap string dyn)) (key : string) : result string :=
  match lookup_data data key with
  | None => Err (ENew ("missing " +:+ key))
  | Some (VString str) => Ok str
  | Some val =>
      Err (ENew ("invalid type for " +:+ key +:+ ": expected string, got " +:+ dyn_type val))
  end.

Definition extractOptionalString (data : option (gmap string dyn)) (key defaultValue : string) :
    result string :=
  match lookup_data data key with
  | None => Ok defaultValue
  | Some _ => extractString data key
  end.
End EventData.

(** ** The use case and its handlers *)

Definition H := ST (GameEvent.t * World).
#[export] Instance H_ret : MRet H := ST_ret.
#[export] Instance H_bind : MBind H := ST_bind.

(** [GamePersistenceUseCase]: which optional collaborators are set. *)
Record PersistenceUC := mkPersistenceUC {
  has_userRepo : bool; has_txManager : bool; has_broadcast : bool; has_reserve : bool;
  has_cancelReserve : bool; has_revealReserve : bool; has_expiredClaim : bool }.

Module Persistence.
Definition NewGamePersistenceUseCase (hasUserRepo : bool) : PersistenceUC :=
  mkPersistenceUC hasUserRepo false false false false false false.
Definition SetTxManager (uc : PersistenceUC) : PersistenceUC :=
  mkPersistenceUC (has_userRepo uc) true (has_broadcast uc) (has_reserve uc)
    (has_cancelReserve uc) (has_revealReserve uc) (has_expiredClaim uc).
Definition SetBroadcastUseCase (uc : PersistenceUC) : PersistenceUC :=
  mkPersistenceUC (has_userRepo uc) (has_txManager uc) true (has_reserve uc)
    (has_cancelReserve uc) (has_revealReserve uc) (has_expiredClaim uc).
Definition SetReservationUseCase (uc : PersistenceUC) : PersistenceUC :=
  mkPersistenceUC (has_userRepo uc) (has_txManager uc) (has_broadcast uc) true
    (has_cancelReserve uc) (has_revealReserve uc) (has_expiredClaim uc).
Definition SetCancelReservationUseCase (uc : PersistenceUC) : PersistenceUC :=
  mkPersistenceUC (has_userRepo uc) (has_txManager uc) (has_broadcast uc) (has_reserve uc)
    true (has_revealReserve uc) (has_expiredClaim uc).
Definition SetRevealReservationUseCase (uc : PersistenceUC) : PersistenceUC :=
  mkPersistenceUC (has_userRepo uc) (has_txManager uc) (has_broadcast uc) (has_reserve uc)
    (has_cancelReserve uc) true (has_expiredClaim uc).
Definition SetExpiredClaimUseCase (uc : PersistenceUC) : PersistenceUC :=
  mkPersistenceUC (has_userRepo uc) (has_txManager uc) (has_broadcast uc) (has_reserve uc)
    (has_cancelReserve uc) (has_revealReserve uc) true.

Section Handlers.
Context `{E : Env} (uc : PersistenceUC).

Definition onW (A : Type) (m : M A) : H A := zoom snd (λ w s, (s.1, w)) m.
Arguments onW {A} m.

Definition event : H GameEvent.t := gets fst.
Definition setEvent (e : GameEvent.t) : H unit := modify (λ s, (e, s.2)).

(** *** Helpers *)

Definition when (b : bool) (m : M unit) : M unit := if b then m else mret tt.

Definition releaseRevealReservationIfAny (gameID : Z) : M unit :=
  when (has_revealReserve uc) (RevealReservation.ReleaseOnTerminal gameID).
Definition releaseCancelReservationIfUnavailable (gameID : Z) : M unit :=
  when (has_cancelReserve uc) (CancelReservation.ReleaseOnUnavailable gameID "resolved").
Definition releaseExpiredClaimIfResolved (gameID : Z) : M unit :=
  when (has_expiredClaim uc) (ExpiredClaim.ReleaseOnResolved gameID).

Definition serializeEventData : H (result unit) :=
  e ← event;
  if negb (bool_decide (GameEvent.Payload e = EmptyString)) then mret (Ok tt)
  else match GameEvent.EventData e with
       | None => mret (Ok tt)
       | Some data =>
           match json_Marshal data with
           | None => mret (Err (Errorf "failed to serialize event data" (ENew "json")))
           | Some payload => _ ← setEvent (GameEvent.set_Payload payload e); mret (Ok tt)
           end
       end.

(** The game is read again; a failed read drops the broadcast. *)
Definition broadcastGameUpdate (gameID : Z) (eventType : string) : M unit :=
  when (has_broadcast uc)
    (r ← Postgres.GetByID gameID;
     match r with
     | Ok game => emit (Broadcast (GameUpdate game eventType))
     | Err _ => mret tt
     end).

(** The guards every handler starts with. *)
Definition checkEvent (want : string) : H (result unit) :=
  e ← event;
  _ <-? lift_result (GameEvent.Validate e) else Errorf "validation failed" ;;
  if bool_decide (GameEvent.EventType e = want) then mret (Ok tt)
  else mret (Err (ENew ("invalid event type: expected " +:+ want +:+ ", got " +:+
                        GameEvent.EventType e))).

Definition invalid_data : error → error := Errorf "invalid event data".

Definition requireGame (gameID : Z) : H (result Game.t) :=
  game <-? onW (Postgres.GetByID gameID)
    else Errorf ("game " +:+ FormatInt gameID +:+
           " not found (GameInitialized may not have been processed yet)") ;;
  mret (Ok game).

(** [uc.eventRepo.Upsert(ctx, event)]: a fresh row's id goes into the event. *)
Definition upsertEvent : H (result unit) :=
  e ← event;
  row <-? onW (Postgres.Upsert e) else Errorf "failed to persist event" ;;
  _ ← setEvent row; mret (Ok tt).

Definition upsertEventWithQuerier : H (result unit) :=
  e ← event;
  row <-? onW (Postgres.UpsertWithQuerier e) else Errorf "failed to persist event" ;;
  _ ← setEvent row; mret (Ok tt).

(** [if event.ID == 0 { return nil }]: what follows runs for fresh events only. *)
Definition unlessDuplicate (k : H (result unit)) : H (result unit) :=
  e ← event; if GameEvent.ID e =? 0 then mret (Ok tt) else k.

(** *** HandleGameInitialized *)

Definition HandleGameInitialized : H (result unit) :=
  _ <-? checkEvent EventGameInitialized ;;
  e ← event;
  let data := GameEvent.EventData e in
  gameID <-? lift_result (extractInt64 data "game_id") else invalid_data ;;
  playerOne <-? lift_result (extractString data "player_one") else invalid_data ;;
  betAmount <-? lift_result (extractInt64 data "bet_amount") else invalid_data ;;
  let playerOneChoice :=
    match extractInt64 data "player_one_choice" with
    | Ok parsedChoice => parsedChoice
    | Err _ => CoinSideClosed
    end in
  serviceFeeNumerator <-? lift_result (extractOptionalInt64 data "service_fee_numerator" 0)
    else invalid_data ;;
  referrerFeeNumerator <-? lift_result (extractOptionalInt64 data "referrer_fee_numerator" 0)
    else invalid_data ;;
  waitingTimeoutSeconds <-?
    lift_result (extractOptionalInt64 data "waiting_for_open_bid_seconds" 0)
    else invalid_data ;;
  lowestBidAllowed <-? lift_result (extractOptionalInt64 data "lowest_bid" 0)
    else invalid_data ;;
  highestBidAllowed <-? lift_result (extractOptionalInt64 data "highest_bid" 0)
    else invalid_data ;;
  minReferrerPayoutValue <-?
    lift_result (extractOptionalInt64 data "min_referrer_payout_value" 0)
    else invalid_data ;;
  feeReceiverAddress <-? lift_result (extractOptionalString data "fee_receiver" EmptyString)
    else invalid_data ;;
  protocolVersion <-? lift_result (extractOptionalInt64 data "protocol_version" 1)
    else invalid_data ;;
  _ <-? onW (Postgres.EnsureUserByWallet playerOne)
    else Errorf "failed to ensure player one user" ;;
  let game := {|
    Game.GameID := gameID; Game.Status := GameStatusWaitingForOpponent;
    Game.PlayerOneAddress := playerOne; Game.PlayerTwoAddress := None;
    Game.PlayerOneChoice := playerOneChoice; Game.PlayerTwoChoice := None;
    Game.PlayerOneReferrer := None; Game.PlayerTwoReferrer := None;
    Game.BetAmount := betAmount; Game.WinnerAddress := None; Game.PayoutAmount := None;
    Game.ServiceFeeNumerator := serviceFeeNumerator;
    Game.ReferrerFeeNumerator := referrerFeeNumerator;
    Game.WaitingTimeoutSeconds := waitingTimeoutSeconds;
    Game.LowestBidAllowed := lowestBidAllowed; Game.HighestBidAllowed := highestBidAllowed;
    Game.MinReferrerPayoutValue := minReferrerPayoutValue;
    Game.ProtocolVersion := protocolVersion; Game.FeeReceiverAddress := feeReceiverAddress;
    Game.CreatedAt := GameEvent.Timestamp e; Game.JoinedAt := None; Game.RevealedAt := None;
    Game.CompletedAt := None; Game.InitTxHash := GameEvent.TransactionHash e;
    Game.JoinTxHash := None; Game.RevealTxHash := None; Game.CompleteTxHash := None |} in
  _ <-? onW (Postgres.CreateOrIgnore game) else Errorf "failed to create game" ;;
  _ <-? serializeEventData ;;
  _ <-? upsertEvent ;;
  unlessDuplicate
    (_ ← onW (broadcastGameUpdate gameID "game_initialized");
     _ ← onW (releaseExpiredClaimIfResolved gameID);
     mret (Ok tt)).

(** *** HandleGameStarted *)

Definition HandleGameStarted : H (result unit) :=
  _ <-? checkEvent EventGameStarted ;;
  e ← event;
  let gameID := GameEvent.GameID e in
  playerTwo <-? lift_result (extractString (GameEvent.EventData e) "player_two")
    else invalid_data ;;
  _ <-? requireGame gameID ;;
  _ <-? serializeEventData ;;
  _ <-? upsertEvent ;;
  unlessDuplicate
    (_ <-? onW (Postgres.EnsureUserByWallet playerTwo)
       else Errorf "failed to ensure player two user" ;;
     _ <-? onW (Postgres.JoinGame gameID playerTwo (GameEvent.TransactionHash e)
                  (GameEvent.Timestamp e)) else Errorf "failed to join game" ;;
     _ ← onW (when (has_reserve uc) (Reservation.ReleaseOnJoin gameID));
     _ ← onW (releaseCancelReservationIfUnavailable gameID);
     _ ← onW (broadcastGameUpdate gameID "game_started");
     _ ← onW (releaseExpiredClaimIfResolved gameID);
     mret (Ok tt)).

(** *** HandleGameFinished *)

Definition loserOf (game : Game.t) (winner : string) : string :=
  if bool_decide (Game.PlayerOneAddress game = winner) then
    default EmptyString (Game.PlayerTwoAddress game)
  else Game.PlayerOneAddress game.

Definition referrerOf (game : Game.t) (winner : string) : option string :=
  if bool_decide (Game.PlayerOneAddress game = winner) &&
     bool_decide (is_Some (Game.PlayerOneReferrer game))
  then Game.PlayerOneReferrer game
  else if bool_decide (Game.PlayerTwoAddress game = Some winner) &&
          bool_decide (is_Some (Game.PlayerTwoReferrer game))
  then Game.PlayerTwoReferrer game
  else None.

(** Basis points of the bet, in int64 arithmetic. *)
Definition referrerEarnings (game : Game.t) : Z :=
  Z.quot (wrap64 (Game.BetAmount game * Game.ReferrerFeeNumerator game)) 10000.

Definition payoutOf (data : option (gmap string dyn)) : Z :=
  match extractInt64 data "total_gainings" with
  | Ok payout => payout
  | Err _ => match extractInt64 data "payout" with Ok payout => payout | Err _ => 0 end
  end.

Definition countLoser (loser : string) : M (result unit) :=
  if bool_decide (loser = EmptyString) then mret (Ok tt)
  else
    _ <-? Postgres.IncrementGamesPlayedWithQuerier loser
      else Errorf "failed to increment games played for loser" ;;
    _ <-? Postgres.IncrementLossesWithQuerier loser
      else Errorf "failed to increment losses" ;;
    mret (Ok tt).

Definition countReferrer (game : Game.t) (winner : string) : M (result unit) :=
  match referrerOf game winner with
  | Some referrerAddress =>
      if negb (bool_decide (referrerAddress = EmptyString)) && (0 <? referrerEarnings game) then
        _ <-? Postgres.IncrementReferralsWithQuerier referrerAddress (referrerEarnings game)
          else Errorf "failed to update referrer stats" ;;
        mret (Ok tt)
      else mret (Ok tt)
  | None => mret (Ok tt)
  end.

(** [if uc.userRepo != nil { ... }] *)
Definition countFinished (game : Game.t) (winner : string) : M (result unit) :=
  if negb (has_userRepo uc) then mret (Ok tt)
  else
    _ <-? Postgres.IncrementGamesPlayedWithQuerier winner
      else Errorf "failed to increment games played for winner" ;;
    _ <-? Postgres.IncrementWinsWithQuerier winner
      else Errorf "failed to increment wins" ;;
    _ <-? countLoser (loserOf game winner) ;;
    countReferrer game winner.

(** Complete the game, then count it for the winner, the loser and the referrer. *)
Definition completeAndCount (game : Game.t) (winner : string) (payout : Z)
    (e : GameEvent.t) : M (result unit) :=
  _ <-? Postgres.CompleteGameWithQuerier (GameEvent.GameID e) winner payout
          (GameEvent.TransactionHash e) (GameEvent.Timestamp e)
    else Errorf "failed to complete game" ;;
  countFinished game winner.

(** The closure given to [WithTx], and the legacy branch without a transaction. *)
Definition finishInTx (game : Game.t) (winner : string) (payout : Z) (e : GameEvent.t) :
    H (result unit) :=
  _ <-? upsertEventWithQuerier ;;
  unlessDuplicate (onW (completeAndCount game winner payout e)).

Definition finishLegacy (game : Game.t) (winner : string) (payout : Z) (e : GameEvent.t) :
    H (result unit) :=
  _ <-? upsertEvent ;;
  unlessDuplicate (onW (completeAndCount game winner payout e)).

Definition HandleGameFinished : H (result unit) :=
  _ <-? checkEvent EventGameFinished ;;
  e ← event;
  let gameID := GameEvent.GameID e in
  game <-? requireGame gameID ;;
  _ <-? serializeEventData ;;
  winner <-? lift_result (extractString (GameEvent.EventData e) "winner")
    else invalid_data ;;
  let payout := payoutOf (GameEvent.EventData e) in
  _ <-? (if has_txManager uc then WithTx (@onW) (finishInTx game winner payout e)
         else finishLegacy game winner payout e) ;;
  unlessDuplicate
    (_ ← onW (broadcastGameUpdate gameID "game_finished");
     _ ← onW (releaseCancelReservationIfUnavailable gameID);
     _ ← onW (releaseRevealReservationIfAny gameID);
     _ ← onW (releaseExpiredClaimIfResolved gameID);
     mret (Ok tt)).

(** *** HandleDraw *)

Definition countDraw (gameID : Z) : M (result unit) :=
  if negb (has_userRepo uc) then mret (Ok tt)
  else
    game <-? Postgres.GetByID gameID else Errorf "failed to get game for stats update" ;;
    _ <-? Postgres.IncrementGamesPlayed (Game.PlayerOneAddress game)
      else Errorf "failed to increment games played for player 1" ;;
    match Game.PlayerTwoAddress game with
    | Some p2 =>
        _ <-? Postgres.IncrementGamesPlayed p2
          else Errorf "failed to increment games played for player 2" ;;
        mret (Ok tt)
    | None => mret (Ok tt)
    end.

Definition HandleDraw : H (result unit) :=
  _ <-? checkEvent EventDraw ;;
  e ← event;
  let gameID := GameEvent.GameID e in
  _ <-? requireGame gameID ;;
  _ <-? serializeEventData ;;
  _ <-? upsertEvent ;;
  unlessDuplicate
    (_ <-? onW (Postgres.CompleteGame gameID EmptyString 0 (GameEvent.TransactionHash e)
                  (GameEvent.Timestamp e)) else Errorf "failed to complete game (draw)" ;;
     _ <-? onW (countDraw gameID) ;;
     _ ← onW (broadcastGameUpdate gameID "draw");
     _ ← onW (releaseCancelReservationIfUnavailable gameID);
     _ ← onW (releaseRevealReservationIfAny gameID);
     _ ← onW (releaseExpiredClaimIfResolved gameID);
     mret (Ok tt)).

(** *** HandleGameCancelled *)

Definition HandleGameCancelled : H (result unit) :=
  _ <-? checkEvent EventGameCancelled ;;
  e ← event;
  let gameID := GameEvent.GameID e in
  _ <-? requireGame gameID ;;
  _ <-? serializeEventData ;;
  _ <-? upsertEvent ;;
  unlessDuplicate
    (_ <-? onW (Postgres.CancelGame gameID (GameEvent.TransactionHash e)
                  (GameEvent.Timestamp e)) else Errorf "failed to cancel game" ;;
     _ ← onW (broadcastGameUpdate gameID "game_cancelled");
     _ ← onW (releaseCancelReservationIfUnavailable gameID);
     _ ← onW (releaseRevealReservationIfAny gameID);
     mret (Ok tt)).

(** *** HandleSecretOpened *)

Definition HandleSecretOpened : H (result unit) :=
  _ <-? checkEvent EventSecretOpened ;;
  e ← event;
  let gameID := GameEvent.GameID e in
  _ <-? requireGame gameID ;;
  _ <-? serializeEventData ;;
  _ <-? upsertEvent ;;
  unlessDuplicate
    (playerAddress <-? lift_result (extractString (GameEvent.EventData e) "player")
       else invalid_data ;;
     coinSide <-? lift_result (extractInt64 (GameEvent.EventData e) "coin_side")
       else invalid_data ;;
     _ <-? onW (Postgres.RevealChoice gameID playerAddress coinSide
                  (GameEvent.TransactionHash e) (GameEvent.Timestamp e))
       else Errorf "failed to reveal choice" ;;
     _ ← onW (broadcastGameUpdate gameID "secret_opened");
     _ ← onW (releaseCancelReservationIfUnavailable gameID);
     _ ← onW (releaseExpiredClaimIfResolved gameID);
     mret (Ok tt)).

(** *** HandleInsufficientBalance *)

Definition HandleInsufficientBalance : H (result unit) :=
  _ <-? checkEvent EventInsufficientBalance ;;
  e ← event;
  _ <-? requireGame (GameEvent.GameID e) ;;
  _ <-? serializeEventData ;;
  _ <-? upsertEvent ;;
  mret (Ok tt).

(** The subscriber's routing table (blockchain_subscriber.go). *)
Definition routeEvent : H (result unit) :=
  e ← event;
  let t := GameEvent.EventType e in
  if bool_decide (t = EventGameInitialized) then HandleGameInitialized
  else if bool_decide (t = EventGameStarted) then HandleGameStarted
  else if bool_decide (t = EventGameFinished) then HandleGameFinished
  else if bool_decide (t = EventGameCancelled) then HandleGameCancelled
  else if bool_decide (t = EventDraw) then HandleDraw
  else if bool_decide (t = EventSecretOpened) then HandleSecretOpened
  else if bool_decide (t = EventInsufficientBalance) then HandleInsufficientBalance
  else mret (Err (EWrap EmptyString (ESentinel ErrUnknownEventType) (": " +:+ t))).
End Handlers.
End Persistence.
