(* ===== verification/PersistenceSpec.v ===== *)
(** * Correctness of the event handlers

    The invariant of the tables and its preservation under every fault, idempotence,
    atomicity of a finished game, what a fault-free handler does, and the schedules that
    lose or double-count an event. *)
From S2P Require Import Prelude GoTypes Entity World Repo Locks LockOps Store Reservation CancelReservation RevealReservation ExpiredClaim Persistence.

(** ** The invariant of the tables *)

(** The statuses the handlers ever write. *)
Definition reached_status (s : Z) : Prop :=
  s = GameStatusWaitingForOpponent ∨ s = GameStatusWaitingForOpenBids ∨ s = GameStatusPaid.

Record game_ok (us : gmap string UserRow.t) (g : Z) (x : Game.t) : Prop := {
  game_id : Game.GameID x = g;
  game_row : Postgres.games_row x = x;
  game_status : reached_status (Game.Status x);
  game_check : Postgres.games_check x = true;
  game_fk : Postgres.games_fk us x = true }.

Record db_ok (t : Tables) : Prop := {
  db_game g x : games t !! g = Some x → game_ok (users t) g x;
  db_event k e : game_events t !! k = Some e →
    Postgres.event_key e = k ∧ is_Some (games t !! GameEvent.GameID e);
  db_user a u : users t !! a = Some u → UserRow.WalletAddress u = a }.

Lemma db_ok_empty : db_ok (mkTables ∅ ∅ ∅ ∅ None).
Proof. split; simpl; intros ? ? Hx; by rewrite lookup_empty in Hx. Qed.

Lemma games_fk_mono us us' x :
  (∀ a, is_Some (us !! a) → is_Some (us' !! a)) →
  Postgres.games_fk us x = true → Postgres.games_fk us' x = true.
Proof.
  intros Hus. unfold Postgres.games_fk. rewrite !andb_true_iff, !bool_decide_eq_true.
  intros [H1 H2]. split; [auto|]. destruct (Game.PlayerTwoAddress x); [|done].
  rewrite bool_decide_eq_true in *. auto.
Qed.

Lemma game_ok_mono us us' g x :
  (∀ a, is_Some (us !! a) → is_Some (us' !! a)) → game_ok us g x → game_ok us' g x.
Proof. intros Hus []. split; [done..|]. by eapply games_fk_mono. Qed.

(** Replacing or adding one game row that passed the constraints. *)
Lemma db_ok_set_game g x t :
  db_ok t → game_ok (users t) g x → db_ok (set_games (<[g := x]> (games t)) t).
Proof.
  intros [Hg He Hu] Hx. split; simpl.
  - intros g' x' [[<- <-]|[? ?]]%lookup_insert_Some; auto.
  - intros k e Hk. destruct (He k e Hk) as [? Hs]. split; [done|].
    rewrite lookup_insert_is_Some. destruct (decide (g = GameEvent.GameID e)); auto.
  - done.
Qed.

(** Adding a user, or changing the counters of one. *)
Lemma db_ok_set_user a u t :
  db_ok t → UserRow.WalletAddress u = a → db_ok (set_users (<[a := u]> (users t)) t).
Proof.
  intros [Hg He Hu] Ha. split; simpl.
  - intros g x Hx. eapply game_ok_mono; [|by apply Hg]. intros a' Ha'.
    rewrite lookup_insert_is_Some. destruct (decide (a = a')); auto.
  - done.
  - intros a' u' [[<- <-]|[? ?]]%lookup_insert_Some; auto.
Qed.

Lemma db_ok_set_event e t :
  db_ok t → is_Some (games t !! GameEvent.GameID e) →
  db_ok (set_game_events (<[Postgres.event_key e := e]> (game_events t)) t).
Proof.
  intros [Hg He Hu] Hs. split; simpl; [done| |done].
  intros k e' [[<- <-]|[? ?]]%lookup_insert_Some; auto.
Qed.

(** ** Programs that keep an invariant of the world, and of the event they share *)

Section Keeps.
Context `{E : Env}.
Context (I : GameEvent.t → World → Prop).

Definition hkeeps {A} (m : H A) : Prop :=
  ∀ e w, I e w → I (m (e, w)).2.1 (m (e, w)).2.2.

Lemma keeps_when P b m : keeps P m → keeps P (Persistence.when b m).
Proof. intros. apply keeps_if; [done|apply keeps_ret]. Qed.

Lemma hkeeps_ret {A} (a : A) : hkeeps (mret a).
Proof. by intros ?. Qed.
Lemma hkeeps_bind {A B} (m : H A) (f : A → H B) :
  hkeeps m → (∀ a, hkeeps (f a)) → hkeeps (m ≫= f).
Proof.
  intros Hm Hf e w HP. unfold mbind, H_bind, ST_bind. specialize (Hm e w HP).
  destruct (m (e, w)) as [a [e' w']]. by apply Hf.
Qed.
Lemma hkeeps_rbind {A B} (m : H (result A)) (f : A → H (result B)) :
  hkeeps m → (∀ a, hkeeps (f a)) → hkeeps (rbind m f).
Proof. intros. apply hkeeps_bind; [done|]. intros [a|e]; [auto|apply hkeeps_ret]. Qed.
Lemma hkeeps_rbind_wrap {A B} g (m : H (result A)) (f : A → H (result B)) :
  hkeeps m → (∀ a, hkeeps (f a)) → hkeeps (rbind_wrap g m f).
Proof. intros. apply hkeeps_bind; [done|]. intros [a|e]; [auto|apply hkeeps_ret]. Qed.
Lemma hkeeps_if {A} (b : bool) (m n : H A) : hkeeps m → hkeeps n → hkeeps (if b then m else n).
Proof. intros. destruct b; simpl; auto. Qed.
Lemma hkeeps_lift {A} (r : result A) : hkeeps (lift_result r).
Proof. by intros ?. Qed.
Lemma hkeeps_event : hkeeps Persistence.event.
Proof. by intros ?. Qed.
Lemma hkeeps_unless k : hkeeps k → hkeeps (Persistence.unlessDuplicate k).
Proof. intros. apply hkeeps_bind; [by intros ?|]. intros e. apply hkeeps_if; [by intros ?|done]. Qed.

End Keeps.

Lemma hkeeps_onW `{E : Env} (I : GameEvent.t → World → Prop) {A} (m : M A) :
  (∀ e, keeps (I e) m) → hkeeps I (Persistence.onW A m).
Proof.
  intros Hm e w HP. unfold Persistence.onW, zoom. simpl. specialize (Hm e w HP).
  by destruct (m w).
Qed.

(** Invariants of the tables alone. *)
Section OnTables.
Context `{E : Env} (P : Tables → Prop).

Definition on_tables : World → Prop := λ w, P (tables w).
Definition on_db : GameEvent.t → World → Prop := λ _, on_tables.

Lemma keeps_quiet {A} (m : M A) : (∀ w, tables (m w).2 = tables w) → keeps on_tables m.
Proof. intros Hm w. unfold on_tables. by rewrite Hm. Qed.

Lemma keeps_statement {A} (f : Z → Z → Tables → result (A * Tables)) :
  (∀ n now t a t', P t → f n now t = Ok (a, t') → P t') → keeps on_tables (statement f).
Proof.
  intros Hf w HP. unfold statement, on_tables in *.
  destruct (f (Z.of_nat (S (stmts w))) (dbclock (stmts w)) (tables w)) as [[a t']|e] eqn:Hr;
    destruct (dbfault (stmts w)); simpl; eauto.
Qed.

Lemma hkeeps_setEvent e : hkeeps on_db (Persistence.setEvent e).
Proof. by intros ?. Qed.
End OnTables.

(** ** Transactions *)

Section Tx.
Context `{E : Env}.

(** The tables after [WithTx] are those before it, or those the closure left; the
    second whenever it reports success.  The closure ran on the tables before. *)
Lemma WithTx_atomic (fn : H (result unit)) e w :
  let out := WithTx Persistence.onW fn (e, w) in
  let w1 := set_stmts (S (stmts w)) w in
  ((out.2.2 = w1 ∨ out.2.1 = (fn (e, w1)).2.1) ∧ tables out.2.2 = tables w ∧ is_ok out.1 = false) ∨
  (out.2.1 = (fn (e, w1)).2.1 ∧ (fn (e, w1)).1 = Ok tt ∧
   tables out.2.2 = tables (fn (e, w1)).2.2).
Proof.
  unfold WithTx, Persistence.onW, zoom, mbind, ST_bind, mret, ST_ret, gets, modify, statement.
  simpl. destruct (dbfault (stmts w)) eqn:Hf; simpl; [|left; auto|left; by destruct w; auto].
  destruct w as [tk st rg o t l]. unfold set_tables, set_stmts. simpl.
  destruct (fn (e, mkWorld tk (S st) rg o t l)) as [[[]|er] [e1 w1]]; simpl.
  - destruct (dbfault (stmts w1)); simpl; naive_solver.
  - destruct (dbfault (stmts w1)); simpl; naive_solver.
Qed.

Lemma hkeeps_WithTx P (fn : H (result unit)) :
  hkeeps (on_db P) fn → hkeeps (on_db P) (WithTx Persistence.onW fn).
Proof.
  intros Hfn e w HP. unfold on_db, on_tables in *. destruct (WithTx_atomic fn e w) as [(_ & -> & _)|(_ & _ & ->)]; [done|].
  by apply (Hfn e (set_stmts (S (stmts w)) w)).
Qed.
End Tx.

(** Walk through a program, splitting binds and conditionals. *)
Ltac keeps_step :=
  match goal with
  | |- hkeeps _ (rbind _ _) => apply hkeeps_rbind; [|intros ?]
  | |- hkeeps _ (rbind_wrap _ _ _) => apply hkeeps_rbind_wrap; [|intros ?]
  | |- hkeeps _ (Persistence.unlessDuplicate _) => apply hkeeps_unless
  | |- hkeeps _ (Persistence.onW _ _) => apply hkeeps_onW; intros ?
  | |- hkeeps _ (WithTx _ _) => apply hkeeps_WithTx
  | |- hkeeps _ (lift_result _) => apply hkeeps_lift
  | |- hkeeps _ Persistence.event => apply hkeeps_event
  | |- hkeeps _ (Persistence.setEvent _) => apply hkeeps_setEvent
  | |- hkeeps _ (mret _) => apply hkeeps_ret
  | |- hkeeps _ (_ ≫= _) => apply hkeeps_bind; [|intros ?]
  | |- hkeeps _ (if _ then _ else _) => apply hkeeps_if
  | |- hkeeps _ (match ?x with _ => _ end) => destruct x
  | |- keeps (on_db _ _) _ => unfold on_db
  | |- keeps _ (Persistence.when _ _) => apply keeps_when
  | |- keeps _ _ => keeps_world
  | |- hkeeps _ (let _ := _ in _) => cbv zeta
  end.

Section Preservation.
Context `{E : Env}.
Import Persistence.

(** *** The statements *)

Lemma updateGame_keeps g set :
  (∀ x, Game.GameID (set x) = Game.GameID x) →
  (∀ x, reached_status (Game.Status x) → reached_status (Game.Status (set x))) →
  keeps (on_tables db_ok) (Postgres.updateGame g set).
Proof.
  intros Hid Hst. apply keeps_statement. intros n now t [] t' Hok.
  destruct (games t !! g) as [x|] eqn:Hx; [|by intros [= <-]].
  pose proof (db_game _ Hok _ _ Hx) as [Hg _ Hs _ _].
  destruct (Postgres.games_admit (set x)) as [row|] eqn:Ha; [|done].
  apply Postgres.games_admit_ok in Ha as (_ & Hc & Hrow).
  destruct (Postgres.games_fk (users t) row) eqn:Hfk; simpl; [|done]. intros [= <-].
  apply db_ok_set_game; [done|]. split; [| |by rewrite Hrow; apply Hst|done..].
  - rewrite Hrow. simpl. by rewrite Hid.
  - rewrite Hrow. apply Postgres.games_row_row.
Qed.

Lemma GetByID_keeps P g : keeps (on_tables P) (Postgres.GetByID g).
Proof. apply keeps_quiet. intros w. by apply later_tables, Postgres.GetByID_later. Qed.

Lemma JoinGame_keeps g p h ts : keeps (on_tables db_ok) (Postgres.JoinGame g p h ts).
Proof. unfold Postgres.JoinGame. repeat keeps_step. apply updateGame_keeps; intros x; [reflexivity|]. right; left; reflexivity. Qed.

Lemma CompleteGame_keeps g a p h ts :
  keeps (on_tables db_ok) (Postgres.CompleteGameWithQuerier g a p h ts).
Proof. unfold Postgres.CompleteGameWithQuerier. repeat keeps_step. apply updateGame_keeps; intros x; [reflexivity|]. right; right; reflexivity. Qed.

Lemma CancelGame_keeps g h ts : keeps (on_tables db_ok) (Postgres.CancelGame g h ts).
Proof. unfold Postgres.CancelGame. repeat keeps_step. apply updateGame_keeps; intros x; [reflexivity|]. right; right; reflexivity. Qed.

Lemma RevealChoice_keeps g p c h ts : keeps (on_tables db_ok) (Postgres.RevealChoice g p c h ts).
Proof.
  unfold Postgres.RevealChoice. repeat keeps_step;
    first [apply GetByID_keeps|by apply updateGame_keeps].
Qed.

Lemma CreateOrIgnore_keeps game :
  reached_status (Game.Status game) → keeps (on_tables db_ok) (Postgres.CreateOrIgnore game).
Proof.
  intros Hs. unfold Postgres.CreateOrIgnore. repeat keeps_step. apply keeps_statement.
  intros n now t b t' Hok. destruct (Postgres.games_admit _) as [row|] eqn:Ha; [|done].
  apply Postgres.games_admit_ok in Ha as (_ & Hc & Hrow).
  destruct (games t !! Game.GameID game) eqn:Hg; [by intros [= _ <-]|].
  destruct (Postgres.games_fk _ _) eqn:Hfk; simpl; [|done]. intros [= _ <-].
  apply db_ok_set_game; [done|]. rewrite Hrow in *.
  split; [done|apply Postgres.games_row_row|done..].
Qed.

Lemma Upsert_keeps e : keeps (on_tables db_ok) (Postgres.UpsertWithQuerier e).
Proof.
  unfold Postgres.UpsertWithQuerier. repeat keeps_step. apply keeps_statement.
  intros n now t row t' Hok. destruct (fits 66 _); [|done]. cbn [negb].
  destruct (game_events t !! _) eqn:Hk; [done|].
  case_bool_decide as Hg; [|done]. intros [= _ <-]. simpl.
  change (Postgres.event_key (GameEvent.set_ID n now e)) with (Postgres.event_key e).
  rewrite <-(Postgres.event_row_key e).
  by apply (db_ok_set_event (Postgres.event_row (GameEvent.set_ID n now e))).
Qed.

Lemma EnsureUser_keeps a : keeps (on_tables db_ok) (Postgres.EnsureUserByWallet a).
Proof.
  unfold Postgres.EnsureUserByWallet. repeat keeps_step. apply keeps_statement.
  intros n now t [] t' Hok. cbv zeta. destruct (fits 66 a); [|done]. cbn [negb].
  destruct (users t !! _); intros [= <-]; [done|]. by apply db_ok_set_user.
Qed.

Lemma updateUser_keeps a g w l r x : keeps (on_tables db_ok) (Postgres.updateUser a (Postgres.bump g w l r x)).
Proof.
  apply keeps_statement. intros n now t [] t' Hok.
  destruct (users t !! a) as [u|] eqn:Hu; [|by intros [= <-]].
  cbv zeta. destruct (Postgres.counters_ok _); [|done]. intros [= <-].
  apply db_ok_set_user; [done|]. exact (db_user _ Hok _ _ Hu).
Qed.

End Preservation.

(** ** What the handlers do besides writing to the tables *)

Section Quiet.
Context `{E : Env} `{!ClockMono E} (uc : PersistenceUC).
Import Persistence.

(** Broadcasts and lock releases leave the tables alone. *)
Lemma release_tables k (m : M unit) w : drops k w (m w).2 → tables (m w).2 = tables w.
Proof. intros [Hop _]. apply (op_tables _ _ _ Hop). Qed.

Lemma ReleaseOnJoin_drops g w : drops JoinLock w (Reservation.ReleaseOnJoin g w).2.
Proof. destruct (wp_ReleaseOnJoin g w) as [[_ ?]|[_ ?]]; [by apply later_drops|by eapply dropped_drops]. Qed.

Lemma ReleaseOnUnavailable_drops g s w :
  drops CancelLock w (CancelReservation.ReleaseOnUnavailable g s w).2.
Proof.
  destruct (wp_ReleaseOnUnavailable g s w) as [[_ ?]|[_ ?]];
    [by apply later_drops|by eapply dropped_drops].
Qed.

Lemma ReleaseOnTerminal_drops g w :
  drops RevealLock w (RevealReservation.ReleaseOnTerminal g w).2.
Proof. destruct (wp_ReleaseOnTerminal g w) as [[_ ?]|[_ ?]]; [by apply later_drops|by eapply dropped_drops]. Qed.

Lemma broadcast_quiet g s w :
  let w' := (broadcastGameUpdate uc g s w).2 in
  (ticks w ≤ ticks w')%nat ∧ tables w' = tables w ∧ locks w' = locks w.
Proof.
  unfold broadcastGameUpdate, when. destruct (has_broadcast uc); [|done].
  unfold mbind, M_bind, ST_bind. pose proof (Postgres.GetByID_later g w) as (?&?&?&?).
  destruct (Postgres.GetByID g w) as [[x|e] w']; simpl in *; auto.
Qed.

Lemma releases_keep P g :
  keeps (on_tables P) (when (has_reserve uc) (Reservation.ReleaseOnJoin g)) ∧
  keeps (on_tables P) (releaseCancelReservationIfUnavailable uc g) ∧
  keeps (on_tables P) (releaseRevealReservationIfAny uc g) ∧
  keeps (on_tables P) (releaseExpiredClaimIfResolved uc g).
Proof.
  split_and!; apply keeps_when, keeps_quiet; intros w; eapply release_tables;
    [apply ReleaseOnJoin_drops|apply ReleaseOnUnavailable_drops
    |apply ReleaseOnTerminal_drops|apply ReleaseOnResolved_drops].
Qed.

Lemma ReleaseOnJoin_keeps P g : keeps (on_tables P) (Reservation.ReleaseOnJoin g).
Proof. apply keeps_quiet. intros w. eapply release_tables, ReleaseOnJoin_drops. Qed.

Lemma broadcast_keeps P g s : keeps (on_tables P) (broadcastGameUpdate uc g s).
Proof. apply keeps_quiet. intros w. apply broadcast_quiet. Qed.

(** *** The handlers keep the invariant *)

Lemma checkEvent_keeps P want : hkeeps (on_db P) (checkEvent want).
Proof. unfold checkEvent. by repeat keeps_step. Qed.
Lemma requireGame_keeps P g : hkeeps (on_db P) (requireGame g).
Proof. unfold requireGame. repeat keeps_step. apply GetByID_keeps. Qed.
Lemma serializeEventData_keeps P : hkeeps (on_db P) serializeEventData.
Proof. unfold serializeEventData. repeat keeps_step. Qed.
Lemma upsertEvent_keeps : hkeeps (on_db db_ok) upsertEvent.
Proof. unfold upsertEvent. repeat keeps_step. apply Upsert_keeps. Qed.

Lemma completeAndCount_keeps game a p e : keeps (on_tables db_ok) (completeAndCount uc game a p e).
Proof.
  unfold completeAndCount, countFinished, countLoser, countReferrer. repeat keeps_step; first
    [apply CompleteGame_keeps | unfold Postgres.IncrementGamesPlayedWithQuerier,
      Postgres.IncrementWinsWithQuerier, Postgres.IncrementLossesWithQuerier,
      Postgres.IncrementReferralsWithQuerier; repeat keeps_step; apply updateUser_keeps].
Qed.

Lemma countDraw_keeps g : keeps (on_tables db_ok) (countDraw uc g).
Proof.
  unfold countDraw. repeat keeps_step; first
    [apply GetByID_keeps | unfold Postgres.IncrementGamesPlayed,
      Postgres.IncrementGamesPlayedWithQuerier; repeat keeps_step; apply updateUser_keeps].
Qed.

Hint Resolve checkEvent_keeps requireGame_keeps serializeEventData_keeps upsertEvent_keeps
  completeAndCount_keeps countDraw_keeps broadcast_keeps JoinGame_keeps CompleteGame_keeps
  CancelGame_keeps RevealChoice_keeps EnsureUser_keeps
  ReleaseOnJoin_keeps : keeps_db.

Ltac handler :=
  repeat keeps_step; first [by auto with keeps_db | by apply releases_keep | idtac].

Lemma routeEvent_keeps : hkeeps (on_db db_ok) (routeEvent uc).
Proof.
  unfold routeEvent. apply hkeeps_bind; [apply hkeeps_event|]. intros e. cbv zeta.
  repeat (apply hkeeps_if; [|]); [..|apply hkeeps_ret].
  - unfold HandleGameInitialized. handler.
    apply CreateOrIgnore_keeps. by left.
  - unfold HandleGameStarted. handler.
  - unfold HandleGameFinished, finishInTx, finishLegacy. handler.
  - unfold HandleGameCancelled. handler.
  - unfold HandleDraw. handler.
  - unfold HandleSecretOpened. handler.
  - unfold HandleInsufficientBalance. handler.
Qed.
End Quiet.

(** ** A redelivered event changes nothing *)

Section Duplicate.
Context `{E : Env} `{!ClockMono E} (uc : PersistenceUC).
Import Persistence.
Context (w0 : World) (data : option (gmap string dyn)).

(** Nothing but rows of users unknown so far was added since [w0]. *)
Record untouched (w : World) : Prop := {
  untouched_ticks : (ticks w0 ≤ ticks w)%nat;
  untouched_out : out w = out w0;
  untouched_locks : locks w = locks w0;
  untouched_games : games (tables w) = games (tables w0);
  untouched_events : game_events (tables w) = game_events (tables w0);
  untouched_letters : dead_letters (tables w) = dead_letters (tables w0);
  untouched_users a u : users (tables w0) !! a = Some u → users (tables w) !! a = Some u }.

(** The event was not assigned an id, its row is in the table, its game exists. *)
Record redelivered (e : GameEvent.t) (w : World) : Prop := {
  redelivered_id : GameEvent.ID e = 0;
  redelivered_row : is_Some (game_events (tables w0) !! Postgres.event_key e);
  redelivered_data : GameEvent.EventData e = data;
  redelivered_game g : extractInt64 data "game_id" = Ok g → is_Some (games (tables w0) !! g);
  redelivered_world : untouched w }.

Lemma untouched_later w w' : later w w' → untouched w → untouched w'.
Proof.
  intros (? & Ho & Ht & Hl) []. constructor; rewrite ?Ho, ?Ht, ?Hl; try done. lia.
Qed.

Lemma redelivered_later e w w' : later w w' → redelivered e w → redelivered e w'.
Proof. intros Hl []. split; [done..|]. by eapply untouched_later. Qed.

Lemma keeps_later {A} e (m : M A) : (∀ w, later w (m w).2) → keeps (redelivered e) m.
Proof. intros Hm w. by apply redelivered_later. Qed.

Lemma checkEvent_dup want : hkeeps redelivered (checkEvent want).
Proof. unfold checkEvent. repeat keeps_step. Qed.

Lemma requireGame_dup g : hkeeps redelivered (requireGame g).
Proof.
  unfold requireGame. repeat keeps_step. apply keeps_later. intros w.
  apply Postgres.GetByID_later.
Qed.

Lemma serializeEventData_dup : hkeeps redelivered serializeEventData.
Proof.
  intros e w Hd. unfold serializeEventData, mbind, H_bind, ST_bind, event, gets. simpl.
  destruct (negb _); [done|]. destruct (GameEvent.EventData e) as [d|] eqn:Hdata; [|done].
  destruct (json_Marshal d); [|done]. simpl. by destruct Hd.
Qed.

(** A statement that fails or changes nothing. *)
Lemma statement_idle {A} (f : Z → Z → Tables → result (A * Tables)) w :
  (∀ n now a t', f n now (tables w) = Ok (a, t') → t' = tables w) → later w (statement f w).2.
Proof.
  intros Hf. unfold statement.
  destruct (f _ _ (tables w)) as [[a t']|e] eqn:Hr; destruct (dbfault (stmts w));
    simpl; try done; apply Hf in Hr as ->; done.
Qed.

Lemma upsert_dup : hkeeps redelivered upsertEvent.
Proof.
  intros e w Hd. unfold upsertEvent, rbind_wrap, mbind, H_bind, ST_bind, event, gets, onW, zoom.
  simpl. unfold Postgres.Upsert, Postgres.UpsertWithQuerier, rbind_wrap, mbind, M_bind, ST_bind.
  unfold lift_result, mret, ST_ret. destruct (GameEvent.Validate e) as [u|er]; [|done].
  unfold Postgres.insertEvent.
  destruct (redelivered_row _ _ Hd) as [row Hrow].
  rewrite <-(untouched_events _ (redelivered_world _ _ Hd)) in Hrow.
  match goal with |- context [statement ?f w] =>
    pose proof (statement_idle f w) as Hl; destruct (statement f w) as [r w'] eqn:Hs end.
  assert (later w w') as Hlate.
  { apply Hl. intros n now a t'. rewrite Hrow. by destruct (fits 66 _). }
  assert (∀ x, r ≠ Ok x) as Hno.
  { intros x ->. unfold statement in Hs. rewrite Hrow in Hs.
    destruct (fits 66 _), (dbfault (stmts w)); discriminate Hs. }
  destruct r as [x|er]; [by destruct (Hno x)|]. destruct (bool_decide (Error er = _)); simpl;
    by apply (redelivered_later _ w).
Qed.

Lemma upsertTx_dup : hkeeps redelivered upsertEventWithQuerier.
Proof. exact upsert_dup. Qed.

Lemma unless_dup k : hkeeps redelivered (unlessDuplicate k).
Proof.
  intros e w Hd. unfold unlessDuplicate, mbind, H_bind, ST_bind, event, gets. simpl.
  by rewrite (redelivered_id _ _ Hd).
Qed.

Lemma WithTx_dup (fn : H (result unit)) :
  hkeeps redelivered fn → hkeeps redelivered (WithTx onW fn).
Proof.
  intros Hfn e w Hd.
  assert (later w (set_stmts (S (stmts w)) w)) as Hb by done.
  unfold WithTx, onW, zoom, mbind, ST_bind, mret, ST_ret, gets, modify, statement. simpl.
  destruct (dbfault (stmts w)) eqn:Hf; simpl; [|by eapply redelivered_later..].
  specialize (Hfn e (set_stmts (S (stmts w)) w) (redelivered_later _ _ _ Hb Hd)).
  destruct w as [tk st rg o t l]. unfold set_tables, set_stmts in *. simpl in *.
  destruct (fn (e, mkWorld tk (S st) rg o t l)) as [[[]|er] [e1 w1]]; simpl in *;
    destruct Hfn as [F1 F2 F3 F4 [G1 G2 G3 G4 G5 G6 G7]], Hd as [D1 D2 D3 D4 [C1 C2 C3 C4 C5 C6 C7]];
    simpl in *; destruct (dbfault (stmts w1)); by repeat (split; simpl).
Qed.

(** *** Initialization: the user and the game are there already *)

Lemma keeps_growing {A} e (f : Z → Z → Tables → result (A * Tables)) :
  (∀ n now t a t', (∀ g, extractInt64 data "game_id" = Ok g →
       is_Some (games t !! g)) → f n now t = Ok (a, t') →
     games t' = games t ∧ game_events t' = game_events t ∧ dead_letters t' = dead_letters t ∧
     ∀ a u, users t !! a = Some u → users t' !! a = Some u) →
  keeps (redelivered e) (statement f).
Proof.
  intros Hf w [D1 D2 D4 D3 [C1 C2 C3 C4 C5 C6 C7]]. unfold statement.
  destruct (f (Z.of_nat (S (stmts w))) (dbclock (stmts w)) (tables w)) as [[a t']|er] eqn:Hr;
    [|destruct (dbfault (stmts w)); by repeat (split; simpl)].
  destruct (Hf _ _ _ _ _ ltac:(rewrite C4; exact D3) Hr) as (G1 & G2 & G3 & G4).
  destruct (dbfault (stmts w)); repeat (split; simpl); try done;
    first [by rewrite G1|by rewrite G2|by rewrite G3|auto].
Qed.

Lemma EnsureUser_dup e a : keeps (redelivered e) (Postgres.EnsureUserByWallet a).
Proof.
  unfold Postgres.EnsureUserByWallet. repeat keeps_step. apply keeps_growing.
  intros n now t [] t' _. cbv zeta. destruct (fits 66 a); [|done]. cbn [negb].
  destruct (users t !! _) as [u|] eqn:Hu; intros [= <-]; [done|].
  split; [done|]. split; [done|]. split; [done|]. intros a' u' Hu'. simpl.
  rewrite lookup_insert_ne; [done|]. congruence.
Qed.

Lemma CreateOrIgnore_dup e game :
  extractInt64 data "game_id" = Ok (Game.GameID game) →
  keeps (redelivered e) (Postgres.CreateOrIgnore game).
Proof.
  intros Hdata. unfold Postgres.CreateOrIgnore. repeat keeps_step. apply keeps_growing.
  intros n now t b t' Hg. destruct (Hg _ Hdata) as [x Hx].
  destruct (Postgres.games_admit _); [|done]. rewrite Hx. by intros [= _ <-].
Qed.

Lemma event_dup {A} (k : GameEvent.t → H A) :
  (∀ e, GameEvent.EventData e = data → hkeeps redelivered (k e)) →
  hkeeps redelivered (event ≫= k).
Proof. intros Hk e w Hd. apply (Hk e (redelivered_data _ _ Hd) e w Hd). Qed.

Lemma lift_dup {A B} g (r : result A) (k : A → H (result B)) :
  (∀ a, r = Ok a → hkeeps redelivered (k a)) →
  hkeeps redelivered (rbind_wrap g (lift_result r) k).
Proof. intros Hk e w Hd. destruct r as [a|er]; [by apply (Hk a eq_refl e w)|done]. Qed.

Hint Resolve checkEvent_dup requireGame_dup serializeEventData_dup upsert_dup unless_dup
  EnsureUser_dup WithTx_dup CreateOrIgnore_dup upsertTx_dup : keeps_dup.

Ltac dup :=
  repeat first [by auto with keeps_dup | apply WithTx_dup | apply lift_dup; intros ? ?
               | let Hd := fresh in apply event_dup; intros ? Hd; rewrite ?Hd | keeps_step].

Lemma routeEvent_dup : hkeeps redelivered (routeEvent uc).
Proof.
  unfold routeEvent. apply event_dup. intros e Hdata. cbv zeta.
  repeat (apply hkeeps_if; [|]); [..|apply hkeeps_ret].
  - unfold HandleGameInitialized. dup.
  - unfold HandleGameStarted. dup.
  - unfold HandleGameFinished, finishInTx, finishLegacy. dup.
  - unfold HandleGameCancelled. dup.
  - unfold HandleDraw. dup.
  - unfold HandleSecretOpened. dup.
  - unfold HandleInsufficientBalance. dup.
Qed.
End Duplicate.

(** ** What a finished game adds up to *)

(** Games played, wins, losses, referrals, referral earnings. *)
Record gain := mkGain { g_games : Z; g_wins : Z; g_losses : Z; g_refs : Z; g_earn : Z }.
Definition gain0 : gain := mkGain 0 0 0 0 0.
Definition gain_add (x y : gain) : gain :=
  mkGain (g_games x + g_games y) (g_wins x + g_wins y) (g_losses x + g_losses y)
    (g_refs x + g_refs y) (g_earn x + g_earn y).
Definition stats (u : UserRow.t) : gain :=
  mkGain (UserRow.TotalGamesPlayed u) (UserRow.TotalWins u) (UserRow.TotalLosses u)
    (UserRow.TotalReferrals u) (UserRow.TotalReferralEarnings u).

(** Every known user gained exactly [d], and nobody appeared or disappeared. *)
Definition credited (d : string → gain) (us us' : gmap string UserRow.t) : Prop :=
  ∀ a, match us !! a, us' !! a with
       | Some u, Some u' => stats u' = gain_add (stats u) (d a)
       | None, None => True
       | _, _ => False
       end.

Definition gain_for (a : string) (x : gain) (b : string) : gain :=
  if bool_decide (a = b) then x else gain0.

Lemma gain_add_0 x : gain_add x gain0 = x.
Proof. destruct x. unfold gain_add. simpl. by rewrite !Z.add_0_r. Qed.

Lemma gain_add_assoc x y z : gain_add (gain_add x y) z = gain_add x (gain_add y z).
Proof. unfold gain_add. simpl. by rewrite !Z.add_assoc. Qed.

Lemma credited_refl us : credited (λ _, gain0) us us.
Proof. intros a. destruct (us !! a); [by rewrite gain_add_0|done]. Qed.

Lemma credited_trans d1 d2 us1 us2 us3 :
  credited d1 us1 us2 → credited d2 us2 us3 → credited (λ a, gain_add (d1 a) (d2 a)) us1 us3.
Proof.
  intros H1 H2 a. specialize (H1 a). specialize (H2 a).
  destruct (us1 !! a), (us2 !! a), (us3 !! a); try done. by rewrite H2, H1, gain_add_assoc.
Qed.

Section Finish.
Context `{E : Env} (uc : PersistenceUC).
Import Persistence.

(** A statement that reports success took effect exactly once. *)
Lemma statement_ok {A} (f : Z → Z → Tables → result (A * Tables)) w a :
  (statement f w).1 = Ok a →
  ∃ n now t, 0 < n ∧ f n now (tables w) = Ok (a, t) ∧
    (statement f w).2 = set_tables t (set_stmts (S (stmts w)) w).
Proof.
  unfold statement.
  destruct (f (Z.of_nat (S (stmts w))) (dbclock (stmts w)) (tables w)) as [[a' t]|e] eqn:Hr,
    (dbfault (stmts w)); simpl; intros [= <-].
  exists (Z.of_nat (S (stmts w))), (dbclock (stmts w)), t. split; [lia|done].
Qed.

(** [m] succeeds only by making [R] of the tables. *)
Definition effect {A} (m : M (result A)) (R : Tables → Tables → Prop) : Prop :=
  ∀ w a, (m w).1 = Ok a → R (tables w) (tables (m w).2).

Lemma effect_ret {A} (r : result A) : effect (mret r) eq.
Proof. by intros w a. Qed.

Lemma effect_rbind {A B} g (m : M (result A)) (k : A → M (result B)) R1 R2 :
  effect m R1 → (∀ a, effect (k a) R2) →
  effect (rbind_wrap g m k) (λ t t', ∃ t1, R1 t t1 ∧ R2 t1 t').
Proof.
  intros Hm Hk w b. unfold rbind_wrap, mbind, M_bind, ST_bind.
  specialize (Hm w). destruct (m w) as [[a|e] w1]; [|done]. intros Hb.
  exists (tables w1). split; [by apply (Hm a)|by eapply Hk].
Qed.

Lemma effect_mono {A} (m : M (result A)) (R R' : Tables → Tables → Prop) :
  effect m R → (∀ t t', R t t' → R' t t') → effect m R'.
Proof. intros Hm HR w a Ha. eapply HR, Hm, Ha. Qed.

(** Crediting one wallet. *)
Definition credits (d : string → gain) (t t' : Tables) : Prop :=
  games t' = games t ∧ game_events t' = game_events t ∧ credited d (users t) (users t').

Lemma credits_trans d1 d2 t1 t2 t3 :
  credits d1 t1 t2 → credits d2 t2 t3 → credits (λ a, gain_add (d1 a) (d2 a)) t1 t3.
Proof.
  intros (G1 & E1 & C1) (G2 & E2 & C2). split; [congruence|]. split; [congruence|].
  by eapply credited_trans.
Qed.

Lemma updateUser_effect a g wi l r x :
  effect (Postgres.updateUser a (Postgres.bump g wi l r x))
         (credits (gain_for a (mkGain g wi l r x))).
Proof.
  unfold Postgres.updateUser, gain_for. intros w u Hok.
  apply statement_ok in Hok as (n & now & t & _ & Hf & Hs). rewrite Hs. simpl.
  destruct (users (tables w) !! a) as [v|] eqn:Hv; cbv zeta in Hf.
  - destruct (Postgres.counters_ok _); [|done]. injection Hf as _ <-.
    split; [done|]. split; [done|]. intros b. simpl.
    destruct (decide (a = b)) as [->|Hne].
    + rewrite lookup_insert_eq, Hv, bool_decide_eq_true_2; done.
    + rewrite lookup_insert_ne, bool_decide_eq_false_2 by done.
      destruct (users (tables w) !! b); [by rewrite gain_add_0|done].
  - injection Hf as _ <-. split; [done|]. split; [done|]. intros b.
    destruct (decide (a = b)) as [->|Hne]; [by rewrite Hv|].
    rewrite bool_decide_eq_false_2 by done.
    destruct (users (tables w) !! b); [by rewrite gain_add_0|done].
Qed.

(** [_ <-? m else f ;; mret (Ok tt)] has the effect of [m]. *)
Lemma effect_wrap {A} g (m : M (result A)) R :
  effect m R → effect (rbind_wrap g m (λ _, mret (Ok tt))) R.
Proof.
  intros Hm. eapply effect_mono.
  - eapply effect_rbind; [exact Hm|]. intros a. apply effect_ret.
  - by intros t t' (t1 & HR & ->).
Qed.

Lemma increments a :
  effect (Postgres.IncrementGamesPlayedWithQuerier a) (credits (gain_for a (mkGain 1 0 0 0 0))) ∧
  effect (Postgres.IncrementWinsWithQuerier a) (credits (gain_for a (mkGain 0 1 0 0 0))) ∧
  effect (Postgres.IncrementLossesWithQuerier a) (credits (gain_for a (mkGain 0 0 1 0 0))) ∧
  ∀ n, effect (Postgres.IncrementReferralsWithQuerier a n)
              (credits (gain_for a (mkGain 0 0 0 1 n))).
Proof. split_and!; intros; apply effect_wrap, updateUser_effect. Qed.

Lemma gain_for_add a x y b :
  gain_add (gain_for a x b) (gain_for a y b) = gain_for a (gain_add x y) b.
Proof. unfold gain_for. case_bool_decide; [done|]. apply gain_add_0. Qed.

(** The row of a finished game. *)
Definition paid (winner : string) (payout : Z) (e : GameEvent.t) (x : Game.t) : Game.t :=
  Game.set_WinnerAddress (if bool_decide (winner = EmptyString) then None else Some winner)
  (Game.set_PayoutAmount (if 0 <? payout then Some payout else None)
  (Game.set_CompletedAt (Some (GameEvent.Timestamp e))
  (Game.set_CompleteTxHash (Some (GameEvent.TransactionHash e))
  (Game.set_Status GameStatusPaid x)))).

(** What the players and the referrer of a finished game gain. *)
Definition finish_gain (game : Game.t) (winner : string) (a : string) : gain :=
  if negb (has_userRepo uc) then gain0
  else gain_add (gain_for winner (mkGain 1 1 0 0 0) a)
    (gain_add
       (if bool_decide (loserOf game winner = EmptyString) then gain0
        else gain_for (loserOf game winner) (mkGain 1 0 1 0 0) a)
       (match referrerOf game winner with
        | Some r => if negb (bool_decide (r = EmptyString)) && (0 <? referrerEarnings game)
                    then gain_for r (mkGain 0 0 0 1 (referrerEarnings game)) a else gain0
        | None => gain0
        end)).

Definition completes (game : Game.t) (winner : string) (payout : Z) (e : GameEvent.t)
    (t t' : Tables) : Prop :=
  games t' = alter (Postgres.games_row ∘ paid winner payout e) (GameEvent.GameID e) (games t) ∧
  game_events t' = game_events t ∧ credited (finish_gain game winner) (users t) (users t').

Lemma updateGame_effect g set :
  effect (Postgres.updateGame g set) (λ t t',
    games t' = alter (Postgres.games_row ∘ set) g (games t) ∧
    game_events t' = game_events t ∧ users t' = users t).
Proof.
  unfold Postgres.updateGame. intros w u Hok.
  apply statement_ok in Hok as (n & now & t & _ & Hf & Hs). rewrite Hs. simpl.
  destruct (games (tables w) !! g) as [x|] eqn:Hx; cbv zeta in Hf.
  - destruct (Postgres.games_admit (set x)) as [row|] eqn:Ha; [|done].
    apply Postgres.games_admit_ok in Ha as (_ & _ & ->).
    destruct (Postgres.games_fk _ _); simpl in Hf; [|done]. injection Hf as _ <-.
    split; [|done]. simpl. apply map_eq. intros g'.
    destruct (decide (g = g')) as [->|Hne].
    + by rewrite lookup_insert_eq, lookup_alter_eq, Hx.
    + by rewrite lookup_insert_ne, lookup_alter_ne.
  - injection Hf as _ <-. split; [|done]. apply map_eq. intros g'.
    destruct (decide (g = g')) as [->|Hne]; [by rewrite lookup_alter_eq, Hx|].
    by rewrite lookup_alter_ne.
Qed.

Lemma credits_refl t : credits (λ _, gain0) t t.
Proof. split; [done|]. split; [done|]. apply credited_refl. Qed.

Lemma credits_ext d d' t t' : (∀ a, d a = d' a) → credits d t t' → credits d' t t'.
Proof.
  intros Hd (? & ? & Hc). split; [done|]. split; [done|]. intros a. specialize (Hc a).
  destruct (users t !! a), (users t' !! a); try done. by rewrite <-Hd.
Qed.

Lemma effect_if {A} (b : bool) (m n : M (result A)) R :
  effect m R → effect n R → effect (if b then m else n) R.
Proof. by destruct b. Qed.

Lemma effect_seq {A B} (m : M (result A)) (k : A → M (result B)) R1 R2 :
  effect m R1 → (∀ a, effect (k a) R2) →
  effect (rbind m k) (λ t t', ∃ t1, R1 t t1 ∧ R2 t1 t').
Proof.
  intros Hm Hk w b. unfold rbind, mbind, M_bind, ST_bind.
  specialize (Hm w). destruct (m w) as [[a|e] w1]; [|done]. intros Hb.
  exists (tables w1). split; [by apply (Hm a)|by eapply Hk].
Qed.

Lemma effect_credits {A} (m : M (result A)) (R : Tables → Tables → Prop) d :
  effect m R → (∀ t t', R t t' → credits d t t') → effect m (credits d).
Proof. apply effect_mono. Qed.

Lemma countLoser_effect loser :
  effect (countLoser loser) (credits (λ a,
    if bool_decide (loser = EmptyString) then gain0
    else gain_for loser (mkGain 1 0 1 0 0) a)).
Proof.
  unfold countLoser. case_bool_decide.
  { eapply effect_mono; [apply effect_ret|]. intros t t' <-. apply credits_refl. }
  destruct (increments loser) as (Hg & _ & Hl & _). eapply effect_mono.
  { eapply effect_rbind; [exact Hg|]. intros _. apply effect_wrap, Hl. }
  intros t t' (t1 & C1 & C2). eapply credits_ext; [|by eapply credits_trans].
  intros a. simpl. by rewrite gain_for_add.
Qed.

Lemma countReferrer_effect game winner :
  effect (countReferrer game winner) (credits (λ a,
    match referrerOf game winner with
    | Some r => if negb (bool_decide (r = EmptyString)) && (0 <? referrerEarnings game)
                then gain_for r (mkGain 0 0 0 1 (referrerEarnings game)) a else gain0
    | None => gain0
    end)).
Proof.
  assert (effect (mret (Ok tt)) (credits (λ _, gain0))) as Hret.
  { eapply effect_mono; [apply effect_ret|]. intros t t' <-. apply credits_refl. }
  unfold countReferrer. destruct (referrerOf game winner) as [r|]; [|done].
  destruct (_ && _); [|done]. by apply effect_wrap, increments.
Qed.

Lemma countFinished_effect game winner :
  effect (countFinished uc game winner) (credits (finish_gain game winner)).
Proof.
  unfold countFinished, finish_gain. destruct (has_userRepo uc); simpl.
  2: { eapply effect_mono; [apply effect_ret|]. intros t t' <-. apply credits_refl. }
  destruct (increments winner) as (Hg & Hw & _ & _). eapply effect_mono.
  { eapply effect_rbind; [exact Hg|]. intros _. eapply effect_rbind; [exact Hw|]. intros _.
    eapply effect_seq; [apply countLoser_effect|]. intros _. apply countReferrer_effect. }
  intros t t' (t1 & C1 & t2 & C2 & t3 & C3 & C4). eapply credits_ext.
  2: { eapply credits_trans; [exact (credits_trans _ _ _ _ _ C1 C2)|].
       exact (credits_trans _ _ _ _ _ C3 C4). }
  intros a. simpl. by rewrite gain_for_add.
Qed.

Lemma completeAndCount_effect game winner payout e :
  effect (completeAndCount uc game winner payout e) (completes game winner payout e).
Proof.
  unfold completeAndCount. eapply effect_mono.
  { eapply effect_rbind; [apply effect_wrap, updateGame_effect|]. intros _.
    apply countFinished_effect. }
  intros t t' (t1 & (G & Ev & U) & (G' & Ev' & C)).
  split; [by rewrite G', G|]. split; [congruence|]. by rewrite <-U.
Qed.
End Finish.

Section FinishHandler.
Context `{E : Env} `{!ClockMono E} `{!DriverErrors E} (uc : PersistenceUC).
Import Persistence.

(** The upsert inserts a fresh row, or reports the event as known and does nothing. *)
Lemma Upsert_effect e w row :
  (Postgres.UpsertWithQuerier e w).1 = Ok row →
  (row = e ∧ tables (Postgres.UpsertWithQuerier e w).2 = tables w) ∨
  (game_events (tables w) !! Postgres.event_key e = None ∧
   ∃ n now, 0 < n ∧ row = GameEvent.set_ID n now e ∧
     tables (Postgres.UpsertWithQuerier e w).2 =
       set_game_events (<[Postgres.event_key e := Postgres.event_row row]>
         (game_events (tables w))) (tables w)).
Proof.
  unfold Postgres.UpsertWithQuerier, Postgres.insertEvent, rbind_wrap, mbind, M_bind, ST_bind, lift_result, mret,
    ST_ret, M_ret, ST_ret.
  destruct (GameEvent.Validate e); [|done]. unfold statement.
  destruct (fits 66 _); cbn [negb].
  2: { destruct (dbfault (stmts w)); simpl;
         rewrite ?bool_decide_eq_false_2 by first [done|apply driver_error]; done. }
  destruct (game_events (tables w) !! Postgres.event_key e) as [old|] eqn:Hk.
  - destruct (dbfault (stmts w)); simpl;
      repeat case_bool_decide; try done; intros [= <-]; by left.
  - case_bool_decide; destruct (dbfault (stmts w)) eqn:Hf; simpl;
      try (rewrite bool_decide_eq_false_2 by apply driver_error; done).
    + intros [= <-]. right. split; [done|]. eexists _, _. split; [|split; [done|done]]. lia.
    + done.
Qed.

(** The tables after the event is recorded, the game paid and everybody credited. *)
Definition finished (game : Game.t) (winner : string) (payout : Z) (e : GameEvent.t)
    (t t' : Tables) : Prop :=
  game_events t !! Postgres.event_key e = None ∧
  ∃ row, Postgres.event_key row = Postgres.event_key e ∧
    completes uc game winner payout e
      (set_game_events (<[Postgres.event_key e := row]> (game_events t)) t) t'.

Lemma finishInTx_effect game winner payout e e1 w :
  GameEvent.ID e1 = 0 → Postgres.event_key e1 = Postgres.event_key e →
  (finishInTx uc game winner payout e (e1, w)).1 = Ok tt →
  let '(e', w') := (finishInTx uc game winner payout e (e1, w)).2 in
  (tables w' = tables w ∧ GameEvent.ID e' = 0) ∨
  finished game winner payout e (tables w) (tables w').
Proof.
  intros Hid Hkey.
  unfold finishInTx, upsertEventWithQuerier, unlessDuplicate, rbind, rbind_wrap, mbind, ST_bind,
    H_bind, ST_bind, event, gets, setEvent, modify, onW, zoom, H_ret, mret, ST_ret. simpl.
  pose proof (Upsert_effect e1 w) as Hup.
  destruct (Postgres.UpsertWithQuerier e1 w) as [[row|er] w1]; simpl; [|done].
  destruct (Hup row eq_refl) as [[-> Ht]|(Hnone & n & now & Hn & -> & Ht)]; simpl in *.
  - rewrite Hid. simpl. auto.
  - pose proof (completeAndCount_effect uc game winner payout e w1) as Hc.
    change (GameEvent.ID (GameEvent.set_ID n now e1)) with n.
    rewrite (proj2 (Z.eqb_neq n 0)) by lia. simpl in *.
    destruct (completeAndCount uc game winner payout e w1) as [r w2]. simpl in *.
    intros ->. right. unfold finished. rewrite <-Hkey. split; [done|]. eexists. split; [|].
    2: { rewrite <-Ht. by apply (Hc tt). }
    by rewrite Postgres.event_row_key.
Qed.

(** *** Stepping through a handler *)

Lemma wp_onW {A} (m : M A) (Q : A → GameEvent.t * World → Prop) e w :
  wp m (λ a w', Q a (e, w')) w → wp (onW A m) Q (e, w).
Proof. unfold wp, onW, zoom. simpl. by destruct (m w). Qed.

Lemma wp_checkEvent want (Q : result unit → GameEvent.t * World → Prop) e w :
  (∀ er, Q (Err er) (e, w)) → (GameEvent.EventType e = want → Q (Ok tt) (e, w)) →
  wp (checkEvent want) Q (e, w).
Proof.
  intros Herr Hok. unfold checkEvent. apply wp_bind, wp_gets, wp_rbind_wrap, wp_ret. simpl.
  destruct (GameEvent.Validate e); [|apply Herr].
  case_bool_decide; apply wp_ret; auto.
Qed.

Lemma wp_requireGame g (Q : result Game.t → GameEvent.t * World → Prop) e w :
  (∀ er w', later w w' → Q (Err er) (e, w')) →
  (∀ game w', later w w' → games (tables w) !! g = Some game → Q (Ok game) (e, w')) →
  wp (requireGame g) Q (e, w).
Proof.
  intros Herr Hok. unfold requireGame. apply wp_rbind_wrap, wp_onW. unfold wp at 1.
  pose proof (Postgres.GetByID_later g w) as Hl. pose proof (Postgres.GetByID_sound g w) as Hs.
  destruct (Postgres.GetByID g w) as [[game|er] w']; simpl in *; [|auto].
  apply wp_ret. auto.
Qed.

(** Serialization touches the payload only. *)
Definition same_event (e e' : GameEvent.t) : Prop :=
  GameEvent.ID e' = GameEvent.ID e ∧ Postgres.event_key e' = Postgres.event_key e ∧
  GameEvent.EventData e' = GameEvent.EventData e.

Lemma wp_serialize (Q : result unit → GameEvent.t * World → Prop) e w :
  (∀ r e', same_event e e' → Q r (e', w)) → wp serializeEventData Q (e, w).
Proof.
  intros HQ. unfold serializeEventData. apply wp_bind, wp_gets. simpl.
  destruct (negb _); [by apply wp_ret, HQ|].
  destruct (GameEvent.EventData e) as [d|]; [|by apply wp_ret, HQ].
  destruct (json_Marshal d); [|by apply wp_ret, HQ].
  apply wp_bind, wp_modify, wp_ret, HQ. done.
Qed.

(** What follows the writes of a handler leaves the tables alone. *)
Lemma wp_tables {A} (m : H A) (P : Tables → Prop) e w :
  (∀ Q, hkeeps (on_db Q) m) → P (tables w) → wp m (λ _ s, P (tables s.2)) (e, w).
Proof. intros Hm HP. by apply (Hm P e w). Qed.

(** Nothing, or all of it; all of it when a fresh event is reported handled. *)
Definition finish_post (t : Tables) (F : Tables → Prop) (r : result unit)
    (s : GameEvent.t * World) : Prop :=
  (tables s.2 = t ∨ F (tables s.2)) ∧ (r = Ok tt → GameEvent.ID s.1 ≠ 0 → F (tables s.2)).

Lemma finish_post_err t F er s : tables s.2 = t → finish_post t F (Err er) s.
Proof. intros Ht. split; [by left|done]. Qed.

Lemma wp_HandleGameFinished e w (F : Tables → Prop) :
  GameEvent.ID e = 0 → has_txManager uc = true →
  (∀ game winner t, games (tables w) !! GameEvent.GameID e = Some game →
     extractString (GameEvent.EventData e) "winner" = Ok winner →
     finished game winner (payoutOf (GameEvent.EventData e)) e (tables w) t → F t) →
  wp (HandleGameFinished uc) (finish_post (tables w) F) (e, w).
Proof.
  intros Hid Htx Hfin. unfold HandleGameFinished.
  apply wp_rbind, wp_checkEvent; [intros er; by apply finish_post_err|intros _].
  apply wp_bind, wp_gets. cbv zeta. simpl fst. apply wp_rbind, wp_requireGame.
  { intros er w1 H1. by apply finish_post_err, later_tables. }
  intros game w1 H1 Hg. apply wp_rbind, wp_serialize. intros [u|er] e1 (Hid1 & Hkey & _).
  2: { by apply finish_post_err, later_tables. }
  apply wp_rbind_wrap, wp_ret. destruct (extractString _ _) as [winner|er] eqn:Hwin.
  2: { by apply finish_post_err, later_tables. }
  specialize (Hfin game winner). rewrite Htx. apply wp_rbind. unfold wp at 1.
  pose proof (finishInTx_effect game winner (payoutOf (GameEvent.EventData e)) e e1
    (set_stmts (S (stmts w1)) w1) ltac:(congruence) Hkey) as Hcl.
  destruct (WithTx_atomic (finishInTx uc game winner (payoutOf (GameEvent.EventData e)) e) e1 w1)
    as [(_ & Ht & Hno)|(He & Hok & Ht)];
    destruct (WithTx onW _ (e1, w1)) as [r [e2 w2]]; simpl in Ht.
  - rewrite (later_tables _ _ H1) in Ht. destruct r as [[]|er]; [done|].
    by apply finish_post_err.
  - specialize (Hcl Hok). destruct (finishInTx _ _ _ _ _ _) as [r' [e' w']]. simpl in *.
    subst e2. rewrite (later_tables _ _ H1) in Hcl.
    destruct Hcl as [[Hsame Hz]|Hq].
    + destruct r as [[]|er]; [|apply finish_post_err; simpl; by rewrite Ht].
      apply wp_bind, wp_gets. simpl. rewrite Hz. simpl. apply wp_ret.
      split; [left; simpl; by rewrite Ht|by intros _ Hne].
    + assert (F (tables w2)) as HF by (rewrite Ht; auto).
      destruct r as [[]|er]; [|split; [by right|done]].
      eapply wp_mono; [apply (wp_tables _ F); [|exact HF]|].
      { intros Q. repeat keeps_step; first [apply broadcast_keeps|apply releases_keep]. }
      intros ? ? HF'. split; [by right|done].
Qed.
End FinishHandler.

(** ** What a successful handler did *)

Section Transitions.
Context `{E : Env} `{!ClockMono E} `{!DriverErrors E} (uc : PersistenceUC).
Import Persistence.

(** The game row after an event, as the handler of its type rewrites it. *)
Definition joined (p2 : string) (e : GameEvent.t) (x : Game.t) : Game.t :=
  Game.set_PlayerTwoAddress (Some p2)
  (Game.set_JoinedAt (Some (GameEvent.Timestamp e))
  (Game.set_JoinTxHash (Some (GameEvent.TransactionHash e))
  (Game.set_Status GameStatusWaitingForOpenBids
  (Game.set_PlayerOneChoice CoinSideClosed
  (Game.set_PlayerTwoChoice (Some CoinSideClosed) x))))).

Definition cancelled (e : GameEvent.t) (x : Game.t) : Game.t :=
  Game.set_Status GameStatusPaid
  (Game.set_CompletedAt (Some (GameEvent.Timestamp e))
  (Game.set_WinnerAddress None
  (Game.set_PayoutAmount None
  (Game.set_CompleteTxHash (Some (GameEvent.TransactionHash e)) x)))).

Definition revealed (player : string) (side : Z) (e : GameEvent.t) (x : Game.t) : Game.t :=
  let y := Game.set_RevealedAt (Some (GameEvent.Timestamp e))
             (Game.set_RevealTxHash (Some (GameEvent.TransactionHash e)) x) in
  if bool_decide (Game.PlayerOneAddress x = player) then Game.set_PlayerOneChoice side y
  else Game.set_PlayerTwoChoice (Some side) y.

(** Exactly the rows of one game and of one event changed, the latter from absent. *)
Definition applied (f : Game.t → Game.t) (e : GameEvent.t) (t t' : Tables) : Prop :=
  games t' = alter (Postgres.games_row ∘ f) (GameEvent.GameID e) (games t) ∧
  game_events t !! Postgres.event_key e = None ∧
  ∃ row, Postgres.event_key row = Postgres.event_key e ∧
    game_events t' = <[Postgres.event_key e := row]> (game_events t).

Definition when_fresh (P : Tables → Prop) (r : result unit) (s : GameEvent.t * World) : Prop :=
  r = Ok tt → GameEvent.ID s.1 ≠ 0 → P (tables s.2).

Definition recorded (e : GameEvent.t) (t t' : Tables) : Prop :=
  game_events t !! Postgres.event_key e = None ∧
  ∃ row, Postgres.event_key row = Postgres.event_key e ∧
    t' = set_game_events (<[Postgres.event_key e := row]> (game_events t)) t.

(** The common first half: read the game, serialize, insert the event. *)
Lemma wp_recorded g (k : H (result unit)) P e w :
  GameEvent.ID e = 0 →
  (∀ e1 w1, recorded e (tables w) (tables w1) → wp k (when_fresh P) (e1, w1)) →
  wp (_ <-? requireGame g ;; _ <-? serializeEventData ;; _ <-? upsertEvent ;;
      unlessDuplicate k) (when_fresh P) (e, w).
Proof.
  intros Hid Hk. apply wp_rbind, wp_requireGame; [done|]. intros game w1 H1 _.
  apply wp_rbind, wp_serialize. intros [[]|er] e1 (Hid1 & Hkey & _); [|done].
  apply wp_rbind. unfold upsertEvent. apply wp_bind, wp_gets, wp_rbind_wrap, wp_onW. simpl.
  unfold wp at 1. pose proof (Upsert_effect e1 w1) as Hup. fold Postgres.Upsert in Hup.
  destruct (Postgres.Upsert e1 w1) as [[row|er] w2]; simpl in *; [|done].
  apply wp_bind, wp_modify, wp_ret, wp_bind, wp_gets. simpl.
  destruct (Hup row eq_refl) as [[-> Ht]|(Hnone & n & now & Hn & Hrow & Ht)].
  - rewrite Hid1, Hid. simpl. apply wp_ret. intros _ Hne. simpl in Hne. congruence.
  - destruct (GameEvent.ID row =? 0) eqn:Hz; [apply wp_ret; intros _ Hne; simpl in Hne; lia|].
    apply Hk. rewrite Hkey, (later_tables _ _ H1) in *. split; [done|].
    exists (Postgres.event_row row). split; [|done].
    rewrite Postgres.event_row_key, Hrow. exact Hkey.
Qed.

(** Then the update of the game, then releases and broadcasts. *)
Lemma wp_update_tail {A} g (op : M (result A)) (tail : A → H (result unit)) R
    (P : Tables → Prop) e w :
  effect op R → (∀ t', R (tables w) t' → P t') → (∀ a Q, hkeeps (on_db Q) (tail a)) →
  wp (rbind_wrap g (onW _ op) tail) (when_fresh P) (e, w).
Proof.
  intros Hop HP Htail. apply wp_rbind_wrap, wp_onW. unfold wp at 1. specialize (Hop w).
  destruct (op w) as [[a|er] w1]; simpl in *; [|done].
  assert (P (tables w1)) as HP1 by eauto. eapply wp_mono.
  { apply (wp_tables (tail a) P); [apply Htail|exact HP1]. }
  intros r s Hs _ _. exact Hs.
Qed.

(** An update of the game row alone. *)
Definition touches (f : Game.t → Game.t) (g : Z) (t t' : Tables) : Prop :=
  games t' = alter (Postgres.games_row ∘ f) g (games t) ∧ game_events t' = game_events t.

Lemma recorded_touches f e t t1 t' :
  recorded e t t1 → touches f (GameEvent.GameID e) t1 t' → applied f e t t'.
Proof.
  intros (Hn & row & Hrow & ->) [Hg He]. simpl in *. split; [done|]. split; [done|]. eauto.
Qed.

Lemma updateGame_touches g f er :
  effect (rbind_wrap er (Postgres.updateGame g f) (λ _, mret (Ok tt))) (touches f g).
Proof.
  eapply effect_mono; [apply effect_wrap, updateGame_effect|]. by intros t t' (? & ? & ?).
Qed.

Ltac tail := intros; repeat keeps_step; first
  [apply broadcast_keeps | apply releases_keep | apply ReleaseOnJoin_keeps].

Lemma wp_HandleGameCancelled e w :
  GameEvent.ID e = 0 →
  wp (HandleGameCancelled uc) (when_fresh (applied (cancelled e) e (tables w))) (e, w).
Proof.
  intros Hid. unfold HandleGameCancelled. apply wp_rbind, wp_checkEvent; [done|intros _].
  apply wp_bind, wp_gets. cbv zeta. simpl fst. apply wp_recorded; [done|]. intros e1 w1 Hrec.
  eapply wp_update_tail; [apply updateGame_touches| |tail].
  intros t' Ht. by eapply recorded_touches.
Qed.

Lemma wp_effect_step {A} g (op : M (result A)) (k : A → H (result unit)) R P e w :
  effect op R →
  (∀ a w1, R (tables w) (tables w1) → wp (k a) (when_fresh P) (e, w1)) →
  wp (rbind_wrap g (onW _ op) k) (when_fresh P) (e, w).
Proof.
  intros Hop Hk. apply wp_rbind_wrap, wp_onW. unfold wp at 1. specialize (Hop w).
  destruct (op w) as [[a|er] w1]; simpl in *; [|done]. apply Hk. by eapply Hop.
Qed.

Definition same_games (t t' : Tables) : Prop :=
  games t' = games t ∧ game_events t' = game_events t.

Lemma statement_effect {A} (f : Z → Z → Tables → result (A * Tables)) R :
  (∀ n now t a t', f n now t = Ok (a, t') → R t t') → effect (statement f) R.
Proof.
  intros Hf w a Hok. apply statement_ok in Hok as (n & now & t & _ & Hr & Hs).
  rewrite Hs. by eapply Hf.
Qed.

Lemma EnsureUser_effect a :
  effect (Postgres.EnsureUserByWallet a)
    (λ t t', same_games t t' ∧ is_Some (users t' !! cut 66 a)).
Proof.
  apply effect_wrap, statement_effect. intros n now t [] t'. cbv zeta.
  destruct (fits 66 a); [|done]. cbn [negb].
  destruct (users t !! _) as [u|] eqn:Hu; intros [= <-]; (split; [done|]).
  - by rewrite Hu.
  - simpl. by rewrite lookup_insert_eq.
Qed.

Lemma increment_same a :
  effect (Postgres.IncrementGamesPlayed a) same_games.
Proof.
  eapply effect_mono; [apply effect_wrap, updateUser_effect|]. by intros t t' (? & ? & ?).
Qed.

Lemma same_games_trans t1 t2 t3 : same_games t1 t2 → same_games t2 t3 → same_games t1 t3.
Proof. intros [] []. split; congruence. Qed.

Lemma GetByID_same g : effect (Postgres.GetByID g) same_games.
Proof.
  intros w a _. split; by rewrite (later_tables _ _ (Postgres.GetByID_later g w)).
Qed.

Lemma countDraw_same g : effect (countDraw uc g) same_games.
Proof.
  unfold countDraw. destruct (has_userRepo uc); simpl.
  2: { eapply effect_mono; [apply effect_ret|]. by intros t t' <-. }
  eapply effect_mono.
  { eapply effect_rbind; [apply GetByID_same|]. intros game.
    eapply effect_rbind; [apply increment_same|]. intros _.
    instantiate (1 := same_games). destruct (Game.PlayerTwoAddress game).
    - apply effect_wrap, increment_same.
    - eapply effect_mono; [apply effect_ret|]. by intros t t' <-. }
  intros t t' (t1 & H1 & t2 & H2 & H3). by eapply same_games_trans, same_games_trans.
Qed.

(** A reveal succeeds for one of the two players only, and sets that player's side. *)
Lemma RevealChoice_touches g p side e :
  effect (Postgres.RevealChoice g p side (GameEvent.TransactionHash e) (GameEvent.Timestamp e))
         (touches (revealed p side e) g).
Proof.
  set (m := λ game, if bool_decide (Game.PlayerOneAddress game = p) then
      _ <-? Postgres.updateGame g (λ x, Game.set_PlayerOneChoice side
        (Game.set_RevealedAt (Some (GameEvent.Timestamp e))
           (Game.set_RevealTxHash (Some (GameEvent.TransactionHash e)) x)))
        else Postgres.query_failed ;; mret (Ok tt)
    else if bool_decide (Game.PlayerTwoAddress game = Some p) then
      _ <-? Postgres.updateGame g (λ x, Game.set_PlayerTwoChoice (Some side)
        (Game.set_RevealedAt (Some (GameEvent.Timestamp e))
           (Game.set_RevealTxHash (Some (GameEvent.TransactionHash e)) x)))
        else Postgres.query_failed ;; mret (Ok tt)
    else mret (Err (ENew ("player " +:+ p +:+ " not found in game " +:+ FormatInt g)))).
  change (effect (rbind_wrap (Errorf "get game") (Postgres.GetByID g) m)
    (touches (revealed p side e) g)).
  intros w a. unfold rbind_wrap, mbind, M_bind, ST_bind.
  pose proof (Postgres.GetByID_later g w) as Hl. pose proof (Postgres.GetByID_sound g w) as Hs.
  destruct (Postgres.GetByID g w) as [[game|er] w1]; simpl in *; [|done].
  specialize (Hs game eq_refl). rewrite <-(later_tables _ _ Hl) in *.
  assert (∀ f, f game = revealed p side e game →
    ∀ t', touches f g (tables w1) t' → touches (revealed p side e) g (tables w1) t') as Hsame.
  { intros f Hf t' [Hg He]. split; [|done]. rewrite Hg. apply map_eq. intros g'.
    destruct (decide (g = g')) as [<-|]; [|by rewrite !lookup_alter_ne].
    rewrite !lookup_alter_eq, Hs. simpl. unfold compose. by rewrite Hf. }
  unfold revealed in Hsame. unfold m. clear m.
  case_bool_decide as H1; [|case_bool_decide as H2; [|done]].
  - intros Hok. eapply Hsame; [|by eapply updateGame_touches]. done.
  - intros Hok. eapply Hsame; [|by eapply updateGame_touches]. done.
Qed.

Lemma recorded_same f e t t1 t2 t3 :
  recorded e t t1 → same_games t1 t2 → touches f (GameEvent.GameID e) t2 t3 → applied f e t t3.
Proof.
  intros Hrec [Hg He] [Hg' He']. eapply recorded_touches; [done|]. split; congruence.
Qed.

Lemma wp_HandleGameStarted e w p2 :
  GameEvent.ID e = 0 → extractString (GameEvent.EventData e) "player_two" = Ok p2 →
  wp (HandleGameStarted uc) (when_fresh (λ t, applied (joined p2 e) e (tables w) t)) (e, w).
Proof.
  intros Hid Hp. unfold HandleGameStarted. apply wp_rbind, wp_checkEvent; [done|intros _].
  apply wp_bind, wp_gets. cbv zeta. simpl fst. apply wp_rbind_wrap, wp_ret. rewrite Hp.
  apply wp_recorded; [done|]. intros e1 w1 Hrec.
  eapply wp_effect_step; [apply EnsureUser_effect|]. intros _ w2 [Hs _].
  eapply wp_update_tail; [apply updateGame_touches| |tail].
  intros t' Ht. by eapply recorded_same.
Qed.

Lemma wp_HandleDraw e w :
  GameEvent.ID e = 0 →
  wp (HandleDraw uc) (when_fresh (applied (paid EmptyString 0 e) e (tables w))) (e, w).
Proof.
  intros Hid. unfold HandleDraw. apply wp_rbind, wp_checkEvent; [done|intros _].
  apply wp_bind, wp_gets. cbv zeta. simpl fst. apply wp_recorded; [done|]. intros e1 w1 Hrec.
  eapply wp_effect_step; [apply updateGame_touches|]. intros _ w2 Ht.
  apply wp_rbind, wp_onW. unfold wp at 1. pose proof (countDraw_same (GameEvent.GameID e) w2) as Hd.
  destruct (countDraw uc (GameEvent.GameID e) w2) as [[[]|er] w3]; simpl in *; [|done].
  eapply wp_mono.
  { apply (wp_tables _ (λ t, applied (paid EmptyString 0 e) e (tables w) t)); [tail|].
    destruct (Hd tt eq_refl) as [Hg He], Ht as [Hg' He'].
    eapply recorded_touches; [done|]. split; [by rewrite Hg, Hg'|congruence]. }
  intros r s Hs _ _. exact Hs.
Qed.

Lemma wp_HandleSecretOpened e w p side :
  GameEvent.ID e = 0 → extractString (GameEvent.EventData e) "player" = Ok p →
  extractInt64 (GameEvent.EventData e) "coin_side" = Ok side →
  wp (HandleSecretOpened uc) (when_fresh (applied (revealed p side e) e (tables w))) (e, w).
Proof.
  intros Hid Hp Hside. unfold HandleSecretOpened. apply wp_rbind, wp_checkEvent; [done|intros _].
  apply wp_bind, wp_gets. cbv zeta. simpl fst. apply wp_recorded; [done|]. intros e1 w1 Hrec.
  apply wp_rbind_wrap, wp_ret. rewrite Hp. apply wp_rbind_wrap, wp_ret. rewrite Hside.
  eapply wp_update_tail; [apply RevealChoice_touches| |tail].
  intros t' Ht. by eapply recorded_touches.
Qed.

(** *** The locks a game's progress releases *)

Definition lock_free (k : LockKind) (g : Z) (w : World) : Prop :=
  view (time w) (locks w k) !! g = None.

Lemma lock_free_drops k k' g w w' : drops k' w w' → lock_free k g w → lock_free k g w'.
Proof.
  intros [Hop Hsh]. unfold lock_free. rewrite !view_lookup_None. intros Hn Hl. apply Hn.
  unfold live in *. destruct (reservations (locks w' k) !! g) as [r|] eqn:Hr; [|done].
  assert (reservations (locks w k) !! g = Some r) as ->.
  { destruct (decide (k = k')) as [->|Hne]; [by apply Hsh|].
    by rewrite <-(op_others _ _ _ Hop). }
  eapply active_at_mono; [|done]. by eapply op_time.
Qed.

(** [m] frees the lock [k] on [g]; [m] leaves free what is free. *)
Lemma releases_free g :
  (has_reserve uc = true → ∀ w,
     lock_free JoinLock g (when (has_reserve uc) (Reservation.ReleaseOnJoin g) w).2) ∧
  (has_cancelReserve uc = true → ∀ w,
     lock_free CancelLock g (releaseCancelReservationIfUnavailable uc g w).2) ∧
  (has_revealReserve uc = true → ∀ w,
     lock_free RevealLock g (releaseRevealReservationIfAny uc g w).2) ∧
  (has_expiredClaim uc = true → ∀ w,
     lock_free ClaimLock g (releaseExpiredClaimIfResolved uc g w).2).
Proof.
  unfold releaseCancelReservationIfUnavailable, releaseRevealReservationIfAny,
    releaseExpiredClaimIfResolved, when, lock_free.
  split_and!; intros -> w.
  - destruct (wp_ReleaseOnJoin g w) as [[Hn Hl]|[_ Hd]]; [|by eapply dropped_free].
    rewrite <-view_lookup_None in Hn. by eapply view_free_later.
  - destruct (wp_ReleaseOnUnavailable g "resolved" w) as [[Hn Hl]|[_ Hd]]; [|by eapply dropped_free].
    rewrite <-view_lookup_None in Hn. by eapply view_free_later.
  - destruct (wp_ReleaseOnTerminal g w) as [[Hn Hl]|[_ Hd]]; [|by eapply dropped_free].
    rewrite <-view_lookup_None in Hn. by eapply view_free_later.
  - apply wp_ReleaseOnResolved.
Qed.
End Transitions.
