(* ===== verification/Delivery.v ===== *)
(** * Deliveries of events

    What the subscriber hands to the handlers, run together with the four lock use cases:
    the invariants of the whole service, redelivery, what an event does to the tables and
    which locks it frees. *)
From S2P Require Import Prelude GoTypes Entity World LockSpec Store Repo Locks LockOps Reservation CancelReservation RevealReservation ExpiredClaim Coordination Persistence PersistenceSpec.

(** ** The service: lock actions and deliveries *)

Section Service.
Context `{E : Env} `{!ClockMono E} `{!RangePerm E} (uc : PersistenceUC).
Import Persistence.

Definition deliver (e : GameEvent.t) (w : World) : World := (routeEvent uc (e, w)).2.2.

Inductive service_step : World → World → Prop :=
| service_act m w : own m → service_step w (run m w).2
| service_event e w : service_step w (deliver e w).

(** [w'] holds no active lock that [w] did not hold. *)
Definition freed (w w' : World) : Prop :=
  system_op w w' ∧ ∀ k, shrinks (time w') (locks w k) (locks w' k).

#[local] Instance freed_preorder : PreOrder freed.
Proof.
  split; [intros w; split; [reflexivity|intros k; apply shrinks_refl]|].
  intros w1 w2 w3 [S1 F1] [S2 F2]. split; [by etrans|]. intros k g r Hr Ha.
  apply F1; [by apply F2|]. eapply active_at_mono; [|done]. apply clock_mono, S2.
Qed.

Lemma drops_freed k w w' : drops k w w' → freed w w'.
Proof.
  intros Hd. split; [by eapply lock_op_system, Hd|]. intros k'. by eapply drops_shrinks.
Qed.

(** The tables and the statement counter do not matter. *)
Lemma freed_locks w w' :
  (ticks w ≤ ticks w')%nat → locks w' = locks w → freed w w'.
Proof.
  intros Ht Hl. split; [|intros k; rewrite Hl; apply shrinks_refl].
  split; [done|..]; intros k; rewrite Hl; try done. intros _. apply steps_wait.
  by apply clock_mono.
Qed.

Section From.
Context (w0 : World).

Lemma freed_keeps {A} (m : M A) : (∀ w, freed w (m w).2) → keeps (freed w0) m.
Proof. intros Hm w Hw. by etrans. Qed.

Lemma statement_freed {A} (f : Z → Z → Tables → result (A * Tables)) :
  keeps (freed w0) (statement f).
Proof.
  apply freed_keeps. intros w. apply freed_locks; unfold statement;
    destruct (f _ _ _) as [[]|], (dbfault _); simpl; done.
Qed.

Lemma WithTx_freed (fn : H (result unit)) :
  hkeeps (λ _, freed w0) fn → hkeeps (λ _, freed w0) (WithTx onW fn).
Proof.
  intros Hfn. assert (∀ f, (∀ w, ticks (f w) = ticks w ∧ locks (f w) = locks w) →
    hkeeps (λ _, freed w0) (onW unit (modify f))) as Hmod.
  { intros f Hf e w Hw. etrans; [exact Hw|]. destruct (Hf w) as [Ht Hl].
    apply freed_locks; simpl; [by rewrite Ht|done]. }
  unfold WithTx. repeat first [done | apply Hmod; done | apply hkeeps_onW; intros ?; apply statement_freed
    | by apply hkeeps_onW; intros ? ? | keeps_step].
Qed.

Ltac reads := intros; repeat first [apply statement_freed | keeps_step].

Lemma GetByID_freed g : keeps (freed w0) (Postgres.GetByID g).
Proof. unfold Postgres.GetByID. reads. Qed.
Lemma updateGame_freed g f : keeps (freed w0) (Postgres.updateGame g f).
Proof. apply statement_freed. Qed.
Lemma updateUser_freed a f : keeps (freed w0) (Postgres.updateUser a f).
Proof. apply statement_freed. Qed.
Lemma CreateOrIgnore_freed game : keeps (freed w0) (Postgres.CreateOrIgnore game).
Proof. unfold Postgres.CreateOrIgnore. reads. Qed.
Lemma Upsert_freed e : keeps (freed w0) (Postgres.UpsertWithQuerier e).
Proof. unfold Postgres.UpsertWithQuerier. reads. Qed.
Lemma EnsureUser_freed a : keeps (freed w0) (Postgres.EnsureUserByWallet a).
Proof. unfold Postgres.EnsureUserByWallet. reads. Qed.

Hint Resolve GetByID_freed updateGame_freed updateUser_freed CreateOrIgnore_freed
  Upsert_freed EnsureUser_freed : freed.

Ltac methods := intros; repeat first [by auto with freed | keeps_step].

Lemma JoinGame_freed g a h ts : keeps (freed w0) (Postgres.JoinGame g a h ts).
Proof. unfold Postgres.JoinGame. methods. Qed.
Lemma RevealChoice_freed g a c h ts : keeps (freed w0) (Postgres.RevealChoice g a c h ts).
Proof. unfold Postgres.RevealChoice. methods. Qed.
Lemma CompleteGame_freed g a p h ts :
  keeps (freed w0) (Postgres.CompleteGameWithQuerier g a p h ts).
Proof. unfold Postgres.CompleteGameWithQuerier. methods. Qed.
Lemma CancelGame_freed g h ts : keeps (freed w0) (Postgres.CancelGame g h ts).
Proof. unfold Postgres.CancelGame. methods. Qed.
Lemma completeAndCount_freed game a p e : keeps (freed w0) (completeAndCount uc game a p e).
Proof.
  unfold completeAndCount, countFinished, countLoser, countReferrer,
    Postgres.CompleteGameWithQuerier, Postgres.IncrementGamesPlayedWithQuerier,
    Postgres.IncrementWinsWithQuerier, Postgres.IncrementLossesWithQuerier,
    Postgres.IncrementReferralsWithQuerier. methods.
Qed.
Lemma countDraw_freed g : keeps (freed w0) (countDraw uc g).
Proof.
  unfold countDraw, Postgres.IncrementGamesPlayed, Postgres.IncrementGamesPlayedWithQuerier.
  methods.
Qed.
Lemma releases_freed g :
  keeps (freed w0) (Reservation.ReleaseOnJoin g) ∧
  keeps (freed w0) (releaseCancelReservationIfUnavailable uc g) ∧
  keeps (freed w0) (releaseRevealReservationIfAny uc g) ∧
  keeps (freed w0) (releaseExpiredClaimIfResolved uc g).
Proof.
  split_and!; try apply keeps_when; apply freed_keeps; intros w; eapply drops_freed;
    [apply ReleaseOnJoin_drops|apply ReleaseOnUnavailable_drops
    |apply ReleaseOnTerminal_drops|apply ReleaseOnResolved_drops].
Qed.
Lemma broadcast_freed g s : keeps (freed w0) (broadcastGameUpdate uc g s).
Proof.
  apply freed_keeps. intros w. destruct (broadcast_quiet uc g s w) as (? & _ & ?).
  by apply freed_locks.
Qed.
Lemma setEvent_freed e : hkeeps (λ _, freed w0) (setEvent e).
Proof. by intros ? ?. Qed.

Hint Resolve JoinGame_freed RevealChoice_freed CompleteGame_freed CancelGame_freed
  completeAndCount_freed countDraw_freed broadcast_freed setEvent_freed : freed.

Ltac walk := repeat first
  [by auto with freed | by apply releases_freed | apply WithTx_freed
  | apply hkeeps_onW; intros ?; cbv beta | keeps_step].

Lemma routeEvent_freed : hkeeps (λ _, freed w0) (routeEvent uc).
Proof.
  unfold routeEvent. apply hkeeps_bind; [apply hkeeps_event|]. intros e. cbv zeta.
  repeat (apply hkeeps_if; [|]); [..|apply hkeeps_ret];
    unfold HandleGameInitialized, HandleGameStarted, HandleGameFinished, HandleGameCancelled,
      HandleDraw, HandleSecretOpened, HandleInsufficientBalance, finishInTx, finishLegacy,
      checkEvent, requireGame, serializeEventData, upsertEvent, upsertEventWithQuerier; walk.
Qed.
End From.

Lemma deliver_freed e w : freed w (deliver e w).
Proof. exact (routeEvent_freed w e w (reflexivity w)). Qed.

Lemma deliver_db e w : db_ok (tables w) → db_ok (tables (deliver e w)).
Proof. apply (routeEvent_keeps uc e w). Qed.

Lemma service_system w w' : rtc service_step w w' → system_op w w'.
Proof.
  induction 1 as [w|w1 w2 w3 [m w _|e w] _ IH]; [reflexivity|..]; (etrans; [|exact IH]).
  - apply run_system.
  - apply deliver_freed.
Qed.

Lemma service_db w w' : rtc service_step w w' → db_ok (tables w) → db_ok (tables w').
Proof.
  induction 1 as [w|w1 w2 w3 [m w Hown|e w] _ IH]; [done|..]; intros Hok; apply IH.
  - destruct (run_op m w Hown) as [k Hop]. by rewrite (op_tables _ _ _ Hop).
  - by apply deliver_db.
Qed.
End Service.

(** ** The locks an event frees *)

Section Releases.
Context `{E : Env} `{!ClockMono E} (uc : PersistenceUC).
Import Persistence.

Definition has_lock (k : LockKind) : bool :=
  match k with
  | JoinLock => has_reserve uc | CancelLock => has_cancelReserve uc
  | RevealLock => has_revealReserve uc | ClaimLock => has_expiredClaim uc
  end.

(** The locks on the event's game that its type makes pointless. *)
Inductive frees : string → LockKind → Prop :=
| frees_join : frees EventGameStarted JoinLock
| frees_cancel t : t ∈ [EventGameStarted; EventGameFinished; EventDraw; EventGameCancelled;
                        EventSecretOpened] → frees t CancelLock
| frees_reveal t : t ∈ [EventGameFinished; EventDraw; EventGameCancelled] → frees t RevealLock
| frees_claim t : t ∈ [EventGameStarted; EventGameFinished; EventDraw; EventSecretOpened] →
                  frees t ClaimLock.

Definition all_free (ks : list LockKind) (g : Z) (w : World) : Prop :=
  ∀ k, k ∈ ks → has_lock k = true → lock_free k g w.

(** After a fresh event was handled without an error. *)
Definition freed_post (ks : list LockKind) (g : Z) (r : result unit) (s : GameEvent.t * World)
    : Prop :=
  r = Ok tt → GameEvent.ID s.1 ≠ 0 → all_free ks g s.2.

Lemma freed_return ks g e w : all_free ks g w → wp (mret (Ok tt)) (freed_post ks g) (e, w).
Proof. intros Hf _ _. exact Hf. Qed.

(** An error, or a duplicate, promises nothing. *)
Lemma freed_try {A} ks g (m : H (result A)) f (k : A → H (result unit)) s :
  (∀ a s', wp (k a) (freed_post ks g) s') → wp (rbind_wrap f m k) (freed_post ks g) s.
Proof.
  intros Hk. apply wp_bind. unfold wp at 1. destruct (m s) as [[a|er] s']; simpl; [auto|done].
Qed.
Lemma freed_do {A} ks g (m : H (result A)) (k : A → H (result unit)) s :
  (∀ a s', wp (k a) (freed_post ks g) s') → wp (rbind m k) (freed_post ks g) s.
Proof.
  intros Hk. apply wp_bind. unfold wp at 1. destruct (m s) as [[a|er] s']; simpl; [auto|done].
Qed.
Lemma freed_fresh ks g k s :
  (∀ s', wp k (freed_post ks g) s') → wp (unlessDuplicate k) (freed_post ks g) s.
Proof.
  intros Hk. apply wp_bind, wp_gets. apply wp_if; [|auto].
  intros Hz. apply wp_ret. intros _ Hne. lia.
Qed.

Lemma all_free_unlocked ks g w w' :
  (ticks w ≤ ticks w')%nat → locks w' = locks w → all_free ks g w → all_free ks g w'.
Proof.
  intros Ht Hl Hf k Hk Hh. specialize (Hf k Hk Hh). unfold lock_free in *. rewrite Hl.
  rewrite view_lookup_None in *. intros Hv. apply Hf. unfold live in *.
  destruct (reservations _ !! g); [|done]. eapply active_at_mono; [|done]. by apply clock_mono.
Qed.

(** One release adds its kind to the free ones. *)
Lemma freed_release k ks ks' g (m : M unit) (K : unit → H (result unit)) e w :
  (has_lock k = true → ∀ w, lock_free k g (m w).2) → (∀ w, drops k w (m w).2) →
  all_free ks g w → (∀ w', all_free (k :: ks) g w' → wp (K tt) (freed_post ks' g) (e, w')) →
  wp (onW unit m ≫= K) (freed_post ks' g) (e, w).
Proof.
  intros Hfree Hdrop Hks HK. apply wp_bind. unfold onW, zoom, wp at 1. simpl.
  specialize (Hdrop w). specialize (λ h, Hfree h w). destruct (m w) as [[] w']. simpl in *.
  apply HK. intros k' [->|Hk']%elem_of_cons Hh; [auto|]. eapply lock_free_drops; eauto.
Qed.

Lemma freed_broadcast ks ks' g g' s (K : unit → H (result unit)) e w :
  all_free ks g w → (∀ w', all_free ks g w' → wp (K tt) (freed_post ks' g) (e, w')) →
  wp (onW unit (broadcastGameUpdate uc g' s) ≫= K) (freed_post ks' g) (e, w).
Proof.
  intros Hks HK. apply wp_bind. unfold onW, zoom, wp at 1. simpl.
  pose proof (broadcast_quiet uc g' s w) as (Ht & _ & Hl).
  destruct (broadcastGameUpdate uc g' s w) as [[] w']. simpl in *.
  apply HK. by eapply all_free_unlocked.
Qed.

Lemma when_drops k b (m : M unit) : (∀ w, drops k w (m w).2) → ∀ w, drops k w (when b m w).2.
Proof. intros Hm w. destruct b; [apply Hm|done]. Qed.

(** The four releases, as [freed_release] takes them. *)
Lemma release_join g : (has_lock JoinLock = true → ∀ w, lock_free JoinLock g
    (when (has_reserve uc) (Reservation.ReleaseOnJoin g) w).2) ∧
  ∀ w, drops JoinLock w (when (has_reserve uc) (Reservation.ReleaseOnJoin g) w).2.
Proof. split; [apply releases_free|apply when_drops, ReleaseOnJoin_drops]. Qed.
Lemma release_cancel g : (has_lock CancelLock = true → ∀ w, lock_free CancelLock g
    (releaseCancelReservationIfUnavailable uc g w).2) ∧
  ∀ w, drops CancelLock w (releaseCancelReservationIfUnavailable uc g w).2.
Proof.
  split; [apply releases_free|apply when_drops]. intros w. apply ReleaseOnUnavailable_drops.
Qed.
Lemma release_reveal g : (has_lock RevealLock = true → ∀ w, lock_free RevealLock g
    (releaseRevealReservationIfAny uc g w).2) ∧
  ∀ w, drops RevealLock w (releaseRevealReservationIfAny uc g w).2.
Proof. split; [apply releases_free|apply when_drops, ReleaseOnTerminal_drops]. Qed.
Lemma release_claim g : (has_lock ClaimLock = true → ∀ w, lock_free ClaimLock g
    (releaseExpiredClaimIfResolved uc g w).2) ∧
  ∀ w, drops ClaimLock w (releaseExpiredClaimIfResolved uc g w).2.
Proof. split; [apply releases_free|apply when_drops, ReleaseOnResolved_drops]. Qed.

Lemma all_free_nil g w : all_free [] g w.
Proof. intros k Hk. by apply not_elem_of_nil in Hk. Qed.

Ltac free_step :=
  first
    [ apply freed_try; intros ? ? | apply freed_do; intros ? ?
    | apply freed_fresh; intros [? ?] | progress cbv zeta
    | eapply freed_broadcast; [eassumption|intros ? ?]
    | apply (freed_broadcast []); [apply all_free_nil|intros ? ?]
    | apply (freed_release JoinLock []);
        [apply release_join..|apply all_free_nil|intros ? ?]
    | eapply freed_release; [apply release_cancel..|eassumption|intros ? ?]
    | apply (freed_release CancelLock []);
        [apply release_cancel..|apply all_free_nil|intros ? ?]
    | eapply freed_release; [apply release_reveal..|eassumption|intros ? ?]
    | eapply freed_release; [apply release_claim..|eassumption|intros ? ?] ].

(** What each handler leaves free. *)
Definition kinds (t : string) : list LockKind :=
  if bool_decide (t = EventGameStarted) then [ClaimLock; CancelLock; JoinLock]
  else if bool_decide (t = EventGameCancelled) then [RevealLock; CancelLock]
  else if bool_decide (t = EventSecretOpened) then [ClaimLock; CancelLock]
  else [ClaimLock; RevealLock; CancelLock].

Lemma frees_kinds t k : frees t k → k ∈ kinds t.
Proof.
  intros [|t' Ht|t' Ht|t' Ht]; [by repeat constructor|..];
    repeat (apply elem_of_cons in Ht as [->|Ht]; [by vm_compute; repeat constructor|]);
    by apply not_elem_of_nil in Ht.
Qed.
(** The common start of a handler: the type matches and the event is read. *)
Lemma freed_handler t ks g (k : GameEvent.t → H (result unit)) e w :
  (∀ e', e' = e → ∀ w', wp (k e') (freed_post ks g) (e, w')) →
  wp (_ <-? checkEvent t ;; e ← event; k e) (freed_post ks g) (e, w).
Proof.
  intros Hk. apply wp_rbind, wp_checkEvent; [done|intros _]. apply wp_bind, wp_gets.
  by apply Hk.
Qed.

Ltac frees_handler :=
  apply freed_handler; intros ? -> ?; repeat free_step; apply freed_return;
  intros k Hk; match goal with H : all_free ?ks _ _ |- _ => apply H end; exact Hk.

Lemma wp_routeEvent_frees e w :
  EventGameInitialized ≠ GameEvent.EventType e →
  EventInsufficientBalance ≠ GameEvent.EventType e →
  wp (routeEvent uc) (freed_post (kinds (GameEvent.EventType e)) (GameEvent.GameID e)) (e, w).
Proof.
  intros Hinit Hbal. unfold routeEvent. apply wp_bind, wp_gets. cbv zeta. simpl fst.
  repeat (apply wp_if; [intros Ht%bool_decide_eq_true; try congruence; rewrite Ht|intros _]);
    [..|done].
  - unfold HandleGameStarted. frees_handler.
  - unfold HandleGameFinished. frees_handler.
  - unfold HandleGameCancelled. frees_handler.
  - unfold HandleDraw. frees_handler.
  - unfold HandleSecretOpened. frees_handler.
Qed.
End Releases.

(** ** Properties *)

Section Properties.
Context `{E : Env} `{!ClockMono E} (uc : PersistenceUC).
Import Persistence.

(** Routing an event of a known type is running its handler. *)
Lemma route t m :
  (t, m) ∈ [(EventGameInitialized, HandleGameInitialized uc); (EventGameStarted, HandleGameStarted uc);
            (EventGameFinished, HandleGameFinished uc); (EventGameCancelled, HandleGameCancelled uc);
            (EventDraw, HandleDraw uc); (EventSecretOpened, HandleSecretOpened uc);
            (EventInsufficientBalance, HandleInsufficientBalance)] →
  ∀ e w, GameEvent.EventType e = t → routeEvent uc (e, w) = m (e, w).
Proof.
  intros Hin e w Ht. unfold routeEvent, mbind, H_bind, ST_bind, event, gets.
  cbv beta iota zeta. cbn [fst]. rewrite Ht.
  repeat (apply elem_of_cons in Hin as [[= -> ->]|Hin]; [reflexivity|]).
  by apply not_elem_of_nil in Hin.
Qed.

(** C3: no interleaving of lock actions and event deliveries, under any database
    faults, breaks the constraints of the tables (keys, statuses ever written, foreign
    keys) or the invariants of the four lock tables, and the active locks stay
    reachable in the abstract lock table. *)
Theorem service_invariant `{!RangePerm E} w w' :
  fresh w → db_ok (tables w) → rtc (service_step uc) w w' →
  db_ok (tables w') ∧
  ∀ k, LockOk (locks w' k) ∧
       steps (maxPerWallet (locks w k)) ∅ (view (time w') (locks w' k)).
Proof.
  intros Hf Hdb Hr. split; [by eapply service_db|]. intros k.
  pose proof (fresh_ok w k Hf) as Hok. apply service_system in Hr.
  split; [by apply (sys_ok _ _ Hr)|]. rewrite <-(fresh_view (time w) w k Hf).
  by apply (sys_steps _ _ Hr).
Qed.

(** No handler ever writes status ENDED, the only one [Claim] accepts: whatever
    happened to the service, an expired-follow-up claim is refused. *)
Theorem claim_never `{!RangePerm E} w w' g a :
  db_ok (tables w) → rtc (service_step uc) w w' →
  is_ok (ExpiredClaim.Claim g a w').1 = false.
Proof.
  intros Hdb Hr. pose proof (service_db _ _ _ Hr Hdb) as Hok.
  pose proof (wp_Claim g a w') as [_ Hc].
  destruct (ExpiredClaim.Claim g a w').1 as [r|er]; [|done]. exfalso.
  destruct Hc as [(game & Hg & Hst & _) _]. pose proof (game_status _ _ _ (db_game _ Hok _ _ Hg)) as Hs.
  rewrite Hst in Hs. by destruct Hs as [|[|]].
Qed.

(** C19: an event whose row is in the table changes nothing when it is delivered again,
    whatever its type: no game, no event, no lock and no counter, no broadcast; at most
    an initialization adds the row of a user it names. *)
Theorem duplicate_event_ignored e w :
  db_ok (tables w) → GameEvent.ID e = 0 →
  is_Some (game_events (tables w) !! Postgres.event_key e) →
  (∀ g, extractInt64 (GameEvent.EventData e) "game_id" = Ok g → g = GameEvent.GameID e) →
  untouched w (deliver uc e w) ∧ GameEvent.ID (routeEvent uc (e, w)).2.1 = 0.
Proof.
  intros Hdb Hid [row Hrow] Hdata.
  destruct (routeEvent_dup uc w (GameEvent.EventData e) e w) as [Hz _ _ _ Hw]; [|done].
  assert (is_Some (games (tables w) !! GameEvent.GameID e)) as Hg.
  { destruct (db_event _ Hdb _ _ Hrow) as [[= <- _ _] Hs]. exact Hs. }
  split; [done..|by intros g ->%Hdata|]. by constructor.
Qed.

Context `{!DriverErrors E}.

(** C7: with a transaction manager, a finished game is settled all at once or not at
    all, whatever statement fails: the event recorded, the game paid, the winner, the
    loser and the referrer credited once; and it is settled when a fresh event is
    reported handled. *)
Theorem finished_atomic e w :
  GameEvent.EventType e = EventGameFinished → GameEvent.ID e = 0 → has_txManager uc = true →
  wp (routeEvent uc)
     (finish_post (tables w) (λ t, ∃ game winner,
        games (tables w) !! GameEvent.GameID e = Some game ∧
        extractString (GameEvent.EventData e) "winner" = Ok winner ∧
        finished uc game winner (payoutOf (GameEvent.EventData e)) e (tables w) t)) (e, w).
Proof.
  intros Ht Hid Htx. unfold wp. rewrite (route EventGameFinished (HandleGameFinished uc));
    [|do 2 constructor; constructor|done].
  apply wp_HandleGameFinished; eauto 10.
Qed.

(** The change an event makes to the row of its game. *)
Inductive transition (e : GameEvent.t) : (Game.t → Game.t) → Prop :=
| transition_started p2 :
    GameEvent.EventType e = EventGameStarted →
    extractString (GameEvent.EventData e) "player_two" = Ok p2 → transition e (joined p2 e)
| transition_cancelled :
    GameEvent.EventType e = EventGameCancelled → transition e (cancelled e)
| transition_draw :
    GameEvent.EventType e = EventDraw → transition e (paid EmptyString 0 e)
| transition_revealed p side :
    GameEvent.EventType e = EventSecretOpened →
    extractString (GameEvent.EventData e) "player" = Ok p →
    extractInt64 (GameEvent.EventData e) "coin_side" = Ok side →
    transition e (revealed p side e).

(** C26: when a fresh join, cancellation, draw or reveal is reported handled, exactly the
    row of its game and the new row of the event have changed in the game and event
    tables, the former as its type says (less the trailing spaces that exceed the length
    of a column). *)
Theorem event_applied e f w :
  transition e f → GameEvent.ID e = 0 →
  wp (routeEvent uc) (when_fresh (applied f e (tables w))) (e, w).
Proof.
  intros Htr Hid. unfold wp.
  destruct Htr as [p2 Ht Hp|Ht|Ht|p side Ht Hp Hs];
    [rewrite (route EventGameStarted (HandleGameStarted uc))
    |rewrite (route EventGameCancelled (HandleGameCancelled uc))
    |rewrite (route EventDraw (HandleDraw uc))
    |rewrite (route EventSecretOpened (HandleSecretOpened uc))];
    try done; try (repeat (first [by constructor|apply list_elem_of_further])).
  - by apply wp_HandleGameStarted.
  - by apply wp_HandleGameCancelled.
  - by apply wp_HandleDraw.
  - by apply wp_HandleSecretOpened.
Qed.

(** C34: when a fresh event is reported handled, the locks its type makes pointless are
    free on its game, if the use cases of these locks are set: join, cancel and claim locks
    after a join; cancel, reveal and claim locks after a result or a draw; cancel and
    reveal locks after a cancellation; cancel and claim locks after a reveal.  Nothing is
    said of the other event types (initialization and insufficient balance). *)
Theorem event_frees_locks e k w :
  frees (GameEvent.EventType e) k → has_lock uc k = true →
  wp (routeEvent uc) (λ r s, r = Ok tt → GameEvent.ID s.1 ≠ 0 →
                             lock_free k (GameEvent.GameID e) s.2) (e, w).
Proof.
  intros Hk Hh. eapply wp_mono; [apply wp_routeEvent_frees|].
  - intros Ht. rewrite <-Ht in Hk. by apply frees_kinds in Hk as Hq; inversion Hk; set_solver.
  - intros Ht. rewrite <-Ht in Hk. by apply frees_kinds in Hk as Hq; inversion Hk; set_solver.
  - intros r s Hs Hr Hne. by apply Hs; [..|apply frees_kinds|].
Qed.
End Properties.

(** ** Without faults *)

Section Progress.
Context `{E : Env} `{!ClockMono E} (uc : PersistenceUC).
Import Persistence.

Hypothesis no_faults : ∀ n, dbfault n = FaultNone.

(** The payload is there already, or the data of the event can be serialized. *)
Definition serializable (e : GameEvent.t) : Prop :=
  GameEvent.Payload e ≠ EmptyString ∨
  ∀ d, GameEvent.EventData e = Some d → is_Some (json_Marshal d).

(** What the constraints of the table ask of an event. *)
Record storable (e : GameEvent.t) : Prop := {
  storable_valid : GameEvent.Validate e = Ok tt;
  storable_hash : fits 66 (GameEvent.TransactionHash e) = true;
  storable_data : serializable e }.

Lemma wp_statement_run {A} (f : Z → Z → Tables → result (A * Tables)) Q w :
  match f (Z.of_nat (S (stmts w))) (dbclock (stmts w)) (tables w) with
  | Ok (a, t) => Q (Ok a) (set_tables t (set_stmts (S (stmts w)) w))
  | Err e => Q (Err e) (set_stmts (S (stmts w)) w)
  end → wp (statement f) Q w.
Proof. unfold wp, statement. rewrite no_faults. by destruct (f _ _ _) as [[]|]. Qed.

(** A fresh event was handled. *)
Definition handled (r : result unit) (s : GameEvent.t * World) : Prop :=
  r = Ok tt ∧ GameEvent.ID s.1 ≠ 0.

Lemma handled_tail {A} (m : M A) (k : A → H (result unit)) e :
  (∀ a w, wp (k a) handled (e, w)) → ∀ w, wp (onW A m ≫= k) handled (e, w).
Proof. intros Hk w. apply wp_bind, wp_onW. unfold wp at 1. destruct (m w). apply Hk. Qed.

Lemma updateGame_run g f x row w (Q : result unit → World → Prop) :
  games (tables w) !! g = Some x → Postgres.games_admit (f x) = Ok row →
  Postgres.games_fk (users (tables w)) row = true →
  (∀ w', users (tables w') = users (tables w) → games (tables w') !! g = Some row →
         Q (Ok tt) w') →
  wp (Postgres.updateGame g f) Q w.
Proof.
  intros Hg Ha Hf HQ. apply wp_statement_run. rewrite Hg, Ha, Hf. simpl.
  apply HQ; [done|]. simpl. by rewrite lookup_insert_eq.
Qed.

(** The foreign keys hold of a row that names the players of a stored one. *)
Lemma games_fk_row us x y :
  Postgres.games_row x = x → Postgres.games_fk us x = true →
  Game.PlayerOneAddress y = Game.PlayerOneAddress x →
  Game.PlayerTwoAddress y = Game.PlayerTwoAddress x →
  Postgres.games_fk us (Postgres.games_row y) = true.
Proof.
  intros Hx Hf H1 H2. rewrite <-Hx in Hf. unfold Postgres.games_fk in *. simpl in *.
  by rewrite H1, H2.
Qed.

Lemma games_fk_joined us x p2 y :
  Postgres.games_row x = x → Game.PlayerOneAddress y = Game.PlayerOneAddress x →
  Game.PlayerTwoAddress y = Some p2 → Postgres.games_fk us x = true →
  is_Some (us !! cut 66 p2) → Postgres.games_fk us (Postgres.games_row y) = true.
Proof.
  intros Hx H1 H2 Hf Hp. rewrite <-Hx in Hf. unfold Postgres.games_fk in *. simpl in *.
  rewrite H1, H2. apply andb_true_iff in Hf as [-> _]. simpl. by apply bool_decide_eq_true.
Qed.

Lemma fits_player_two x p :
  Postgres.games_fit x = true → Game.PlayerTwoAddress x = Some p → fits 66 p = true.
Proof.
  unfold Postgres.games_fit. intros Hfit Hp. rewrite Hp in Hfit.
  repeat apply andb_true_iff in Hfit as [Hfit ?]. done.
Qed.

Lemma GetByID_success g x w (Q : result Game.t → World → Prop) :
  games (tables w) !! g = Some x → (∀ w', later w w' → Q (Ok x) w') →
  wp (Postgres.GetByID g) Q w.
Proof.
  intros Hg HQ. apply wp_rbind_wrap, wp_statement_run. rewrite Hg. apply wp_ret, HQ. done.
Qed.

(** The first half of a handler succeeds on a fresh event of a known game. *)
Lemma handled_recorded x (k : H (result unit)) e w :
  storable e → GameEvent.ID e = 0 →
  games (tables w) !! GameEvent.GameID e = Some x →
  game_events (tables w) !! Postgres.event_key e = None →
  (∀ e1 w1, GameEvent.ID e1 ≠ 0 → games (tables w1) = games (tables w) →
     users (tables w1) = users (tables w) → wp k handled (e1, w1)) →
  wp (_ <-? requireGame (GameEvent.GameID e) ;; _ <-? serializeEventData ;;
      _ <-? upsertEvent ;; unlessDuplicate k) handled (e, w).
Proof.
  intros [Hv Hfit Hser] Hid Hg He Hk. apply wp_rbind, wp_rbind_wrap, wp_onW.
  apply (GetByID_success _ x); [done|]. intros w1 H1. apply wp_ret.
  assert (∀ p, wp (_ <-? upsertEvent ;; unlessDuplicate k) handled
    (GameEvent.set_Payload p e, w1)) as Hup.
  { intros p. apply wp_rbind, wp_bind, wp_gets, wp_rbind_wrap, wp_onW. cbn [fst].
    apply wp_rbind_wrap, wp_ret. change (GameEvent.Validate (GameEvent.set_Payload p e))
      with (GameEvent.Validate e). rewrite Hv. apply wp_bind, wp_statement_run.
    rewrite (later_tables _ _ H1).
    change (GameEvent.TransactionHash (GameEvent.set_Payload p e))
      with (GameEvent.TransactionHash e). rewrite Hfit. cbn [negb].
    change (Postgres.event_key (GameEvent.set_Payload p e)) with (Postgres.event_key e).
    rewrite He. change (GameEvent.GameID (GameEvent.set_Payload p e)) with (GameEvent.GameID e).
    rewrite bool_decide_eq_true_2 by (rewrite Hg; eauto).
    apply wp_ret, wp_bind, wp_modify, wp_ret, wp_bind, wp_gets. cbn [fst].
    apply wp_if; [simpl; lia|]. intros Hz. apply Hk; simpl; [lia|done|done]. }
  apply wp_rbind. unfold serializeEventData. apply wp_bind, wp_gets. cbn [fst].
  assert (e = GameEvent.set_Payload (GameEvent.Payload e) e) as Hsame by (by destruct e).
  apply wp_if; [intros _; apply wp_ret; rewrite Hsame; apply Hup|intros Hp].
  destruct (GameEvent.EventData e) as [d|] eqn:Hd; [|apply wp_ret; rewrite Hsame; apply Hup].
  destruct Hser as [Hser|Hser]; [by apply negb_false_iff, bool_decide_eq_true in Hp|].
  destruct (Hser d Hd) as [p ->]. apply wp_bind, wp_modify, wp_ret. apply Hup.
Qed.

Ltac handled_end :=
  repeat (apply handled_tail; intros ? ?); apply wp_ret; split; [done|cbn [fst]; assumption].

Lemma handled_checked t (k : GameEvent.t → H (result unit)) e w :
  GameEvent.EventType e = t → GameEvent.Validate e = Ok tt →
  wp (k e) handled (e, w) →
  wp (_ <-? checkEvent t ;; e ← event; k e) handled (e, w).
Proof.
  intros Ht Hv Hk. apply wp_rbind, wp_bind, wp_gets, wp_rbind_wrap, wp_ret. cbn [fst].
  rewrite Hv, bool_decide_eq_true_2 by done. apply wp_ret, wp_bind, wp_gets. exact Hk.
Qed.

Lemma cancelled_handled e w x row :
  GameEvent.EventType e = EventGameCancelled → storable e →
  GameEvent.ID e = 0 → games (tables w) !! GameEvent.GameID e = Some x →
  game_events (tables w) !! Postgres.event_key e = None →
  Postgres.games_admit (cancelled e x) = Ok row → Postgres.games_row x = x →
  Postgres.games_fk (users (tables w)) x = true →
  wp (HandleGameCancelled uc) handled (e, w).
Proof.
  intros Ht Hv Hid Hg He Ha Hrow Hf. apply handled_checked; [done|apply Hv|]. cbv zeta.
  apply (handled_recorded x); [done..|]. intros e1 w1 Hne Hgs Hus.
  apply wp_rbind_wrap, wp_onW, wp_rbind_wrap.
  eapply (updateGame_run _ _ x); [by rewrite Hgs|exact Ha| |].
  { apply Postgres.games_admit_ok in Ha as (_ & _ & ->). rewrite Hus. by eapply games_fk_row. }
  intros w2 _ _. apply wp_ret. handled_end.
Qed.

Lemma EnsureUser_run a w (Q : result unit → World → Prop) :
  fits 66 a = true →
  (∀ w', games (tables w') = games (tables w) → is_Some (users (tables w') !! cut 66 a) →
     (∀ b, is_Some (users (tables w) !! b) → is_Some (users (tables w') !! b)) →
     Q (Ok tt) w') →
  wp (Postgres.EnsureUserByWallet a) Q w.
Proof.
  intros Hfit HQ. apply wp_rbind_wrap, wp_statement_run. cbv zeta. rewrite Hfit. cbn [negb].
  destruct (users (tables w) !! cut 66 a) as [u|] eqn:Hu; apply wp_ret, HQ; simpl; eauto.
  - rewrite lookup_insert_is_Some. by left.
  - intros b Hb. rewrite lookup_insert_is_Some. destruct (decide (cut 66 a = b)); auto.
Qed.

Lemma started_handled e w x row p2 :
  GameEvent.EventType e = EventGameStarted → storable e →
  GameEvent.ID e = 0 → extractString (GameEvent.EventData e) "player_two" = Ok p2 →
  games (tables w) !! GameEvent.GameID e = Some x →
  game_events (tables w) !! Postgres.event_key e = None →
  Postgres.games_admit (joined p2 e x) = Ok row → Postgres.games_row x = x →
  Postgres.games_fk (users (tables w)) x = true →
  wp (HandleGameStarted uc) handled (e, w).
Proof.
  intros Ht Hv Hid Hp Hg He Ha Hrow Hf. apply handled_checked; [done|apply Hv|]. cbv zeta.
  apply wp_rbind_wrap, wp_ret. rewrite Hp.
  apply (handled_recorded x); [done..|]. intros e1 w1 Hne Hgs Hus.
  pose proof (Postgres.games_admit_ok _ _ Ha) as (Hfit & _ & ->).
  apply wp_rbind_wrap, wp_onW, EnsureUser_run.
  { exact (fits_player_two (joined p2 e x) p2 Hfit eq_refl). }
  intros w2 Hg2 Hp2 Hmono.
  apply wp_rbind_wrap, wp_onW, wp_rbind_wrap.
  eapply (updateGame_run _ _ x); [by rewrite Hg2, Hgs|exact Ha| |].
  - apply (games_fk_joined _ x p2); [done..| |done]. apply games_fk_mono with (users (tables w)); [|done].
    intros a Ha'. apply Hmono. by rewrite Hus.
  - intros w3 _ _. apply wp_ret. handled_end.
Qed.

Lemma revealed_handled e w x row p side :
  GameEvent.EventType e = EventSecretOpened → storable e →
  GameEvent.ID e = 0 → extractString (GameEvent.EventData e) "player" = Ok p →
  extractInt64 (GameEvent.EventData e) "coin_side" = Ok side →
  games (tables w) !! GameEvent.GameID e = Some x →
  game_events (tables w) !! Postgres.event_key e = None →
  (Game.PlayerOneAddress x = p ∨ Game.PlayerTwoAddress x = Some p) →
  Postgres.games_admit (revealed p side e x) = Ok row → Postgres.games_row x = x →
  Postgres.games_fk (users (tables w)) x = true →
  wp (HandleSecretOpened uc) handled (e, w).
Proof.
  intros Ht Hv Hid Hp Hs Hg He Hpl Ha Hrow Hf. apply handled_checked; [done|apply Hv|]. cbv zeta.
  apply (handled_recorded x); [done..|]. intros e1 w1 Hne Hgs Hus.
  apply wp_rbind_wrap, wp_ret. rewrite Hp. apply wp_rbind_wrap, wp_ret. rewrite Hs.
  apply wp_rbind_wrap, wp_onW, wp_rbind_wrap. apply (GetByID_success _ x); [by rewrite Hgs|].
  intros w2 H2. cbv zeta. unfold revealed in Ha.
  assert (games (tables w2) !! GameEvent.GameID e = Some x) as Hg2
    by (by rewrite (later_tables _ _ H2), Hgs).
  assert (Postgres.games_fk (users (tables w2)) x = true) as Hf2
    by (by rewrite (later_tables _ _ H2), Hus).
  pose proof (Postgres.games_admit_ok _ _ Ha) as (_ & _ & Hr).
  assert (Postgres.games_fk (users (tables w2)) row = true) as Hf3
    by (rewrite Hr; eapply games_fk_row; [exact Hrow|exact Hf2|by case_bool_decide..]).
  case_bool_decide as H1; [|rewrite bool_decide_eq_true_2 by naive_solver];
    apply wp_rbind_wrap; (eapply (updateGame_run _ _ x); [exact Hg2|exact Ha|exact Hf3|]);
    intros w3 _ _; apply wp_ret; handled_end.
Qed.

(** The user, if there is one, can still play a game or two without a counter leaving its
    column's range. *)
Definition countable (us : gmap string UserRow.t) (a : string) : Prop :=
  ∀ u now, us !! a = Some u → Postgres.counters_ok (Postgres.bump 2 0 0 0 0 now u) = true.

Lemma increment_run a w us (Q : result unit → World → Prop) n :
  (0 ≤ n ≤ 1) → countable us a →
  (∀ b u, users (tables w) !! b = Some u → ∃ u', us !! b = Some u' ∧
     UserRow.TotalGamesPlayed u ≤ UserRow.TotalGamesPlayed u' + n ∧
     UserRow.TotalWins u = UserRow.TotalWins u' ∧ UserRow.TotalLosses u = UserRow.TotalLosses u' ∧
     UserRow.TotalReferrals u = UserRow.TotalReferrals u' ∧
     UserRow.TotalReferralEarnings u = UserRow.TotalReferralEarnings u') →
  (∀ w', games (tables w') = games (tables w) →
     (∀ b u, users (tables w') !! b = Some u → ∃ u', us !! b = Some u' ∧
       UserRow.TotalGamesPlayed u ≤ UserRow.TotalGamesPlayed u' + (n + 1) ∧
       UserRow.TotalWins u = UserRow.TotalWins u' ∧ UserRow.TotalLosses u = UserRow.TotalLosses u' ∧
       UserRow.TotalReferrals u = UserRow.TotalReferrals u' ∧
       UserRow.TotalReferralEarnings u = UserRow.TotalReferralEarnings u') → Q (Ok tt) w') →
  wp (Postgres.IncrementGamesPlayed a) Q w.
Proof.
  intros Hn Hc Hus HQ. apply wp_rbind_wrap, wp_statement_run.
  destruct (users (tables w) !! a) as [u|] eqn:Hu.
  2: { apply wp_ret, HQ; [done|]. simpl. intros b u Hb.
       destruct (Hus b u Hb) as (u' & ? & ? & ?). exists u'. split; [done|]. split; [lia|done]. }
  destruct (Hus a u Hu) as (u' & Hu' & Hle & Hw & Hl & Hr & Hre).
  specialize (Hc u' (dbclock (stmts w)) Hu'). cbv zeta.
  assert (Postgres.counters_ok (Postgres.bump 1 0 0 0 0 (dbclock (stmts w)) u) = true) as ->.
  { unfold Postgres.counters_ok in *. cbn in *. rewrite Hw, Hl, Hr, Hre.
    apply andb_true_iff in Hc as [[[[H1 H2]%andb_true_iff H3]%andb_true_iff H4]%andb_true_iff H5].
    rewrite H2, H3, H4, H5, !andb_true_r. lia. }
  apply wp_ret, HQ; [done|]. simpl. intros b v [[<- <-]|[Hne Hb]]%lookup_insert_Some.
  - exists u'. split; [done|]. simpl. rewrite Hw, Hl, Hr, Hre. split_and!; lia.
  - destruct (Hus b v Hb) as (v' & ? & ? & ?). exists v'. split; [done|]. split; [lia|done].
Qed.

Definition plays_row (a : string) (x : Game.t) : Prop :=
  Game.PlayerOneAddress x = a ∨ Game.PlayerTwoAddress x = Some a.

Lemma draw_handled e w x row :
  GameEvent.EventType e = EventDraw → storable e →
  GameEvent.ID e = 0 → games (tables w) !! GameEvent.GameID e = Some x →
  game_events (tables w) !! Postgres.event_key e = None →
  Postgres.games_admit (paid EmptyString 0 e x) = Ok row → Postgres.games_row x = x →
  Postgres.games_fk (users (tables w)) x = true →
  (∀ a, plays_row a row → countable (users (tables w)) a) →
  wp (HandleDraw uc) handled (e, w).
Proof.
  intros Ht Hv Hid Hg He Ha Hrow Hf Hcount. apply handled_checked; [done|apply Hv|]. cbv zeta.
  apply (handled_recorded x); [done..|]. intros e1 w1 Hne Hgs Hus.
  apply wp_rbind_wrap, wp_onW, wp_rbind_wrap.
  eapply (updateGame_run _ _ x); [by rewrite Hgs|exact Ha| |].
  { apply Postgres.games_admit_ok in Ha as (_ & _ & ->). rewrite Hus. by eapply games_fk_row. }
  intros w2 Hu2 Hg2. apply wp_ret. rewrite Hus in Hu2.
  assert (wp (countDraw uc (GameEvent.GameID e)) (λ r _, r = Ok tt) w2) as Hcd.
  { unfold countDraw. apply wp_if; [done|intros _].
    apply wp_rbind_wrap. eapply GetByID_success; [exact Hg2|]. intros w3 H3.
    apply wp_rbind_wrap. apply (increment_run _ _ (users (tables w)) _ 0); [lia|apply Hcount; by left| |].
    { rewrite (later_tables _ _ H3), Hu2. intros b u ->. exists u. split_and!; [done|lia|done..]. }
    intros w4 Hg4 Hus4. destruct (Game.PlayerTwoAddress _) as [p2|] eqn:Hp2; [|done].
    apply wp_rbind_wrap.
    apply (increment_run _ _ (users (tables w)) _ 1); [lia|apply Hcount; by right|done..]. }
  apply wp_rbind, wp_onW. eapply wp_mono; [exact Hcd|]. intros r w3 ->. handled_end.
Qed.

(** The event is new and the database accepts its row and the one that [f] makes of the
    game: the lengths, the CHECKs, the keys, the ranges of the counters. *)
Record acceptable (e : GameEvent.t) (f : Game.t → Game.t) (t : Tables) : Prop := {
  accept_event : storable e;
  accept_new : game_events t !! Postgres.event_key e = None;
  accept_game : ∃ x row,
    games t !! GameEvent.GameID e = Some x ∧ Postgres.games_admit (f x) = Ok row ∧
    (∀ p, GameEvent.EventType e = EventSecretOpened →
       extractString (GameEvent.EventData e) "player" = Ok p → plays_row p x) ∧
    (GameEvent.EventType e = EventDraw → ∀ a, plays_row a row → countable (users t) a) }.

(** C33: without database faults, over tables that satisfy their constraints, a join,
    cancellation, draw or reveal that is new and whose data can be serialized is reported
    handled, for a stored game, when the rows it makes satisfy the lengths, CHECKs and
    keys of the tables, a reveal is by a player of the game, and the counters of the
    players of a draw stay in the range of their columns. *)
Theorem event_handled e f w :
  db_ok (tables w) → GameEvent.ID e = 0 → transition e f → acceptable e f (tables w) →
  wp (routeEvent uc) handled (e, w).
Proof.
  intros Hdb Hid Htr [Hv He (x & row & Hg & Ha & Hpl & Hcount)].
  pose proof (db_game _ Hdb _ _ Hg) as [_ Hrow _ _ Hf]. unfold wp.
  destruct Htr as [p2 Ht Hp|Ht|Ht|p side Ht Hp Hs];
    [rewrite (route uc EventGameStarted (HandleGameStarted uc))
    |rewrite (route uc EventGameCancelled (HandleGameCancelled uc))
    |rewrite (route uc EventDraw (HandleDraw uc))
    |rewrite (route uc EventSecretOpened (HandleSecretOpened uc))];
    try done; try (repeat (first [by constructor|apply list_elem_of_further])).
  - by apply (started_handled _ _ x row p2).
  - by apply (cancelled_handled _ _ x row).
  - by apply (draw_handled _ _ x row); auto.
  - apply (revealed_handled _ _ x row p side); try done. by apply Hpl.
Qed.
End Progress.

(** ** Concrete runs *)

Module DeliveryRun.
Import Run Persistence.

Definition alice : string := "EQalice_alice_alice_alice_alice_alice_alice_alic".
Definition bob : string := "EQbob_bob_bob_bob_bob_bob_bob_bob_bob_bob_bob_bo".

Definition uc : PersistenceUC :=
  SetExpiredClaimUseCase (SetRevealReservationUseCase (SetCancelReservationUseCase
    (SetReservationUseCase (SetBroadcastUseCase (SetTxManager
      (NewGamePersistenceUseCase true)))))).

Definition event_of (t hash : string) (data : list (string * dyn)) : GameEvent.t :=
  GameEvent.mk 0 7 t hash 0 1000 EmptyString (Some (list_to_map data)) 0.

Definition initialized : GameEvent.t := event_of EventGameInitialized "tx1"
  [("game_id", VInt64 7); ("player_one", VString alice); ("bet_amount", VString "1000");
   ("referrer_fee_numerator", VUint32 500)].
Definition started : GameEvent.t := event_of EventGameStarted "tx2"
  [("game_id", VInt64 7); ("player_two", VString bob)].
Definition opened : GameEvent.t := event_of EventSecretOpened "tx3"
  [("game_id", VInt64 7); ("player", VString bob); ("coin_side", VUint8 2)].
Definition won : GameEvent.t := event_of EventGameFinished "tx4"
  [("game_id", VInt64 7); ("winner", VString bob); ("total_gainings", VString "1900")].

(** An empty database, then the events one after the other. *)
Definition w0 : World := Run.world (mkTables ∅ ∅ ∅ ∅ None) 3 1000.
Definition play (E : Env) (es : list GameEvent.t) (w : World) : World :=
  foldl (λ w e, deliver (E := E) uc e w) w es.

Definition game_status (w : World) : option Z := Game.Status <$> games (tables w) !! 7.
Definition record_of (a : string) (w : World) : option gain :=
  stats <$> users (tables w) !! a.

Lemma w0_reached : fresh w0.
Proof. intros k. split; [done|]. split; [done|]. by constructor. Qed.

Lemma play_db clk faults es :
  ClockMono (Run.env clk faults) → db_ok (tables (play (Run.env clk faults) es w0)).
Proof.
  intros Hc. enough (∀ w, db_ok (tables w) → db_ok (tables (play (Run.env clk faults) es w)))
    as H by apply H, db_ok_empty.
  induction es as [|e es IH]; intros w Hw; [done|]. by apply IH, deliver_db.
Qed.

#[local] Existing Instance Run.ticking.

(** A join lock on the waiting game, then bob joins. *)
Definition w1 : World := (run (JoinReserve 7 bob) (play Run.ticking [initialized] w0)).2.

Lemma w1_reach : rtc (service_step uc) w0 w1.
Proof.
  eapply rtc_l; [apply (service_event _ initialized)|].
  eapply rtc_l; [|constructor]. apply (service_act _ (JoinReserve 7 bob)). done.
Qed.

Lemma w1_db : db_ok (tables w1).
Proof. exact (service_db uc w0 w1 w1_reach db_ok_empty). Qed.

Lemma service_invariant_witness :
  game_status w1 = Some GameStatusWaitingForOpponent ∧
  db_ok (tables w1) ∧
  ∀ k, LockOk (locks w1 k) ∧
       steps (maxPerWallet (locks w0 k)) ∅ (view (time w1) (locks w1 k)).
Proof.
  split; [vm_compute; reflexivity|].
  exact (service_invariant uc w0 w1 w0_reached db_ok_empty w1_reach).
Defined.

Lemma claim_never_witness : is_ok (ExpiredClaim.Claim 7 bob w1).1 = false.
Proof. exact (claim_never uc w0 w1 7 bob db_ok_empty w1_reach). Defined.

Lemma duplicate_event_ignored_witness :
  (routeEvent uc (started, deliver uc started w1)).1 = Ok tt ∧
  untouched (deliver uc started w1) (deliver uc started (deliver uc started w1)).
Proof.
  split; [vm_compute; reflexivity|].
  refine (proj1 (duplicate_event_ignored uc started (deliver uc started w1) _ _ _ _)).
  - apply deliver_db, w1_db.
  - reflexivity.
  - vm_compute. eauto.
  - intros g Hg. vm_compute in Hg. injection Hg as <-. reflexivity.
Defined.

Lemma finished_atomic_witness :
  let w2 := deliver uc started w1 in
  (routeEvent uc (won, w2)).1 = Ok tt ∧
  record_of bob (deliver uc won w2) = Some (mkGain 1 1 0 0 0) ∧
  record_of alice (deliver uc won w2) = Some (mkGain 1 0 1 0 0) ∧
  ∃ game winner,
    finished uc game winner 1900 won (tables w2) (tables (deliver uc won w2)).
Proof.
  cbv zeta. split; [vm_compute; reflexivity|]. split; [vm_compute; reflexivity|].
  split; [vm_compute; reflexivity|].
  destruct (finished_atomic uc won (deliver uc started w1) eq_refl eq_refl eq_refl) as [_ Hf].
  destruct Hf as (game & winner & _ & _ & Hf); [vm_compute; reflexivity|vm_compute; lia|].
  exists game, winner. exact Hf.
Defined.

Lemma event_applied_witness :
  (routeEvent uc (started, w1)).1 = Ok tt ∧
  applied (joined bob started) started (tables w1) (tables (deliver uc started w1)).
Proof.
  split; [vm_compute; reflexivity|].
  refine (event_applied uc started (joined bob started) w1 _ eq_refl _ _).
  - by constructor.
  - vm_compute. reflexivity.
  - vm_compute. lia.
Defined.

Lemma event_handled_witness : handled (routeEvent uc (started, w1)).1 (routeEvent uc (started, w1)).2.
Proof.
  refine (event_handled uc _ started (joined bob started) w1 w1_db eq_refl _ _).
  - reflexivity.
  - by constructor.
  - split; [split; [reflexivity|reflexivity|right; by eexists]|vm_compute; reflexivity|].
    eexists _, _. split; [vm_compute; reflexivity|]. split; [vm_compute; reflexivity|].
    split; [intros p Ht; discriminate Ht|intros Ht; discriminate Ht].
Defined.

Lemma event_frees_locks_witness :
  is_Some (view (time w1) (locks w1 JoinLock) !! 7) ∧
  lock_free JoinLock 7 (deliver uc started w1).
Proof.
  split; [vm_compute; eauto|].
  refine (event_frees_locks uc started JoinLock w1 _ eq_refl _ _).
  - constructor.
  - vm_compute. reflexivity.
  - vm_compute. lia.
Defined.

(** The statement after the insertion of the join event is lost. *)
Definition lossy : Env :=
  Run.env Z.of_nat (λ n, if (n =? 6)%nat then FaultLost else FaultNone).
Definition lost1 : World := play lossy [initialized] w0.
Definition lost2 : World := play lossy [initialized; started] w0.
Definition lost3 : World := play lossy [initialized; started; started] w0.

(** A join whose event is recorded but whose update fails is never applied: the
    redelivered event is taken for a duplicate and reported handled, and the game keeps
    waiting for an opponent. *)
Theorem started_lost :
  is_ok (routeEvent (E := lossy) uc (started, lost1)).1 = false ∧
  (routeEvent (E := lossy) uc (started, lost2)).1 = Ok tt ∧
  game_status lost3 = Some GameStatusWaitingForOpponent ∧
  (Game.PlayerTwoAddress <$> games (tables lost3) !! 7) = Some None.
Proof. split_and!; vm_compute; reflexivity. Qed.

Definition late : World := play Run.ticking [initialized; won; started] w0.

(** The updates do not look at the status they overwrite: a join event delivered
    after the result takes a paid game back to waiting for bids. *)
Theorem status_lowered :
  game_status (play Run.ticking [initialized; won] w0) = Some GameStatusPaid ∧
  game_status late = Some GameStatusWaitingForOpenBids.
Proof. split; vm_compute; reflexivity. Qed.
End DeliveryRun.
