(* ===== verification/Subscriber.v ===== *)
(** * The blockchain subscriber (internal/usecase/blockchain_subscriber.go)

    Parses a transaction into an event, routes it to the handlers with retries, and
    stores what fails in the dead letter queue. *)
From S2P Require Import Prelude GoTypes Entity World Repo Toncenter DeadLetter Persistence.
From Stdlib Require Import SpecFloat.

(** ** Interfaces *)

(** [toncenter.InMsgParser]. *)
Class InMsgParser := ParseInMsg : string → result ParsedMessage.t.

(** [json.Unmarshal] into a list of raw messages, and the answers of [ctx.Err()]. *)
Class SubscriberEnv := {
  UnmarshalList : string → result (list string);
  ctxErr : nat → option error }.

(** ** Float64 arithmetic *)

(** [float64(z)] and the product, rounded to nearest even. *)
Definition float64_of (z : Z) : spec_float := binary_normalize 53 1024 z 0 false.
Definition float64_mul (x y : spec_float) : spec_float := SFmul 53 1024 x y.

(** ** State *)

Record RetryConfig := mkRetryConfig {
  MaxRetries : Z; InitialBackoff : Z; MaxBackoff : Z; BackoffMultiplier : spec_float }.

Definition Millisecond : Z := 10 ^ 6.

Definition DefaultRetryConfig : RetryConfig :=
  mkRetryConfig 3 (100 * Millisecond) (2000 * Millisecond) (float64_of 2).

(** The struct, its fields grouped: totals, last failure, last retry, last entry of the
    dead letter queue, last failure to store one. *)
Record Totals := mkTotals {
  ParseFailuresTotal : Z; ValidationFailuresTotal : Z; PersistenceRetryAttemptsTotal : Z;
  PersistenceRetryRecoveredTotal : Z; PersistenceFailuresExhausted : Z;
  DLQStoreAttemptsTotal : Z; DLQStoredTotal : Z; DLQDuplicateTotal : Z;
  DLQStoreFailuresTotal : Z }.
Record LastFailure := mkLastFailure {
  LastFailureType : string; LastFailureError : string; LastFailureTxHash : string;
  LastFailureTxLt : string; LastFailureAt : option Z }.
Record LastRetry := mkLastRetry {
  LastRetryOutcome : string; LastRetriedEventType : string; LastRetriedGameID : Z;
  LastRetryAttemptAt : option Z; LastExhaustedRetryAt : option Z }.
Record LastDLQ := mkLastDLQ {
  LastDLQErrorType : string; LastDLQStoreOutcome : string; LastDLQStatus : string;
  LastDLQResolutionNotes : string; LastDLQStoredTxHash : string; LastDLQStoredTxLt : string;
  LastDLQStoredAt : option Z }.
Record LastStoreFailure := mkLastStoreFailure {
  LastDLQStoreFailure : string; LastDLQStoreFailureTxHash : string;
  LastDLQStoreFailureTxLt : string; LastDLQStoreFailureAt : option Z }.
Record Observability := mkObservability {
  totals : Totals; lastFailure : LastFailure; lastRetry : LastRetry; lastDLQ : LastDLQ;
  lastStoreFailure : LastStoreFailure }.

Definition noObservability : Observability :=
  mkObservability (mkTotals 0 0 0 0 0 0 0 0 0)
    (mkLastFailure EmptyString EmptyString EmptyString EmptyString None)
    (mkLastRetry EmptyString EmptyString 0 None None)
    (mkLastDLQ EmptyString EmptyString EmptyString EmptyString EmptyString EmptyString None)
    (mkLastStoreFailure EmptyString EmptyString EmptyString None).

Inductive BlockchainMetric :=
| RecordEventReceived (eventType : string)
| RecordEventFailed (label kind : string)
| RecordEventProcessed (eventType : string)
| UpdateLastProcessedBlock (block : Z).

(** [BlockchainSubscriberUseCase]: the collaborators and the configuration. *)
Record SubscriberUC := mkSubscriberUC {
  persistenceUseCase : PersistenceUC;
  dlqBackoff : option Z;                  (* the dead letter queue's base delay, when set *)
  has_blockchainMetrics : bool;
  retryConfig : RetryConfig }.

(** What changes while it runs, and how often the context was asked. *)
Record SubState := mkSubState {
  observability : Observability; metricsTrace : list BlockchainMetric; ctxReads : nat }.

Definition S2 := (SubState * World)%type.
Definition B := ST S2.
#[export] Instance B_ret : MRet B := ST_ret.
#[export] Instance B_bind : MBind B := ST_bind.

Definition onWorld {A} (m : M A) : B A := zoom snd (λ w s, (s.1, w)) m.

Definition observe (f : Observability → Observability) : B unit :=
  modify (λ s, (mkSubState (f (observability s.1)) (metricsTrace s.1) (ctxReads s.1), s.2)).

Definition uint64_succ (n : Z) : Z := (n + 1) mod 2 ^ 64.

Module Subscriber.

(** ** Configuration *)

Definition NewBlockchainSubscriberUseCase (p : PersistenceUC) : SubscriberUC :=
  mkSubscriberUC p None false DefaultRetryConfig.

Definition SetMetrics (uc : SubscriberUC) : SubscriberUC :=
  mkSubscriberUC (persistenceUseCase uc) (dlqBackoff uc) true (retryConfig uc).

Definition SetDeadLetterQueue (base : Z) (uc : SubscriberUC) : SubscriberUC :=
  mkSubscriberUC (persistenceUseCase uc) (Some base) (has_blockchainMetrics uc)
    (retryConfig uc).

(** Invalid values are replaced by the defaults. *)
Definition SetRetryConfig (cfg : RetryConfig) (uc : SubscriberUC) : SubscriberUC :=
  let d := DefaultRetryConfig in
  let cfg := mkRetryConfig
    (if MaxRetries cfg <? 0 then MaxRetries d else MaxRetries cfg)
    (if InitialBackoff cfg <=? 0 then InitialBackoff d else InitialBackoff cfg)
    (if MaxBackoff cfg <=? 0 then MaxBackoff d else MaxBackoff cfg)
    (if SFleb (BackoffMultiplier cfg) (float64_of 1) then BackoffMultiplier d
     else BackoffMultiplier cfg) in
  mkSubscriberUC (persistenceUseCase uc) (dlqBackoff uc) (has_blockchainMetrics uc) cfg.

(** ** Parsing *)

Section Parsing.
Context `{E : Env} `{SE : SubscriberEnv} `{P : InMsgParser}.

Definition hasTransactionMessage (raw : option string) : bool :=
  let trimmed := TrimSpace (default EmptyString raw) in
  negb (bool_decide (trimmed = EmptyString)) && negb (bool_decide (trimmed = "null")).

(** A label and a payload per candidate. *)
Fixpoint outCandidates (index : nat) (msgs : list string) : list (string * string) :=
  match msgs with
  | [] => []
  | m :: msgs =>
      (if hasTransactionMessage (Some m)
       then [("out_msgs[" +:+ FormatInt (Z.of_nat index) +:+ "]", m)] else []) ++
      outCandidates (S index) msgs
  end.

Definition collectTransactionMessages (tx : Transaction.t) : result (list (string * string)) :=
  let candidates :=
    if hasTransactionMessage (Transaction.InMsg tx)
    then [("in_msg", default EmptyString (Transaction.InMsg tx))] else [] in
  if hasTransactionMessage (Transaction.OutMsgs tx) then
    match UnmarshalList (default EmptyString (Transaction.OutMsgs tx)) with
    | Err e => Err (Errorf "decode out_msgs" e)
    | Ok outMsgs => Ok (candidates ++ outCandidates 0 outMsgs)
    end
  else Ok candidates.

Definition isIgnorableMessageParseError (e : error) : bool :=
  let message := Error e in
  Contains message "unknown opcode" || Contains message "no message body found in in_msg" ||
  Contains message "empty in_msg" || Contains message "message too short".

(** The first candidate that parses; else the first error that matters. *)
Fixpoint tryCandidates (firstParseErr : option error) (candidates : list (string * string)) :
    result ParsedMessage.t :=
  match candidates with
  | [] => match firstParseErr with
          | Some e => Err (Errorf "failed to parse TON message" e)
          | None => Err (ESentinel ErrTransactionHasNoGameEvents)
          end
  | (label, payload) :: candidates =>
      match ParseInMsg payload with
      | Ok parsed => Ok parsed
      | Err e =>
          if isIgnorableMessageParseError e then tryCandidates firstParseErr candidates
          else tryCandidates
                 (match firstParseErr with None => Some (Errorf label e) | _ => firstParseErr end)
                 candidates
      end
  end.

Definition parseTransactionMessage (tx : Transaction.t) : result ParsedMessage.t :=
  match collectTransactionMessages tx with
  | Err e => Err (Errorf "failed to parse TON message envelope" e)
  | Ok [] => Err (ESentinel ErrTransactionHasNoGameEvents)
  | Ok candidates => tryCandidates None candidates
  end.

Definition put_string (key v : string) (m : gmap string dyn) : gmap string dyn :=
  if bool_decide (v = EmptyString) then m else <[key := VString v]> m.
Definition put_big (key : string) (v : option Z) (m : gmap string dyn) : gmap string dyn :=
  match v with Some z => <[key := VString (FormatInt z)]> m | None => m end.
Definition put_uint (key : string) (c : Z → dyn) (v : Z) (m : gmap string dyn) :
    gmap string dyn := if v =? 0 then m else <[key := c v]> m.

Definition eventData (p : ParsedMessage.t) : gmap string dyn :=
  let m : gmap string dyn :=
    {[ "event_type" := VString (ParsedMessage.EventType p);
       "game_id" := VInt64 (ParsedMessage.GameID p);
       "opcode" := VUint32 (ParsedMessage.Opcode p) ]} in
  let m := put_string "player_one" (ParsedMessage.PlayerOne p) m in
  let m := put_string "player_two" (ParsedMessage.PlayerTwo p) m in
  let m := put_big "bet_amount" (ParsedMessage.BidValue p) m in
  let m := put_big "total_gainings" (ParsedMessage.TotalGainings p) m in
  let m := put_string "winner" (ParsedMessage.Winner p) m in
  let m := put_string "looser" (ParsedMessage.Looser p) m in
  let m := put_string "player" (ParsedMessage.Player p) m in
  let m := put_uint "coin_side" VUint8 (ParsedMessage.CoinSide p) m in
  let m := put_big "required" (ParsedMessage.Required p) m in
  let m := put_big "actual" (ParsedMessage.Actual p) m in
  let m := put_uint "service_fee_numerator" VUint32 (ParsedMessage.ServiceFeeNumerator p) m in
  let m := put_uint "referrer_fee_numerator" VUint32 (ParsedMessage.ReferrerFeeNumerator p) m in
  let m := put_uint "waiting_for_open_bid_seconds" VUint32
             (ParsedMessage.WaitingForOpenBidSeconds p) m in
  let m := put_big "lowest_bid" (ParsedMessage.LowestBid p) m in
  let m := put_big "highest_bid" (ParsedMessage.HighestBid p) m in
  let m := put_big "min_referrer_payout_value" (ParsedMessage.MinReferrerPayoutValue p) m in
  let m := put_string "fee_receiver" (ParsedMessage.FeeReceiver p) m in
  put_uint "protocol_version" VUint32 (ParsedMessage.ProtocolVersion p) m.

Definition parseTransaction (tx : Transaction.t) : result GameEvent.t :=
  match parseTransactionMessage tx with
  | Err e => Err e
  | Ok p =>
      let event := {|
        GameEvent.ID := 0; GameEvent.GameID := ParsedMessage.GameID p;
        GameEvent.EventType := ParsedMessage.EventType p;
        GameEvent.TransactionHash := Transaction.Hash tx; GameEvent.BlockNumber := 0;
        GameEvent.Timestamp := Transaction.Utime tx * 10 ^ 9;
        GameEvent.Payload := EmptyString; GameEvent.EventData := Some (eventData p);
        GameEvent.CreatedAt := 0 |} in
      match GameEvent.Validate event with
      | Err e => Err (Errorf "event validation failed" e)
      | Ok _ => Ok event
      end
  end.

(** The kind of a parse error, [None] when it is not worth recording. *)
Definition classifyParseError (e : error) : option string :=
  let message := Error e in
  if errors_Is e ErrTransactionHasNoInMsg ||
     Contains message (sentinel_message ErrTransactionHasNoInMsg) then None
  else if errors_Is e ErrTransactionHasNoGameEvents ||
          Contains message (sentinel_message ErrTransactionHasNoGameEvents) then None
  else if Contains message "unknown opcode" then None
  else if Contains message "event validation failed" then Some DLQErrorTypeValidation
  else Some DLQErrorTypeParse.
End Parsing.

(** ** Observability *)

Definition set_totals (f : Totals → Totals) (o : Observability) : Observability :=
  mkObservability (f (totals o)) (lastFailure o) (lastRetry o) (lastDLQ o) (lastStoreFailure o).
Definition set_failure (f : LastFailure → LastFailure) (o : Observability) : Observability :=
  mkObservability (totals o) (f (lastFailure o)) (lastRetry o) (lastDLQ o) (lastStoreFailure o).
Definition set_retry (f : LastRetry → LastRetry) (o : Observability) : Observability :=
  mkObservability (totals o) (lastFailure o) (f (lastRetry o)) (lastDLQ o) (lastStoreFailure o).
Definition set_dlq (f : LastDLQ → LastDLQ) (o : Observability) : Observability :=
  mkObservability (totals o) (lastFailure o) (lastRetry o) (f (lastDLQ o)) (lastStoreFailure o).
Definition set_storeFailure (v : LastStoreFailure) (o : Observability) : Observability :=
  mkObservability (totals o) (lastFailure o) (lastRetry o) (lastDLQ o) v.

(** Which total an event adds to. *)
Inductive Total :=
| TParse | TValidation | TRetryAttempt | TRecovered | TExhausted | TStoreAttempt | TStored
| TDuplicate | TStoreFailure.

Definition bumpTotal (which : Total) (t : Totals) : Totals :=
  let on w n := match w, which with
                | TParse, TParse | TValidation, TValidation | TRetryAttempt, TRetryAttempt
                | TRecovered, TRecovered | TExhausted, TExhausted
                | TStoreAttempt, TStoreAttempt | TStored, TStored | TDuplicate, TDuplicate
                | TStoreFailure, TStoreFailure => uint64_succ n
                | _, _ => n
                end in
  mkTotals (on TParse (ParseFailuresTotal t)) (on TValidation (ValidationFailuresTotal t))
    (on TRetryAttempt (PersistenceRetryAttemptsTotal t))
    (on TRecovered (PersistenceRetryRecoveredTotal t))
    (on TExhausted (PersistenceFailuresExhausted t))
    (on TStoreAttempt (DLQStoreAttemptsTotal t)) (on TStored (DLQStoredTotal t))
    (on TDuplicate (DLQDuplicateTotal t)) (on TStoreFailure (DLQStoreFailuresTotal t)).

Section Observing.
Context `{E : Env}.
Import DeadLetterQueue.

Definition recordParseFailure (tx : Transaction.t) (err : error) (errorType : string) : B unit :=
  now ← onWorld Now;
  observe (λ o,
    let o := if bool_decide (errorType = DLQErrorTypeParse) ||
                bool_decide (errorType = DLQErrorTypePersistence) ||
                bool_decide (errorType = DLQErrorTypeUnknown) then set_totals (bumpTotal TParse) o
             else if bool_decide (errorType = DLQErrorTypeValidation)
             then set_totals (bumpTotal TValidation) o else o in
    set_failure (λ _, mkLastFailure errorType (Error err) (Transaction.Hash tx)
                        (Transaction.Lt tx) (Some now)) o).

Definition failure_of (err : error) (f : LastFailure) : LastFailure :=
  mkLastFailure DLQErrorTypePersistence (Error err) (LastFailureTxHash f) (LastFailureTxLt f)
    (LastFailureAt f).

Definition recordRetryAttempt (event : GameEvent.t) (err : error) : B unit :=
  now ← onWorld Now;
  observe (λ o,
    set_retry (λ r, mkLastRetry "retrying" (GameEvent.EventType event) (GameEvent.GameID event)
                      (Some now) (LastExhaustedRetryAt r))
      (set_failure (failure_of err) (set_totals (bumpTotal TRetryAttempt) o))).

Definition recordRetryRecovered (event : GameEvent.t) : B unit :=
  observe (λ o,
    set_retry (λ r, mkLastRetry "recovered" (GameEvent.EventType event) (GameEvent.GameID event)
                      (LastRetryAttemptAt r) (LastExhaustedRetryAt r))
      (set_totals (bumpTotal TRecovered) o)).

Definition recordRetryExhausted (event : GameEvent.t) (err : error) : B unit :=
  now ← onWorld Now;
  observe (λ o,
    set_retry (λ r, mkLastRetry "exhausted" (GameEvent.EventType event) (GameEvent.GameID event)
                      (LastRetryAttemptAt r) (Some now))
      (set_failure (failure_of err) (set_totals (bumpTotal TExhausted) o))).

Definition recordDLQStoreAttempt (errorType : string) : B unit :=
  observe (λ o,
    set_dlq (λ d, mkLastDLQ errorType EmptyString (LastDLQStatus d) (LastDLQResolutionNotes d)
                    (LastDLQStoredTxHash d) (LastDLQStoredTxLt d) (LastDLQStoredAt d))
      (set_totals (bumpTotal TStoreAttempt) o)).

Definition applyDLQStoreResult (total : Total) (tx : Transaction.t) (errorType outcome : string)
    (result : StoreFailedTransactionResult) : B unit :=
  _ ← observe (set_totals (bumpTotal total));
  now ← onWorld Now;
  observe (set_dlq (λ _, mkLastDLQ errorType outcome (DeadLetterQueue.Status result)
                           (DeadLetterQueue.ResolutionNotes result) (Transaction.Hash tx)
                           (Transaction.Lt tx) (Some now))).

Definition recordDLQStored (tx : Transaction.t) (errorType : string)
    (result : StoreFailedTransactionResult) : B unit :=
  applyDLQStoreResult TStored tx errorType DLQStoreOutcomeQueued result.
Definition recordDLQDuplicate (tx : Transaction.t) (errorType : string)
    (result : StoreFailedTransactionResult) : B unit :=
  applyDLQStoreResult TDuplicate tx errorType DLQStoreOutcomeAlreadyPending result.

Definition recordDLQStoreFailure (tx : Transaction.t) (err : error) : B unit :=
  now ← onWorld Now;
  observe (λ o, set_storeFailure
    (mkLastStoreFailure (Error err) (Transaction.Hash tx) (Transaction.Lt tx) (Some now))
    (set_totals (bumpTotal TStoreFailure) o)).

(** The snapshot is a deep copy. *)
Definition GetObservabilitySnapshot : B Observability := gets (λ s, observability s.1).
End Observing.

(** ** Routing with retries *)

(** The event the subscriber passes by pointer, its own state, and the world. *)
Definition RS := (GameEvent.t * S2)%type.
Definition HB := ST RS.
#[export] Instance HB_ret : MRet HB := ST_ret.
#[export] Instance HB_bind : MBind HB := ST_bind.

Definition onEvent {A} (m : H A) : HB A :=
  zoom (λ s, (s.1, s.2.2)) (λ ew s, (ew.1, (s.2.1, ew.2))) m.
Definition onSub {A} (m : B A) : HB A := zoom snd (λ b s, (s.1, b)) m.

Section Routing.
Context `{E : Env} `{SE : SubscriberEnv} (uc : SubscriberUC).

(** [if uc.metrics != nil { ... }] *)
Definition metric (m : BlockchainMetric) : B unit :=
  if has_blockchainMetrics uc then
    modify (λ s, (mkSubState (observability s.1) (metricsTrace s.1 ++ [m]) (ctxReads s.1), s.2))
  else mret tt.

(** Is the context cancelled? *)
Definition ctxDone : B (option error) := λ s,
  (ctxErr (ctxReads s.1),
   (mkSubState (observability s.1) (metricsTrace s.1) (S (ctxReads s.1)), s.2)).

Definition nextBackoff (backoff : Z) : Z :=
  let next := float_to_int64
    (float_trunc (float64_mul (float64_of backoff) (BackoffMultiplier (retryConfig uc)))) in
  if MaxBackoff (retryConfig uc) <? next then MaxBackoff (retryConfig uc) else next.

(** The wait ends when the delay has passed or the context is done. *)
Definition waitForRetry (event : GameEvent.t) (lastErr : error) (backoff : Z) : B (result Z) :=
  _ ← recordRetryAttempt event lastErr;
  _ ← metric (RecordEventFailed (GameEvent.EventType event) "retry");
  done ← ctxDone;
  match done with
  | Some e => mret (Err e)
  | None => mret (Ok (nextBackoff backoff))
  end.

Definition routeEvent : H (result unit) := Persistence.routeEvent (persistenceUseCase uc).

Definition currentEvent : HB GameEvent.t := gets fst.

(** One round of the loop; [attempt] counts up, [rounds] what is left of it. *)
Fixpoint retryLoop (rounds : nat) (attempt backoff : Z) (lastErr : option error) :
    HB (result unit) :=
  match rounds with
  | O =>
      event ← currentEvent;
      let err := default (ENew "%!w(<nil>)") lastErr in
      _ ← onSub (recordRetryExhausted event err);
      _ ← onSub (metric (RecordEventFailed (GameEvent.EventType event) "retry_exhausted"));
      mret (Err (Errorf ("all " +:+ FormatInt (MaxRetries (retryConfig uc)) +:+
                         " retry attempts failed") err))
  | S rounds =>
      event ← currentEvent;
      backoff <-? (if 0 <? attempt
                   then onSub (waitForRetry event (default (ENew EmptyString) lastErr) backoff)
                   else mret (Ok backoff)) ;;
      r ← onEvent routeEvent;
      match r with
      | Ok _ =>
          event ← currentEvent;
          _ ← (if 0 <? attempt then onSub (recordRetryRecovered event) else mret tt);
          mret (Ok tt)
      | Err e =>
          cancelled ← onSub ctxDone;
          match cancelled with
          | Some c => mret (Err c)
          | None => retryLoop rounds (attempt + 1) backoff (Some e)
          end
      end
  end.

(** [for attempt := 0; attempt <= MaxRetries; attempt++] *)
Definition routeEventWithRetry : HB (result unit) :=
  retryLoop (Z.to_nat (MaxRetries (retryConfig uc) + 1)) 0
    (InitialBackoff (retryConfig uc)) None.

(** ** Failed transactions *)

Definition storeFailedTransaction (tx : Transaction.t) (err : error) (errorType : string) :
    B unit :=
  match dlqBackoff uc with
  | None => mret tt
  | Some base =>
      _ ← recordDLQStoreAttempt errorType;
      r ← onWorld (DeadLetterQueue.StoreFailedTransaction base tx err errorType);
      match r with
      | Err dlqErr =>
          _ ← metric (RecordEventFailed "dlq" "store_error");
          recordDLQStoreFailure tx dlqErr
      | Ok result =>
          if bool_decide (DeadLetterQueue.Outcome result =
                          DeadLetterQueue.DLQStoreOutcomeAlreadyPending) then
            _ ← metric (RecordEventFailed "dlq" "duplicate");
            recordDLQDuplicate tx errorType result
          else recordDLQStored tx errorType result
      end
  end.

(** Run with a fresh event, and forget the pointer afterwards. *)
Definition withEvent {A} (event : GameEvent.t) (m : HB A) : B (GameEvent.t * A) := λ s,
  let '(a, (event', s')) := m (event, s) in ((event', a), s').

Context `{P : InMsgParser}.

Definition HandleTransaction (tx : Transaction.t) : B (result unit) :=
  _ ← onWorld Now;
  match parseTransaction tx with
  | Err err =>
      match classifyParseError err with
      | Some errorType =>
          _ ← recordParseFailure tx err errorType;
          _ ← metric (RecordEventFailed "parser" errorType);
          _ ← storeFailedTransaction tx err errorType;
          mret (Ok tt)
      | None => mret (Ok tt)
      end
  | Ok event =>
      _ ← metric (RecordEventReceived (GameEvent.EventType event));
      routed ← withEvent event routeEventWithRetry;
      let '(event, r) := routed in
      match r with
      | Err err =>
          _ ← metric (RecordEventFailed (GameEvent.EventType event) "persistence_error");
          _ ← storeFailedTransaction tx err DLQErrorTypePersistence;
          mret (Err (Errorf "failed to route event" err))
      | Ok _ =>
          _ ← onWorld Now;
          _ ← metric (RecordEventProcessed (GameEvent.EventType event));
          _ ← metric (UpdateLastProcessedBlock (GameEvent.BlockNumber event));
          mret (Ok tt)
      end
  end.
End Routing.
End Subscriber.
