(* ===== verification/SubscriberSpec.v ===== *)
(** * Correctness of the subscriber

    Which message of a transaction is taken and what event it becomes, the bound on
    retries, what a failed transaction leaves behind, redelivery, and the schedule that
    counts a finished game twice. *)
From S2P Require Import Prelude GoTypes Entity World Repo Toncenter DeadLetter Persistence PersistenceSpec Locks LockOps Coordination Delivery Subscriber.
From Stdlib Require Import SpecFloat.

(** ** Parsing *)

Section Parsing.
Context `{E : Env} `{SE : SubscriberEnv} `{P : InMsgParser}.
Import Subscriber.

(** The errors of the candidates that matter, in order. *)
Definition relevant (c : string * string) : option error :=
  match ParseInMsg c.2 with
  | Ok _ => None
  | Err e => if isIgnorableMessageParseError e then None else Some (Errorf c.1 e)
  end.

Inductive parse_outcome (cs : list (string * string)) (first : option error) :
    result ParsedMessage.t → Prop :=
| parse_first pre c post p :
    cs = pre ++ c :: post → ParseInMsg c.2 = Ok p →
    (∀ d, d ∈ pre → is_ok (ParseInMsg d.2) = false) → parse_outcome cs first (Ok p)
| parse_error e :
    (∀ d, d ∈ cs → is_ok (ParseInMsg d.2) = false) →
    head (option_list first ++ omap relevant cs) = Some e →
    parse_outcome cs first (Err (Errorf "failed to parse TON message" e))
| parse_nothing :
    (∀ d, d ∈ cs → is_ok (ParseInMsg d.2) = false) →
    first = None → omap relevant cs = [] →
    parse_outcome cs first (Err (ESentinel ErrTransactionHasNoGameEvents)).

Lemma tryCandidates_outcome cs first : parse_outcome cs first (tryCandidates first cs).
Proof.
  revert first. induction cs as [|[label payload] cs IH]; intros first; simpl.
  { destruct first as [e|]; [apply parse_error|apply parse_nothing]; try done;
      intros d Hd; by apply not_elem_of_nil in Hd. }
  destruct (ParseInMsg payload) as [p|e] eqn:Hp.
  { apply (parse_first _ _ [] (label, payload) cs); [done..|].
    intros d Hd. by apply not_elem_of_nil in Hd. }
  set (first' := if isIgnorableMessageParseError e then first
                 else match first with None => Some (Errorf label e) | _ => first end).
  assert (option_list first ++ omap relevant ((label, payload) :: cs) =
          option_list first' ++ omap relevant cs ∨
          ∃ x l, option_list first ++ omap relevant ((label, payload) :: cs) = x :: l ∧
                 first' = Some x) as Heads.
  { simpl. unfold relevant at 1, first'. cbn [fst snd]. rewrite Hp.
    destruct (isIgnorableMessageParseError e); [by left|].
    destruct first as [x|]; [|by left]. right. simpl. eauto. }
  assert (∀ r, parse_outcome cs first' r → parse_outcome ((label, payload) :: cs) first r) as Hc.
  { intros r [pre c post p -> Hc Hpre|x Hall Hh|Hall Hf Hom].
    - apply (parse_first _ _ ((label, payload) :: pre) c post); [done..|].
      intros d [->|Hd]%elem_of_cons; [simpl; by rewrite Hp|auto].
    - apply parse_error; [intros d [->|Hd]%elem_of_cons; [simpl; by rewrite Hp|auto]|].
      destruct Heads as [->|(y & l & -> & Hy)]; [done|]. by rewrite Hy in Hh.
    - destruct Heads as [Heq|(y & l & _ & Hy)]; [|congruence].
      rewrite Hf, Hom in Heq. simpl in Heq. apply app_eq_nil in Heq as [Hn Hn'].
      apply parse_nothing; [intros d [->|Hd]%elem_of_cons; [simpl; by rewrite Hp|auto]|by destruct first|done]. }
  apply Hc. unfold first'. destruct (isIgnorableMessageParseError e); apply IH.
Qed.

(** A raw message that is there: not blank and not [null]. *)
Definition present (raw : string) : Prop :=
  TrimSpace raw ≠ EmptyString ∧ TrimSpace raw ≠ "null".
#[global] Instance present_dec raw : Decision (present raw).
Proof. unfold present. apply _. Defined.

Lemma hasTransactionMessage_spec raw :
  hasTransactionMessage raw = true ↔ present (default EmptyString raw).
Proof.
  unfold hasTransactionMessage, present.
  repeat case_bool_decide; simpl; naive_solver.
Qed.

(** The messages a transaction carries, labelled the way errors name them: the incoming
    one, then the outgoing ones in their order; blank ones do not count. *)
Definition incoming (tx : Transaction.t) : list (string * string) :=
  [("in_msg", default EmptyString (Transaction.InMsg tx))].
Definition out_label (i : nat) : string := "out_msgs[" +:+ FormatInt (Z.of_nat i) +:+ "]".
Definition carried (tx : Transaction.t) (outs : list string) : list (string * string) :=
  filter (λ c, present c.2) (incoming tx ++ imap (λ i m, (out_label i, m)) outs).

(** The outgoing messages, when the transaction has any. *)
Definition outgoing (tx : Transaction.t) : result (list string) :=
  let raw := default EmptyString (Transaction.OutMsgs tx) in
  if decide (present raw) then UnmarshalList raw else Ok [].

(** What becomes of the messages of a transaction. *)
Inductive message_of (tx : Transaction.t) : result ParsedMessage.t → Prop :=
| message_undecodable e :
    outgoing tx = Err e →
    message_of tx (Err (Errorf "failed to parse TON message envelope"
                              (Errorf "decode out_msgs" e)))
| message_carried outs r :
    outgoing tx = Ok outs → parse_outcome (carried tx outs) None r → message_of tx r.

Lemma outCandidates_spec i outs :
  outCandidates i outs =
  filter (λ c, present c.2) (imap (λ j m, (out_label (i + j), m)) outs).
Proof.
  revert i. induction outs as [|m outs IH]; intros i; [done|].
  simpl. rewrite filter_cons. simpl. rewrite Nat.add_0_r, IH.
  assert (imap (λ j m, (out_label (S i + j), m)) outs =
          imap ((λ j m, (out_label (i + j), m)) ∘ S) outs) as ->.
  { apply imap_ext. intros j x _. simpl. by rewrite Nat.add_succ_r. }
  destruct (decide (present m)) as [Hm|Hm].
  - by rewrite (proj2 (hasTransactionMessage_spec (Some m)) Hm).
  - destruct (hasTransactionMessage (Some m)) eqn:Hh; [|done].
    by apply hasTransactionMessage_spec in Hh.
Qed.

Lemma collectTransactionMessages_eq tx :
  collectTransactionMessages tx =
  match outgoing tx with Ok outs => Ok (carried tx outs) | Err e => Err (Errorf "decode out_msgs" e) end.
Proof.
  assert ((if hasTransactionMessage (Transaction.InMsg tx)
           then [("in_msg", default EmptyString (Transaction.InMsg tx))] else []) =
          filter (λ c, present c.2) (incoming tx)) as Hin.
  { unfold incoming. rewrite filter_cons, filter_nil. simpl.
    destruct (decide _) as [Hp|Hp]; [by rewrite (proj2 (hasTransactionMessage_spec _) Hp)|].
    destruct (hasTransactionMessage _) eqn:Hh; [|done]. by apply hasTransactionMessage_spec in Hh. }
  unfold collectTransactionMessages, outgoing, carried. rewrite Hin.
  destruct (decide (present _)) as [Hp|Hp].
  - rewrite (proj2 (hasTransactionMessage_spec _) Hp). destruct (UnmarshalList _); [|done].
    by rewrite outCandidates_spec, filter_app.
  - destruct (hasTransactionMessage (Transaction.OutMsgs tx)) eqn:Hh; [|done].
    by apply hasTransactionMessage_spec in Hh.
Qed.

Lemma put_ne key key' m :
  key ≠ key' →
  (∀ v, put_string key v m !! key' = m !! key') ∧ (∀ v, put_big key v m !! key' = m !! key') ∧
  ∀ c v, put_uint key c v m !! key' = m !! key'.
Proof.
  intros Hne. unfold put_string, put_big, put_uint. split_and!; intros *;
    repeat case_match; try case_bool_decide; by rewrite ?lookup_insert_ne.
Qed.

Lemma eventData_game p :
  eventData p !! "game_id" = Some (VInt64 (ParsedMessage.GameID p)).
Proof.
  unfold eventData.
  repeat match goal with
    | |- put_string ?k _ _ !! ?k' = _ => rewrite (proj1 (put_ne k k' _ ltac:(done)))
    | |- put_big ?k _ _ !! ?k' = _ => rewrite (proj1 (proj2 (put_ne k k' _ ltac:(done))))
    | |- put_uint ?k _ _ _ !! ?k' = _ => rewrite (proj2 (proj2 (put_ne k k' _ ltac:(done))))
    end.
  reflexivity.
Qed.

(** An event the subscriber builds is valid and new, and its data name its game. *)
Lemma parseTransaction_ok tx e :
  parseTransaction tx = Ok e →
  GameEvent.ID e = 0 ∧ GameEvent.Validate e = Ok tt ∧
  GameEvent.TransactionHash e = Transaction.Hash tx ∧
  GameEvent.Payload e = EmptyString ∧
  ∀ g, extractInt64 (GameEvent.EventData e) "game_id" = Ok g → g = GameEvent.GameID e.
Proof.
  unfold parseTransaction. destruct (parseTransactionMessage tx) as [p|]; [|done].
  destruct (GameEvent.Validate _) as [[]|] eqn:Hv; [|done]. intros [= <-].
  split_and!; try done. cbn [GameEvent.EventData GameEvent.GameID]. intros g.
  unfold extractInt64, lookup_data. rewrite eventData_game. congruence.
Qed.
End Parsing.

(** ** Retries *)

Section Calm.
Context `{E : Env} `{SE : SubscriberEnv} (uc : SubscriberUC).
Import Subscriber.

(** Bookkeeping: of the world, at most the clock is read. *)
Definition calm {A} (m : B A) : Prop := ∀ s, later s.2 (m s).2.2.

Lemma calm_ret {A} (a : A) : calm (mret a).
Proof. by intros s. Qed.
Lemma calm_bind {A C} (m : B A) (k : A → B C) : calm m → (∀ a, calm (k a)) → calm (m ≫= k).
Proof.
  intros Hm Hk s. unfold mbind, B_bind, ST_bind. specialize (Hm s).
  destruct (m s) as [a s']. etrans; [exact Hm|apply Hk].
Qed.
Lemma calm_observe f : calm (observe f).
Proof. by intros s. Qed.
Lemma calm_now : calm (onWorld Now).
Proof. intros s. apply later_tick. Qed.
Lemma calm_metric m : calm (metric uc m).
Proof. intros s. unfold metric. by destruct (has_blockchainMetrics uc). Qed.
Lemma calm_done : calm ctxDone.
Proof. by intros s. Qed.

Hint Resolve @calm_ret calm_observe calm_now calm_metric calm_done : calm.
Ltac calm := repeat (apply calm_bind; [|intros ?]); auto with calm.

Lemma calm_retries ev e :
  calm (recordRetryAttempt ev e) ∧ calm (recordRetryRecovered ev) ∧
  calm (recordRetryExhausted ev e).
Proof.
  unfold recordRetryAttempt, recordRetryRecovered, recordRetryExhausted. split_and!; calm.
Qed.

Lemma calm_failures tx e k :
  calm (recordParseFailure tx e k) ∧ calm (recordDLQStoreAttempt k) ∧
  calm (recordDLQStoreFailure tx e).
Proof.
  unfold recordParseFailure, recordDLQStoreAttempt, recordDLQStoreFailure. split_and!; calm.
Qed.

Lemma calm_results tx k r :
  calm (recordDLQStored tx k r) ∧ calm (recordDLQDuplicate tx k r).
Proof. unfold recordDLQStored, recordDLQDuplicate, applyDLQStoreResult. split; calm. Qed.

Lemma wp_calm {A} (m : B A) (Q : A → S2 → Prop) s :
  calm m → (∀ a s', later s.2 s'.2 → Q a s') → wp m Q s.
Proof. intros Hm HQ. unfold wp. specialize (Hm s). destruct (m s) as [a s']. by apply HQ. Qed.

Lemma wp_onSub {A} (m : B A) (Q : A → RS → Prop) e s :
  wp m (λ a s', Q a (e, s')) s → wp (onSub m) Q (e, s).
Proof. unfold wp, onSub, zoom. simpl. by destruct (m s). Qed.

Lemma wp_waitForRetry e er backoff s :
  wp (waitForRetry uc e er backoff) (λ r s', later s.2 s'.2 ∧
    match r with Ok b => b = nextBackoff uc backoff | Err c => ∃ n, ctxErr n = Some c end) s.
Proof.
  unfold waitForRetry. apply wp_bind, wp_calm; [apply calm_retries|].
  intros _ s1 H1. apply wp_bind, wp_calm; [apply calm_metric|]. intros _ s2 H2.
  apply wp_bind. unfold wp, ctxDone. cbn [fst snd].
  assert (later s.2 s2.2) by (by etrans).
  destruct (ctxErr (ctxReads s2.1)) as [c|] eqn:Hc; cbn; eauto.
Qed.

(** [n] attempts in a row that fail, from one event and world to the next; in between,
    the clock may have been read. *)
Inductive failing : nat → GameEvent.t * World → GameEvent.t * World → Prop :=
| failing_0 s : failing 0 s s
| failing_S n e w w1 s :
    later w w1 → is_ok (routeEvent uc (e, w1)).1 = false →
    failing n (routeEvent uc (e, w1)).2 s → failing (S n) (e, w) s.

(** The last attempt succeeded, or there were [rounds] of them, or the context ended. *)
Definition retried_post (rounds : nat) (start : GameEvent.t * World) (r : result unit)
    (s' : RS) : Prop :=
  ∃ n s1, failing n start s1 ∧
    match r with
    | Ok _ => (n < rounds)%nat ∧ ∃ w1, later s1.2 w1 ∧
        (routeEvent uc (s1.1, w1)).1 = Ok tt ∧ s'.1 = (routeEvent uc (s1.1, w1)).2.1 ∧
        later (routeEvent uc (s1.1, w1)).2.2 s'.2.2
    | Err er => s'.1 = s1.1 ∧ later s1.2 s'.2.2 ∧ (n ≤ rounds)%nat ∧
        ((n = rounds ∧ ∃ last, er = Errorf ("all " +:+ FormatInt (MaxRetries (retryConfig uc))
                                 +:+ " retry attempts failed") last) ∨
         ∃ k, ctxErr k = Some er)
    end.

Lemma failing_later n e w w1 s :
  later w w1 → failing n (e, w1) s → ∃ s', failing n (e, w) s' ∧ s'.1 = s.1 ∧ later s'.2 s.2.
Proof.
  intros Hl Hf. inversion Hf as [|n' e' w' w2 s' H2 Hr Hn]; subst.
  - exists (e, w). split; [constructor|done].
  - exists s. split; [|done]. econstructor; [by etrans|done|done].
Qed.

Lemma retried_later rounds e w w1 r s' :
  later w w1 → retried_post rounds (e, w1) r s' → retried_post rounds (e, w) r s'.
Proof.
  intros Hl (n & s1 & Hf & Hr). destruct (failing_later _ _ _ _ _ Hl Hf) as (s0 & Hf0 & He & Hw).
  exists n, s0. split; [done|]. destruct r as [u|er].
  - destruct Hr as (Hn & w2 & H2 & Hr). split; [done|]. exists w2. rewrite He.
    split; [by etrans|done].
  - destruct Hr as (Hs & Hl' & Hr). split; [congruence|]. split; [by etrans|done].
Qed.

Lemma wp_retryLoop rounds attempt backoff lastErr e s :
  wp (retryLoop uc rounds attempt backoff lastErr) (retried_post rounds (e, s.2)) (e, s).
Proof.
  revert attempt backoff lastErr e s.
  induction rounds as [|rounds IH]; intros attempt backoff lastErr e s; simpl.
  { apply wp_bind, wp_gets, wp_bind, wp_onSub, wp_calm; [apply calm_retries|].
    intros _ s1 H1. apply wp_bind, wp_onSub, wp_calm; [apply calm_metric|]. intros _ s2 H2.
    apply wp_ret. exists 0%nat, (e, s.2). split; [constructor|]. split; [done|].
    split; [by etrans|]. split; [done|]. left. eauto. }
  apply wp_bind, wp_gets, wp_rbind. cbn [fst].
  assert (∀ b s1, later s.2 s1.2 → wp (
      r ← onEvent (routeEvent uc);
      match r with
      | Ok _ => event ← currentEvent;
          _ ← (if 0 <? attempt then onSub (recordRetryRecovered event) else mret tt);
          mret (Ok tt)
      | Err e => cancelled ← onSub ctxDone;
          match cancelled with
          | Some c => mret (Err c)
          | None => retryLoop uc rounds (attempt + 1) b (Some e)
          end
      end) (retried_post (S rounds) (e, s.2)) (e, s1)) as Hround.
  { intros b s1 H1. apply wp_bind. unfold wp at 1, onEvent, zoom. cbn [fst snd].
    destruct (routeEvent uc (e, s1.2)) as [[[]|er] [e2 w2]] eqn:Hr; cbn [fst snd].
    - assert (∀ s', later w2 s'.2 → retried_post (S rounds) (e, s.2) (Ok tt) (e2, s')) as Hd.
      { intros s' Hs'. exists 0%nat, (e, s.2). split; [constructor|]. split; [lia|].
        exists s1.2. cbn [fst snd]. rewrite Hr. split_and!; try done. }
      apply wp_bind, wp_gets, wp_bind. apply wp_if; intros _; [|apply wp_ret; apply Hd; reflexivity].
      apply wp_onSub, wp_calm; [apply (calm_retries _ (ENew EmptyString))|].
      intros _ s3 H3. apply Hd. exact H3.
    - apply wp_bind, wp_onSub. unfold wp, ctxDone. cbn [fst snd].
      assert (failing 1 (e, s.2) (e2, w2)) as Hf1.
      { apply failing_S with s1.2; [done|by rewrite Hr|]. rewrite Hr. constructor. }
      destruct (ctxErr _) as [c|] eqn:Hc; cbn [fst snd].
      + exists 1%nat, (e2, w2). split; [done|]. split; [done|]. split; [done|].
        split; [lia|]. right. eauto.
      + set (s2 := (_, w2) : S2). pose proof (IH (attempt + 1) b (Some er) e2 s2) as Hn.
        destruct (Hn) as (n & s3 & Hf & Hres). exists (S n), s3. split.
        { apply failing_S with s1.2; [done|by rewrite Hr|]. by rewrite Hr. }
        destruct (retryLoop _ _ _ _ _ _) as [[u|er'] s4]; cbn [fst snd] in *.
        * destruct Hres as (? & ?). split; [lia|done].
        * destruct Hres as (? & ? & ? & [[-> ?]|?]); split_and!; auto with lia. }
  apply wp_if; intros _.
  - apply wp_onSub. eapply wp_mono; [apply wp_waitForRetry|].
    intros [b|c] s1 [H1 Hc]; [by apply Hround|].
    exists 0%nat, (e, s.2). split; [constructor|]. split; [done|]. split; [done|].
    split; [lia|]. by right.
  - apply wp_ret. by apply Hround.
Qed.

(** What the handlers keep, retrying them keeps. *)
Lemma retried_keeps (I : GameEvent.t → World → Prop) rounds e w r s' :
  hkeeps I (routeEvent uc) → (∀ e w w', later w w' → I e w → I e w') →
  retried_post rounds (e, w) r s' → I e w → I s'.1 s'.2.2.
Proof.
  intros Hk Hl (n & s1 & Hf & Hr) HI.
  assert (I s1.1 s1.2) as H1.
  { clear Hr. remember (e, w) as s0 eqn:H0. revert e w H0 HI.
    induction Hf as [s|n e0 w0 w1 s2 H01 _ Hf IH]; intros e w Heq HI; simplify_eq; [done|].
    pose proof (Hk e w1 (Hl _ _ _ H01 HI)) as Hn.
    destruct (routeEvent uc (e, w1)) as [r' [e' w']]. by apply (IH e' w'). }
  destruct r as [u|er].
  - destruct Hr as (_ & w1 & H11 & _ & -> & Hl2). eapply Hl; [exact Hl2|]. apply Hk. by eapply Hl.
  - destruct Hr as (-> & Hl2 & _). by eapply Hl.
Qed.

(** *** Failed transactions *)

(** What storing a failed transaction makes of the world. *)
Definition stored (tx : Transaction.t) (err : error) (kind : string) (w w' : World) : Prop :=
  match dlqBackoff uc with
  | None => later w w'
  | Some base => ∃ w1, later w w1 ∧
      later (DeadLetterQueue.StoreFailedTransaction base tx err kind w1).2 w'
  end.

Lemma wp_storeFailedTransaction tx err kind s :
  wp (storeFailedTransaction uc tx err kind) (λ _ s', stored tx err kind s.2 s'.2) s.
Proof.
  unfold storeFailedTransaction, stored. destruct (dlqBackoff uc) as [base|]; [|by apply wp_ret].
  apply wp_bind, wp_calm; [apply (calm_failures tx err kind)|].
  intros _ s1 H1. apply wp_bind. unfold wp at 1, onWorld, zoom.
  destruct (DeadLetterQueue.StoreFailedTransaction base tx err kind s1.2) as [r w2] eqn:Hst.
  cbn [fst snd]. enough (calm (match r with
    | Ok result => if bool_decide (DeadLetterQueue.Outcome result =
                      DeadLetterQueue.DLQStoreOutcomeAlreadyPending)
        then metric uc (RecordEventFailed "dlq" "duplicate") ≫= (λ _, recordDLQDuplicate tx kind result)
        else recordDLQStored tx kind result
    | Err dlqErr => metric uc (RecordEventFailed "dlq" "store_error")
                      ≫= (λ _, recordDLQStoreFailure tx dlqErr)
    end)) as Hc.
  { apply (wp_calm _ (λ _ s', _) _ Hc). intros _ s' Hs'. exists s1.2. split; [done|].
    rewrite Hst. exact Hs'. }
  destruct r as [res|er]; [case_bool_decide; [|apply calm_results]|];
    (apply calm_bind; [apply calm_metric|intros _]);
    [apply calm_results|apply (calm_failures tx er kind)].
Qed.

(** Storing touches the queue only. *)
Lemma stored_others tx err kind w w' :
  stored tx err kind w w' →
  (ticks w ≤ ticks w')%nat ∧ out w' = out w ∧ locks w' = locks w ∧
  games (tables w') = games (tables w) ∧ game_events (tables w') = game_events (tables w) ∧
  users (tables w') = users (tables w).
Proof.
  set (same := λ w w' : World, (ticks w ≤ ticks w')%nat ∧ out w' = out w ∧ locks w' = locks w ∧
    games (tables w') = games (tables w) ∧ game_events (tables w') = game_events (tables w) ∧
    users (tables w') = users (tables w)).
  assert (∀ w w', later w w' → same w w') as Hlater.
  { intros ? ? (? & ? & Ht & ?). unfold same. by rewrite Ht. }
  assert (∀ w1 w2 w3, same w1 w2 → same w2 w3 → same w1 w3) as Htrans.
  { unfold same. intros ??? (?&?&?&?&?&?) (?&?&?&?&?&?). split_and!; first [lia|congruence]. }
  unfold stored. destruct (dlqBackoff uc) as [base|]; [|apply Hlater].
  intros (w1 & H1 & H2). apply (Htrans _ w1); [by apply Hlater|].
  apply (Htrans _ (DeadLetterQueue.StoreFailedTransaction base tx err kind w1).2); [|by apply Hlater].
  clear H1 H2. enough (keeps (same w1)
    (DeadLetterQueue.StoreFailedTransaction base tx err kind)) as Hk.
  { apply Hk. apply Hlater. done. }
  unfold DeadLetterQueue.StoreFailedTransaction, DLQRepository.Create,
    DLQRepository.GetByTransactionHash, DLQRepository.queryRow.
  repeat first
    [ by (intros ? ?; eapply Htrans; [eassumption|]; apply Hlater, later_tick)
    | (intros ? ?; eapply Htrans; [eassumption|]; unfold statement, same;
       repeat case_match; simplify_eq/=; done)
    | keeps_world ].
Qed.

Context `{P : InMsgParser}.

(** *** A transaction *)

Definition handle_post (tx : Transaction.t) (w : World) (r : result unit) (s' : S2) : Prop :=
  match parseTransaction tx with
  | Err err =>
      r = Ok tt ∧ match classifyParseError err with
                  | Some kind => stored tx err kind w s'.2
                  | None => later w s'.2
                  end
  | Ok e => ∃ routed s1,
      retried_post (Z.to_nat (MaxRetries (retryConfig uc) + 1)) (e, w) routed s1 ∧
      match routed with
      | Ok _ => r = Ok tt ∧ later s1.2.2 s'.2
      | Err err => r = Err (Errorf "failed to route event" err) ∧
                   stored tx err DLQErrorTypePersistence s1.2.2 s'.2
      end
  end.

Lemma stored_later tx err kind w w1 w' :
  later w w1 → stored tx err kind w1 w' → stored tx err kind w w'.
Proof.
  intros Hl. unfold stored. destruct (dlqBackoff uc); [|by etrans].
  intros (w2 & H2 & H3). exists w2. split; [by etrans|done].
Qed.

Lemma wp_withEvent {A} e (m : HB A) (Q : GameEvent.t * A → S2 → Prop) s :
  wp m (λ a s', Q (s'.1, a) s'.2) (e, s) → wp (withEvent e m) Q s.
Proof. unfold wp, withEvent. by destruct (m (e, s)) as [a [e' s']]. Qed.

Lemma wp_HandleTransaction tx s :
  wp (HandleTransaction uc tx) (handle_post tx s.2) s.
Proof.
  unfold HandleTransaction, handle_post. apply wp_bind, wp_calm; [apply calm_now|].
  intros _ s1 H1. destruct (parseTransaction tx) as [e|err] eqn:Hp.
  - apply wp_bind, wp_calm; [apply calm_metric|]. intros _ s2 H2. apply wp_bind.
    apply wp_withEvent. eapply wp_mono; [apply wp_retryLoop|]. intros r [e3 s3] Hr.
    cbn [fst snd] in *.
    apply (retried_later _ _ s.2) in Hr; [|by etrans]. destruct r as [u|err].
    + apply wp_bind, wp_calm; [apply calm_now|]. intros _ s4 H4.
      apply wp_bind, wp_calm; [apply calm_metric|]. intros _ s5 H5.
      apply wp_bind, wp_calm; [apply calm_metric|]. intros _ s6 H6. apply wp_ret.
      exists (Ok u), (e3, s3). split; [done|]. split; [done|]. by do 2 (etrans; [eassumption|]).
    + apply wp_bind, wp_calm; [apply calm_metric|]. intros _ s4 H4.
      apply wp_bind. eapply wp_mono; [apply wp_storeFailedTransaction|]. intros [] s5 H5.
      apply wp_ret. exists (Err err), (e3, s3). split; [done|]. split; [done|].
      by eapply stored_later.
  - destruct (classifyParseError err) as [kind|]; [|by apply wp_ret].
    apply wp_bind, wp_calm; [apply (calm_failures tx err kind)|]. intros _ s2 H2.
    apply wp_bind, wp_calm; [apply calm_metric|]. intros _ s3 H3.
    apply wp_bind. eapply wp_mono; [apply wp_storeFailedTransaction|]. intros [] s4 H4.
    apply wp_ret. split; [done|]. eapply stored_later; [|exact H4]. by do 2 (etrans; [eassumption|]).
Qed.
End Calm.

(** ** Properties *)

Section Properties.
Context `{E : Env} `{!ClockMono E} `{SE : SubscriberEnv} `{P : InMsgParser} (uc : SubscriberUC).
Import Subscriber.

(** C32: the messages of a transaction are its incoming one and then its outgoing ones in
    their order, blank ones left out; the first of them that parses is taken.  When none
    parses, the error is the first one that is not about a foreign message, under the
    label of its message, or says that the transaction has no game events.  When the
    outgoing messages do not decode, that error is reported even if the incoming message
    would parse. *)
Theorem parseTransactionMessage_spec tx : message_of tx (parseTransactionMessage tx).
Proof.
  unfold parseTransactionMessage. rewrite collectTransactionMessages_eq.
  destruct (outgoing tx) as [outs|e] eqn:Ho; [|by apply message_undecodable].
  apply (message_carried _ outs); [done|].
  destruct (carried tx outs) as [|c cs]; [|apply tryCandidates_outcome].
  apply parse_nothing; [intros d Hd; by apply not_elem_of_nil in Hd|done..].
Qed.

(** An event made of a transaction is valid, has no row id yet, carries the
    transaction's hash, and names in its data the game it is about. *)
Theorem parseTransaction_event tx e :
  parseTransaction tx = Ok e →
  GameEvent.ID e = 0 ∧ GameEvent.Validate e = Ok tt ∧
  GameEvent.TransactionHash e = Transaction.Hash tx ∧
  GameEvent.Payload e = EmptyString ∧
  ∀ g, extractInt64 (GameEvent.EventData e) "game_id" = Ok g → g = GameEvent.GameID e.
Proof. apply parseTransaction_ok. Qed.

(** C31: an event is routed at most [MaxRetries + 1] times, each time with the event as
    the failed attempt left it; the first success ends the loop, and an error is
    reported when every attempt failed or the context ended. *)
Theorem routeEventWithRetry_spec e s :
  wp (routeEventWithRetry uc)
     (retried_post uc (Z.to_nat (MaxRetries (retryConfig uc) + 1)) (e, s.2)) (e, s).
Proof. apply wp_retryLoop. Qed.

(** With the default configuration the delays are 100ms, doubled after every retry,
    at most two seconds. *)
Theorem default_backoff k :
  retryConfig uc = DefaultRetryConfig →
  Nat.iter k (nextBackoff uc) (100 * Millisecond) =
    Z.min (100 * Millisecond * 2 ^ Z.of_nat k) (2000 * Millisecond).
Proof.
  intros Hc. assert (∀ b, nextBackoff uc b = let next := float_to_int64 (float_trunc
      (float64_mul (float64_of b) (float64_of 2))) in
      if 2000 * Millisecond <? next then 2000 * Millisecond else next) as Hn
    by (intros b; unfold nextBackoff; by rewrite Hc).
  assert (∀ n, Nat.iter (n + 5) (nextBackoff uc) (100 * Millisecond) = 2000 * Millisecond) as Hcap.
  { intros n. induction n as [|n IH].
    - simpl. rewrite !Hn. vm_compute. reflexivity.
    - simpl Nat.add. rewrite Nat.iter_succ, IH, Hn. vm_compute. reflexivity. }
  destruct (decide (k < 5)%nat) as [Hk|Hk].
  - assert (k = 0 ∨ k = 1 ∨ k = 2 ∨ k = 3 ∨ k = 4)%nat as Hcase by lia.
    destruct Hcase as [->|[->|[->|[->| ->]]]]; simpl Nat.iter; rewrite ?Hn; vm_compute;
      reflexivity.
  - replace k with ((k - 5) + 5)%nat by lia. rewrite Hcap.
    rewrite Nat2Z.inj_add, Z.pow_add_r by lia.
    assert (0 < 2 ^ Z.of_nat (k - 5)) by lia. unfold Millisecond. lia.
Qed.

(** C17: a transaction that cannot be parsed is reported as handled; one whose event was
    routed within the allowed attempts is reported as handled; one whose event could not
    be routed is reported as an error.  When a dead letter queue is set, storing there is
    attempted, once, for the transaction whose event could not be routed and for the one
    whose parse error is not about a foreign transaction; whether that attempt succeeds
    does not change what is reported.  Beside the routing of the event the tables change
    by that attempt only. *)
Theorem HandleTransaction_spec tx s :
  wp (HandleTransaction uc tx) (handle_post uc tx s.2) s.
Proof. apply wp_HandleTransaction. Qed.

(** A transaction whose event is already recorded changes no game, no event, no
    user, no lock and broadcasts nothing, however often its attempts fail. *)
Theorem redelivered_transaction tx e s :
  db_ok (tables s.2) → parseTransaction tx = Ok e →
  is_Some (game_events (tables s.2) !! Postgres.event_key e) →
  let w' := (HandleTransaction uc tx s).2.2 in
  games (tables w') = games (tables s.2) ∧
  game_events (tables w') = game_events (tables s.2) ∧
  (∀ a u, users (tables s.2) !! a = Some u → users (tables w') !! a = Some u) ∧
  locks w' = locks s.2 ∧ out w' = out s.2.
Proof.
  intros Hdb Hp Hrow. pose proof (wp_HandleTransaction uc tx s) as Hh.
  unfold wp, handle_post in Hh. rewrite Hp in Hh. destruct Hh as (routed & s1 & Hr & Hrest).
  destruct (parseTransaction_ok tx e Hp) as (Hid & _ & _ & _ & Hdata).
  assert (redelivered s.2 (GameEvent.EventData e) s1.1 s1.2.2) as [_ _ _ _ Hw].
  { apply (retried_keeps uc (redelivered s.2 (GameEvent.EventData e)) _ e s.2 _ _
             (routeEvent_dup _ _ _) (redelivered_later _ _) Hr).
    destruct Hrow as [row Hrow]. split; [done|eauto|done| |by constructor].
    intros g ->%Hdata. by destruct (db_event _ Hdb _ _ Hrow) as [[= <- _ _] Hs]. }
  destruct Hw as [_ Ho Hl Hg He _ Hu]. cbv zeta.
  assert (∀ w', later s1.2.2 w' ∨ (∃ err kind, stored uc tx err kind s1.2.2 w') →
    games (tables w') = games (tables s.2) ∧ game_events (tables w') = game_events (tables s.2) ∧
    (∀ a u, users (tables s.2) !! a = Some u → users (tables w') !! a = Some u) ∧
    locks w' = locks s.2 ∧ out w' = out s.2) as Hfin.
  { intros w' [(_ & H1 & H2 & H3)|(err & kind & (_ & H1 & H2 & H3 & H4 & H5)%stored_others)].
    - rewrite H2. split_and!; first [congruence|done].
    - split_and!; try congruence. intros a u Ha. rewrite H5. auto. }
  destruct routed as [u|err]; destruct Hrest as [_ Hrest]; apply Hfin; eauto.
Qed.

(** Whatever a transaction holds and whatever fails, handling it keeps the
    constraints of the tables. *)
Theorem HandleTransaction_invariant tx s :
  db_ok (tables s.2) → db_ok (tables (HandleTransaction uc tx s).2.2).
Proof.
  intros Hdb. pose proof (wp_HandleTransaction uc tx s) as Hh. unfold wp, handle_post in Hh.
  assert (∀ w w', db_ok (tables w) → later w w' → db_ok (tables w')) as Hlater
    by (intros w w' Hw Hl; by rewrite (later_tables _ _ Hl)).
  assert (∀ w w' err kind, db_ok (tables w) → stored uc tx err kind w w' → db_ok (tables w'))
    as Hstored.
  { intros w w' err kind [H1 H2 H3] (_ & _ & _ & G & V & U)%stored_others.
    split; rewrite ?G, ?V, ?U; done. }
  destruct (parseTransaction tx) as [e|err].
  - destruct Hh as (routed & s1 & Hr & Hrest).
    assert (db_ok (tables s1.2.2)) as H1.
    { apply (retried_keeps uc (on_db db_ok) _ e s.2 _ _ (routeEvent_keeps _)
               (λ _ w w' Hl Hw, Hlater w w' Hw Hl) Hr Hdb). }
    destruct routed as [u|err]; destruct Hrest as [_ Hrest]; eauto.
  - destruct Hh as [_ Hh]. destruct (classifyParseError err); eauto.
Qed.
End Properties.

(** ** Concrete runs *)

Module SubscriberRun.
Import Run Subscriber DeliveryRun.

Definition message (t : string) : ParsedMessage.t :=
  ParsedMessage.mk 1 t 7 alice bob (Some 1000) (Some 1900) bob EmptyString EmptyString 0
    None None 0 0 0 None None None EmptyString 0 EmptyString.

(** A message is its event type; anything else is a foreign message. *)
Definition parser : InMsgParser := λ payload,
  if contains validEventTypes payload then Ok (message payload)
  else if bool_decide (payload = "garbage") then Err (ENew "cell underflow")
  else Err (ENew "unknown opcode: 0x1").

(** A context that never ends. *)
Definition background : SubscriberEnv :=
  {| UnmarshalList := λ s, Ok ["foreign"; s]; ctxErr := λ _, None |}.

#[local] Existing Instances parser background.

Definition transaction (hash : string) (inMsg outMsgs : option string) : Transaction.t :=
  Transaction.mk "42" hash 1 EmptyString inMsg outMsgs "41" EmptyString "0" "0" "0".

Definition sub : SubscriberUC :=
  SetDeadLetterQueue 1000 (SetMetrics (NewBlockchainSubscriberUseCase DeliveryRun.uc)).
Definition idle : SubState := mkSubState noObservability [] 0.

Definition handle (E : Env) (txs : list Transaction.t) (s : S2) : S2 :=
  foldl (λ s tx, (HandleTransaction (E := E) sub tx s).2) s txs.

Definition init_tx : Transaction.t := transaction "tx1" (Some EventGameInitialized) None.
Definition start_tx : Transaction.t :=
  transaction "tx2" (Some "foreign") (Some EventGameStarted).
Definition win_tx : Transaction.t := transaction "tx4" (Some EventGameFinished) None.
Definition bad_tx : Transaction.t := transaction "tx5" (Some "garbage") None.

#[local] Existing Instance Run.ticking.
Definition s1 : S2 := handle Run.ticking [init_tx; start_tx] (idle, w0).

(** The game message is the second of the outgoing ones. *)
Example parse_start_tx : parseTransactionMessage start_tx = Ok (message EventGameStarted).
Proof. vm_compute. reflexivity. Qed.

Lemma parseTransaction_event_witness :
  ∃ e, parseTransaction start_tx = Ok e ∧ GameEvent.Validate e = Ok tt.
Proof.
  destruct (parseTransaction start_tx) as [e|er] eqn:He; [|vm_compute in He; discriminate He].
  exists e. split; [reflexivity|].
  destruct (parseTransaction_event start_tx e He) as (_ & Hv & _). exact Hv.
Defined.

Lemma default_backoff_witness :
  Nat.iter 3 (nextBackoff sub) (100 * Millisecond) = 800 * Millisecond.
Proof. rewrite (default_backoff sub 3); reflexivity. Defined.

Lemma redelivered_transaction_witness :
  let w' := (HandleTransaction sub start_tx s1).2.2 in
  games (tables w') = games (tables s1.2) ∧ game_status w' = Some GameStatusWaitingForOpenBids.
Proof.
  destruct (parseTransaction start_tx) as [e|er] eqn:He; [|vm_compute in He; discriminate He].
  cbv zeta. split; [|vm_compute; reflexivity].
  refine (proj1 (redelivered_transaction sub start_tx e s1 _ He _)).
  - apply (HandleTransaction_invariant sub start_tx (handle Run.ticking [init_tx] (idle, w0))).
    apply (HandleTransaction_invariant sub init_tx (idle, w0)), db_ok_empty.
  - vm_compute in He. injection He as <-. vm_compute. eauto.
Defined.

Lemma HandleTransaction_invariant_witness : db_ok (tables (handle Run.ticking [bad_tx] s1).2).
Proof.
  refine (HandleTransaction_invariant sub bad_tx s1 _).
  apply (HandleTransaction_invariant sub start_tx (handle Run.ticking [init_tx] (idle, w0))).
  apply (HandleTransaction_invariant sub init_tx (idle, w0)), db_ok_empty.
Defined.

(** The commit of the settlement takes effect, but its acknowledgement is lost. *)
Definition unacked : Env :=
  Run.env Z.of_nat (λ n, if (n =? 17)%nat then FaultUnacked else FaultNone).

(** The event keeps the row id of its first attempt, so when the commit of a
    settlement succeeds but is reported as failed, the retry does not see a duplicate:
    the game is settled a second time and both players are counted twice. *)
Theorem settled_twice :
  (HandleTransaction (E := unacked) sub win_tx
     (handle unacked [init_tx; start_tx] (idle, w0))).1 = Ok tt ∧
  record_of bob (handle unacked [init_tx; start_tx; win_tx] (idle, w0)).2 =
    Some (mkGain 2 2 0 0 0) ∧
  record_of alice (handle unacked [init_tx; start_tx; win_tx] (idle, w0)).2 =
    Some (mkGain 2 0 2 0 0).
Proof. split_and!; vm_compute; reflexivity. Qed.
End SubscriberRun.
