(* ===== verification/Broadcast.v ===== *)
(** * The fan-out of game updates to WebSocket clients

    internal/usecase/game_broadcast.go. A connection is the reference of an object outside;
    the calls on it are recorded in [wire], and their results come from [HubEnv]. *)
From S2P Require Import Prelude GoTypes Entity World.

Definition MessageTypeReservationCreated : string := "reservation_created".
Definition MessageTypeReservationReleased : string := "reservation_released".
Definition MessageTypeCancelReservationCreated : string := "cancel_reservation_created".
Definition MessageTypeCancelReservationReleased : string := "cancel_reservation_released".
Definition MessageTypeGameStateUpdate : string := "game_state_update".
Definition MessageTypeRevealReservationCreated : string := "reveal_reservation_created".
Definition MessageTypeRevealReservationReleased : string := "reveal_reservation_released".
Definition MessageTypeExpiredClaimCreated : string := "expired_claim_created".
Definition MessageTypeExpiredClaimReleased : string := "expired_claim_released".
Definition GlobalGameID : Z := 0.
Definition websocketWriteDeadline : Z := 10 * 10 ^ 9.

(** The four [..CreatedEvent] structs have the same fields, and so have the four
    [..ReleasedEvent] structs; [Type] tells them apart. The last two are the answers of the
    WebSocket handler. *)
Inductive Event :=
| CreatedEvent (Type' Timestamp : string) (GameID : Z) (ReservedBy ExpiresAt : string)
| ReleasedEvent (Type' Timestamp : string) (GameID : Z) (Reason : string)
| GameStateUpdateEvent (Type' Timestamp EventType : string) (Data : Game.t)
| syncResponseMessage (Type' Timestamp : string) (Game : Game.t)
| errorMessage (Type' Timestamp Code Message : string).

(** The calls on a connection. *)
Inductive ConnCall :=
| SetWriteDeadline (t : Z)
| WriteMessage (data : string)
| Close
| SetReadDeadline (t : Z).

(** What comes from outside: clock readings and their text, encoding/json, the fate of the
    n-th call on a connection, and the order of the n-th range over a map. *)
Class HubEnv := {
  hub_clock : nat → Z;
  FormatRFC3339 : Z → string;
  FormatRFC3339Nano : Z → string;
  json_Event : Event → result string;
  conn_result : nat → option error;
  clientOrder : nat → list string → list string;
  gameOrder : nat → list Z → list Z
}.

(** A [range] over a map visits every key once. *)
Class ClientPerm (HE : HubEnv) : Prop := {
  client_perm n l : clientOrder n l ≡ₚ l;
  game_perm n l : gameOrder n l ≡ₚ l
}.

Record subscriber := mkSubscriber { clientID : string; conn : Z }.

Record Hub := mkHub {
  gameSubscribers : gmap Z (gmap string subscriber);
  activeConnections : Z;
  hub_ticks : nat;
  hub_ranges : nat;
  wire : list (Z * ConnCall)           (* the calls so far, oldest first *)
}.

Definition set_subscribers (m : gmap Z (gmap string subscriber)) (n : Z) (h : Hub) : Hub :=
  mkHub m n (hub_ticks h) (hub_ranges h) (wire h).

(** [uc.gameSubscribers[gameID]]; a missing map reads as an empty one. *)
Definition subscribersOf (h : Hub) (gameID : Z) : gmap string subscriber :=
  default ∅ (gameSubscribers h !! gameID).

Module GameBroadcast.
Section Broadcast.
Context `{HE : HubEnv}.

Definition hub_Now : ST Hub Z := λ h,
  (hub_clock (hub_ticks h),
   mkHub (gameSubscribers h) (activeConnections h) (S (hub_ticks h)) (hub_ranges h) (wire h)).

Definition websocketTimestamp (t : Z) : string := FormatRFC3339Nano t.

(** A call on a connection; [None] is a nil error. *)
Definition call (c : Z) (op : ConnCall) : ST Hub (option error) := λ h,
  (conn_result (length (wire h)),
   mkHub (gameSubscribers h) (activeConnections h) (hub_ticks h) (hub_ranges h)
     (wire h ++ [(c, op)])).

(** The order in which a [range] visits the clients of a map. *)
Definition rangeClients (m : gmap string subscriber) : ST Hub (list (string * subscriber)) := λ h,
  (omap (λ k, (λ s, (k, s)) <$> m !! k) (clientOrder (hub_ranges h) (map_to_list m).*1),
   mkHub (gameSubscribers h) (activeConnections h) (hub_ticks h) (S (hub_ranges h)) (wire h)).

Definition rangeGames (m : gmap Z (gmap string subscriber)) : ST Hub (list Z) := λ h,
  (gameOrder (hub_ranges h) (map_to_list m).*1,
   mkHub (gameSubscribers h) (activeConnections h) (hub_ticks h) (S (hub_ranges h)) (wire h)).

Definition NewGameBroadcastUseCase : Hub := mkHub ∅ 0 0 0 [].

Definition Subscribe (gameID : Z) (clientID : string) (conn : Z) : ST Hub unit :=
  modify (λ h,
    set_subscribers
      (<[gameID := <[clientID := mkSubscriber clientID conn]> (subscribersOf h gameID)]>
         (gameSubscribers h))
      (activeConnections h + 1) h).

(** [delete(uc.gameSubscribers[gameID], clientID)], then the count, when it is there. *)
Definition removeClient (gameID : Z) (clientID : string) (h : Hub) : Hub :=
  match gameSubscribers h !! gameID with
  | Some m =>
      match m !! clientID with
      | Some _ =>
          set_subscribers (<[gameID := delete clientID m]> (gameSubscribers h))
            (activeConnections h - 1) h
      | None => h
      end
  | None => h
  end.

Definition dropEmpty (gameID : Z) (h : Hub) : Hub :=
  if bool_decide (subscribersOf h gameID = ∅) then
    set_subscribers (delete gameID (gameSubscribers h)) (activeConnections h) h
  else h.

Definition Unsubscribe (gameID : Z) (clientID : string) : ST Hub unit :=
  h ← get;
  match subscribersOf h gameID !! clientID with
  | Some _ => modify (λ h, dropEmpty gameID (removeClient gameID clientID h))
  | None => mret tt
  end.

Definition GetActiveConnectionCount : ST Hub Z := gets activeConnections.
Definition GetGameSubscriberCount (gameID : Z) : ST Hub Z :=
  gets (λ h, Z.of_nat (size (subscribersOf h gameID))).

(** The subscribers of the game and the global ones; an id in both is the global one's. *)
Definition snapshotSubscribers (gameID : Z) : ST Hub (gmap string subscriber * gset string) :=
  gets (λ h, (subscribersOf h GlobalGameID ∪ subscribersOf h gameID,
              dom (subscribersOf h GlobalGameID))).

(** The clients whose connection failed, as they are found: of the game and global. *)
Record Failed := mkFailed { failedGame : list string; failedGlobal : list string }.

Definition addFailed (globalClientIDs : gset string) (clientID : string) (f : Failed) : Failed :=
  if bool_decide (clientID ∈ globalClientIDs) then
    mkFailed (failedGame f) (failedGlobal f ++ [clientID])
  else mkFailed (failedGame f ++ [clientID]) (failedGlobal f).

(** The body of the loop for one client: whether the message went out. *)
Definition sendTo (message : string) (sub : subscriber) : ST Hub bool :=
  now ← hub_Now;
  err ← call (conn sub) (SetWriteDeadline (now + websocketWriteDeadline));
  match err with
  | Some _ => mret false
  | None =>
      err ← call (conn sub) (WriteMessage message);
      mret (match err with Some _ => false | None => true end)
  end.

Fixpoint sendAll (message : string) (globalClientIDs : gset string)
    (clients : list (string * subscriber)) (f : Failed) : ST Hub Failed :=
  match clients with
  | [] => mret f
  | (clientID, sub) :: clients =>
      sent ← sendTo message sub;
      sendAll message globalClientIDs clients
        (if (sent : bool) then f else addFailed globalClientIDs clientID f)
  end.

Definition broadcastSerializedMessage (message : string)
    (allSubscribers : gmap string subscriber) (globalClientIDs : gset string) :
    ST Hub Failed :=
  clients ← rangeClients allSubscribers;
  sendAll message globalClientIDs clients (mkFailed [] []).

(** Close and forget the clients of [gameID] that are still there. *)
Definition closeClient (gameID : Z) (clientID : string) : ST Hub unit :=
  h ← get;
  match subscribersOf h gameID !! clientID with
  | Some sub =>
      _ ← call (conn sub) Close;
      modify (removeClient gameID clientID)
  | None => mret tt
  end.

Definition cleanupFailedConnections (gameID : Z) (f : Failed) : ST Hub unit :=
  match failedGame f, failedGlobal f with
  | [], [] => mret tt
  | _, _ =>
      _ ← for_each (failedGame f) (closeClient gameID);
      _ ← modify (dropEmpty gameID);
      for_each (failedGlobal f) (closeClient GlobalGameID)
  end.

(** What both broadcasts do after the snapshot; [mk] builds the event when there is somebody
    to send it to. *)
Definition broadcastTo (gameID : Z) (mk : ST Hub Event) (what : string) : ST Hub (result unit) :=
  '(allSubscribers, globalClientIDs) ← snapshotSubscribers gameID;
  if bool_decide (allSubscribers = ∅) then mret (Ok tt)
  else
    event ← mk;
    match json_Event event with
    | Err e => mret (Err (Errorf what e))
    | Ok message =>
        f ← broadcastSerializedMessage message allSubscribers globalClientIDs;
        _ ← cleanupFailedConnections gameID f;
        mret (Ok tt)
    end.

Definition broadcastEvent (gameID : Z) (event : Event) : ST Hub (result unit) :=
  broadcastTo gameID (mret event) "failed to serialize event".

Definition BroadcastGameUpdateWithEvent (game : Game.t) (eventType : string) :
    ST Hub (result unit) :=
  broadcastTo (Game.GameID game)
    (now ← hub_Now;
     mret (GameStateUpdateEvent MessageTypeGameStateUpdate (websocketTimestamp now) eventType game))
    "failed to serialize game update".

Definition BroadcastGameUpdate (game : Game.t) : ST Hub (result unit) :=
  BroadcastGameUpdateWithEvent game EmptyString.

(** The four pairs of lock events. *)
Definition broadcastCreated (type : string) (r : GameReservation.t) : ST Hub (result unit) :=
  now ← hub_Now;
  broadcastEvent (GameReservation.GameID r)
    (CreatedEvent type (websocketTimestamp now) (GameReservation.GameID r)
       (GameReservation.WalletAddress r) (FormatRFC3339 (GameReservation.ExpiresAt r))).

Definition broadcastReleased (type : string) (gameID : Z) (reason : string) :
    ST Hub (result unit) :=
  now ← hub_Now;
  broadcastEvent gameID (ReleasedEvent type (websocketTimestamp now) gameID reason).

Definition BroadcastReservationCreated := broadcastCreated MessageTypeReservationCreated.
Definition BroadcastReservationReleased := broadcastReleased MessageTypeReservationReleased.
Definition BroadcastCancelReservationCreated :=
  broadcastCreated MessageTypeCancelReservationCreated.
Definition BroadcastCancelReservationReleased :=
  broadcastReleased MessageTypeCancelReservationReleased.
Definition BroadcastRevealReservationCreated :=
  broadcastCreated MessageTypeRevealReservationCreated.
Definition BroadcastRevealReservationReleased :=
  broadcastReleased MessageTypeRevealReservationReleased.
Definition BroadcastExpiredClaimCreated := broadcastCreated MessageTypeExpiredClaimCreated.
Definition BroadcastExpiredClaimReleased := broadcastReleased MessageTypeExpiredClaimReleased.

(** Every connection is closed, game by game, then all is forgotten. *)
Definition CloseAllConnections : ST Hub (result unit) :=
  h ← get;
  gameIDs ← rangeGames (gameSubscribers h);
  _ ← for_each gameIDs (λ gameID,
        clients ← rangeClients (subscribersOf h gameID);
        for_each clients (λ client, _ ← call (conn client.2) Close; mret tt));
  _ ← modify (set_subscribers ∅ 0);
  mret (Ok tt).
End Broadcast.
End GameBroadcast.

(** ** Broadcasts under way

    The messages are sent outside the mutex, so several broadcasts may be sending at once. *)

Module Sending.
Import GameBroadcast.
Section Sending.
Context `{HE : HubEnv}.

(** A broadcast after its snapshot: who is left to send to, who failed, and the connection
    that [WriteMessage] is writing to. *)
Record Task := mkTask {
  task_game : Z; task_message : string; task_globals : gset string;
  task_todo : list (string * subscriber); task_failed : Failed; task_writing : option Z }.

(** [snapshotSubscribers] and the start of the loop. *)
Definition startTask (gameID : Z) (message : string) : ST Hub Task :=
  '(allSubscribers, globalClientIDs) ← snapshotSubscribers gameID;
  clients ← rangeClients allSubscribers;
  mret (mkTask gameID message globalClientIDs clients (mkFailed [] []) None).

(** [SetWriteDeadline] for the next client; then [WriteMessage] begins. *)
Definition beginWrite (t : Task) (clientID : string) (sub : subscriber)
    (rest : list (string * subscriber)) : ST Hub Task :=
  now ← hub_Now;
  err ← call (conn sub) (SetWriteDeadline (now + websocketWriteDeadline));
  mret (match err with
        | Some _ => mkTask (task_game t) (task_message t) (task_globals t) rest
                      (addFailed (task_globals t) clientID (task_failed t)) None
        | None => mkTask (task_game t) (task_message t) (task_globals t) (task_todo t)
                    (task_failed t) (Some (conn sub))
        end).

(** [WriteMessage] returns. *)
Definition endWrite (t : Task) (clientID : string) (sub : subscriber)
    (rest : list (string * subscriber)) : ST Hub Task :=
  err ← call (conn sub) (WriteMessage (task_message t));
  mret (mkTask (task_game t) (task_message t) (task_globals t) rest
          (match err with
           | Some _ => addFailed (task_globals t) clientID (task_failed t)
           | None => task_failed t
           end) None).

(** The next move of a task whose loop is not over. *)
Definition moveTask (t : Task) : ST Hub Task :=
  match task_todo t, task_writing t with
  | (clientID, sub) :: rest, None => beginWrite t clientID sub rest
  | (clientID, sub) :: rest, Some _ => endWrite t clientID sub rest
  | [], _ => mret t
  end.

(** Any goroutine may broadcast at any time, and the tasks move independently. *)
Inductive sys_step : Hub * list Task → Hub * list Task → Prop :=
| sys_hub h h' ts : (∃ g k c, h' = (Subscribe g k c h).2) ∨ (∃ g k, h' = (Unsubscribe g k h).2) →
    sys_step (h, ts) (h', ts)
| sys_start h h' ts t g m : startTask g m h = (t, h') → sys_step (h, ts) (h', ts ++ [t])
| sys_move h h' ts1 t t' ts2 : task_todo t ≠ [] → moveTask t h = (t', h') →
    sys_step (h, ts1 ++ t :: ts2) (h', ts1 ++ t' :: ts2)
| sys_finish h ts1 t ts2 : task_todo t = [] →
    sys_step (h, ts1 ++ t :: ts2)
      ((cleanupFailedConnections (task_game t) (task_failed t) h).2, ts1 ++ ts2).
End Sending.
End Sending.
