(* ===== verification/BroadcastSpec.v ===== *)
(** * What the fan-out promises *)
From S2P Require Import Prelude GoTypes Entity World Broadcast.
Import GameBroadcast.

(** ** Counting the subscriptions *)

Definition total (m : gmap Z (gmap string subscriber)) : Z :=
  map_fold (λ _ subs n, Z.of_nat (size subs) + n) 0 m.

Lemma total_insert_new m g subs :
  m !! g = None → total (<[g := subs]> m) = Z.of_nat (size subs) + total m.
Proof. intros H. unfold total. rewrite map_fold_insert_L; [done|intros; lia|done]. Qed.

Lemma total_split m g :
  total m = Z.of_nat (size (default ∅ (m !! g))) + total (delete g m).
Proof.
  destruct (m !! g) as [subs|] eqn:E; simpl.
  - rewrite <-(total_insert_new (delete g m) g) by apply lookup_delete_eq.
    by rewrite insert_delete_id.
  - rewrite delete_id by done. rewrite map_size_empty. lia.
Qed.

Lemma total_insert m g subs :
  total (<[g := subs]> m) =
    total m - Z.of_nat (size (default ∅ (m !! g))) + Z.of_nat (size subs).
Proof.
  rewrite (total_split (<[g := subs]> m) g), lookup_insert_eq, delete_insert_eq.
  rewrite (total_split m g). simpl. lia.
Qed.

(** ** The invariant of the hub *)

(** The count of connections is that of the subscriptions, and no game keeps an empty map. *)
Record hub_ok (h : Hub) : Prop := {
  hub_count : activeConnections h = total (gameSubscribers h);
  hub_nonempty g m : gameSubscribers h !! g = Some m → g ≠ GlobalGameID → m ≠ ∅
}.

(** A section of the hub's mutex, or a call on a connection, of any goroutine. *)
Inductive hub_step `{HE : HubEnv} : Hub → Hub → Prop :=
| step_subscribe h g k c : subscribersOf h g !! k = None → hub_step h (Subscribe g k c h).2
| step_unsubscribe h g k : hub_step h (Unsubscribe g k h).2
| step_cleanup h g f : hub_step h (cleanupFailedConnections g f h).2
| step_close h : hub_step h (CloseAllConnections h).2
| step_outside h t r w :
    hub_step h (mkHub (gameSubscribers h) (activeConnections h) t r w).

Section Spec.
Context `{HE : HubEnv}.

Lemma hub_ok_outside h t r w :
  hub_ok h → hub_ok (mkHub (gameSubscribers h) (activeConnections h) t r w).
Proof. intros [H1 H2]. by split. Qed.

Lemma lookup_subscribers h g k s :
  subscribersOf h g !! k = Some s →
  ∃ m, gameSubscribers h !! g = Some m ∧ m !! k = Some s ∧ subscribersOf h g = m.
Proof.
  unfold subscribersOf. destruct (gameSubscribers h !! g) as [m|]; simpl.
  - intros H. by exists m.
  - by rewrite lookup_empty.
Qed.

(** All but the map of [g] is as it ought to be, while a section is under way. *)
Record hub_but (g : Z) (h : Hub) : Prop := {
  but_count : activeConnections h = total (gameSubscribers h);
  but_nonempty g' m : gameSubscribers h !! g' = Some m → g' ≠ GlobalGameID → g' ≠ g → m ≠ ∅
}.

Lemma hub_ok_but g h : hub_ok h → hub_but g h.
Proof. intros [H1 H2]. split; [done|]. eauto. Qed.

Lemma removeClient_but g k h : hub_but g h → hub_but g (removeClient g k h).
Proof.
  intros [H1 H2]. unfold removeClient. destruct (gameSubscribers h !! g) as [m|] eqn:E; [|by split].
  destruct (m !! k) as [s|] eqn:Ek; [|by split]. split; cbn.
  - rewrite total_insert, E. simpl. rewrite map_size_delete, Ek.
    assert (size m ≠ 0%nat) by (intros Hs; apply map_size_empty_inv in Hs; subst; done).
    lia.
  - intros g' m' Hm Hg Hne. rewrite lookup_insert_ne in Hm by done. eauto.
Qed.

Lemma dropEmpty_ok g h : hub_but g h → hub_ok (dropEmpty g h).
Proof.
  intros [H1 H2]. unfold dropEmpty. case_bool_decide as Hd.
  - split; cbn.
    + rewrite (total_split _ g) in H1. change (default ∅ _) with (subscribersOf h g) in H1.
      rewrite Hd, map_size_empty in H1. lia.
    + intros g' m Hm Hg. destruct (decide (g' = g)) as [->|].
      * by rewrite lookup_delete_eq in Hm.
      * rewrite lookup_delete_ne in Hm by done. eauto.
  - split; [done|]. intros g' m Hm Hg. destruct (decide (g' = g)) as [->|]; [|eauto].
    unfold subscribersOf in Hd. by rewrite Hm in Hd.
Qed.

Lemma Subscribe_ok g k c h :
  hub_ok h → subscribersOf h g !! k = None → hub_ok (Subscribe g k c h).2.
Proof.
  intros [H1 H2] Hk. split; cbn.
  - rewrite total_insert. change (default ∅ _) with (subscribersOf h g).
    rewrite map_size_insert, Hk. lia.
  - intros g' m Hm Hg. destruct (decide (g' = g)) as [->|].
    + rewrite lookup_insert_eq in Hm. injection Hm as <-. apply insert_non_empty.
    + rewrite lookup_insert_ne in Hm by done. eauto.
Qed.

Lemma Unsubscribe_ok g k h : hub_ok h → hub_ok (Unsubscribe g k h).2.
Proof.
  intros H. unfold Unsubscribe, mbind, ST_bind, get. destruct (subscribersOf h g !! k); [|done].
  by apply dropEmpty_ok, removeClient_but, hub_ok_but.
Qed.

Lemma closeClient_but g k h : hub_but g h → hub_but g (closeClient g k h).2.
Proof.
  intros [H1 H2]. unfold closeClient, mbind, ST_bind, get. destruct (subscribersOf h g !! k); [|done].
  by apply removeClient_but.
Qed.

Lemma but_global h : hub_but GlobalGameID h → hub_ok h.
Proof. intros [H1 H2]. split; eauto. Qed.

Lemma closeClients_but g ks h : hub_but g h → hub_but g (for_each ks (closeClient g) h).2.
Proof.
  intros H. apply (wp_for_each ks (closeClient g) (hub_but g)); [done|].
  intros k s _ Hs. by apply closeClient_but.
Qed.

Lemma cleanup_ok g f h : hub_ok h → hub_ok (cleanupFailedConnections g f h).2.
Proof.
  intros H. unfold cleanupFailedConnections.
  assert (hub_ok ((_ ← for_each (failedGame f) (closeClient g); _ ← modify (dropEmpty g);
    for_each (failedGlobal f) (closeClient GlobalGameID)) h).2) as Hall.
  { unfold mbind, ST_bind, modify. destruct (for_each (failedGame f) (closeClient g) h) as [u h1] eqn:E.
    apply but_global, closeClients_but, hub_ok_but, dropEmpty_ok.
    pose proof (closeClients_but g (failedGame f) h (hub_ok_but _ _ H)) as H1. by rewrite E in H1. }
  destruct (failedGame f), (failedGlobal f); done.
Qed.

Lemma CloseAll_ok h : hub_ok (CloseAllConnections h).2.
Proof.
  unfold CloseAllConnections, mbind, ST_bind, get, modify.
  destruct (rangeGames (gameSubscribers h) h) as [gs h1].
  destruct (for_each gs _ h1) as [u h2]. split; cbn; [done|]. intros g m H. by rewrite lookup_empty in H.
Qed.

(** C37: The hub: however its sections interleave, the count of active connections is the
    number of subscriptions, and no game but the global one keeps an empty map, as long as a
    client subscribes under an id it does not hold yet. *)
Theorem hub_invariant h h' : hub_ok h → rtc hub_step h h' → hub_ok h'.
Proof.
  intros H Hs. induction Hs as [|h1 h2 h3 Hst _ IH]; [done|]. apply IH. destruct Hst.
  - by apply Subscribe_ok.
  - by apply Unsubscribe_ok.
  - by apply cleanup_ok.
  - apply CloseAll_ok.
  - by apply hub_ok_outside.
Qed.

(** ** A broadcast is a sequence of sections *)

Lemma outside_trans h h' h'' : hub_step h h' → rtc hub_step h' h'' → rtc hub_step h h''.
Proof. apply rtc_l. Qed.

Definition quiet (h h' : Hub) : Prop :=
  gameSubscribers h' = gameSubscribers h ∧ activeConnections h' = activeConnections h.

Lemma quiet_step h h' : quiet h h' → hub_step h h'.
Proof. destruct h, h'. intros [H1 H2]. cbn in *. subst. apply step_outside. Qed.

#[local] Instance quiet_preorder : PreOrder quiet.
Proof. split; [by intros h|]. intros h1 h2 h3 [??] [??]. split; congruence. Qed.

Lemma sendTo_quiet message sub h : quiet h (sendTo message sub h).2.
Proof.
  unfold sendTo, mbind, ST_bind, hub_Now, call. cbn. by destruct (conn_result _).
Qed.

Lemma sendAll_quiet message globals clients f h : quiet h (sendAll message globals clients f h).2.
Proof.
  revert f h. induction clients as [|[k sub] clients IH]; intros f h; [done|].
  cbn [sendAll]. unfold mbind, ST_bind. pose proof (sendTo_quiet message sub h) as Hq.
  destruct (sendTo message sub h) as [sent h1]. etrans; [exact Hq|apply IH].
Qed.

(** The call that a notice in the trace of [World] stands for. *)
Definition broadcastNotice (n : Notice) : ST Hub (result unit) :=
  match n with
  | ReservationCreated r => BroadcastReservationCreated r
  | ReservationReleased gameID reason => BroadcastReservationReleased gameID reason
  | CancelReservationCreated r => BroadcastCancelReservationCreated r
  | CancelReservationReleased gameID reason => BroadcastCancelReservationReleased gameID reason
  | RevealReservationCreated r => BroadcastRevealReservationCreated r
  | RevealReservationReleased gameID reason => BroadcastRevealReservationReleased gameID reason
  | ExpiredClaimCreated r => BroadcastExpiredClaimCreated r
  | ExpiredClaimReleased gameID reason => BroadcastExpiredClaimReleased gameID reason
  | GameUpdate game eventType => BroadcastGameUpdateWithEvent game eventType
  end.

(** The broadcasts in a trace of the service, in order; their errors are only logged. *)
Definition onEffect (e : Effect) : ST Hub unit :=
  match e with
  | Broadcast n => _ ← broadcastNotice n; mret tt
  | Measure _ _ => mret tt
  end.
Definition broadcastAll (effects : list Effect) : ST Hub unit := for_each effects onEffect.

Definition notice_game (n : Notice) : Z :=
  match n with
  | ReservationCreated r | CancelReservationCreated r | RevealReservationCreated r
  | ExpiredClaimCreated r => GameReservation.GameID r
  | ReservationReleased g _ | CancelReservationReleased g _ | RevealReservationReleased g _
  | ExpiredClaimReleased g _ => g
  | GameUpdate game _ => Game.GameID game
  end.

(** The event of a notice, announced at [t]. *)
Definition notice_event (t : Z) (n : Notice) : Event :=
  let created type r :=
    CreatedEvent type (websocketTimestamp t) (GameReservation.GameID r)
      (GameReservation.WalletAddress r) (FormatRFC3339 (GameReservation.ExpiresAt r)) in
  let released type g reason := ReleasedEvent type (websocketTimestamp t) g reason in
  match n with
  | ReservationCreated r => created MessageTypeReservationCreated r
  | ReservationReleased g reason => released MessageTypeReservationReleased g reason
  | CancelReservationCreated r => created MessageTypeCancelReservationCreated r
  | CancelReservationReleased g reason => released MessageTypeCancelReservationReleased g reason
  | RevealReservationCreated r => created MessageTypeRevealReservationCreated r
  | RevealReservationReleased g reason => released MessageTypeRevealReservationReleased g reason
  | ExpiredClaimCreated r => created MessageTypeExpiredClaimCreated r
  | ExpiredClaimReleased g reason => released MessageTypeExpiredClaimReleased g reason
  | GameUpdate game eventType =>
      GameStateUpdateEvent MessageTypeGameStateUpdate (websocketTimestamp t) eventType game
  end.

(** Every broadcast is [broadcastTo] with the event of the notice, up to clock readings. *)
Lemma wp_notice n (Q : result unit → Hub → Prop) h :
  (∀ h1 what mk, quiet h h1 → wire h1 = wire h →
     (∀ h2, ∃ t h3, mk h2 = (notice_event t n, h3) ∧ quiet h2 h3 ∧ wire h3 = wire h2) →
     wp (broadcastTo (notice_game n) mk what) Q h1) →
  wp (broadcastNotice n) Q h.
Proof.
  intros H. destruct n;
    try (refine (wp_bind hub_Now _ Q h _); apply H; [done|done|]; intros h2; by eexists _, h2).
  apply H; [done|done|]. intros h2. by eexists _, _.
Qed.

(** A broadcast reads, sends outside the mutex, and cleans up. *)
Lemma broadcast_steps n h : rtc hub_step h (broadcastNotice n h).2.
Proof.
  apply (wp_notice n (λ _ h', rtc hub_step h h')). intros h1 what mk Hq _ Hmk.
  unfold wp, broadcastTo, mbind, ST_bind, snapshotSubscribers, gets.
  assert (rtc hub_step h h1) as Hs by (by apply rtc_once, quiet_step).
  case_bool_decide; [done|]. destruct (Hmk h1) as (t & h3 & -> & Hq3 & _).
  destruct (json_Event _) as [message|e]; cbn.
  - unfold broadcastSerializedMessage, mbind, ST_bind, rangeClients.
    match goal with |- context [sendAll ?m ?gl ?cl ?f ?h0] =>
      pose proof (sendAll_quiet m gl cl f h0) as Hq4; destruct (sendAll m gl cl f h0) as [fl h4] end.
    cbn in Hq4. pose proof (step_cleanup h4 (notice_game n) fl) as Hc.
    destruct (cleanupFailedConnections (notice_game n) fl h4) as [u h5].
    eapply rtc_r; [|exact Hc]. eapply rtc_r; [exact Hs|]. apply quiet_step.
    etrans; [exact Hq3|exact Hq4].
  - eapply rtc_r; [exact Hs|]. by apply quiet_step.
Qed.

(** ** What a client receives *)

(** The messages written to connection [c]. *)
Definition received (c : Z) (w : list (Z * ConnCall)) : list string :=
  omap (λ '(c', op), if c' =? c then
                       match op with WriteMessage m => Some m | _ => None end
                     else None) w.

(** No call on [c] fails. *)
Definition healthy (c : Z) (h : Hub) : Prop :=
  ∀ i op, wire h !! i = Some (c, op) → conn_result i = None.

(** Client [k] has subscribed to [g] on connection [c], which is its own. *)
Record holds (g : Z) (k : string) (c : Z) (h : Hub) : Prop := {
  holds_here : ∃ s, subscribersOf h g !! k = Some s ∧ conn s = c;
  holds_only g' k' s : subscribersOf h g' !! k' = Some s → conn s = c → g' = g ∧ k' = k;
  holds_once g' : g' ≠ g → subscribersOf h g' !! k = None
}.

Lemma received_app c w w' : received c (w ++ w') = received c w ++ received c w'.
Proof. apply omap_app. Qed.

Lemma healthy_prefix c h h' : healthy c h' → wire h `prefix_of` wire h' → healthy c h.
Proof.
  intros Hh [w Hw] i op Hi. apply (Hh i op). rewrite Hw. by apply lookup_app_l_Some.
Qed.

Lemma holds_quiet g k c h h' : quiet h h' → holds g k c h → holds g k c h'.
Proof.
  intros [Hq _] [H1 H2 H3]. assert (∀ g, subscribersOf h' g = subscribersOf h g) as E.
  { intros g'. unfold subscribersOf. by rewrite Hq. }
  split; [by rewrite E|intros g' k' s; rewrite E; eauto|intros g'; rewrite E; eauto].
Qed.

(** Writes to the wire only append. *)
Lemma sendTo_wire message sub h : ∃ ops,
  wire (sendTo message sub h).2 = wire h ++ ops ∧
  (∀ c, conn sub ≠ c → received c ops = []) ∧
  (healthy (conn sub) (sendTo message sub h).2 →
     (sendTo message sub h).1 = true ∧ received (conn sub) ops = [message]).
Proof.
  unfold sendTo, mbind, ST_bind, hub_Now, call. cbn.
  destruct (conn_result (length (wire h))) as [e|] eqn:E1; cbn.
  - eexists. split; [done|]. split.
    + intros c Hc. cbn. by destruct (Z.eqb_spec (conn sub) c).
    + intros Hh. specialize (Hh (length (wire h))). cbn in Hh.
      rewrite (Hh _ (list_lookup_middle _ _ _ _ eq_refl)) in E1. done.
  - rewrite <-app_assoc. eexists. split; [done|]. split.
    + intros c Hc. cbn. by destruct (Z.eqb_spec (conn sub) c).
    + intros Hh. specialize (Hh (S (length (wire h))) (WriteMessage message)). cbn in Hh.
      rewrite length_app, Nat.add_1_r, Hh.
      * split; [done|]. cbn. by rewrite Z.eqb_refl.
      * rewrite lookup_app_r by lia. by replace (S (length (wire h)) - length (wire h))%nat with 1%nat by lia.
Qed.

Lemma sendAll_wire message globals clients f h :
  wire h `prefix_of` wire (sendAll message globals clients f h).2.
Proof.
  revert f h. induction clients as [|[k sub] clients IH]; intros f h; [done|].
  cbn [sendAll]. unfold mbind, ST_bind. destruct (sendTo_wire message sub h) as (ops & Hw & _).
  destruct (sendTo message sub h) as [sent h1]. cbn in Hw. etrans; [|apply IH].
  rewrite Hw. by apply prefix_app_r.
Qed.

Lemma addFailed_other globals k k' f :
  k' ≠ k → k ∉ failedGame f → k ∉ failedGlobal f →
  k ∉ failedGame (addFailed globals k' f) ∧ k ∉ failedGlobal (addFailed globals k' f).
Proof.
  intros Hne H1 H2. assert (∀ l, k ∉ l → k ∉ l ++ [k']) as Happ.
  { intros l Hl [?|Hin]%elem_of_app; [done|]. by apply list_elem_of_singleton in Hin as ->. }
  unfold addFailed. case_bool_decide; split; cbn; auto.
Qed.

(** Client [k], alone on [c], gets one message when it is among the clients, and is not
    reported. *)
Lemma sendAll_received message globals clients f h k c :
  NoDup clients.*1 →
  (∀ k' s, (k', s) ∈ clients → conn s = c ↔ k' = k) →
  k ∉ failedGame f → k ∉ failedGlobal f →
  healthy c (sendAll message globals clients f h).2 →
  let '(f', h') := sendAll message globals clients f h in
  k ∉ failedGame f' ∧ k ∉ failedGlobal f' ∧
  received c (wire h') =
    received c (wire h) ++ (if bool_decide (k ∈ clients.*1) then [message] else []).
Proof.
  revert f h. induction clients as [|[k' sub] clients IH]; intros f h Hnd Hc Hf1 Hf2 Hh.
  { cbn. by rewrite app_nil_r. }
  cbn [sendAll fmap list_fmap fst] in *. unfold mbind, ST_bind in *.
  apply NoDup_cons in Hnd as [Hk' Hnd].
  destruct (sendTo_wire message sub h) as (ops & Hw & Hne & Heq).
  destruct (sendTo message sub h) as [sent h1] eqn:Es. cbn in Hw, Heq.
  assert (healthy c h1) as Hh1.
  { eapply healthy_prefix; [exact Hh|apply sendAll_wire]. }
  assert (∀ k' s, (k', s) ∈ clients → conn s = c ↔ k' = k) as Hc'.
  { intros k2 s Hin. apply Hc. by apply list_elem_of_further. }
  destruct (decide (k' = k)) as [->|Hne'].
  - assert (conn sub = c) as <- by (apply (Hc k sub); [apply list_elem_of_here|done]).
    destruct (Heq Hh1) as [-> Hr]. specialize (IH f h1 Hnd Hc' Hf1 Hf2 Hh).
    destruct (sendAll message globals clients f h1) as [f' h']. destruct IH as (?&?&E).
    split; [done|]. split; [done|]. rewrite E, Hw, received_app, Hr.
    rewrite bool_decide_false by done. rewrite bool_decide_true by apply list_elem_of_here.
    by rewrite app_nil_r.
  - assert (conn sub ≠ c) as Hcs by (intros E; apply Hne', (Hc k' sub); [apply list_elem_of_here|done]).
    set (f1 := if sent then f else addFailed globals k' f) in *.
    assert (k ∉ failedGame f1 ∧ k ∉ failedGlobal f1) as [Hg1 Hg2].
    { unfold f1. destruct sent; [done|]. by apply addFailed_other. }
    specialize (IH f1 h1 Hnd Hc' Hg1 Hg2 Hh).
    destruct (sendAll message globals clients f1 h1) as [f' h']. destruct IH as (?&?&E).
    split; [done|]. split; [done|]. rewrite E, Hw, received_app, (Hne c Hcs), app_nil_r. f_equal.
    erewrite bool_decide_ext; [reflexivity|]. rewrite elem_of_cons.
    split; [auto|]. by intros [->|].
Qed.

(** *** Other clients are left alone *)

Lemma lookup_remove g' k' h x y :
  subscribersOf (removeClient g' k' h) x !! y =
    if decide (x = g' ∧ y = k') then None else subscribersOf h x !! y.
Proof.
  unfold removeClient. destruct (gameSubscribers h !! g') as [m|] eqn:E.
  - destruct (m !! k') as [s|] eqn:Ek.
    + unfold subscribersOf, set_subscribers; cbn [gameSubscribers].
      destruct (decide (x = g')) as [->|Hx].
      * rewrite lookup_insert_eq, E. simpl. destruct (decide (y = k')) as [->|Hy].
        -- rewrite lookup_delete_eq. by rewrite decide_True.
        -- rewrite lookup_delete_ne by done. rewrite decide_False; [done|]. by intros [_ ?].
      * rewrite lookup_insert_ne by done. rewrite decide_False; [done|]. by intros [? _].
    + case_decide as Hd; [|done]. destruct Hd as [-> ->]. unfold subscribersOf. by rewrite E.
  - case_decide as Hd; [|done]. destruct Hd as [-> ->]. unfold subscribersOf. by rewrite E.
Qed.

Lemma subscribers_drop g' h x : subscribersOf (dropEmpty g' h) x = subscribersOf h x.
Proof.
  unfold dropEmpty. case_bool_decide as Hd; [|done]. unfold subscribersOf, set_subscribers in *; cbn.
  destruct (decide (x = g')) as [->|]; [by rewrite lookup_delete_eq|by rewrite lookup_delete_ne].
Qed.

(** Subscriptions other than that of [k] to [g] may go; [c] gets nothing. *)
Record kept (g : Z) (k : string) (c : Z) (h h' : Hub) : Prop := {
  kept_less x y s : subscribersOf h' x !! y = Some s → subscribersOf h x !! y = Some s;
  kept_here : subscribersOf h' g !! k = subscribersOf h g !! k;
  kept_wire : wire h `prefix_of` wire h';
  kept_received : received c (wire h') = received c (wire h)
}.

#[local] Instance kept_preorder g k c : PreOrder (kept g k c).
Proof.
  split; [by intros h|]. intros h1 h2 h3 [A1 B1 C1 D1] [A2 B2 C2 D2].
  split; [eauto|congruence|by etrans|congruence].
Qed.

Lemma kept_holds g k c h h' : kept g k c h h' → holds g k c h → holds g k c h'.
Proof.
  intros [A B _ _] [H1 H2 H3]. split; [by rewrite B|eauto|].
  intros g' Hg. destruct (subscribersOf h' g' !! k) as [s|] eqn:E; [|done].
  apply A in E. by rewrite H3 in E.
Qed.

Lemma closeClient_kept g k c g' k' h : k' ≠ k → kept g k c h (closeClient g' k' h).2.
Proof.
  intros Hk. unfold closeClient, mbind, ST_bind, get.
  destruct (subscribersOf h g' !! k') as [sub|]; [|done]. unfold call, modify. cbn [snd].
  match goal with |- kept _ _ _ _ (removeClient _ _ ?h1) => set (h1' := h1) end.
  assert (∀ x, subscribersOf h1' x = subscribersOf h x) as E by done.
  split.
  - intros x y s. rewrite lookup_remove, E. by case_decide.
  - rewrite lookup_remove, E, decide_False; [done|]. by intros [_ ->].
  - exists [(conn sub, Close)]. unfold removeClient. by repeat case_match.
  - assert (wire (removeClient g' k' h1') = wire h ++ [(conn sub, Close)]) as ->
      by (unfold removeClient; by repeat case_match).
    rewrite received_app. cbn. by destruct (_ =? c); rewrite app_nil_r.
Qed.

Lemma closeClients_kept g k c g' ks h : k ∉ ks → kept g k c h (for_each ks (closeClient g') h).2.
Proof.
  intros Hk. apply (wp_for_each ks (closeClient g') (kept g k c h)); [done|].
  intros k' h' Hin Hh. unfold wp. etrans; [exact Hh|]. apply closeClient_kept. by intros ->.
Qed.

Lemma dropEmpty_kept g k c g' h : kept g k c h (dropEmpty g' h).
Proof.
  split.
  - intros x y s. by rewrite subscribers_drop.
  - by rewrite subscribers_drop.
  - unfold dropEmpty. by case_bool_decide.
  - unfold dropEmpty. by case_bool_decide.
Qed.

Lemma cleanup_kept g k c g' f h :
  k ∉ failedGame f → k ∉ failedGlobal f → kept g k c h (cleanupFailedConnections g' f h).2.
Proof.
  intros H1 H2. unfold cleanupFailedConnections.
  assert (kept g k c h ((_ ← for_each (failedGame f) (closeClient g'); _ ← modify (dropEmpty g');
    for_each (failedGlobal f) (closeClient GlobalGameID)) h).2) as Hall.
  { unfold mbind, ST_bind, modify. pose proof (closeClients_kept g k c g' _ h H1) as K1.
    destruct (for_each (failedGame f) (closeClient g') h) as [u h1].
    etrans; [exact K1|]. etrans; [apply dropEmpty_kept|]. by apply closeClients_kept. }
  destruct (failedGame f), (failedGlobal f); done.
Qed.

Lemma cleanup_wire g' f h : wire h `prefix_of` wire (cleanupFailedConnections g' f h).2.
Proof.
  destruct (exist_fresh (list_to_set (failedGame f ++ failedGlobal f) : gset string)) as [k Hk].
  rewrite elem_of_list_to_set, elem_of_app in Hk.
  apply (kept_wire 0 k 0). apply cleanup_kept; tauto.
Qed.

(** *** One broadcast *)

Context `{!ClientPerm HE}.

Lemma rangeClients_spec m h :
  NoDup (rangeClients m h).1.*1 ∧
  (∀ k s, (k, s) ∈ (rangeClients m h).1 ↔ m !! k = Some s) ∧
  (∀ k, k ∈ (rangeClients m h).1.*1 ↔ is_Some (m !! k)).
Proof.
  unfold rangeClients; cbn [fst]. set (l := clientOrder _ _).
  assert (∀ k, k ∈ l ↔ is_Some (m !! k)) as Hl.
  { intros k. unfold l. rewrite client_perm, list_elem_of_fmap. split.
    - intros ([k' s] & -> & Hin%elem_of_map_to_list). by eexists.
    - intros [s Hs]. exists (k, s). split; [done|]. by apply elem_of_map_to_list. }
  assert ((omap (λ k, (λ s, (k, s)) <$> m !! k) l).*1 = l) as Hf.
  { assert (∀ k, k ∈ l → is_Some (m !! k)) as Hs by (intros k; apply Hl). clear Hl.
    induction l as [|k l' IH]; [done|]. cbn.
    destruct (Hs k ltac:(apply list_elem_of_here)) as [s ->]. cbn. f_equal. apply IH.
    intros k' Hk'. apply Hs. by apply list_elem_of_further. }
  rewrite Hf. split; [|split; [|exact Hl]].
  - unfold l. rewrite client_perm. apply NoDup_fst_map_to_list.
  - intros k s. rewrite list_elem_of_omap. split.
    + intros (k' & _ & E). destruct (m !! k') eqn:Em; [|done]. by injection E as -> ->.
    + intros Hs. exists k. split; [apply Hl; by eexists|]. by rewrite Hs.
Qed.

(** A client of [g] is concerned by what is about [g]; a global one by everything. *)
Definition concerns (g : Z) (g' : Z) : bool := (g =? GlobalGameID) || (g =? g').

Lemma snapshot_client g k c g' h :
  holds g k c h →
  let all := subscribersOf h GlobalGameID ∪ subscribersOf h g' in
  (is_Some (all !! k) ↔ concerns g g' = true) ∧
  (∀ k' s, all !! k' = Some s → conn s = c ↔ k' = k).
Proof.
  intros [(s0 & H1 & Hc) H2 H3] all. split.
  - unfold all, concerns. rewrite lookup_union_is_Some, orb_true_iff, !Z.eqb_eq.
    assert (∀ x, is_Some (subscribersOf h x !! k) ↔ g = x) as Hx; [|by rewrite !Hx].
    intros x. split; [|intros ->; by eexists].
    intros [s Hs]. destruct (decide (x = g)) as [->|Hne]; [done|]. by rewrite H3 in Hs.
  - intros k' s Hs. apply lookup_union_Some_raw in Hs.
    assert (∃ x, subscribersOf h x !! k' = Some s) as [x Hx].
    { destruct Hs as [Hs|[_ Hs]]; by eexists. }
    split; [intros E; by apply (H2 _ _ _ Hx)|]. intros ->.
    destruct (decide (x = g)) as [->|Hne]; [congruence|]. by rewrite H3 in Hx.
Qed.

(** What is sent for an event: nothing when encoding/json refuses it. *)
Definition encoded (e : Event) : option string :=
  match json_Event e with Ok message => Some message | Err _ => None end.

Lemma broadcastTo_received g k c g' mk what h (ev : Z → Event) :
  holds g k c h →
  (∀ h2, ∃ t h3, mk h2 = (ev t, h3) ∧ quiet h2 h3 ∧ wire h3 = wire h2) →
  healthy c (broadcastTo g' mk what h).2 →
  holds g k c (broadcastTo g' mk what h).2 ∧
  ∃ t, received c (wire (broadcastTo g' mk what h).2) =
    received c (wire h) ++ (if concerns g g' then option_list (encoded (ev t)) else []).
Proof.
  intros Hh Hmk. destruct (snapshot_client g k c g' h Hh) as [Hin Honly].
  destruct (Hmk h) as (t & h1 & Em & Hq1 & Hw1).
  unfold broadcastTo, mbind, ST_bind, snapshotSubscribers, gets.
  case_bool_decide as Hemp.
  { intros _. split; [done|]. exists t.
    rewrite Hemp, lookup_empty in Hin. destruct (concerns g g'); [|by rewrite app_nil_r].
    by destruct (proj2 Hin eq_refl). }
  rewrite Em. destruct (json_Event (ev t)) as [message|e] eqn:Ej.
  2: { intros _. split; [by eapply holds_quiet|]. exists t. unfold encoded. rewrite Ej.
       unfold mret, ST_ret. cbn [snd]. rewrite Hw1.
       by destruct (concerns g g'); rewrite app_nil_r. }
  unfold broadcastSerializedMessage, mbind, ST_bind.
  set (all := subscribersOf h GlobalGameID ∪ subscribersOf h g') in *.
  destruct (rangeClients_spec all h1) as (Hnd & Helem & Hkeys).
  assert (quiet h1 (rangeClients all h1).2 ∧ wire (rangeClients all h1).2 = wire h1) as [Hq2 Hw2]
    by done.
  destruct (rangeClients all h1) as [clients h2]. cbn [fst snd] in *.
  pose proof (sendAll_received message (dom (subscribersOf h GlobalGameID)) clients
    (mkFailed [] []) h2 k c Hnd) as Hs.
  pose proof (sendAll_quiet message (dom (subscribersOf h GlobalGameID)) clients
    (mkFailed [] []) h2) as Hq3.
  destruct (sendAll _ _ clients _ h2) as [f h3]. cbn [fst snd] in *. intros Hhealthy.
  destruct (cleanupFailedConnections g' f h3) as [u h4] eqn:Ec.
  unfold mret, ST_ret in *. cbn [snd] in *.
  assert (h4 = (cleanupFailedConnections g' f h3).2) as E4 by (by rewrite Ec).
  assert (healthy c h3) as Hhealthy3.
  { eapply healthy_prefix; [exact Hhealthy|]. rewrite E4. apply cleanup_wire. }
  destruct Hs as (Hf1 & Hf2 & Hr); [|apply not_elem_of_nil|apply not_elem_of_nil|exact Hhealthy3|].
  { intros k' s Hks. by apply (Honly k' s), Helem. }
  pose proof (cleanup_kept g k c g' f h3 Hf1 Hf2) as Hkept. rewrite <-E4 in Hkept. split.
  - eapply kept_holds; [exact Hkept|]. eapply holds_quiet; [|exact Hh].
    etrans; [exact Hq1|]. etrans; [exact Hq2|exact Hq3].
  - exists t. unfold encoded. rewrite Ej, (kept_received _ _ _ _ _ Hkept), Hr, Hw2, Hw1. f_equal.
    rewrite <-Hkeys in Hin. destruct (concerns g g').
    + by rewrite bool_decide_true by (by apply Hin).
    + rewrite bool_decide_false; [done|]. by intros E%Hin.
Qed.

Lemma broadcastTo_wire g' mk what h (ev : Z → Event) :
  (∀ h2, ∃ t h3, mk h2 = (ev t, h3) ∧ quiet h2 h3 ∧ wire h3 = wire h2) →
  wire h `prefix_of` wire (broadcastTo g' mk what h).2.
Proof.
  intros Hmk. unfold broadcastTo, mbind, ST_bind, snapshotSubscribers, gets.
  case_bool_decide; [done|]. destruct (Hmk h) as (t & h1 & -> & _ & Hw1).
  destruct (json_Event (ev t)) as [message|e]; [|by rewrite <-Hw1].
  unfold broadcastSerializedMessage, mbind, ST_bind, rangeClients.
  match goal with |- context [sendAll ?m ?gl ?cl ?f ?h0] =>
    pose proof (sendAll_wire m gl cl f h0) as Hw; destruct (sendAll m gl cl f h0) as [fl h3] end.
  pose proof (cleanup_wire g' fl h3) as Hc. destruct (cleanupFailedConnections g' fl h3) as [u h4].
  cbn in *. rewrite <-Hw1. by etrans.
Qed.

Lemma onEffect_wire e h : wire h `prefix_of` wire (onEffect e h).2.
Proof.
  destruct e as [n|]; [|done]. unfold onEffect, mbind, ST_bind.
  assert (wire h `prefix_of` wire (broadcastNotice n h).2) as H.
  { apply (wp_notice n (λ _ h', wire h `prefix_of` wire h')). intros h1 what mk _ Hw Hmk.
    unfold wp. rewrite <-Hw. by apply (broadcastTo_wire _ _ _ _ (λ t, notice_event t n)). }
  by destruct (broadcastNotice n h).
Qed.

Lemma broadcastAll_wire effects h : wire h `prefix_of` wire (broadcastAll effects h).2.
Proof.
  apply (wp_for_each effects onEffect (λ h', wire h `prefix_of` wire h')); [done|].
  intros e h' _ Hw. unfold wp. etrans; [exact Hw|apply onEffect_wire].
Qed.

Definition noticed (e : Effect) : option Notice :=
  match e with Broadcast n => Some n | _ => None end.

Lemma notice_received g k c n h :
  holds g k c h → healthy c (onEffect (Broadcast n) h).2 →
  holds g k c (onEffect (Broadcast n) h).2 ∧
  ∃ t, received c (wire (onEffect (Broadcast n) h).2) = received c (wire h) ++
    (if concerns g (notice_game n) then option_list (encoded (notice_event t n)) else []).
Proof.
  intros Hh. unfold onEffect, mbind, ST_bind.
  assert (wp (broadcastNotice n) (λ _ h', healthy c h' → holds g k c h' ∧
    ∃ t, received c (wire h') = received c (wire h) ++
      (if concerns g (notice_game n) then option_list (encoded (notice_event t n)) else [])) h)
    as H.
  { apply wp_notice. intros h1 what mk Hq Hw Hmk. unfold wp. intros Hhl.
    destruct (broadcastTo_received g k c (notice_game n) mk what h1 (λ t, notice_event t n))
      as [? ?]; [by eapply holds_quiet|done|done|]. by rewrite <-Hw. }
  unfold wp in H. by destruct (broadcastNotice n h).
Qed.

(** C35: a client whose connection never fails gets the broadcasts of its game (all of them
    when it is global), each exactly once and in order, over any trace of broadcasts run one
    after another: what is written to its connection is, notice by notice, the JSON of the
    event announced, and nothing for an event that encoding/json refuses; and it stays
    subscribed.  Broadcasts that overlap are not covered ([writes_overlap]). *)
Theorem subscriber_receives g k c effects h :
  holds g k c h → healthy c (broadcastAll effects h).2 →
  holds g k c (broadcastAll effects h).2 ∧
  ∃ sent, received c (wire (broadcastAll effects h).2) = received c (wire h) ++ omap id sent ∧
    Forall2 (λ n m, ∃ t, m = encoded (notice_event t n))
      (filter (λ n, concerns g (notice_game n) = true) (omap noticed effects)) sent.
Proof.
  intros Hh. revert h Hh. induction effects as [|e effects IH]; intros h Hh Hhl.
  { split; [done|]. exists []. split; [by rewrite app_nil_r|constructor]. }
  change (broadcastAll (e :: effects) h) with ((_ ← onEffect e; broadcastAll effects) h) in *.
  unfold mbind, ST_bind in *.
  assert (healthy c (onEffect e h).2) as H1.
  { eapply healthy_prefix; [exact Hhl|]. destruct (onEffect e h) as [u h1].
    apply broadcastAll_wire. }
  destruct e as [n|m k']; [|by apply IH].
  destruct (notice_received g k c n h Hh H1) as (Hh1 & t & Er).
  destruct (onEffect (Broadcast n) h) as [u h1]. cbn [fst snd] in *.
  destruct (IH h1 Hh1 Hhl) as (Hh2 & sent & Er2 & Hf). split; [done|].
  exists ((if concerns g (notice_game n) then [encoded (notice_event t n)] else []) ++ sent).
  split.
  - rewrite Er2, Er, <-app_assoc. f_equal. rewrite omap_app. f_equal.
    destruct (concerns g (notice_game n)); [|done]. by destruct (encoded _).
  - cbn [omap list_omap noticed]. rewrite filter_cons.
    destruct (concerns g (notice_game n)) eqn:Ec.
    + rewrite decide_True by done. constructor; [by exists t|done].
    + by rewrite decide_False.
Qed.
End Spec.

(** ** Broadcasts under way *)

Section Overlap.
Import Sending.
Context `{HE : HubEnv}.

(** A task that moves alone does what the loop of a broadcast does. *)
Lemma task_alone clients g m gl f h ts1 ts2 :
  ∃ t, task_todo t = [] ∧ task_game t = g ∧ task_failed t = (sendAll m gl clients f h).1 ∧
    rtc sys_step (h, ts1 ++ mkTask g m gl clients f None :: ts2)
      ((sendAll m gl clients f h).2, ts1 ++ t :: ts2).
Proof.
  revert f h. induction clients as [|[k sub] clients IH]; intros f h.
  { eexists. split; [|split; [|split; [|apply rtc_refl]]]; done. }
  cbn [sendAll]. unfold mbind, ST_bind.
  assert (∃ h', (sendTo m sub h).2 = h' ∧
    rtc sys_step (h, ts1 ++ mkTask g m gl ((k, sub) :: clients) f None :: ts2)
      (h', ts1 ++ mkTask g m gl clients
        (if (sendTo m sub h).1 then f else addFailed gl k f) None :: ts2)) as (h' & Eh & Hr).
  { eexists. split; [reflexivity|].
    unfold sendTo, mbind, ST_bind. destruct (hub_Now h) as [now h1] eqn:En.
    destruct (call (conn sub) (SetWriteDeadline (now + websocketWriteDeadline)) h1)
      as [[e|] h2] eqn:Ed.
    - apply rtc_once, sys_move; [done|]. cbn. unfold beginWrite, mbind, ST_bind. by rewrite En, Ed.
    - destruct (call (conn sub) (WriteMessage m) h2) as [r h3] eqn:Ew. eapply rtc_l.
      + apply sys_move; [done|]. cbn. unfold beginWrite, mbind, ST_bind. by rewrite En, Ed.
      + apply rtc_once, sys_move; [done|]. cbn. unfold endWrite, mbind, ST_bind.
        cbn [task_message task_game task_globals task_failed]. rewrite Ew. by destruct r. }
  destruct (sendTo m sub h) as [sent h1]. cbn in Eh, Hr. subst h'.
  destruct (IH (if sent then f else addFailed gl k f) h1) as (t & ? & ? & ? & Hr').
  exists t. split; [done|]. split; [done|]. split; [done|]. by etrans.
Qed.
End Overlap.

Module BroadcastRun.
Import Sending.

(** The JSON of an event is its type, a game created after the year 9999 has none, and no
    call fails. *)
#[local] Instance healthy_env : HubEnv := {|
  hub_clock := Z.of_nat; FormatRFC3339 := FormatInt; FormatRFC3339Nano := FormatInt;
  json_Event e := match e with
    | CreatedEvent t _ _ _ _ | ReleasedEvent t _ _ _ | errorMessage t _ _ _ => Ok t
    | GameStateUpdateEvent t _ _ g | syncResponseMessage t _ g =>
        if 253402300800 * 10 ^ 9 <=? Game.CreatedAt g
        then Err (ENew "Time.MarshalJSON: year outside of range [0,9999]") else Ok t
    end;
  conn_result _ := None; clientOrder _ l := l; gameOrder _ l := l |}.

#[local] Instance healthy_perm : ClientPerm healthy_env.
Proof. by split. Defined.

Definition h1 : Hub := (Subscribe 7 "a" 1 NewGameBroadcastUseCase).2.
Definition h2 : Hub := (Subscribe 0 "b" 2 h1).2.

Lemma new_ok : hub_ok NewGameBroadcastUseCase.
Proof. split; [done|]. intros g m H. change (gameSubscribers NewGameBroadcastUseCase) with (∅ : gmap Z (gmap string subscriber)) in H. by rewrite lookup_empty in H. Qed.

Lemma hub_invariant_witness : hub_ok NewGameBroadcastUseCase ∧ hub_ok (Unsubscribe 7 "a" h2).2.
Proof.
  split; [apply new_ok|]. apply (hub_invariant NewGameBroadcastUseCase); [apply new_ok|].
  eapply rtc_l; [by apply (step_subscribe _ 7 "a" 1)|].
  eapply rtc_l; [by apply (step_subscribe _ 0 "b" 2)|]. apply rtc_once, step_unsubscribe.
Defined.

Definition far_game : Game.t :=
  Game.mk 7 1 "EQalice" None 1 None None None 1000 None None 0 0 0 0 0 0 1 EmptyString
    (253402300800 * 10 ^ 9) None None None "init" None None None.

Definition trace : list Effect :=
  [ Broadcast (ReservationReleased 7 "expired"); Broadcast (GameUpdate far_game EmptyString); Measure JoinLock RecordExpired;
    Broadcast (CancelReservationReleased 8 "expired"); Broadcast (ExpiredClaimReleased 7 "done") ].

Lemma h2_holds : holds 7 "a" 1 h2.
Proof.
  split.
  - by exists (mkSubscriber "a" 1).
  - intros g k s H Hc. apply lookup_subscribers in H as (m & Hm & Hk & _).
    unfold h2, h1, Subscribe, modify in Hm. cbn in Hm.
    apply lookup_insert_Some in Hm as [[<- <-]|[_ Hm]].
    + apply lookup_insert_Some in Hk as [[_ <-]|[_ Hk]]; [done|]. by vm_compute in Hk.
    + apply lookup_insert_Some in Hm as [[<- <-]|[_ Hm]]; [|by rewrite lookup_empty in Hm].
      apply lookup_insert_Some in Hk as [[<- _]|[_ Hk]]; [done|]. by vm_compute in Hk.
  - intros g Hg. destruct (decide (g = 0)) as [->|H0]; [done|].
    unfold subscribersOf, h2, h1, Subscribe, modify. cbn.
    by rewrite !lookup_insert_ne, lookup_empty by done.
Qed.

Lemma subscriber_receives_witness :
  received 1 (wire (broadcastAll trace h2).2) =
    ["reservation_released"; "expired_claim_released"] ∧
  holds 7 "a" 1 (broadcastAll trace h2).2 ∧
  ∃ sent, received 1 (wire (broadcastAll trace h2).2) = received 1 (wire h2) ++ omap id sent ∧
    Forall2 (λ n m, ∃ t, m = encoded (notice_event t n))
      (filter (λ n, concerns 7 (notice_game n) = true) (omap noticed trace)) sent.
Proof.
  split; [vm_compute; reflexivity|].
  apply subscriber_receives; [apply h2_holds|]. intros i op _. reflexivity.
Defined.

(** Two broadcasts about game 7, each of which begins to write to its client. *)
Definition s1 : Task * Hub := startTask 7 "x" h1.
Definition s2 : Task * Hub := startTask 7 "y" s1.2.
Definition s3 : Task * Hub := moveTask s1.1 s2.2.
Definition s4 : Task * Hub := moveTask s2.1 s3.2.

(** Two broadcasts can be writing to the same connection at the same time: messages are sent
    outside the mutex of the hub, and a connection supports one writer. *)
Theorem writes_overlap :
  rtc sys_step (NewGameBroadcastUseCase, []) (s4.2, [s3.1; s4.1]) ∧
  task_writing s3.1 = Some 1 ∧ task_writing s4.1 = Some 1.
Proof.
  split; [|split; vm_compute; reflexivity].
  apply (rtc_l _ _ (h1, [])); [apply sys_hub; left; by exists 7, "a", 1|].
  apply (rtc_l _ _ (s1.2, [s1.1])); [by apply (sys_start _ _ [] _ 7 "x")|].
  apply (rtc_l _ _ (s2.2, [s1.1; s2.1])); [by apply (sys_start _ _ [_] _ 7 "y")|].
  apply (rtc_l _ _ (s3.2, [s3.1; s2.1])); [by apply (sys_move _ _ [] _ _ [_])|].
  apply rtc_once. by apply (sys_move _ _ [_] _ _ []).
Qed.
End BroadcastRun.
