(* ===== verification/GameSocket.v ===== *)
(** * The WebSocket endpoint of the clients

    internal/controller/websocket/game_ws_handler.go: a connection subscribes, answers
    [sync_request] frames until reading fails, and unsubscribes. Frames that arrive are an
    argument; what is written goes to the hub's [wire]. *)
From S2P Require Import Prelude GoTypes Entity World Repo Broadcast BroadcastSpec.
Import GameBroadcast.

Definition websocketMessageSyncRequest : string := "sync_request".
Definition websocketMessageSyncResponse : string := "sync_response".
Definition websocketMessageError : string := "error".
Definition websocketErrorInvalidJSON : string := "invalid_message_json".
Definition websocketErrorUnsupportedType : string := "unsupported_message_type".
Definition websocketErrorSyncUnavailable : string := "sync_unavailable".
Definition websocketPingInterval : Z := 30 * 10 ^ 9.
Definition websocketPongWait : Z := 60 * 10 ^ 9.
Definition TextMessage : Z := 1.

Record clientMessage := mkClientMessage { Type' : string; LastEventTimestamp : string }.

(** uuid.New and encoding/json. *)
Class SocketEnv := {
  uuid_New : nat → string;                      (* the n-th identifier *)
  json_clientMessage : string → result clientMessage
}.
Class FreshIds (SE : SocketEnv) : Prop := uuid_inj : Inj (=) (=) uuid_New.

(** The service as the endpoint sees it; [ids] counts the identifiers handed out. *)
Record Site := mkSite { site_world : World; site_hub : Hub; site_ids : nat }.

Definition S := ST Site.
#[export] Instance S_ret : MRet S := ST_ret.
#[export] Instance S_bind : MBind S := ST_bind.

Definition onWorld {A} (m : M A) : S A :=
  zoom site_world (λ w s, mkSite w (site_hub s) (site_ids s)) m.
Definition onHub {A} (m : ST Hub A) : S A :=
  zoom site_hub (λ h s, mkSite (site_world s) h (site_ids s)) m.

Module GameWebSocketHandler.
Section Handler.
Context `{E : Env} `{GameRepository} `{HE : HubEnv} `{SE : SocketEnv}.

Record t := mk { pingInterval : Z; pongWait : Z }.
Definition NewGameWebSocketHandler : t := mk websocketPingInterval websocketPongWait.

Definition newServerTimestamp : ST Hub string := now ← hub_Now; mret (FormatRFC3339Nano now).

Definition parseClientMessage (message : string) : result clientMessage :=
  json_clientMessage message.

Definition newSyncResponseMessage (game : Game.t) : ST Hub Event :=
  ts ← newServerTimestamp; mret (syncResponseMessage websocketMessageSyncResponse ts game).
Definition newErrorMessage (code message : string) : ST Hub Event :=
  ts ← newServerTimestamp; mret (errorMessage websocketMessageError ts code message).

Definition writeServerMessage (conn : Z) (payload : Event) : ST Hub (option error) :=
  match json_Event payload with
  | Err e => mret (Some e)
  | Ok message => call conn (WriteMessage message)
  end.

Definition sendWebSocketError (conn : Z) (code message : string) : ST Hub (option error) :=
  e ← newErrorMessage code message; writeServerMessage conn e.

Definition isTextWebSocketMessage (messageType : Z) : bool := messageType =? TextMessage.

(** The pong handler has no effect before a pong; the ticker is [Ping] below. *)
Definition prepareConnection (h : t) (conn : Z) : ST Hub (option error) :=
  now ← hub_Now; call conn (SetReadDeadline (now + pongWait h)).

(** [uuid.New().String()] *)
Definition newId : S string := λ s,
  (uuid_New (site_ids s), mkSite (site_world s) (site_hub s) (Datatypes.S (site_ids s))).

(** [local] is the game that UpgradeCheck stored. *)
Definition openGameConnection (conn : Z) (local : option Z) : S (option (Z * string)) :=
  match local with
  | None => _ ← onHub (call conn Close); mret None
  | Some gameID =>
      clientID ← newId;
      _ ← onHub (Subscribe gameID clientID conn);
      mret (Some (gameID, clientID))
  end.

Definition openGlobalConnection (conn : Z) : S string :=
  clientID ← newId; _ ← onHub (Subscribe 0 clientID conn); mret clientID.

(** Frames until reading fails; both kinds of failure only end the loop. *)
Definition readConnectionMessages (frames : list (Z * string)) (onMessage : Z → string → S unit) :
    S unit :=
  for_each frames (λ frame, onMessage frame.1 frame.2).

(** The error of a failed write is logged. *)
Definition writeErrorMessage (conn : Z) (code message : string) : S unit :=
  _ ← onHub (sendWebSocketError conn code message); mret tt.

Definition handleSyncRequest (conn gameID : Z) : S unit :=
  game ← onWorld (GetByID gameID);
  match game with
  | Ok (Some game) =>
      payload ← onHub (newSyncResponseMessage game);
      _ ← onHub (writeServerMessage conn payload); mret tt
  | _ => writeErrorMessage conn websocketErrorSyncUnavailable "unable to load current game state"
  end.

Definition handleClientMessage (conn gameID messageType : Z) (message : string) : S unit :=
  if negb (isTextWebSocketMessage messageType) then mret tt
  else
    match parseClientMessage message with
    | Err _ => writeErrorMessage conn websocketErrorInvalidJSON "message must be valid JSON"
    | Ok clientMsg =>
        if bool_decide (Type' clientMsg = websocketMessageSyncRequest) then
          handleSyncRequest conn gameID
        else writeErrorMessage conn websocketErrorUnsupportedType
               "unsupported websocket message type"
    end.

Definition handleGlobalClientMessage (conn messageType : Z) (message : string) : S unit :=
  if negb (isTextWebSocketMessage messageType) then mret tt
  else
    match parseClientMessage message with
    | Err _ => writeErrorMessage conn websocketErrorInvalidJSON "message must be valid JSON"
    | Ok _ => writeErrorMessage conn websocketErrorUnsupportedType
                "global websocket is broadcast-only"
    end.

(** The deferred [Unsubscribe] runs on every return after the subscription. *)
Definition HandleConnection (h : t) (conn : Z) (local : option Z) (frames : list (Z * string)) :
    S unit :=
  opened ← openGameConnection conn local;
  match opened with
  | None => mret tt
  | Some (gameID, clientID) =>
      err ← onHub (prepareConnection h conn);
      _ ← match err with
          | Some _ => mret tt
          | None => readConnectionMessages frames (handleClientMessage conn gameID)
          end;
      onHub (Unsubscribe gameID clientID)
  end.

Definition HandleGlobalConnection (h : t) (conn : Z) (frames : list (Z * string)) : S unit :=
  clientID ← openGlobalConnection conn;
  err ← onHub (prepareConnection h conn);
  _ ← match err with
      | Some _ => mret tt
      | None => readConnectionMessages frames (handleGlobalClientMessage conn)
      end;
  onHub (Unsubscribe 0 clientID).

(** What a request to open a connection is answered; [Panics] is a nil game. *)
Inductive Upgrade :=
| UpgradeRequired
| Refused (status : Z) (message : string)
| Next (gameID : option Z)
| Panics.

Definition UpgradeCheck (isUpgrade : bool) (gameIDStr : string) : M Upgrade :=
  if negb isUpgrade then mret UpgradeRequired
  else
    match ParseInt gameIDStr with
    | None => mret (Refused 400 "invalid game ID")
    | Some gameID =>
        if gameID <=? 0 then mret (Refused 400 "invalid game ID")
        else
          game ← GetByID gameID;
          mret match game with
               | Err _ => Refused 404 "game not found"
               | Ok None => Panics
               | Ok (Some game) => Next (Some (Game.GameID game))
               end
    end.

Definition GlobalUpgradeCheck (isUpgrade : bool) : Upgrade :=
  if isUpgrade then Next None else UpgradeRequired.

Definition GetConnectionCount : ST Hub Z := GetActiveConnectionCount.
Definition Shutdown : ST Hub (result unit) := CloseAllConnections.
End Handler.
End GameWebSocketHandler.

(** ** The goroutine that pings *)

Module Ping.
(** [ticker] runs until the handler stops it; [done] is closed by the goroutine itself. *)
Record t := mk { ticker : bool; done_closed : bool; running : bool }.

Definition startPingLoop : t := mk true false true.

Inductive step : t → t → Prop :=
| ping_sent d : step (mk true d true) (mk true d true)
| ping_failed tk d : tk = true → step (mk tk d true) (mk tk true false)
| ping_done tk : step (mk tk true true) (mk tk true false)
| handler_returns d r : step (mk true d r) (mk false d r).
End Ping.
