(* ===== verification/GameSocketSpec.v ===== *)
(** * What a client's connection promises *)
From S2P Require Import Prelude GoTypes Entity World Repo Broadcast BroadcastSpec GameSocket.
Import GameBroadcast GameWebSocketHandler.

(** The hub is well formed, and its clients hold identifiers that were handed out. *)
Record site_ok `{SE : SocketEnv} (s : Site) : Prop := {
  site_hub_ok : hub_ok (site_hub s);
  site_clients g k : is_Some (subscribersOf (site_hub s) g !! k) →
    ∃ i, (i < site_ids s)%nat ∧ k = uuid_New i
}.

(** Nothing changed but readings and what was written. *)
Record undisturbed (s s' : Site) : Prop := {
  und_hub : quiet (site_hub s) (site_hub s');
  und_ids : site_ids s' = site_ids s;
  und_world : later (site_world s) (site_world s')
}.

#[export] Instance undisturbed_preorder : PreOrder undisturbed.
Proof.
  split; [by intros s|]. intros s1 s2 s3 [[A1 B1] C1 D1] [[A2 B2] C2 D2].
  split; [split|..]; [congruence..|by etrans].
Qed.

Section Spec.
Context `{E : Env} `{R : GameRepository} `{RL : !GameRepositoryLaws E R}.
Context `{HE : HubEnv} `{SE : SocketEnv} `{FI : !FreshIds SE}.

(** The event that answers a text frame of a client of [gameID], when the game is read in [w]. *)
Definition reply (w : World) (gameID : Z) (message : string) (ev : Event) : Prop :=
  ∃ ts, ev =
    match json_clientMessage message with
    | Err _ => errorMessage websocketMessageError ts websocketErrorInvalidJSON
                 "message must be valid JSON"
    | Ok m =>
        if bool_decide (Type' m = websocketMessageSyncRequest) then
          match (GetByID gameID w).1 with
          | Ok (Some game) => syncResponseMessage websocketMessageSyncResponse ts game
          | _ => errorMessage websocketMessageError ts websocketErrorSyncUnavailable
                   "unable to load current game state"
          end
        else errorMessage websocketMessageError ts websocketErrorUnsupportedType
               "unsupported websocket message type"
    end.

(** [texts] were written to [c], whether or not the writes succeeded, and nothing else
    changed. *)
Definition wrote (c : Z) (s s' : Site) (texts : list string) : Prop :=
  undisturbed s s' ∧ received c (wire (site_hub s')) = received c (wire (site_hub s)) ++ texts.

Lemma wrote_trans c s1 s2 s3 t1 t2 :
  wrote c s1 s2 t1 → wrote c s2 s3 t2 → wrote c s1 s3 (t1 ++ t2).
Proof. intros [U1 R1] [U2 R2]. split; [by etrans|]. by rewrite R2, R1, app_assoc. Qed.

(** The write of an event that carries the time it is sent at; nothing is written when it
    cannot be encoded. *)
Lemma written c s (mk : ST Hub Event) (ev : Z → Event) :
  (∀ h, ∃ t, mk h = (ev t, (hub_Now h).2)) →
  ∃ t, wrote c s ((e ← onHub mk; _ ← onHub (writeServerMessage c e); mret tt) s).2
         (option_list (encoded (ev t))).
Proof.
  intros Hmk. destruct (Hmk (site_hub s)) as [t Ht]. exists t.
  unfold mbind, S_bind, ST_bind, onHub, zoom. rewrite Ht. unfold writeServerMessage, encoded.
  cbn [site_hub]. destruct (json_Event (ev t)) as [text|e].
  - split; [done|]. unfold call, mret, S_ret, ST_ret. cbn [site_hub wire snd hub_Now].
    rewrite received_app. cbn. by rewrite Z.eqb_refl.
  - split; [done|]. by rewrite app_nil_r.
Qed.

Lemma error_written c s code message :
  ∃ t, wrote c s (writeErrorMessage c code message s).2
         (option_list (encoded (errorMessage websocketMessageError t code message))).
Proof.
  destruct (written c s (newErrorMessage code message)
    (λ t, errorMessage websocketMessageError (FormatRFC3339Nano t) code message))
    as (t & Hw); [by intros h; eexists|].
  exists (FormatRFC3339Nano t).
  unfold writeErrorMessage, sendWebSocketError.
  unfold mbind, S_bind, ST_bind, onHub, zoom in *.
  by destruct (newErrorMessage code message (site_hub s)) as [ev h1].
Qed.

Lemma sync_answered c gameID s :
  ∃ ts, wrote c s (handleSyncRequest c gameID s).2
    (option_list (encoded match (GetByID gameID (site_world s)).1 with
      | Ok (Some game) => syncResponseMessage websocketMessageSyncResponse ts game
      | _ => errorMessage websocketMessageError ts websocketErrorSyncUnavailable
               "unable to load current game state"
      end)).
Proof.
  unfold handleSyncRequest, mbind at 1, S_bind at 1, ST_bind at 1, onWorld at 1, zoom at 1.
  pose proof (GetByID_quiet (E := E) gameID (site_world s)) as Hq.
  destruct (GetByID gameID (site_world s)) as [game w1]. cbn [fst snd] in *.
  set (s1 := mkSite w1 (site_hub s) (site_ids s)).
  assert (wrote c s s1 []) as H1 by (split; [by split|by rewrite app_nil_r]).
  assert (∀ s2 texts, wrote c s1 s2 texts → wrote c s s2 texts) as Hthen
    by (intros s2 texts H2; exact (wrote_trans _ _ _ _ _ _ H1 H2)).
  destruct game as [[game|]|e].
  - destruct (written c s1 (newSyncResponseMessage game)
      (λ t, syncResponseMessage websocketMessageSyncResponse (FormatRFC3339Nano t) game))
      as (t & Hw); [by intros h; eexists|]. eauto.
  - destruct (error_written c s1 websocketErrorSyncUnavailable "unable to load current game state")
      as (t & Hw). eauto.
  - destruct (error_written c s1 websocketErrorSyncUnavailable "unable to load current game state")
      as (t & Hw). eauto.
Qed.

Lemma frame_answered c gameID message s :
  ∃ ev, reply (site_world s) gameID message ev ∧
    wrote c s (handleClientMessage c gameID TextMessage message s).2 (option_list (encoded ev)).
Proof.
  unfold handleClientMessage. change (negb (isTextWebSocketMessage TextMessage)) with false.
  unfold reply, parseClientMessage. cbn iota. destruct (json_clientMessage message) as [m|e].
  - case_bool_decide.
    + destruct (sync_answered c gameID s) as (ts & Hw). eauto 6.
    + destruct (error_written c s websocketErrorUnsupportedType
        "unsupported websocket message type") as (t & Hw). eauto 6.
  - destruct (error_written c s websocketErrorInvalidJSON "message must be valid JSON")
      as (t & Hw). eauto 6.
Qed.

(** The answers to the text frames of a connection to [gameID], frame by frame; a frame
    whose answer cannot be encoded gets none. *)
Definition answered (w0 : World) (gameID : Z) (frames : list (Z * string))
    (answers : list (option string)) : Prop :=
  Forall2 (λ frame m, ∃ w ev, later w0 w ∧ reply w gameID frame.2 ev ∧ m = encoded ev)
    (filter (λ frame, isTextWebSocketMessage frame.1 = true) frames) answers.

(** Text frames are answered in order, frames of other types are ignored. *)
Lemma frames_answered c gameID frames s :
  ∃ answers,
    wrote c s (readConnectionMessages frames (handleClientMessage c gameID) s).2 (omap id answers) ∧
    answered (site_world s) gameID frames answers.
Proof.
  unfold answered. revert s. induction frames as [|[type message] frames IH]; intros s.
  { exists []. split; [|constructor]. split; [done|by rewrite app_nil_r]. }
  unfold readConnectionMessages in *. cbn [for_each]. unfold mbind, ST_bind. cbn [fst snd].
  rewrite filter_cons. cbn [fst].
  destruct (decide (type = TextMessage)) as [->|Hne].
  - destruct (frame_answered c gameID message s) as (ev & Hr & Hw).
    destruct (handleClientMessage c gameID TextMessage message s) as [u s1]. cbn [snd] in Hw.
    destruct (IH s1) as (answers & Hw2 & Hf). exists (encoded ev :: answers). split.
    + pose proof (wrote_trans _ _ _ _ _ _ Hw Hw2) as H. by destruct (encoded ev).
    + rewrite decide_True by reflexivity. constructor; [by exists (site_world s), ev|].
      eapply Forall2_impl; [exact Hf|]. intros fr tx (w & ev' & Hl & ?). exists w, ev'.
      split; [|done]. etrans; [apply Hw|exact Hl].
  - assert (isTextWebSocketMessage type = false) as Ht by (by apply Z.eqb_neq).
    assert ((handleClientMessage c gameID type message s).2 = s) as Es
      by (unfold handleClientMessage; by rewrite Ht).
    destruct (handleClientMessage c gameID type message s) as [u s1]. cbn [snd] in Es. subst s1.
    rewrite decide_False by (by rewrite Ht). apply IH.
Qed.

(** ** Subscribing and unsubscribing *)

Lemma subscribers_Subscribe g k c h x y :
  subscribersOf (Subscribe g k c h).2 x !! y =
    if decide (x = g ∧ y = k) then Some (mkSubscriber k c) else subscribersOf h x !! y.
Proof.
  unfold Subscribe, modify, set_subscribers, subscribersOf; cbn.
  destruct (decide (x = g)) as [->|Hx].
  - rewrite lookup_insert_eq. simpl. destruct (decide (y = k)) as [->|Hy].
    + by rewrite lookup_insert_eq, decide_True.
    + rewrite lookup_insert_ne by done. rewrite decide_False; [done|]. by intros [_ ?].
  - rewrite lookup_insert_ne by done. rewrite decide_False; [done|]. by intros [? _].
Qed.

Lemma subscribers_Unsubscribe g k h x y :
  subscribersOf (Unsubscribe g k h).2 x !! y =
    if decide (x = g ∧ y = k) then None else subscribersOf h x !! y.
Proof.
  unfold Unsubscribe, mbind, ST_bind, get. destruct (subscribersOf h g !! k) as [s|] eqn:Ek.
  - unfold modify; cbn [snd]. by rewrite subscribers_drop, lookup_remove.
  - cbn. case_decide as Hd; [|done]. by destruct Hd as [-> ->].
Qed.

Lemma Unsubscribe_count g k h s :
  subscribersOf h g !! k = Some s →
  activeConnections (Unsubscribe g k h).2 = activeConnections h - 1 ∧
  wire (Unsubscribe g k h).2 = wire h.
Proof.
  intros Hs. destruct (lookup_subscribers h g k s Hs) as (m & Hm & Hk & _).
  unfold Unsubscribe, mbind, ST_bind, get. rewrite Hs. unfold modify; cbn [snd].
  assert (removeClient g k h =
    set_subscribers (<[g := delete k m]> (gameSubscribers h)) (activeConnections h - 1) h) as ->
    by (unfold removeClient; by rewrite Hm, Hk).
  unfold dropEmpty. by case_bool_decide.
Qed.

Lemma quiet_subscribers h h' g : quiet h h' → subscribersOf h' g = subscribersOf h g.
Proof. intros [Hq _]. unfold subscribersOf. by rewrite Hq. Qed.

Lemma hub_ok_quiet h h' : quiet h h' → hub_ok h → hub_ok h'.
Proof. intros [Hq Hn] [H1 H2]. split; [congruence|]. intros g m. rewrite Hq. apply H2. Qed.

Lemma conn_id_fresh s g : site_ok s → subscribersOf (site_hub s) g !! uuid_New (site_ids s) = None.
Proof.
  intros [_ Hc]. destruct (subscribersOf (site_hub s) g !! _) eqn:Hs; [|done].
  destruct (Hc g (uuid_New (site_ids s))) as (i & Hi & Ei); [by rewrite Hs|].
  apply uuid_inj in Ei. lia.
Qed.

Lemma surjective_pairing_unit {S} (p : unit * S) : p = (tt, p.2).
Proof. by destruct p as [[] ?]. Qed.

(** What subscribing, a quiet session and unsubscribing leave behind. *)
Lemma session s s3 gid c w :
  site_ok s → let k := uuid_New (site_ids s) in
  undisturbed (mkSite w (Subscribe gid k c (site_hub s)).2 (Datatypes.S (site_ids s))) s3 →
  let s4 := (onHub (Unsubscribe gid k) s3).2 in
  site_ok s4 ∧ (∀ g, subscribersOf (site_hub s4) g = subscribersOf (site_hub s) g) ∧
  activeConnections (site_hub s4) = activeConnections (site_hub s) ∧
  wire (site_hub s4) = wire (site_hub s3) ∧ site_world s4 = site_world s3.
Proof.
  intros Hok k [Hq Hids Hw] s4. cbn [site_hub site_ids site_world] in *.
  pose proof (conn_id_fresh s gid Hok) as Hfresh. fold k in Hfresh.
  assert (site_hub s4 = (Unsubscribe gid k (site_hub s3)).2 ∧ site_ids s4 = site_ids s3 ∧
    site_world s4 = site_world s3) as (E4 & Ei & Ew).
  { unfold s4, onHub, zoom. by destruct (Unsubscribe gid k (site_hub s3)). }
  assert (subscribersOf (site_hub s3) gid !! k = Some (mkSubscriber k c)) as H3.
  { rewrite (quiet_subscribers _ _ gid Hq), subscribers_Subscribe. by rewrite decide_True. }
  destruct (Unsubscribe_count gid k (site_hub s3) _ H3) as [Hn Hwire].
  assert (∀ g, subscribersOf (site_hub s4) g = subscribersOf (site_hub s) g) as Hsubs.
  { intros g. apply map_eq. intros y. rewrite E4, subscribers_Unsubscribe. case_decide as Hd.
    - destruct Hd as [-> ->]. done.
    - rewrite (quiet_subscribers _ _ g Hq), subscribers_Subscribe. by rewrite decide_False. }
  split; [split|split; [done|split; [|split; [by rewrite E4|done]]]].
  - rewrite E4. apply Unsubscribe_ok. eapply hub_ok_quiet; [exact Hq|].
    apply Subscribe_ok; [apply Hok|done].
  - intros g y. rewrite Hsubs. intros Hy. destruct (site_clients _ Hok g y Hy) as (i & ? & ?).
    exists i. split; [|done]. rewrite Ei, Hids. lia.
  - rewrite E4, Hn. destruct Hq as [_ ->]. cbn. lia.
Qed.

(** What a connection writes: to a game, the answers to its text frames, or nothing when
    the read deadline cannot be set; without a game in its locals it is closed at once. *)
Definition conversation (c : Z) (local : option Z) (frames : list (Z * string))
    (s s' : Site) : Prop :=
  match local with
  | None => s' = mkSite (site_world s) (call c Close (site_hub s)).2 (site_ids s)
  | Some gid => ∃ answers,
      received c (wire (site_hub s')) = received c (wire (site_hub s)) ++ omap id answers ∧
      answered (site_world s) gid
        (match conn_result (length (wire (site_hub s))) with None => frames | Some _ => [] end)
        answers
  end.

Lemma game_connection h c gid frames s :
  site_ok s →
  let s' := (HandleConnection h c (Some gid) frames s).2 in
  site_ok s' ∧ (∀ g, subscribersOf (site_hub s') g = subscribersOf (site_hub s) g) ∧
  activeConnections (site_hub s') = activeConnections (site_hub s) ∧
  later (site_world s) (site_world s') ∧ conversation c (Some gid) frames s s'.
Proof.
  intros Hok. unfold HandleConnection, openGameConnection, newId, mbind, S_bind, ST_bind.
  set (k := uuid_New (site_ids s)).
  set (s1 := mkSite (site_world s) (Subscribe gid k c (site_hub s)).2 (Datatypes.S (site_ids s))).
  change (onHub (Subscribe gid k c) (mkSite (site_world s) (site_hub s) (Datatypes.S (site_ids s))))
    with (tt, s1). unfold mret, S_ret, ST_ret.
  assert (∃ err s2, onHub (prepareConnection h c) s1 = (err, s2) ∧ undisturbed s1 s2 ∧
    received c (wire (site_hub s2)) = received c (wire (site_hub s)) ∧
    err = conn_result (length (wire (site_hub s))) ∧ site_world s2 = site_world s)
    as (err & s2 & -> & U2 & R2 & -> & W2).
  { eexists _, _. split; [reflexivity|]. split; [done|]. split; [|done].
    unfold s1. cbn [site_hub]. unfold prepareConnection, mbind, ST_bind, call, hub_Now.
    cbn [wire snd]. rewrite received_app. cbn. by rewrite Z.eqb_refl, app_nil_r. }
  cbv beta iota. unfold conversation.
  assert (∃ s3 answers, (match conn_result (length (wire (site_hub s))) return S unit with
      | Some _ => λ s : Site, (tt, s)
      | None => readConnectionMessages frames (handleClientMessage c gid)
      end s2) = (tt, s3) ∧ wrote c s2 s3 (omap id answers) ∧
    answered (site_world s) gid
      (match conn_result (length (wire (site_hub s))) with None => frames | Some _ => [] end)
      answers) as (s3 & answers & -> & [U3 R3] & Hf).
  { destruct (conn_result (length (wire (site_hub s)))) as [e|].
    - exists s2, []. split; [done|]. split; [split; [done|by rewrite app_nil_r]|constructor].
    - destruct (frames_answered c gid frames s2) as (answers & Hw & Hf). rewrite W2 in Hf.
      eexists _, answers. split; [apply surjective_pairing_unit|]. by split. }
  destruct (session s s3 gid c (site_world s) Hok) as (Ha & Hb & Hc & Hd & He); [by etrans|].
  fold k in Ha, Hb, Hc, Hd, He. split; [exact Ha|]. split; [exact Hb|]. split; [exact Hc|].
  split; [rewrite He; etrans; [|apply U3]; by rewrite W2|].
  exists answers. split; [by rewrite Hd, R3, R2|exact Hf].
Qed.

(** C36: a connection, on every branch: when it ends, the hub has the subscriptions and the
    count it had before (its own subscription is gone, whatever failed) and the tables are
    as they were.  Of a connection to a game the text frames were, in order, each answered
    by at most one write: of the stored game, for a sync request whose game could be read, of
    an error otherwise; frames of other types get nothing, nor does a frame
    whose answer encoding/json refuses, nor any frame when the read deadline could not be
    set.  A write counts whether or not it succeeds: the code only logs its failure.  A
    connection without a game in its locals is closed and nothing else. *)
Theorem HandleConnection_spec h c local frames s :
  site_ok s →
  let s' := (HandleConnection h c local frames s).2 in
  site_ok s' ∧ (∀ g, subscribersOf (site_hub s') g = subscribersOf (site_hub s) g) ∧
  activeConnections (site_hub s') = activeConnections (site_hub s) ∧
  later (site_world s) (site_world s') ∧ conversation c local frames s s'.
Proof.
  destruct local as [gid|]; [apply game_connection|]. intros Hok s'.
  split; [|by split]. destruct Hok as [[H1 H2] H3]. by split; [split|].
Qed.
End Spec.

(** ** Pings *)

(** Once the handler has returned, its pinging goroutine can never move again, and it has
    not ended unless a ping had failed before: nobody else closes [done]. *)
Theorem ping_goroutine_blocked p :
  rtc Ping.step Ping.startPingLoop p → Ping.ticker p = false → Ping.running p = true →
  ∀ p', ¬ Ping.step p p'.
Proof.
  intros Hr Ht Hrun p' Hs.
  assert (Ping.done_closed p = true → Ping.running p = false) as Hinv.
  { clear Hs Ht Hrun. assert (Ping.done_closed Ping.startPingLoop = true →
      Ping.running Ping.startPingLoop = false) as H0 by done.
    induction Hr as [|x y z Hst _ IH]; [done|]. apply IH. destruct Hst; cbn in *; auto. }
  destruct Hs; cbn in *; try congruence. by specialize (Hinv eq_refl).
Qed.

Lemma ping_goroutine_blocked_witness :
  let p := Ping.mk false false true in
  rtc Ping.step Ping.startPingLoop p ∧ ∀ p', ¬ Ping.step p p'.
Proof.
  assert (rtc Ping.step Ping.startPingLoop (Ping.mk false false true)) as H
    by (apply rtc_once; exact (Ping.handler_returns false true)).
  split; [exact H|]. by apply (ping_goroutine_blocked _ H).
Defined.

Module GameSocketRun.
#[local] Existing Instances Run.ticking BroadcastRun.healthy_env.
(** Identifiers are numerals; a frame is JSON when it names its type. *)
#[local] Instance frames_env : SocketEnv := {|
  uuid_New n := pretty n;
  json_clientMessage m :=
    if bool_decide (m = "{") then Err (ENew "unexpected end") else Ok (mkClientMessage m "")
|}.
#[local] Instance frames_fresh : FreshIds frames_env.
Proof. exact pretty_nat_inj. Defined.

Definition site : Site :=
  mkSite (Run.world (mkTables ∅ ∅ ∅ ∅ None) 3 60) NewGameBroadcastUseCase 0.

Lemma site_wf : site_ok site.
Proof.
  split; [apply BroadcastRun.new_ok|]. intros g k H. unfold subscribersOf, site in H.
  cbn [site_hub NewGameBroadcastUseCase gameSubscribers] in H. rewrite lookup_empty in H.
  simpl in H. rewrite lookup_empty in H. by destruct H.
Qed.

Lemma HandleConnection_spec_witness :
  let frames := [(1, "{"); (2, "x"); (1, "hello"); (1, "sync_request")] in
  let s' := (HandleConnection NewGameWebSocketHandler 5 (Some 7) frames site).2 in
  received 5 (wire (site_hub s')) = ["error"; "error"; "error"] ∧
  site_ok s' ∧ (∀ g, subscribersOf (site_hub s') g = subscribersOf (site_hub site) g) ∧
  activeConnections (site_hub s') = activeConnections (site_hub site) ∧
  later (site_world site) (site_world s') ∧ conversation 5 (Some 7) frames site s'.
Proof.
  cbv zeta. split; [vm_compute; reflexivity|]. apply HandleConnection_spec, site_wf.
Defined.
End GameSocketRun.
