(* ===== verification/RecordedSpec.v ===== *)
(** * What stays recorded

    No handler deletes an event, and none writes the ingestion checkpoint; an event that a
    handler reports as handled is in the table of events. *)
From S2P Require Import Prelude GoTypes Entity World Store Repo Locks LockOps Reservation CancelReservation RevealReservation ExpiredClaim Toncenter DeadLetter Persistence PersistenceSpec Subscriber SubscriberSpec.

(** Predicates on the tables that survive what the handlers write: games, new users, the
    counters of users, rows of the dead letter queue, and new events. *)
Record writable (P : Tables → Prop) : Prop := {
  writable_games v t : P t → P (set_games v t);
  writable_user id now a t : users t !! a = None → P t →
    P (set_users (<[a := Postgres.newUser id now a]> (users t)) t);
  writable_bump a u g w l r x now t : users t !! a = Some u → P t →
    P (set_users (<[a := Postgres.bump g w l r x now u]> (users t)) t);
  writable_letters v t : P t → P (set_dead_letters v t);
  writable_event k e t : game_events t !! k = None → P t →
    P (set_game_events (<[k := e]> (game_events t)) t) }.

Definition has_event (key : Z * string * string) (t : Tables) : Prop :=
  is_Some (game_events t !! key).

Lemma has_event_writable key : writable (has_event key).
Proof.
  split; try done. unfold has_event. intros k e t Hk [x Hx]. simpl.
  rewrite lookup_insert_ne; [by eexists|]. intros ->. congruence.
Qed.

Lemma sync_state_writable (Q : option SyncRow → Prop) : writable (λ t, Q (sync_state t)).
Proof. by split. Qed.

Section Writable.
Context `{E : Env} `{!ClockMono E} (P : Tables → Prop) (HP : writable P).
Import Persistence.

Lemma updateGame_writable g set : keeps (on_tables P) (Postgres.updateGame g set).
Proof.
  apply keeps_statement. intros n now t [] t' Hok.
  destruct (games t !! g) as [x|]; [|by intros [= <-]].
  destruct (Postgres.games_admit _); [|done]. destruct (negb _); [done|]. intros [= <-].
  by apply (writable_games P HP).
Qed.

Lemma updateUser_writable a g w l r x :
  keeps (on_tables P) (Postgres.updateUser a (Postgres.bump g w l r x)).
Proof.
  apply keeps_statement. intros n now t [] t' Hok.
  destruct (users t !! a) as [u|] eqn:Hu; [|by intros [= <-]]. cbv zeta.
  destruct (Postgres.counters_ok _); [|done]. intros [= <-]. by apply (writable_bump P HP).
Qed.

Lemma CreateOrIgnore_writable game : keeps (on_tables P) (Postgres.CreateOrIgnore game).
Proof.
  unfold Postgres.CreateOrIgnore. repeat keeps_step. apply keeps_statement.
  intros n now t b t' Hok. destruct (Postgres.games_admit _); [|done].
  destruct (games t !! _); [by intros [= _ <-]|]. destruct (negb _); [done|].
  intros [= _ <-]. by apply (writable_games P HP).
Qed.

Lemma Upsert_writable e : keeps (on_tables P) (Postgres.UpsertWithQuerier e).
Proof.
  unfold Postgres.UpsertWithQuerier. repeat keeps_step. apply keeps_statement.
  intros n now t row t' Hok. destruct (negb _); [done|].
  destruct (game_events t !! _) eqn:Hk; [done|].
  case_bool_decide; [|done]. intros [= _ <-]. by apply writable_event.
Qed.

Lemma EnsureUser_writable a : keeps (on_tables P) (Postgres.EnsureUserByWallet a).
Proof.
  unfold Postgres.EnsureUserByWallet. repeat keeps_step. apply keeps_statement.
  intros n now t [] t' Hok. cbv zeta. destruct (negb _); [done|].
  destruct (users t !! _) eqn:Hu; intros [= <-]; [done|].
  by apply writable_user.
Qed.

Lemma JoinGame_writable g p h ts : keeps (on_tables P) (Postgres.JoinGame g p h ts).
Proof. unfold Postgres.JoinGame. repeat keeps_step. apply updateGame_writable. Qed.
Lemma CompleteGame_writable g a p h ts :
  keeps (on_tables P) (Postgres.CompleteGameWithQuerier g a p h ts).
Proof. unfold Postgres.CompleteGameWithQuerier. repeat keeps_step. apply updateGame_writable. Qed.
Lemma CancelGame_writable g h ts : keeps (on_tables P) (Postgres.CancelGame g h ts).
Proof. unfold Postgres.CancelGame. repeat keeps_step. apply updateGame_writable. Qed.
Lemma RevealChoice_writable g p c h ts : keeps (on_tables P) (Postgres.RevealChoice g p c h ts).
Proof.
  unfold Postgres.RevealChoice. repeat keeps_step;
    first [apply GetByID_keeps|apply updateGame_writable].
Qed.

Context (uc : PersistenceUC).

Lemma upsertEvent_writable : hkeeps (on_db P) upsertEvent.
Proof. unfold upsertEvent. repeat keeps_step. apply Upsert_writable. Qed.

Lemma completeAndCount_writable game a p e : keeps (on_tables P) (completeAndCount uc game a p e).
Proof.
  unfold completeAndCount, countFinished, countLoser, countReferrer. repeat keeps_step; first
    [apply CompleteGame_writable | unfold Postgres.IncrementGamesPlayedWithQuerier,
      Postgres.IncrementWinsWithQuerier, Postgres.IncrementLossesWithQuerier,
      Postgres.IncrementReferralsWithQuerier; repeat keeps_step; apply updateUser_writable].
Qed.

Lemma countDraw_writable g : keeps (on_tables P) (countDraw uc g).
Proof.
  unfold countDraw. repeat keeps_step; first
    [apply GetByID_keeps | unfold Postgres.IncrementGamesPlayed,
      Postgres.IncrementGamesPlayedWithQuerier; repeat keeps_step; apply updateUser_writable].
Qed.
End Writable.

#[export] Hint Resolve checkEvent_keeps requireGame_keeps serializeEventData_keeps
  upsertEvent_writable completeAndCount_writable countDraw_writable broadcast_keeps
  JoinGame_writable CompleteGame_writable CancelGame_writable RevealChoice_writable
  EnsureUser_writable CreateOrIgnore_writable Upsert_writable ReleaseOnJoin_keeps : keeps_written.

(** Walk through a handler. *)
Ltac written :=
  repeat keeps_step; first [by auto with keeps_written | by apply releases_keep | idtac].

Section Routed.
Context `{E : Env} `{!ClockMono E} (uc : PersistenceUC).
Import Persistence.

Lemma routeEvent_writable P : writable P → hkeeps (on_db P) (routeEvent uc).
Proof.
  intros HP. unfold routeEvent. apply hkeeps_bind; [apply hkeeps_event|]. intros e. cbv zeta.
  repeat (apply hkeeps_if; [|]); [..|apply hkeeps_ret].
  - unfold HandleGameInitialized. written.
  - unfold HandleGameStarted. written.
  - unfold HandleGameFinished, finishInTx, finishLegacy. written.
  - unfold HandleGameCancelled. written.
  - unfold HandleDraw. written.
  - unfold HandleSecretOpened. written.
  - unfold HandleInsufficientBalance. written.
Qed.

(** ** What is handled is recorded *)

Section Records.
Context `{!DriverErrors E} (key : Z * string * string).

Definition keyed : GameEvent.t → World → Prop := λ e _, Postgres.event_key e = key.
Notation recorded_db := (on_db (has_event key)).

(** Whenever [m] succeeds on an event with this key, the event is in the table. *)
Definition records {A} (m : H (result A)) : Prop := ∀ e w,
  keyed e w → is_ok (m (e, w)).1 = true → recorded_db (m (e, w)).2.1 (m (e, w)).2.2.

Lemma records_bind {A B} (m : H A) (f : A → H (result B)) :
  hkeeps keyed m → (∀ a, records (f a)) → records (m ≫= f).
Proof.
  intros Hm Hf e w Hk. unfold mbind, H_bind, ST_bind. specialize (Hm e w Hk).
  destruct (m (e, w)) as [a [e' w']]. by apply Hf.
Qed.

Lemma records_err {A} (er : error) : records (mret (Err er) : H (result A)).
Proof. by intros e w _. Qed.

Lemma records_rbind {A B} (m : H (result A)) (f : A → H (result B)) :
  hkeeps keyed m → (∀ a, records (f a)) → records (rbind m f).
Proof. intros. apply records_bind; [done|]. intros [a|er]; [done|apply records_err]. Qed.

Lemma records_rbind_wrap {A B} g (m : H (result A)) (f : A → H (result B)) :
  hkeeps keyed m → (∀ a, records (f a)) → records (rbind_wrap g m f).
Proof. intros. apply records_bind; [done|]. intros [a|er]; [done|apply records_err]. Qed.

(** What follows keeps the event. *)
Lemma records_then {A B} (m : H (result A)) (f : A → H (result B)) :
  records m → (∀ a, hkeeps recorded_db (f a)) → records (rbind m f).
Proof.
  intros Hm Hf e w Hk. unfold rbind, mbind, H_bind, ST_bind. specialize (Hm e w Hk).
  destruct (m (e, w)) as [[a|er] [e' w']]; [|done]. intros _. by apply Hf, Hm.
Qed.

Lemma Upsert_records e w :
  Postgres.event_key e = key → is_ok (Postgres.UpsertWithQuerier e w).1 = true →
  has_event key (tables (Postgres.UpsertWithQuerier e w).2).
Proof.
  intros Hk. unfold Postgres.UpsertWithQuerier, Postgres.insertEvent.
  destruct (GameEvent.Validate e) as [[]|er]; [|done].
  unfold rbind_wrap, lift_result, mbind, M_bind, ST_bind, mret, M_ret, ST_ret, statement, has_event.
  cbn -[Error fits]. pose proof (driver_error (stmts w)) as Hd.
  assert (Error (ENew (dberror (stmts w))) ≠ "no rows in result set") as Hd' by exact Hd.
  destruct (fits 66 _); cbn -[Error fits].
  2: { destruct (dbfault (stmts w)); cbn -[Error]; by rewrite bool_decide_eq_false_2 by done. }
  rewrite Hk. destruct (game_events (tables w) !! key) as [row|] eqn:Hrow.
  { destruct (dbfault (stmts w)); cbn -[Error]; intros _; case_bool_decide; cbn; rewrite Hrow; eauto. }
  case_bool_decide.
  - destruct (dbfault (stmts w)); cbn -[Error]; [|by rewrite bool_decide_eq_false_2 by done..].
    change (Postgres.event_key (GameEvent.set_ID _ _ e)) with (Postgres.event_key e).
    rewrite Hk, lookup_insert_eq. eauto.
  - destruct (dbfault (stmts w)); cbn -[Error]; by rewrite bool_decide_eq_false_2 by done.
Qed.

Lemma upsertEvent_records : records upsertEvent.
Proof.
  intros e w Hk. unfold upsertEvent, rbind_wrap, mbind, H_bind, ST_bind, event, gets, onW, zoom.
  cbn -[Postgres.Upsert]. pose proof (Upsert_records e w Hk) as Hu.
  change Postgres.Upsert with Postgres.UpsertWithQuerier.
  destruct (Postgres.UpsertWithQuerier e w) as [[row|er] w']; [|done]. exact Hu.
Qed.

Lemma WithTx_records (fn : H (result unit)) : records fn → records (WithTx onW fn).
Proof.
  intros Hfn e w Hk Hok. unfold on_db, on_tables.
  destruct (WithTx_atomic fn e w) as [(_ & _ & Hno)|(_ & Hyes & Ht)]; [congruence|].
  rewrite Ht. apply (Hfn e); [done|]. by rewrite Hyes.
Qed.

Lemma serializeEventData_keyed : hkeeps keyed serializeEventData.
Proof.
  intros e w Hk. unfold serializeEventData, mbind, H_bind, ST_bind, event, gets. simpl.
  destruct (negb _); [done|]. destruct (GameEvent.EventData e) as [d|]; [|done].
  by destruct (json_Marshal d).
Qed.

Lemma keyed_onW {A} (m : M A) : hkeeps keyed (onW A m).
Proof. apply hkeeps_onW. by intros e w. Qed.

Lemma checkEvent_keyed want : hkeeps keyed (checkEvent want).
Proof. unfold checkEvent. by repeat keeps_step. Qed.

Lemma requireGame_keyed g : hkeeps keyed (requireGame g).
Proof.
  unfold requireGame. apply hkeeps_rbind_wrap; [apply keyed_onW|]. intros g0. apply hkeeps_ret.
Qed.


Lemma setEvent_keyed e' : Postgres.event_key e' = key → hkeeps keyed (setEvent e').
Proof. by intros He e w _. Qed.

Lemma Upsert_keyed e w e' w' :
  Postgres.UpsertWithQuerier e w = (Ok e', w') → Postgres.event_key e' = Postgres.event_key e.
Proof.
  unfold Postgres.UpsertWithQuerier, Postgres.insertEvent, rbind_wrap, lift_result, mbind, M_bind,
    ST_bind, mret, M_ret, ST_ret, statement.
  destruct (GameEvent.Validate e) as [[]|er]; cbn -[Error Postgres.event_key fits]; [|done].
  destruct (fits 66 _); cbn -[Error Postgres.event_key].
  2: { destruct (dbfault (stmts w)); cbn -[Error Postgres.event_key];
       repeat case_bool_decide; intros Hres; simplify_eq/=; done. }
  destruct (game_events (tables w) !! _); [|destruct (bool_decide (is_Some _))];
    destruct (dbfault (stmts w)); cbn -[Error Postgres.event_key];
    repeat case_bool_decide; intros Hres; simplify_eq/=; done.
Qed.

Lemma upsertEvent_keyed : hkeeps keyed upsertEvent.
Proof.
  intros e w Hk. unfold upsertEvent, rbind_wrap, mbind, H_bind, ST_bind, event, gets, onW, zoom.
  cbn -[Postgres.Upsert]. change Postgres.Upsert with Postgres.UpsertWithQuerier.
  destruct (Postgres.UpsertWithQuerier e w) as [[e'|er] w'] eqn:Hu; [|done].
  apply Upsert_keyed in Hu. unfold keyed in *. cbn. congruence.
Qed.

Lemma WithTx_keyed (fn : H (result unit)) : hkeeps keyed fn → hkeeps keyed (WithTx onW fn).
Proof.
  intros Hfn. unfold WithTx. apply hkeeps_bind; [apply keyed_onW|]. intros b.
  destruct b as [u|er]; [|apply hkeeps_ret]. 
  repeat first [apply hkeeps_bind; [|intros ?] | apply keyed_onW | apply hkeeps_ret | exact Hfn
    | match goal with |- hkeeps _ (match ?x with _ => _ end) => destruct x end ].
Qed.

Ltac keyed_prefix :=
  match goal with
  | |- hkeeps keyed (onW _ _) => apply keyed_onW
  | |- hkeeps keyed (checkEvent _) => apply checkEvent_keyed
  | |- hkeeps keyed (requireGame _) => apply requireGame_keyed
  | |- hkeeps keyed serializeEventData => apply serializeEventData_keyed
  | |- hkeeps keyed event => apply hkeeps_event
  | |- hkeeps keyed (lift_result _) => apply hkeeps_lift
  end.

Ltac records_step :=
  match goal with
  | |- records (rbind upsertEvent _) => apply records_then; [apply upsertEvent_records|intros ?]
  | |- records (rbind _ _) => apply records_rbind; [keyed_prefix|intros ?]
  | |- records (rbind_wrap _ _ _) => apply records_rbind_wrap; [keyed_prefix|intros ?]
  | |- records (_ ≫= _) => apply records_bind; [keyed_prefix|intros ?]
  | |- records (let _ := _ in _) => cbv zeta
  end.

Lemma finish_records game a p e :
  records (finishInTx uc game a p e) ∧ records (finishLegacy uc game a p e).
Proof.
  pose proof (has_event_writable key) as HP. unfold finishInTx, finishLegacy.
  split; (apply records_then; [exact upsertEvent_records|intros ?]); written.
Qed.

Lemma routeEvent_records : records (routeEvent uc).
Proof.
  pose proof (has_event_writable key) as HP.
  unfold routeEvent. apply records_bind; [apply hkeeps_event|]. intros e. cbv zeta.
  repeat case_bool_decide; [..|apply records_err].
  - unfold HandleGameInitialized. repeat records_step. written.
  - unfold HandleGameStarted. repeat records_step. written.
  - unfold HandleGameFinished. repeat records_step.
    apply records_then; [|intros ?; written].
    destruct (has_txManager uc); [apply WithTx_records|]; apply finish_records.
  - unfold HandleGameCancelled. repeat records_step. written.
  - unfold HandleDraw. repeat records_step. written.
  - unfold HandleSecretOpened. repeat records_step. written.
  - unfold HandleInsufficientBalance. repeat records_step. written.
Qed.

Lemma routeEvent_keyed : hkeeps keyed (routeEvent uc).
Proof.
  unfold routeEvent. apply hkeeps_bind; [apply hkeeps_event|]. intros e. cbv zeta.
  repeat (apply hkeeps_if; [|]); [..|apply hkeeps_ret];
    unfold HandleGameInitialized, HandleGameStarted, HandleGameFinished, finishInTx, finishLegacy,
      HandleGameCancelled, HandleDraw, HandleSecretOpened, HandleInsufficientBalance;
    repeat first [keyed_prefix | apply upsertEvent_keyed | apply WithTx_keyed | keeps_step].
Qed.
End Records.

End Routed.

(** ** The subscriber *)

Section Handled.
Context `{E : Env} `{!ClockMono E} `{SE : SubscriberEnv} `{IP : InMsgParser} (uc : SubscriberUC).
Import Subscriber.

Lemma later_on P w w' : later w w' → on_tables P w → on_tables P w'.
Proof. intros Hl. unfold on_tables. by rewrite (later_tables _ _ Hl). Qed.

Lemma stored_writable P tx err kind w w' :
  writable P → stored uc tx err kind w w' → on_tables P w → on_tables P w'.
Proof.
  intros HP. unfold stored. destruct (dlqBackoff uc) as [base|]; [|apply later_on].
  intros (w1 & H1 & H2) Hw. eapply later_on; [exact H2|]. clear H2.
  enough (keeps (on_tables P) (DeadLetterQueue.StoreFailedTransaction base tx err kind)) as Hk
    by (by apply Hk, (later_on _ w)). clear -HP.
  unfold DeadLetterQueue.StoreFailedTransaction, DLQRepository.Create,
    DLQRepository.GetByTransactionHash, DLQRepository.queryRow.
  repeat keeps_world.
  - by intros w2.
  - apply keeps_statement. intros n now t x t' Ht. destruct (DLQRepository.dlq_admit _); [|done].
    destruct (DLQRepository.taken _ _); [done|]. intros [= _ <-]. by apply (writable_letters P HP).
  - apply keeps_statement. intros n now t x t' Ht. destruct (List.find _ _); [|done].
    by intros [= _ <-].
Qed.

(** Handling a transaction keeps what its writes keep. *)
Lemma HandleTransaction_writable P tx s :
  writable P → on_tables P s.2 → on_tables P (HandleTransaction uc tx s).2.2.
Proof.
  intros HP Hs. pose proof (wp_HandleTransaction uc tx s) as Hh. unfold wp, handle_post in Hh.
  destruct (parseTransaction tx) as [e|err].
  - destruct Hh as (routed & s1 & Hr & Hrest).
    assert (on_tables P s1.2.2) as H1.
    { apply (retried_keeps uc (on_db P) _ e s.2 _ _ (routeEvent_writable _ P HP)
               (λ _ w w' Hl Hw, later_on P w w' Hl Hw) Hr Hs). }
    destruct routed; destruct Hrest as [_ Hrest];
      [by eapply later_on|by eapply stored_writable].
  - destruct Hh as [_ Hh]. destruct (classifyParseError err);
      [by eapply stored_writable|by eapply later_on].
Qed.

(** The transaction holds no event of a game, or its event is in the table. *)
Definition ingested (tx : Transaction.t) (t : Tables) : Prop :=
  match parseTransaction tx with
  | Ok e => has_event (Postgres.event_key e) t
  | Err _ => True
  end.

Lemma ingested_writable tx : writable (ingested tx).
Proof. unfold ingested. destruct (parseTransaction tx); [apply has_event_writable|by split]. Qed.

Context `{!DriverErrors E}.

(** A transaction that is reported as handled is ingested. *)
Lemma HandleTransaction_ingests tx s :
  (HandleTransaction uc tx s).1 = Ok tt → ingested tx (tables (HandleTransaction uc tx s).2.2).
Proof.
  intros Hok. pose proof (wp_HandleTransaction uc tx s) as Hh. unfold wp, handle_post in Hh.
  unfold ingested. destruct (parseTransaction tx) as [e|err]; [|done].
  destruct Hh as (routed & s1 & Hr & Hrest). destruct routed as [u|err].
  2: { destruct Hrest as [Hno _]. congruence. }
  destruct Hrest as [_ Hrest]. eapply (later_on (has_event _)); [exact Hrest|].
  destruct Hr as (n & s2 & Hf & _ & w1 & Hl & Hroute & _ & Hl2).
  eapply (later_on (has_event _)); [exact Hl2|].
  destruct s2 as [e2 w2]. cbn [fst snd] in *.
  eapply (routeEvent_records _ (Postgres.event_key e) e2 w1);
    [|match goal with |- is_ok ?x = true => change x with (routeEvent uc (e2, w1)).1 end;
      by rewrite Hroute].
  (* retries keep the key *)
  clear -Hf DriverErrors0 ClockMono0. remember (e, s.2) as s0 eqn:H0.
  remember (e2, w2) as s2 eqn:H2. set (key := Postgres.event_key e).
  assert (keyed key s0.1 s0.2) as Hk by (by rewrite H0). clearbody key. clear H0.
  revert H2. induction Hf as [s0|n e0 w0 w' s0 H01 _ Hf IH]; intros ->; [exact Hk|].
  apply IH; [|done]. exact (routeEvent_keyed _ key e0 w' Hk).
Qed.
End Handled.
