(* ===== verification/Ingestion.v ===== *)
(** * Blockchain ingestion as [app.Run] wires it

    internal/app/app.go: the checkpoint is loaded from the database, the event handler
    resumes from it, its callbacks save it back, and transactions go to the blockchain
    subscriber. A crash loses everything but the database. *)
From S2P Require Import Prelude GoTypes Entity World Repo Toncenter Poller PollerSpec WebSocket EventSource EventSourceSpec TonHandler TonHandlerSpec SyncState SyncStateSpec Persistence Delivery Subscriber SubscriberSpec RecordedSpec.

Section Wiring.
Context `{E : Env} `{SE : SubscriberEnv} `{IP : InMsgParser} `{PN : PgNumeric}.
Context `{CE : ClientEnv} `{WE : WsEnv}.
Context (cfg : GameBackend) (uc : SubscriberUC).

Definition loadCheckpoint : B (option BlockchainSyncState.t) :=
  syncCheckpoint ← onWorld SyncStateRepository.Get;
  mret (match syncCheckpoint with Ok c => Some c | Err _ => None end).

(** Failures of the callbacks are logged. *)
Definition persistCheckpoint (checkpoint : SyncCheckpoint) : B unit :=
  let sourceType := EventSourceTypeOf checkpoint in
  let sourceType := if bool_decide (sourceType = EmptyString) then BlockchainEventSource cfg
                    else sourceType in
  _ ← onWorld (SyncStateRepository.PersistCheckpoint (TONGameContractAddr cfg)
                 (LastProcessedLt checkpoint) sourceType (EventSourceConnected checkpoint));
  mret tt.

Definition recordFallback (_ : SyncCheckpoint) : B unit :=
  _ ← onWorld SyncStateRepository.RecordFallback; mret tt.

(** The part of [app.Run] that starts ingestion, over network state [nt]. *)
Definition launch (nt : Net) (s : S2) : Outcome (Outside S2) (Handler S2) :=
  let '(syncCheckpoint, s) := loadCheckpoint s in
  startIngestion cfg (Subscriber.HandleTransaction uc) syncCheckpoint persistCheckpoint
    recordFallback (boot cfg syncCheckpoint nt s).

(** What a crash may leave of a process: transactions of the poll that was under way may
    have been handled. *)
Definition crashed (w : Process (Outside S2)) (s : S2) : Prop :=
  ∃ txs, s = fold_left (λ s tx, (Subscriber.HandleTransaction uc tx s).2) txs (world w).1.

(** One life of the service, from the start to its crash, and the restart: what was in
    memory is lost, the tables stay. The checkpoint could be read. *)
Inductive life : S2 → S2 → Prop :=
  | life_restart nt s h w w' s1 s' :
      is_ok (SyncStateRepository.Get s.2).1 = true →
      launch nt s = Done h w → rtc (step h) w w' → crashed w' s1 →
      tables s'.2 = tables s1.2 → life s s'.

Lemma crashed_between w : crashed w (world w).1.
Proof. by exists []. Qed.
End Wiring.

(** ** Crash safety *)

Section Covers.
Context `{CE : ClientEnv} (c : Client.t) (chain : nat → list Transaction.t) (HH : honest c chain).

(** Nothing between the starting point and the cursor is missing from the log. *)
Lemma log_covers lt k pre log post n x :
  collected (lt_value (normalizeLt lt)) (chain k) pre log post →
  (∀ y, y ∈ pre → lt_of y ≤ lt_value (normalizeLt lt)) →
  x ∈ chain n →
  lt_value (normalizeLt lt) < lt_of x ≤ lt_value (normalizeLt (PollerSpec.advance lt log)) →
  x ∈ log.
Proof.
  intros [E _] Hpre Hx Hbetween. unfold PollerSpec.advance in Hbetween.
  destruct (last log) as [y|] eqn:Hlast; [|lia]. apply last_Some in Hlast as [l ->].
  destruct (grows_le _ _ HH n (Nat.max n k)) as [m1 H1]; [lia|].
  destruct (grows_le _ _ HH k (Nat.max n k)) as [m2 H2]; [lia|].
  pose proof (chain_asc _ (honest_ok _ _ HH (Nat.max n k))) as Hasc.
  assert (x ∈ chain (Nat.max n k)) as Hin by (rewrite H1; set_solver).
  assert (chain (Nat.max n k) = (pre ++ l ++ [y]) ++ post ++ m2) as E2
    by (by rewrite H2, E, <-!app_assoc).
  rewrite E2 in Hin, Hasc. apply ascending_app in Hasc as (_ & _ & Hlater).
  apply elem_of_app in Hin as [[Hin|Hin]%elem_of_app|Hin]; [|done|].
  - specialize (Hpre _ Hin). lia.
  - specialize (Hlater y x ltac:(set_solver) Hin). unfold lt_of in *. lia.
Qed.
End Covers.

Lemma numeral_ParseUint s z : numeral s z → z < 2 ^ 64 → ParseUint s = Some z.
Proof. unfold numeral, ParseUint. intros -> Hz. by apply Z.ltb_lt in Hz as ->. Qed.

Lemma ParseUint_bound s z : ParseUint s = Some z → z < 2 ^ 64.
Proof.
  unfold ParseUint. destruct (parse_nat _) as [v|]; [|done].
  destruct (v <? 2 ^ 64) eqn:Hv; [|done]. intros [= <-]. by apply Z.ltb_lt.
Qed.

Section Reads.
Context `{E : Env} `{PN : PgNumeric}.

Lemma Get_reads w :
  tables (SyncStateRepository.Get w).2 = tables w ∧
  ∀ c, (SyncStateRepository.Get w).1 = Ok c →
    ∃ r, sync_state (tables w) = Some r ∧ c = SyncStateRepository.scanned r.
Proof.
  unfold SyncStateRepository.Get, SyncStateRepository.queryRow, rbind_wrap, mbind, M_bind,
    ST_bind, statement. cbv zeta.
  destruct (dbfault _), (sync_state (tables w)) as [r|] eqn:Hr; simpl; (split; [done|]);
    intros c; try done; intros [= <-]; by exists r.
Qed.

Lemma stored_lt_Some r z :
  numeral (stored_lt r) z → 0 < z → default "0" (last_processed_lt r) = stored_lt r.
Proof.
  unfold stored_lt. destruct (last_processed_lt r) as [lt|]; [|done]. simpl.
  case_bool_decide; [|done]. intros [= <-] H0. by vm_compute in H0.
Qed.
End Reads.

Section Safe.
Context `{E : Env} `{!ClockMono E} `{!DriverErrors E} `{SE : SubscriberEnv} `{IP : InMsgParser}.
Context `{PN : PgNumeric} `{!PgNumericLaws PN} `{CE : ClientEnv} `{CL : !ClientLaws CE}.
Context `{WE : WsEnv} (cfg : GameBackend) (uc : SubscriberUC).
Context (chain : nat → list Transaction.t).
Context (HH : honest (Client.mk (TONCenterV2URL cfg) (TONGameContractAddr cfg)) chain).
Context (Hhttp : EnableWebSocketCfg cfg = false) (Hresume : ResumeFromCheckpoint cfg = true).

Notation addr := (TONGameContractAddr cfg).
Context (Haddr : TrimSpace addr = addr) (Hblank : blank addr = false).
Context (Hfits : assign_varchar 66 addr = Some addr).

(** The checkpoint in the tables is of this contract, at the logical time [z]. *)
Definition saved (z : Z) (t : Tables) : Prop :=
  ∃ r, sync_state t = Some r ∧ contract_address r = addr ∧ ParseUint (stored_lt r) = Some z.

(** Every transaction after [z0] and up to the saved checkpoint is ingested. *)
Definition covered (z0 z : Z) (t : Tables) : Prop :=
  ∀ n x, x ∈ chain n → z0 < lt_of x ≤ z → ingested x t.
Definition caught_up (z0 : Z) (t : Tables) : Prop :=
  ∃ z, z0 ≤ z ∧ saved z t ∧ covered z0 z t.

Lemma saved_writable z : writable (saved z).
Proof. apply (sync_state_writable (λ row, ∃ r, row = Some r ∧ contract_address r = addr ∧
  ParseUint (stored_lt r) = Some z)). Qed.

Lemma saved_unique z z' t : saved z t → saved z' t → z = z'.
Proof. intros (r & Hr & _ & H) (r' & Hr' & _ & H'). congruence. Qed.

(** Saving a checkpoint [z] over the checkpoint [v]. *)
Lemma persist_saved c s v z :
  ParseUint (LastProcessedLt c) = Some z → saved v (tables s.2) →
  let s' := (persistCheckpoint cfg c s).2 in
  saved v (tables s'.2) ∨ saved (Z.max v z) (tables s'.2).
Proof.
  intros Hz Hv. cbv zeta. unfold persistCheckpoint. set (type := if bool_decide _ then _ else _).
  clearbody type. pose proof (PersistCheckpoint_monotone addr (LastProcessedLt c) type
    (EventSourceConnected c) z s.2 (ParseUint_numeral _ _ Hz)) as Hp. cbv zeta in Hp.
  cbv [mbind B_bind ST_bind onWorld zoom mret B_ret ST_ret].
  destruct (SyncStateRepository.PersistCheckpoint _ _ _ _ s.2) as [res w']. cbn [fst snd] in *.
  destruct Hp as [[-> _]|(r & r' & Hr & Hs & ->)]; [by left|]. right. destruct Hv as (r0 & Hr0 & Hc0 & Hlt). simplify_eq.
  pose proof (saved_contract _ _ _ _ _ _ _ Hs) as Hc. rewrite Haddr, Hfits in Hc.
  injection Hc as Hc. exists r'. split_and!; [done..|]. apply numeral_ParseUint.
  { eapply saved_max; [exact Hs|by rewrite Haddr|by apply ParseUint_numeral..]. }
  pose proof (ParseUint_bound _ _ Hz). pose proof (ParseUint_bound _ _ Hlt). lia.
Qed.

Lemma persist_ingested x c s :
  ingested x (tables s.2) → ingested x (tables (persistCheckpoint cfg c s).2.2).
Proof.
  unfold persistCheckpoint. cbv [mbind B_bind ST_bind onWorld zoom mret B_ret ST_ret]. cbv zeta.
  set (type := if bool_decide _ then _ else _).
  pose proof (PersistCheckpoint_events addr (LastProcessedLt c) type (EventSourceConnected c) s.2)
    as He. destruct (SyncStateRepository.PersistCheckpoint _ _ _ _ s.2) as [res w'].
  cbn [fst snd] in *. unfold ingested, has_event. by rewrite He.
Qed.

(** The process resumes from the saved checkpoint. *)
Lemma launch_resumes z nt s :
  0 < z → saved z (tables s.2) → is_ok (SyncStateRepository.Get s.2).1 = true →
  ∃ ck s1, tables s1.2 = tables s.2 ∧
    launch cfg uc nt s = Done (theHandler (persistCheckpoint cfg) recordFallback)
      (started cfg ck (firstSource cfg (Subscriber.HandleTransaction uc) ck) nt s1) ∧
    ParseUint (resumeLt cfg ck) = Some z.
Proof.
  intros Hz (r & Hr & Hc & Hlt) Hok. destruct (Get_reads s.2) as [Ht Hget].
  unfold launch, loadCheckpoint.
  cbv [mbind B_bind ST_bind onWorld zoom mret B_ret ST_ret].
  destruct (SyncStateRepository.Get s.2) as [[c|er] w'] eqn:HG; [|done]. cbn [fst snd] in *.
  destruct (Hget c eq_refl) as (r' & Hr' & ->). simplify_eq.
  eexists _, _. split; [|split; [apply startIngestion_eq|]]; [done|].
  pose proof (stored_lt_Some _ _ (ParseUint_numeral _ _ Hlt) Hz) as Hd.
  destruct (numeral_digits _ _ (ParseUint_numeral _ _ Hlt)) as [Hne Hdigits].
  unfold resumeLt, shouldResumeCheckpoint.
  cbn [SyncStateRepository.scanned BlockchainSyncState.LastProcessedLt
    BlockchainSyncState.ContractAddress].
  rewrite Hresume, Hd. unfold blank at 1. rewrite TrimSpace_digits by done.
  rewrite bool_decide_eq_false_2, Hc, Hblank, bool_decide_eq_true_2 by done. simpl.
  unfold normalizeLt. by rewrite bool_decide_eq_false_2.
Qed.

(** One life keeps the ingested transactions and the checkpoint in step. *)
Lemma life_caught_up z0 s s' :
  0 < z0 → caught_up z0 (tables s.2) → life cfg uc s s' → caught_up z0 (tables s'.2).
Proof.
  intros Hz0 (z & Hz & Hsaved & Hcov) Hlife.
  destruct Hlife as [nt s h w w' s1 s' Hok Hlaunch Hsteps [txs ->] Ht]. rewrite Ht. clear Ht.
  destruct (launch_resumes z nt s ltac:(lia) Hsaved Hok) as (ck & s2 & Hs2 & Heq & Hlt).
  rewrite Heq in Hlaunch. injection Hlaunch as <- <-. rewrite <-Hs2 in *. clear Heq.
  destruct (ParseUint_digits _ _ Hlt) as (_ & _ & Hval).
  set (Good := λ x (s : S2), ingested x (tables s.2)).
  set (Ck := λ z' (s : S2), (∃ v, z ≤ v ≤ z' ∧ saved v (tables s.2)) ∧ covered z0 z (tables s.2)).
  assert (∀ P, writable P → ∀ tx s, P (tables s.2) →
    P (tables (Subscriber.HandleTransaction uc tx s).2.2)) as Hkeep
    by (intros P HP tx s3; by apply HandleTransaction_writable).
  assert (∀ tx s, covered z0 z (tables s.2) →
    covered z0 z (tables (Subscriber.HandleTransaction uc tx s).2.2)) as Hkeep_cov.
  { intros tx s3 H n x Hx Hb. apply (Hkeep _ (ingested_writable x)). by eapply H. }
  assert (∀ tx z' s, Ck z' s → Ck z' (Subscriber.HandleTransaction uc tx s).2) as Hkeep_ck.
  { intros tx z' s3 [(v & Hv & Hsv) H]. split; [|by apply Hkeep_cov].
    exists v. split; [done|]. by apply (Hkeep _ (saved_writable v)). }
  assert (http_ok cfg (Subscriber.HandleTransaction uc) ck chain Good Ck w') as Hw'.
  { apply (http_reachable cfg (Subscriber.HandleTransaction uc) ck (persistCheckpoint cfg)
      recordFallback) with (nt := nt) (s := s2); try done; subst Good Ck; simpl.
    - unfold usesWebSocket. by rewrite Hhttp.
    - intros H0. rewrite H0 in Hlt. change (Some 0 = Some z) in Hlt. injection Hlt. lia.
    - eauto.
    - intros tx s3 H. by apply HandleTransaction_ingests.
    - intros x tx s3. apply (Hkeep _ (ingested_writable x)).
    - intros x c s3. apply persist_ingested.
    - intros z' tx s3. apply Hkeep_ck.
    - intros a b s3 Hab [(v & Hv & Hsv) H]. split; [|done]. exists v. split; [lia|done].
    - intros z' c s3 Hc [(v & Hv & Hsv) H]. split.
      + destruct (persist_saved c s3 v z' Hc Hsv); [exists v|exists (Z.max v z')];
          (split; [lia|done]).
      + intros n x Hx Hb. apply persist_ingested. by eapply H.
    - split; [|done]. exists z. unfold lt0. split; [lia|done]. }
  destruct Hw' as [(p & _ & _ & _ & _ & [(pre & log & post & Hcol & Hpre & Hcur & Hgood) Hck]) _ _].
  set (s3 := fold_left _ txs _).
  assert (Ck (lt_value (normalizeLt (Poller.lastProcessedLt p))) s3 ∧ ∀ x, x ∈ log → Good x s3)
    as [[(v & Hv & Hsv) Hc] Hg].
  { subst s3. revert Hck Hgood. generalize (world w').1 as s3.
    induction txs as [|tx txs IH]; intros s3 Hck3 Hg3; [done|]. apply IH; [by apply Hkeep_ck|].
    intros x Hx. apply (Hkeep _ (ingested_writable x)). by apply Hg3. }
  exists v. split; [lia|]. split; [done|]. intros n x Hx Hb.
  destruct (Z.le_gt_cases (lt_of x) z); [by apply (Hc n); [|lia]|].
  apply Hg. rewrite Hcur in Hv. unfold lt0 in Hcol, Hpre.
  eapply (log_covers _ chain HH (resumeLt cfg ck) _ pre log post n x); [exact Hcol|exact Hpre|done|].
  lia.
Qed.

(** C1: crash safety of HTTP ingestion. Take an honest server, a configuration that resumes,
    a contract address that is trimmed and fits its column, and a checkpoint of this contract
    at the logical time [z0]. However often the service is started, polls, saves, crashes
    (even after part of a poll) and is started again, and whichever statements fail, as long
    as the checkpoint can be read at every start: the checkpoint in the database never moves
    back behind [z0], and every transaction of the chain after [z0] and up to that checkpoint
    is ingested: its event is in the table of events, or it holds no event that parses. When
    a start cannot read the checkpoint this fails ([lost_checkpoint_skips]). *)
Theorem ingestion_crash_safe z0 s s' :
  0 < z0 → saved z0 (tables s.2) → rtc (life cfg uc) s s' → caught_up z0 (tables s'.2).
Proof.
  intros Hz0 Hs Hlives. assert (caught_up z0 (tables s.2)) as H.
  { exists z0. split; [lia|]. split; [done|]. intros n x _ Hb. lia. }
  clear Hs. induction Hlives as [|s s1 s2 Hlife _ IH]; [done|].
  apply IH. by apply life_caught_up with s.
Qed.
End Safe.

(** ** Saving and resuming *)

Section Roundtrip.
Context `{E : Env} `{PN : PgNumeric} `{!PgNumericLaws PN} (cfg : GameBackend).
Notation addr := (TONGameContractAddr cfg).

(** Round trip of the checkpoint. A checkpoint that was saved, over a row of another
    contract or over one that is not ahead of it, and then read back at the next start,
    makes ingestion resume from exactly the logical time that was saved, with the source
    type that was saved. *)
Theorem checkpoint_roundtrip lt type connected y r c w w1 :
  ResumeFromCheckpoint cfg = true → ResumeEventSource cfg = true →
  TrimSpace addr = addr → blank addr = false → assign_varchar 66 addr = Some addr →
  type = SourceTypeHTTP ∨ type = SourceTypeWebSocket →
  numeral lt y → 0 < y → sync_state (tables w) = Some r →
  (contract_address r = addr → ∃ x, numeral (stored_lt r) x ∧ x ≤ y) →
  SyncStateRepository.PersistCheckpoint addr lt type connected w = (Ok tt, w1) →
  (SyncStateRepository.Get w1).1 = Ok c →
  resumeLt cfg (Some c) = lt ∧ resolveInitialEventSourceType cfg (Some c) = type ∧
  BlockchainSyncState.WebSocketConnected c = connected.
Proof.
  intros Hres Hsrc Haddr Hblank Hfits Htype Hy Hpos Hr Hold Hp Hget.
  pose proof (PersistCheckpoint_monotone addr lt type connected y w Hy) as H. rewrite Hp in H.
  destruct H as [[_ Hnone]|(r0 & r' & Hr0 & Hs & Ht)]; [by rewrite Hnone in Hr|].
  simpl in Ht. simplify_eq. destruct (Get_reads w1) as [_ Hreads].
  destruct (Hreads c Hget) as (r1 & Hr1 & ->). rewrite Ht in Hr1. simplify_eq/=.
  destruct Hs as [Hc Hfwd Hother Hty Hconn].
  rewrite Haddr in Hc, Hfwd, Hother. rewrite Hfits in Hc. injection Hc as Hc.
  assert (stored_lt r1 = lt) as Hlt.
  { destruct (decide (contract_address r = addr)) as [Heq|Hne]; [|by apply Hother].
    destruct (Hold Heq) as (x & Hx & Hle). rewrite (Hfwd x Heq Hx). by apply Z.leb_le in Hle as ->. }
  destruct (numeral_digits _ _ Hy) as [Hne Hd].
  assert (default "0" (last_processed_lt r1) = lt) as Hlast
    by (rewrite <-Hlt; apply (stored_lt_Some r1 y); [by rewrite Hlt|done]).
  assert (event_source_type r1 = Some type) as Hst
    by (rewrite Hty; by destruct Htype as [->| ->]).
  split_and!; [| |by rewrite Hconn].
  - unfold resumeLt, shouldResumeCheckpoint.
    cbn [SyncStateRepository.scanned BlockchainSyncState.LastProcessedLt
      BlockchainSyncState.ContractAddress].
    rewrite Hres, Hlast, <-Hc. unfold blank at 1. rewrite TrimSpace_digits by done.
    rewrite bool_decide_eq_false_2, Hblank, bool_decide_eq_true_2 by done. simpl.
    unfold normalizeLt. by rewrite bool_decide_eq_false_2.
  - unfold resolveInitialEventSourceType.
    cbn [SyncStateRepository.scanned BlockchainSyncState.EventSourceType].
    rewrite Hsrc, Hst. simpl. by destruct Htype as [->| ->].
Qed.
End Roundtrip.

(** ** A concrete run *)

Module IngestionRun.
Import SubscriberRun.
#[local] Existing Instances Run.ticking_mono Run.env_errors parser background.

#[local] Existing Instances SyncStateRun.digits SyncStateRun.digits_laws SourceRun.offline.

(** A foreign message, then a game that is created, then another message. *)
Definition toncenter (last : string) : ClientEnv :=
  PollerRun.serving (PollerRun.page_of None (Some EventGameInitialized) (Some last)).
Definition chain (last : string) : list Transaction.t :=
  PollerRun.chain_of None (Some EventGameInitialized) (Some last).

Definition cfg : GameBackend :=
  mkGameBackend "https://toncenter" EmptyString "EQ" (Ok (5 * 10 ^ 9)) (Ok (30 * 10 ^ 9))
    false "http" 5 true true.

(** The transaction at 5 was the last one before the service stopped. *)
Definition row : SyncRow :=
  mkSyncRow "EQ" 0 0 0 (Some "http") (Some "5") None (Some false) (Some 0) None.
Definition s0 : S2 := (idle, Run.world (mkTables ∅ ∅ ∅ ∅ (Some row)) 3 1000).

Notation Proc := (Process (Outside S2)).

(** The process that [launch] leaves, then what its goroutines do: the source is started,
    its loop is entered, and a poll is made. *)
Section Runs.
Context (E : Env) (CE : ClientEnv).
Notation launched := (launch cfg sub (mkNet 0 0) s0).
Definition h0 : Handler S2 :=
  match launched with Done h _ => h | _ => theHandler (persistCheckpoint cfg) recordFallback end.
Definition w0 : Proc :=
  match launched with Done _ w => w | _ => boot cfg None (mkNet 0 0) s0 end.
Notation source_started := ((_ ← moveTo 0 Ended; StartSource 0 [0%nat]) w0).
Definition r1 : Proc := match source_started with Done _ w => w | _ => w0 end.
Definition w1 : Proc := drain h0 r1.
Definition r2 : Proc := set_loops (<[2%nat := PollLoop 0 [0%nat] Looping]> (loops w1)) w1.
Definition w2 : Proc := drain h0 r2.
Definition r3 : Proc := default w2 (pollSource 6 0 w2).
Definition w3 : Proc := drain h0 r3.

Lemma w1_eq : w1 = drain h0 r1. Proof. reflexivity. Qed.
Lemma w2_eq : w2 = drain h0 r2. Proof. reflexivity. Qed.
Lemma w3_eq : w3 = drain h0 r3. Proof. reflexivity. Qed.
End Runs.
#[local] Existing Instance Run.ticking.

(** The game is created and joined. *)
Notation E0 := Run.ticking.
Definition C0 : ClientEnv := toncenter EventGameStarted.
#[local] Existing Instance C0.

(** The process is killed, and started again on its database. *)
Definition restarted (w : Proc) : S2 := (idle, (world w).1.2).
Lemma restarted_tables w : tables (restarted w).2 = tables (world w).1.2.
Proof. done. Qed.
Notation s1 := (restarted (w3 E0 C0)).

Definition is_done {A} (o : Outcome (Outside S2) A) : bool :=
  match o with Done _ _ => true | _ => false end.

Lemma launched_done : launch cfg sub (mkNet 0 0) s0 = Done (h0 E0) (w0 E0).
Proof.
  assert (is_done (launch cfg sub (mkNet 0 0) s0) = true) as H by (vm_compute; reflexivity). revert H.
  unfold h0, w0. destruct (launch cfg sub (mkNet 0 0) s0); [|discriminate..]. intros _. reflexivity.
Qed.

Lemma ingest_run1 : run (w0 E0) (r1 E0).
Proof.
  assert (is_done ((_ ← moveTo 0 Ended; StartSource 0 [0%nat]) (w0 E0)) = true) as H
    by (vm_compute; reflexivity).
  refine (run_start (w0 E0) (r1 E0) 0 0 [0%nat] _ _); [vm_compute; reflexivity|]. unfold r1.
  revert H. destruct ((_ ← moveTo 0 Ended; StartSource 0 [0%nat]) (w0 E0)) as [[] w| |];
    [reflexivity|discriminate..].
Qed.

Lemma ingest_run2 : run (w1 E0) (r2 E0).
Proof. apply (run_poll_enter (w1 E0) 2 0 [0%nat]); vm_compute; reflexivity. Qed.

Lemma ingest_run3 : run (w2 E0) (r3 E0 C0).
Proof.
  assert (bool_decide (is_Some (pollSource 6 0 (w2 E0))) = true) as H by (vm_compute; reflexivity).
  apply bool_decide_eq_true in H as [w H].
  apply (run_poll (w2 E0) (r3 E0 C0) 2 0 [0%nat] 6); [vm_compute; reflexivity|]. unfold r3. by rewrite H.
Qed.

Lemma w3_reached : rtc (step (h0 E0)) (w0 E0) (w3 E0 C0).
Proof.
  pose proof (step_run (h0 E0) (w0 E0) (r1 E0) ingest_run1) as H1. rewrite <-w1_eq in H1.
  pose proof (step_run (h0 E0) (w1 E0) (r2 E0) ingest_run2) as H2. rewrite <-w2_eq in H2.
  pose proof (step_run (h0 E0) (w2 E0) (r3 E0 C0) ingest_run3) as H3. rewrite <-w3_eq in H3.
  exact (rtc_l _ _ _ _ H1 (rtc_l _ _ _ _ H2 (rtc_once _ _ H3))).
Qed.

Lemma one_life : life cfg sub s0 s1.
Proof.
  assert (is_ok (SyncStateRepository.Get s0.2).1 = true) as Hg by (vm_compute; reflexivity).
  exact (life_restart cfg sub (mkNet 0 0) s0 (h0 E0) (w0 E0) (w3 E0 C0) (world (w3 E0 C0)).1 s1 Hg launched_done
    w3_reached (crashed_between sub (w3 E0 C0)) (restarted_tables (w3 E0 C0))).
Qed.

(** Both events are in the table, and the saved checkpoint is the last transaction. *)
Lemma s1_saved : saved cfg 7 (tables s1.2) ∧
  map_size (game_events (tables s1.2)) = 2%nat.
Proof.
  split; [|vm_compute; reflexivity].
  assert (∃ r, sync_state (tables s1.2) = Some r ∧ contract_address r = "EQ" ∧
    ParseUint (stored_lt r) = Some 7) as H; [|exact H].
  destruct (sync_state (tables s1.2)) as [r|] eqn:Hr; vm_compute in Hr; [|discriminate].
  exists r. injection Hr as <-. vm_compute. auto.
Qed.

Lemma ingestion_crash_safe_witness :
  saved cfg 7 (tables s1.2) ∧ map_size (game_events (tables s1.2)) = 2%nat ∧
  caught_up cfg (λ _, chain EventGameStarted) 5 (tables s1.2).
Proof.
  split; [exact (proj1 s1_saved)|]. split; [exact (proj2 s1_saved)|].
  refine (ingestion_crash_safe (CL := PollerRun.serving_laws _) cfg sub (λ _, chain EventGameStarted) _ eq_refl eq_refl eq_refl eq_refl eq_refl
    5 s0 s1 eq_refl _ (rtc_once _ _ one_life)).
  - exact (PollerRun.honest_pages _ _ _).
  - exists row. vm_compute. auto.
Defined.

Lemma checkpoint_roundtrip_witness :
  let w := (s0.2 : World) in
  let w1 := (SyncStateRepository.PersistCheckpoint "EQ" "0012" "websocket" true w).2 in
  ∃ c, (SyncStateRepository.Get w1).1 = Ok c ∧ resumeLt cfg (Some c) = "0012" ∧
    resolveInitialEventSourceType cfg (Some c) = "websocket".
Proof.
  intros w w1. destruct (SyncStateRepository.Get w1).1 as [c|e] eqn:Hc;
    [|vm_compute in Hc; discriminate Hc].
  destruct (checkpoint_roundtrip cfg "0012" "websocket" true 12 row c w w1) as (H1 & H2 & _);
    try (vm_compute; reflexivity); [right; reflexivity| |exact Hc|].
  - intros _. exists 5. split; [vm_compute; reflexivity|discriminate].
  - exists c. split; [reflexivity|]. split; [exact H1|exact H2].
Defined.

(** The read of the checkpoint is the first statement, and it is lost. *)
Definition lost_read : Env :=
  Run.env Z.of_nat (λ n, if (n =? 0)%nat then FaultLost else FaultNone).

Definition foreign : ClientEnv := toncenter "foreign".

(** When the checkpoint cannot be read at start-up, the service starts from the
    configured default instead: the first poll only takes the newest page, the saved
    checkpoint moves forward past the transactions that were not taken, and an event of a
    game is not recorded. *)
Theorem lost_checkpoint_skips :
  let t := tables (restarted (w3 lost_read foreign)).2 in
  saved cfg 7 t ∧ ¬ ingested (PollerRun.tx_in (Some EventGameInitialized) "6" "5") t.
Proof.
  cbv zeta. split.
  - destruct (sync_state (tables (restarted (w3 lost_read foreign)).2)) as [r|] eqn:Hr;
      vm_compute in Hr; [|discriminate].
    assert (∃ r, sync_state (tables (restarted (w3 lost_read foreign)).2) = Some r ∧
      contract_address r = "EQ" ∧ ParseUint (stored_lt r) = Some 7) as H; [|exact H].
    exists r. injection Hr as <-. vm_compute. auto.
  - assert (bool_decide (ingested (PollerRun.tx_in (Some EventGameInitialized) "6" "5")
      (tables (restarted (w3 lost_read foreign)).2)) = false) as H; [|by apply bool_decide_eq_false in H].
    vm_compute. reflexivity.
Qed.
End IngestionRun.
