(* ===== verification/Queries.v ===== *)
(** * The listing, profile and maintenance statements of the repositories

    The rest of internal/repository/postgres/game_repository.go,
    game_event_repository.go and user_repository.go: the queries behind the read side of
    the API, the plain inserts and updates, the deletes of old rows, and the retention job
    of cmd/cleanup. *)
From S2P Require Import Prelude GoTypes Entity World Repo.

(** ** Addresses (github.com/xssnick/tonutils-go/address) *)

Class AddressLib := {
  Address : Type;
  address_ParseAddr : string → option Address;
  address_ParseRawAddr : string → option Address;
  StringRaw : Address → string;
  address_String : Address → string;
  Form : bool → bool → Address → string    (* Copy().Testnet(t).Bounce(b).String() *)
}.

(** ** SELECT over one table *)

Section Select.
Context `{E : Env}.

(** [SELECT ... WHERE keep ORDER BY before]: rows that [before] does not order come in
    any order. *)
Definition selected {A} (id : Z) (keep : A → bool) (before : A → A → bool) (l : list A) :
    list A :=
  stream id (SliceStable before (scanOrder id A (List.filter keep l))).

(** A query run by [queryGames] or [queryEvents]. *)
Definition queryRows {A} (table : Tables → list A) (keep : A → bool) (before : A → A → bool) :
    M (result (list A)) :=
  rows <-? statement (λ id _ t, Ok (selected id keep before (table t), t))
    else Postgres.query_failed ;;
  mret (Ok rows).

(** [QueryRow(...).Scan(...)] over the first row of a SELECT. *)
Definition queryFirst {A} (table : Tables → list A) (keep : A → bool)
    (before : A → A → bool) : M (result A) :=
  row <-? statement (λ id _ t,
      match SliceStable before (scanOrder id A (List.filter keep (table t))) with
      | x :: _ => Ok (x, t)
      | [] => Err (ESentinel ErrNoRows)
      end) else Postgres.query_failed ;;
  mret (Ok row).

(** [SELECT COUNT( * ) ... WHERE keep], then [count > 0]. *)
Definition queryExists {A} (table : Tables → list A) (keep : A → bool) : M (result bool) :=
  count <-? statement (λ _ _ t,
      Ok (Z.of_nat (List.length (List.filter keep (table t))), t)) else Postgres.query_failed ;;
  mret (Ok (0 <? count)).

Definition unordered {A} (_ _ : A) : bool := false.

Definition games_rows (t : Tables) : list Game.t := (map_to_list (games t)).*2.
Definition events_rows (t : Tables) : list GameEvent.t := (map_to_list (game_events t)).*2.
Definition users_rows (t : Tables) : list UserRow.t := (map_to_list (users t)).*2.
End Select.

(** ** game_repository.go *)

Module GameQueries.
Section GameQueries.
Context `{E : Env} {L : AddressLib}.

Definition newest (x y : Game.t) : bool := Game.CreatedAt y <? Game.CreatedAt x.

Definition queryGames (keep : Game.t → bool) : M (result (list Game.t)) :=
  queryRows games_rows keep newest.

(** [INSERT ... RETURNING created_at]; the caller's game gets the row's creation time. *)
Definition Create (game : Game.t) : M (result Game.t) :=
  _ <-? lift_result (Game.Validate game) else Errorf "validation failed" ;;
  createdAt <-? statement (λ _ now t,
      match Postgres.games_admit (Game.set_CreatedAt now game) with
      | Err e => Err e
      | Ok row =>
          match games t !! Game.GameID game with
          | Some _ => Err (Postgres.violates "games_pkey")
          | None =>
              if negb (Postgres.games_fk (users t) row) then
                Err (Postgres.violates "fk_games_player")
              else Ok (now, set_games (<[Game.GameID game := row]> (games t)) t)
          end
      end) else Postgres.query_failed ;;
  mret (Ok (Game.set_CreatedAt createdAt game)).

Definition has_status (statuses : list Z) (g : Game.t) : bool :=
  bool_decide (Game.Status g ∈ statuses).

Definition GetByStatus (status : Z) : M (result (list Game.t)) :=
  queryGames (λ g, Game.Status g =? status).

Definition GetAvailableGames : M (result (list Game.t)) :=
  GetByStatus GameStatusWaitingForOpponent.

Definition GetByStatuses (statuses : list Z) : M (result (list Game.t)) :=
  match statuses with
  | [] => mret (Ok [])
  | _ => queryGames (has_status statuses)
  end.

(** The body of [appendVariant], over the variants found so far. *)
Definition appendVariant (variants : list string) (candidate : string) : list string :=
  let trimmedCandidate := TrimSpace candidate in
  if bool_decide (trimmedCandidate = EmptyString) then variants
  else if bool_decide (trimmedCandidate ∈ variants) then variants
  else variants ++ [trimmedCandidate].

Definition address_forms (a : Address) : list string :=
  [StringRaw a; address_String a; Form false true a; Form false false a;
   Form true true a; Form true false a].

Definition buildWalletAddressVariants (walletAddress : string) : list string :=
  let trimmedWalletAddress := TrimSpace walletAddress in
  if bool_decide (trimmedWalletAddress = EmptyString) then []
  else
    let variants := appendVariant [] trimmedWalletAddress in
    match address_ParseAddr trimmedWalletAddress with
    | Some a => foldl appendVariant variants (address_forms a)
    | None =>
        match address_ParseRawAddr trimmedWalletAddress with
        | Some a => foldl appendVariant variants (address_forms a)
        | None => variants
        end
    end.

(** [player_one_address IN variants OR player_two_address IN variants]; comparing NULL
    with anything does not hold. *)
Definition plays (variants : list string) (g : Game.t) : bool :=
  bool_decide (Game.PlayerOneAddress g ∈ variants) ||
  match Game.PlayerTwoAddress g with
  | Some p => bool_decide (p ∈ variants)
  | None => false
  end.

Definition buildPlayerAddressPredicate (walletAddress : string) : option (Game.t → bool) :=
  match buildWalletAddressVariants walletAddress with
  | [] => None
  | variants => Some (plays variants)
  end.

Definition GetByPlayerAddress (walletAddress : string) : M (result (list Game.t)) :=
  match buildPlayerAddressPredicate walletAddress with
  | None => mret (Ok [])
  | Some predicate => queryGames predicate
  end.

Definition GetByPlayer := GetByPlayerAddress.

Definition GetByPlayerAndStatuses (walletAddress : string) (statuses : list Z) :
    M (result (list Game.t)) :=
  match statuses with
  | [] => mret (Ok [])
  | _ =>
      match buildPlayerAddressPredicate walletAddress with
      | None => mret (Ok [])
      | Some predicate => queryGames (λ g, predicate g && has_status statuses g)
      end
  end.

(** The columns that [Update] sets. *)
Definition updated (game row : Game.t) : Game.t := {|
  Game.GameID := Game.GameID row; Game.Status := Game.Status game;
  Game.PlayerOneAddress := Game.PlayerOneAddress row;
  Game.PlayerTwoAddress := Game.PlayerTwoAddress game;
  Game.PlayerOneChoice := Game.PlayerOneChoice game;
  Game.PlayerTwoChoice := Game.PlayerTwoChoice game;
  Game.PlayerOneReferrer := Game.PlayerOneReferrer row;
  Game.PlayerTwoReferrer := Game.PlayerTwoReferrer game; Game.BetAmount := Game.BetAmount row;
  Game.WinnerAddress := Game.WinnerAddress game; Game.PayoutAmount := Game.PayoutAmount game;
  Game.ServiceFeeNumerator := Game.ServiceFeeNumerator row;
  Game.ReferrerFeeNumerator := Game.ReferrerFeeNumerator row;
  Game.WaitingTimeoutSeconds := Game.WaitingTimeoutSeconds row;
  Game.LowestBidAllowed := Game.LowestBidAllowed row;
  Game.HighestBidAllowed := Game.HighestBidAllowed row;
  Game.MinReferrerPayoutValue := Game.MinReferrerPayoutValue row;
  Game.ProtocolVersion := Game.ProtocolVersion row;
  Game.FeeReceiverAddress := Game.FeeReceiverAddress row;
  Game.CreatedAt := Game.CreatedAt row; Game.JoinedAt := Game.JoinedAt game;
  Game.RevealedAt := Game.RevealedAt game; Game.CompletedAt := Game.CompletedAt game;
  Game.InitTxHash := Game.InitTxHash row; Game.JoinTxHash := Game.JoinTxHash game;
  Game.RevealTxHash := Game.RevealTxHash game;
  Game.CompleteTxHash := Game.CompleteTxHash game |}.

Definition Update (game : Game.t) : M (result unit) :=
  _ <-? lift_result (Game.Validate game) else Errorf "validation failed" ;;
  _ <-? Postgres.updateGame (Game.GameID game) (updated game) else Postgres.query_failed ;;
  mret (Ok tt).

(** [DELETE FROM games WHERE gone]: the events of a deleted game go with it. *)
Definition deleteGames (gone : Game.t → bool) (t : Tables) : Z * Tables :=
  let kept := filter (λ kg : Z * Game.t, gone kg.2 = false) (games t) in
  (Z.of_nat (size (games t)) - Z.of_nat (size kept),
   set_game_events
     (filter (λ ke : (Z * string * string) * GameEvent.t,
                is_Some (kept !! GameEvent.GameID ke.2)) (game_events t))
     (set_games kept t)).

(** The text of a date compared with a column of type timestamptz. *)
Definition at_date {A} (date : string) (k : Z → result A) : result A :=
  match timestamptz date with
  | Some d => k d
  | None => Err (ENew "invalid input syntax for type timestamp with time zone")
  end.

Definition completedBefore (d : Z) (g : Game.t) : bool :=
  match Game.CompletedAt g with Some c => c <? d | None => false end.

Definition DeleteOlderThan (olderThanDate : string) : M (result Z) :=
  affected <-? statement (λ _ _ t,
      at_date olderThanDate (λ d, Ok (deleteGames (completedBefore d) t)))
    else Postgres.query_failed ;;
  mret (Ok affected).

Definition Exists (gameID : Z) : M (result bool) :=
  queryExists games_rows (λ g, Game.GameID g =? gameID).
End GameQueries.
End GameQueries.

(** ** game_event_repository.go *)

Module EventQueries.
Section EventQueries.
Context `{E : Env}.

Definition byTime (x y : GameEvent.t) : bool := GameEvent.Timestamp x <? GameEvent.Timestamp y.
Definition latestFirst (x y : GameEvent.t) : bool := byTime y x.
Definition byBlock (x y : GameEvent.t) : bool :=
  (GameEvent.BlockNumber x <? GameEvent.BlockNumber y) ||
  ((GameEvent.BlockNumber x =? GameEvent.BlockNumber y) && byTime x y).

(** The columns; the event data of a row stays in its payload. *)
Definition scanEvent (e : GameEvent.t) : GameEvent.t :=
  {| GameEvent.ID := GameEvent.ID e; GameEvent.GameID := GameEvent.GameID e;
     GameEvent.EventType := GameEvent.EventType e;
     GameEvent.TransactionHash := GameEvent.TransactionHash e;
     GameEvent.BlockNumber := GameEvent.BlockNumber e;
     GameEvent.Timestamp := GameEvent.Timestamp e; GameEvent.Payload := GameEvent.Payload e;
     GameEvent.EventData := None; GameEvent.CreatedAt := GameEvent.CreatedAt e |}.

Definition event_columns (t : Tables) : list GameEvent.t := scanEvent <$> events_rows t.

Definition queryEvents := queryRows event_columns.

(** Without ON CONFLICT: an event that is there already is an error. *)
Definition Create (event : GameEvent.t) : M (result GameEvent.t) :=
  _ <-? lift_result (GameEvent.Validate event) else Errorf "validation failed" ;;
  row <-? Postgres.insertEvent (Postgres.violates "unique_event_per_tx") event
    else Postgres.query_failed ;;
  mret (Ok row).

Definition GetByGameID (gameID : Z) : M (result (list GameEvent.t)) :=
  queryEvents (λ e, GameEvent.GameID e =? gameID) byTime.

Definition has_hash (txHash : string) (e : GameEvent.t) : bool :=
  bool_decide (GameEvent.TransactionHash e = txHash).

Definition GetByTransactionHash (txHash : string) : M (result GameEvent.t) :=
  queryFirst event_columns (has_hash txHash) unordered.

Definition GetByEventType (eventType : string) : M (result (list GameEvent.t)) :=
  queryEvents (λ e, bool_decide (GameEvent.EventType e = eventType)) byTime.

Definition GetByBlockRange (startBlock endBlock : Z) : M (result (list GameEvent.t)) :=
  queryEvents (λ e, (startBlock <=? GameEvent.BlockNumber e) &&
                    (GameEvent.BlockNumber e <=? endBlock)) byBlock.

Definition Exists (gameID : Z) (txHash eventType : string) : M (result bool) :=
  queryExists events_rows (λ e, (GameEvent.GameID e =? gameID) && has_hash txHash e &&
                               bool_decide (GameEvent.EventType e = eventType)).

Definition ExistsByTxHash (txHash : string) : M (result bool) :=
  queryExists events_rows (has_hash txHash).

Definition GetLatestByGameID (gameID : Z) : M (result GameEvent.t) :=
  queryFirst event_columns (λ e, GameEvent.GameID e =? gameID) latestFirst.
End EventQueries.
End EventQueries.

(** ** user_repository.go *)

Module ReferralStats.
Record t := mk {
  WalletAddress : string; TotalReferrals : Z; TotalReferralEarnings : Z; GamesReferred : Z }.
End ReferralStats.

Module UserQueries.
Section UserQueries.
Context `{E : Env}.

(** *** Writing *)

(** The row that the columns and values of an INSERT make. *)
Definition insertedRow (id now : Z) (user : User.t) : UserRow.t :=
  {| UserRow.ID := id; UserRow.TelegramUserID := User.TelegramUserID user;
     UserRow.TelegramUsername := Some (User.TelegramUsername user);
     UserRow.WalletAddress := User.WalletAddress user;
     UserRow.TotalGamesPlayed := User.TotalGamesPlayed user;
     UserRow.TotalWins := User.TotalWins user; UserRow.TotalLosses := User.TotalLosses user;
     UserRow.TotalReferrals := User.TotalReferrals user;
     UserRow.TotalReferralEarnings := User.TotalReferralEarnings user;
     UserRow.CreatedAt := now; UserRow.UpdatedAt := now |}.

(** The caller's user after [Scan(&user.ID, &user.CreatedAt, &user.UpdatedAt)]. *)
Definition returning (row : UserRow.t) (user : User.t) : User.t :=
  {| User.ID := UserRow.ID row; User.TelegramUserID := User.TelegramUserID user;
     User.TelegramUsername := User.TelegramUsername user;
     User.WalletAddress := User.WalletAddress user;
     User.TotalGamesPlayed := User.TotalGamesPlayed user;
     User.TotalWins := User.TotalWins user; User.TotalLosses := User.TotalLosses user;
     User.TotalReferrals := User.TotalReferrals user;
     User.TotalReferralEarnings := User.TotalReferralEarnings user;
     User.CreatedAt := UserRow.CreatedAt row; User.UpdatedAt := UserRow.UpdatedAt row |}.

(** The columns VARCHAR(66) and VARCHAR(255) of table users. *)
Definition users_row (row : UserRow.t) : UserRow.t :=
  {| UserRow.ID := UserRow.ID row; UserRow.TelegramUserID := UserRow.TelegramUserID row;
     UserRow.TelegramUsername := cut 255 <$> UserRow.TelegramUsername row;
     UserRow.WalletAddress := cut 66 (UserRow.WalletAddress row);
     UserRow.TotalGamesPlayed := UserRow.TotalGamesPlayed row;
     UserRow.TotalWins := UserRow.TotalWins row; UserRow.TotalLosses := UserRow.TotalLosses row;
     UserRow.TotalReferrals := UserRow.TotalReferrals row;
     UserRow.TotalReferralEarnings := UserRow.TotalReferralEarnings row;
     UserRow.CreatedAt := UserRow.CreatedAt row; UserRow.UpdatedAt := UserRow.UpdatedAt row |}.

(** The row as the columns keep it, or what PostgreSQL refuses about its values. *)
Definition users_admit (row : UserRow.t) : result UserRow.t :=
  if negb (Postgres.counters_ok row) then Err (ENew "integer out of range")
  else if negb (fits 66 (UserRow.WalletAddress row)) then Err (too_long 66)
  else if negb (fits_null 255 (UserRow.TelegramUsername row)) then Err (too_long 255)
  else Ok (users_row row).

(** [INSERT INTO users ...]; [conflict] is what happens to a row that is there. *)
Definition insertUser (user : User.t) (conflict : Z → UserRow.t → result UserRow.t) :
    M (result User.t) :=
  _ <-? lift_result (User.Validate user) else Errorf "validation failed" ;;
  row <-? statement (λ id now t,
      match users_admit (insertedRow id now user) with
      | Err e => Err e
      | Ok new =>
          match
            match users t !! UserRow.WalletAddress new with
            | None => Ok new
            | Some old => conflict now old
            end
          with
          | Ok row => Ok (row, set_users (<[UserRow.WalletAddress new := row]> (users t)) t)
          | Err e => Err e
          end
      end) else Postgres.query_failed ;;
  mret (Ok (returning row user)).

Definition Create (user : User.t) : M (result User.t) :=
  insertUser user (λ _ _, Err (Postgres.violates "users_wallet_address_key")).

(** [ON CONFLICT (wallet_address) DO UPDATE SET]: the Telegram identity only, as the row
    that was to be inserted has it. *)
Definition identified (user : User.t) (now : Z) (row : UserRow.t) : UserRow.t :=
  {| UserRow.ID := UserRow.ID row; UserRow.TelegramUserID := User.TelegramUserID user;
     UserRow.TelegramUsername := Some (cut 255 (User.TelegramUsername user));
     UserRow.WalletAddress := UserRow.WalletAddress row;
     UserRow.TotalGamesPlayed := UserRow.TotalGamesPlayed row;
     UserRow.TotalWins := UserRow.TotalWins row; UserRow.TotalLosses := UserRow.TotalLosses row;
     UserRow.TotalReferrals := UserRow.TotalReferrals row;
     UserRow.TotalReferralEarnings := UserRow.TotalReferralEarnings row;
     UserRow.CreatedAt := UserRow.CreatedAt row; UserRow.UpdatedAt := now |}.

Definition CreateOrUpdate (user : User.t) : M (result User.t) :=
  insertUser user (λ now old, Ok (identified user now old)).

(** The columns that [Update] sets; the trigger of migration 1 sets updated_at. *)
Definition overwritten (user : User.t) (now : Z) (row : UserRow.t) : UserRow.t :=
  {| UserRow.ID := UserRow.ID row; UserRow.TelegramUserID := User.TelegramUserID user;
     UserRow.TelegramUsername := Some (cut 255 (User.TelegramUsername user));
     UserRow.WalletAddress := UserRow.WalletAddress row;
     UserRow.TotalGamesPlayed := User.TotalGamesPlayed user;
     UserRow.TotalWins := User.TotalWins user; UserRow.TotalLosses := User.TotalLosses user;
     UserRow.TotalReferrals := User.TotalReferrals user;
     UserRow.TotalReferralEarnings := User.TotalReferralEarnings user;
     UserRow.CreatedAt := UserRow.CreatedAt row; UserRow.UpdatedAt := now |}.

Definition set_UpdatedAt (now : Z) (user : User.t) : User.t :=
  {| User.ID := User.ID user; User.TelegramUserID := User.TelegramUserID user;
     User.TelegramUsername := User.TelegramUsername user;
     User.WalletAddress := User.WalletAddress user;
     User.TotalGamesPlayed := User.TotalGamesPlayed user;
     User.TotalWins := User.TotalWins user; User.TotalLosses := User.TotalLosses user;
     User.TotalReferrals := User.TotalReferrals user;
     User.TotalReferralEarnings := User.TotalReferralEarnings user;
     User.CreatedAt := User.CreatedAt user; User.UpdatedAt := now |}.

Definition Update (user : User.t) : M (result User.t) :=
  _ <-? lift_result (User.Validate user) else Errorf "validation failed" ;;
  updatedAt <-? statement (λ _ now t,
      if negb (Postgres.counters_ok (insertedRow 0 now user)) then
        Err (ENew "integer out of range")
      else match users t !! User.WalletAddress user with
      | None => Err (ESentinel ErrNoRows)
      | Some row =>
          if negb (fits 255 (User.TelegramUsername user)) then Err (too_long 255)
          else Ok (now, set_users
                 (<[User.WalletAddress user := overwritten user now row]> (users t)) t)
      end) else Postgres.query_failed ;;
  mret (Ok (set_UpdatedAt updatedAt user)).

(** *** Reading *)

(** Scanning into a field of type [string] refuses NULL. *)
Definition scanUsername (row : UserRow.t) : result string :=
  match UserRow.TelegramUsername row with
  | Some name => Ok name
  | None => Err (ENew
      "can't scan into dest[2] (col: telegram_username): cannot scan NULL into *string")
  end.

Definition scanUser (row : UserRow.t) : result User.t :=
  match scanUsername row with
  | Err e => Err e
  | Ok name => Ok
      {| User.ID := UserRow.ID row; User.TelegramUserID := UserRow.TelegramUserID row;
         User.TelegramUsername := name; User.WalletAddress := UserRow.WalletAddress row;
         User.TotalGamesPlayed := UserRow.TotalGamesPlayed row;
         User.TotalWins := UserRow.TotalWins row; User.TotalLosses := UserRow.TotalLosses row;
         User.TotalReferrals := UserRow.TotalReferrals row;
         User.TotalReferralEarnings := UserRow.TotalReferralEarnings row;
         User.CreatedAt := UserRow.CreatedAt row; User.UpdatedAt := UserRow.UpdatedAt row |}
  end.

Definition is_player (walletAddress : string) (g : Game.t) : bool :=
  bool_decide (Game.PlayerOneAddress g = walletAddress) ||
  bool_decide (Game.PlayerTwoAddress g = Some walletAddress).

(** [g.status IN ($2, $3)] *)
Definition settled (g : Game.t) : bool :=
  (Game.Status g =? GameStatusEnded) || (Game.Status g =? GameStatusPaid).

(** The three FILTERs of the first subquery. *)
Definition counts_played (g : Game.t) : bool :=
  settled g && negb (bool_decide (Game.WinnerAddress g = None) &&
                     bool_decide (Game.PayoutAmount g = None)).
Definition counts_won (walletAddress : string) (g : Game.t) : bool :=
  settled g && bool_decide (Game.WinnerAddress g = Some walletAddress).
Definition counts_lost (walletAddress : string) (g : Game.t) : bool :=
  settled g && match Game.WinnerAddress g with
               | Some winner => negb (bool_decide (winner = walletAddress))
               | None => false
               end.

Definition count {A} (p : A → bool) (l : list A) : Z := Z.of_nat (List.length (List.filter p l)).

(** The UNION ALL of the second subquery. *)
Definition referred (walletAddress : string) (gs : list Game.t) : list string :=
  (Game.PlayerOneAddress <$>
     List.filter (λ g, bool_decide (Game.PlayerOneReferrer g = Some walletAddress)) gs) ++
  omap Game.PlayerTwoAddress
     (List.filter (λ g, bool_decide (Game.PlayerTwoReferrer g = Some walletAddress)) gs).

(** [COUNT(DISTINCT referred_wallet)] *)
Definition count_distinct (l : list string) : Z := Z.of_nat (List.length (remove_dups l)).

(** The row of users with the totals that the query computes from games. *)
Definition profile (walletAddress : string) (gs : list Game.t) (row : UserRow.t) : UserRow.t :=
  let mine := List.filter (is_player walletAddress) gs in
  {| UserRow.ID := UserRow.ID row; UserRow.TelegramUserID := UserRow.TelegramUserID row;
     UserRow.TelegramUsername := UserRow.TelegramUsername row;
     UserRow.WalletAddress := UserRow.WalletAddress row;
     UserRow.TotalGamesPlayed := count counts_played mine;
     UserRow.TotalWins := count (counts_won walletAddress) mine;
     UserRow.TotalLosses := count (counts_lost walletAddress) mine;
     UserRow.TotalReferrals := count_distinct (referred walletAddress gs);
     UserRow.TotalReferralEarnings := UserRow.TotalReferralEarnings row;
     UserRow.CreatedAt := UserRow.CreatedAt row; UserRow.UpdatedAt := UserRow.UpdatedAt row |}.

Definition GetByWalletAddress (walletAddress : string) : M (result User.t) :=
  user <-? statement (λ _ _ t,
      match users t !! walletAddress with
      | None => Err (ESentinel ErrNoRows)
      | Some row =>
          match scanUser (profile walletAddress (games_rows t) row) with
          | Ok user => Ok (user, t)
          | Err e => Err e
          end
      end) else Postgres.query_failed ;;
  mret (Ok user).

Definition GetByWallet := GetByWalletAddress.

(** The loop over the rows stops at the first that cannot be scanned. *)
Fixpoint scanUsers (rows : list UserRow.t) : result (list User.t) :=
  match rows with
  | [] => Ok []
  | row :: rows =>
      match scanUser row with
      | Err e => Err (Errorf "scan row" e)
      | Ok user =>
          match scanUsers rows with Ok l => Ok (user :: l) | Err e => Err e end
      end
  end.

Definition GetByTelegramUserID (telegramUserID : Z) : M (result (list User.t)) :=
  rows <-? queryRows users_rows
             (λ u, bool_decide (UserRow.TelegramUserID u = Some telegramUserID)) unordered ;;
  mret (scanUsers rows).

Definition GetReferralStats (walletAddress : string) : M (result ReferralStats.t) :=
  stats <-? statement (λ _ _ t, Ok (
      {| ReferralStats.WalletAddress := walletAddress;
         ReferralStats.TotalReferrals := count_distinct (referred walletAddress (games_rows t));
         ReferralStats.TotalReferralEarnings :=
           match users t !! walletAddress with
           | Some row => UserRow.TotalReferralEarnings row
           | None => 0
           end;
         ReferralStats.GamesReferred :=
           count (λ g, bool_decide (Game.PlayerOneReferrer g = Some walletAddress) ||
                       bool_decide (Game.PlayerTwoReferrer g = Some walletAddress))
             (games_rows t) |}, t)) else Postgres.query_failed ;;
  mret (Ok stats).

(** *** Deleting *)

(** ON DELETE RESTRICT: a player of a game cannot be deleted. *)
Definition DeleteOlderThan (olderThanDate : string) : M (result Z) :=
  affected <-? statement (λ _ _ t,
      GameQueries.at_date olderThanDate (λ d,
        let kept := filter (λ ku : string * UserRow.t, ¬ UserRow.CreatedAt ku.2 < d) (users t) in
        if forallb (Postgres.games_fk kept) (games_rows t) then
          Ok (Z.of_nat (size (users t)) - Z.of_nat (size kept), set_users kept t)
        else Err (Postgres.violates "fk_games_player"))) else Postgres.query_failed ;;
  mret (Ok affected).
End UserQueries.
End UserQueries.

(** ** The retention job (cmd/cleanup/main.go) *)

Module Cleanup.
Section Cleanup.
Context `{E : Env}.

Definition eventBefore (d : Z) (e : GameEvent.t) : bool := GameEvent.CreatedAt e <? d.
Definition gameBefore (d : Z) (g : Game.t) : bool := Game.CreatedAt g <? d.

(** Players of the games that stay. *)
Definition active_players (d : Z) (gs : list Game.t) : list string :=
  let recent := List.filter (λ g, d <=? Game.CreatedAt g) gs in
  (Game.PlayerOneAddress <$> recent) ++ omap Game.PlayerTwoAddress recent.

(** Counts of events, games and inactive users, as logged. *)
Definition dryRunCleanup (cutoffDate : string) : M (result (Z * Z * Z)) :=
  let counting (f : Z → Tables → Z) : M (result Z) :=
    statement (λ _ _ t, GameQueries.at_date cutoffDate (λ d, Ok (f d t, t))) in
  eventsCount <-? counting (λ d t, UserQueries.count (eventBefore d) (events_rows t))
    else Errorf "count game_events" ;;
  gamesCount <-? counting (λ d t, UserQueries.count (gameBefore d) (games_rows t))
    else Errorf "count games" ;;
  usersCount <-? counting (λ d t, UserQueries.count (λ u,
      negb (bool_decide (UserRow.WalletAddress u ∈ active_players d (games_rows t))))
      (users_rows t)) else Errorf "count users" ;;
  mret (Ok (eventsCount, gamesCount, usersCount)).

Definition deleteEvents (d : Z) (t : Tables) : Z * Tables :=
  let kept := filter (λ ke : (Z * string * string) * GameEvent.t,
                        eventBefore d ke.2 = false) (game_events t) in
  (Z.of_nat (size (game_events t)) - Z.of_nat (size kept), set_game_events kept t).

(** The two deletes, on the transaction. *)
Definition deleteOld (cutoffDate : string) : M (result unit) :=
  _ <-? statement (λ _ _ t, GameQueries.at_date cutoffDate (λ d, Ok (deleteEvents d t)))
    else Errorf "delete game_events" ;;
  _ <-? statement (λ _ _ t, GameQueries.at_date cutoffDate (λ d,
          Ok (GameQueries.deleteGames (gameBefore d) t)))
    else Errorf "delete games" ;;
  mret (Ok tt).

(** The deferred Rollback runs on every return; after Commit it does nothing. *)
Definition performCleanup (cutoffDate : string) : M (result unit) :=
  b ← statement (λ _ _ t, Ok (tt, t));
  match b with
  | Err e => mret (Err (Errorf "begin transaction" e))
  | Ok _ =>
      snapshot ← gets tables;
      r ← deleteOld cutoffDate;
      match r with
      | Err e =>
          _ ← modify (set_tables snapshot);
          _ ← statement (λ _ _ t, Ok (tt, t));
          mret (Err e)
      | Ok _ =>
          after ← gets tables;
          _ ← modify (set_tables snapshot);
          c ← statement (λ _ _ _, Ok (tt, after));
          match c with
          | Ok _ => mret (Ok tt)
          | Err e => mret (Err (Errorf "commit transaction" e))
          end
      end
  end.
End Cleanup.
End Cleanup.

(** ** What the read side promises to the use cases *)

(** Every row of a listing is received: no connection breaks between two rows. *)
Class AllRows (E : Env) : Prop := all_rows id : rowsRead id = None.

(** The methods of repository.GameRepository that the read-side use cases call. *)
Class GameListing := {
  ListByStatus (status : Z) : M (result (list Game.t));
  ListByPlayer (walletAddress : string) : M (result (list Game.t));
  ListByPlayerAndStatuses (walletAddress : string) (statuses : list Z) :
    M (result (list Game.t)) }.

(** [l] lists games that satisfy [p], each once and as the tables hold it; it lists all of
    them when the rows arrive. *)
Record lists `{E : Env} (p : Game.t → bool) (t : Tables) (l : list Game.t) : Prop := {
  lists_sound g : g ∈ l → games t !! Game.GameID g = Some g ∧ p g = true;
  lists_once : NoDup (Game.GameID <$> l);
  lists_complete : AllRows E → ∀ k g, games t !! k = Some g → p g = true → g ∈ l }.

(** The tables file every game under its id. *)
Definition keyed (t : Tables) : Prop := ∀ k g, games t !! k = Some g → Game.GameID g = k.

Class GameListingLaws (E : Env) (G : GameListing) (variants : string → list string) : Prop := {
  ListByStatus_quiet s w : later w (ListByStatus s w).2;
  ListByPlayer_quiet a w : later w (ListByPlayer a w).2;
  ListByPlayerAndStatuses_quiet a ss w : later w (ListByPlayerAndStatuses a ss w).2;
  ListByStatus_lists s w l : keyed (tables w) → (ListByStatus s w).1 = Ok l →
    lists (λ g, Game.Status g =? s) (tables w) l;
  ListByPlayer_lists a w l : keyed (tables w) → (ListByPlayer a w).1 = Ok l →
    lists (GameQueries.plays (variants a)) (tables w) l;
  ListByPlayerAndStatuses_lists a ss w l : keyed (tables w) →
    (ListByPlayerAndStatuses a ss w).1 = Ok l →
    lists (λ g, GameQueries.plays (variants a) g && GameQueries.has_status ss g) (tables w) l;
  ListByStatus_ok s w : dbfault (stmts w) = FaultNone → is_ok (ListByStatus s w).1 = true }.

#[export] Instance Postgres_listing `{E : Env} `{L : AddressLib} : GameListing := {
  ListByStatus := GameQueries.GetByStatus;
  ListByPlayer := GameQueries.GetByPlayer;
  ListByPlayerAndStatuses := GameQueries.GetByPlayerAndStatuses }.

(** ** The statements meet the interface *)

Section Select.
Context `{E : Env} `{!ScanPerm E}.

Lemma selected_sound {A} id keep before (l : list A) x :
  x ∈ selected id keep before l → x ∈ l ∧ keep x = true.
Proof.
  intros Hx. eapply prefix_elem in Hx; [|apply stream_prefix].
  by rewrite elem_of_SliceStable, scan_perm, elem_of_List_filter in Hx.
Qed.

Lemma selected_complete {A} `{!AllRows E} id keep before (l : list A) x :
  x ∈ l → keep x = true → x ∈ selected id keep before l.
Proof.
  intros. unfold selected, stream. rewrite all_rows.
  by rewrite elem_of_SliceStable, scan_perm, elem_of_List_filter.
Qed.

Lemma selected_once {A B} (f : A → B) id keep before (l : list A) :
  NoDup (f <$> l) → NoDup (f <$> selected id keep before l).
Proof.
  intros Hl. eapply NoDup_fmap_prefix; [apply stream_prefix|].
  rewrite SliceStable_perm, scan_perm. by apply NoDup_fmap_filter.
Qed.

Lemma elem_of_games_rows t g : g ∈ games_rows t ↔ ∃ k, games t !! k = Some g.
Proof.
  unfold games_rows. rewrite list_elem_of_fmap. split.
  - intros ([k x] & -> & Hx). exists k. by apply elem_of_map_to_list in Hx.
  - intros [k Hk]. exists (k, g). by rewrite elem_of_map_to_list.
Qed.

Lemma games_rows_once t : keyed t → NoDup (Game.GameID <$> games_rows t).
Proof.
  intros Hk. unfold games_rows. rewrite <-list_fmap_compose.
  replace ((Game.GameID ∘ snd) <$> map_to_list (games t)) with (map_to_list (games t)).*1.
  { apply NoDup_fst_map_to_list. }
  apply list_fmap_ext. intros n [k g] Hn. simpl. symmetry. apply Hk.
  apply elem_of_map_to_list. by eapply list_elem_of_lookup_2.
Qed.

Lemma selected_lists p id t :
  keyed t → lists p t (selected id p GameQueries.newest (games_rows t)).
Proof.
  intros Hk. split.
  - intros g Hg. apply selected_sound in Hg as [[k Hg]%elem_of_games_rows Hp].
    split; [|done]. by rewrite (Hk _ _ Hg).
  - by apply selected_once, games_rows_once.
  - intros ? k g Hg Hp. apply selected_complete; [|done]. apply elem_of_games_rows. eauto.
Qed.

Lemma queryRows_quiet {A} (table : Tables → list A) keep before w :
  later w (queryRows table keep before w).2.
Proof.
  unfold queryRows, rbind_wrap, mbind, M_bind, ST_bind, statement, later, mret, M_ret, ST_ret.
  by destruct (dbfault (stmts w)).
Qed.

Lemma queryRows_ok {A} (table : Tables → list A) keep before w l :
  (queryRows table keep before w).1 = Ok l →
  l = selected (Z.of_nat (S (stmts w))) keep before (table (tables w)).
Proof.
  unfold queryRows, rbind_wrap, mbind, M_bind, ST_bind, statement, mret, M_ret, ST_ret.
  destruct (dbfault (stmts w)); simpl; congruence.
Qed.

Lemma queryRows_run {A} (table : Tables → list A) keep before w :
  dbfault (stmts w) = FaultNone → is_ok (queryRows table keep before w).1 = true.
Proof.
  intros Hf. unfold queryRows, rbind_wrap, mbind, M_bind, ST_bind, statement.
  by rewrite Hf.
Qed.
End Select.

Lemma lists_ext `{E : Env} p q t l :
  (∀ g, p g = q g) → lists p t l → lists q t l.
Proof.
  intros Hpq [Hs Ho Hc]. split; [intros g; rewrite <-Hpq; apply Hs|done|].
  intros ? k g. rewrite <-Hpq. by apply Hc.
Qed.

Lemma lists_nil `{E : Env} p t : (∀ g, p g = false) → lists p t [].
Proof.
  intros Hp. split; [by intros g ?%not_elem_of_nil|constructor|].
  intros _ k g _. by rewrite Hp.
Qed.

#[export] Instance Postgres_listing_laws (E : Env) (L : AddressLib) `{!ScanPerm E} :
  GameListingLaws E Postgres_listing GameQueries.buildWalletAddressVariants.
Proof.
  split; simpl.
  - intros. apply queryRows_quiet.
  - intros a w. unfold GameQueries.GetByPlayer, GameQueries.GetByPlayerAddress.
    destruct (GameQueries.buildPlayerAddressPredicate a); [apply queryRows_quiet|done].
  - intros a ss w. unfold GameQueries.GetByPlayerAndStatuses. destruct ss; [done|].
    destruct (GameQueries.buildPlayerAddressPredicate a); [apply queryRows_quiet|done].
  - intros s w l Hk ->%queryRows_ok. by apply selected_lists.
  - intros a w l Hk. unfold GameQueries.GetByPlayer, GameQueries.GetByPlayerAddress,
      GameQueries.buildPlayerAddressPredicate.
    destruct (GameQueries.buildWalletAddressVariants a).
    + intros [= <-]. apply lists_nil. intros g. unfold GameQueries.plays.
      rewrite bool_decide_false by apply not_elem_of_nil.
      destruct (Game.PlayerTwoAddress g); [|done]. by rewrite bool_decide_false by apply not_elem_of_nil.
    + intros ->%queryRows_ok. by apply selected_lists.
  - intros a ss w l Hk. unfold GameQueries.GetByPlayerAndStatuses,
      GameQueries.buildPlayerAddressPredicate. destruct ss as [|s ss].
    + intros [= <-]. apply lists_nil. intros g. unfold GameQueries.has_status.
      rewrite (bool_decide_false (_ ∈ [])) by apply not_elem_of_nil. apply andb_false_r.
    + destruct (GameQueries.buildWalletAddressVariants a).
      * intros [= <-]. apply lists_nil. intros g. unfold GameQueries.plays.
        rewrite bool_decide_false by apply not_elem_of_nil.
        destruct (Game.PlayerTwoAddress g); [|done].
        by rewrite bool_decide_false by apply not_elem_of_nil.
      * intros ->%queryRows_ok. by apply selected_lists.
  - intros s w Hf. by apply queryRows_run.
Qed.
