(* ===== verification/UserManagement.v ===== *)
(** * User profiles (internal/usecase/user_management.go)

    Profiles, written by a Telegram sign-in and read by wallet, and referral statistics. *)
From S2P Require Import Prelude GoTypes Entity World Locks LockOps Store Repo Coordination Persistence PersistenceSpec Delivery RecordedSpec Queries QueriesSpec.

(** The methods of repository.UserRepository that the use case calls. *)
Class UserRepository := {
  CreateOrUpdate (user : User.t) : M (result User.t);
  GetByWallet (walletAddress : string) : M (result (option User.t));
  UserReferralStats (walletAddress : string) : M (result (option ReferralStats.t)) }.

#[export] Instance Postgres_users `{E : Env} : UserRepository := {
  CreateOrUpdate := UserQueries.CreateOrUpdate;
  GetByWallet a := user <-? UserQueries.GetByWallet a ;; mret (Ok (Some user));
  UserReferralStats a := stats <-? UserQueries.GetReferralStats a ;; mret (Ok (Some stats)) }.

Module UserManagement.
Section UserManagement.
Context `{U : UserRepository}.

(** The result is the caller's user as the repository leaves it. *)
Definition CreateOrUpdateUser (user : User.t) : M (result User.t) :=
  _ <-? lift_result (User.Validate user) else Errorf "user validation failed" ;;
  user' <-? CreateOrUpdate user else Errorf "failed to create or update user" ;;
  mret (Ok user').

Definition GetUserByWallet (walletAddress : string) : M (result User.t) :=
  if bool_decide (walletAddress = EmptyString) then
    mret (Err (ENew "wallet address is required"))
  else
    user <-? GetByWallet walletAddress else Errorf "failed to get user by wallet" ;;
    match user with
    | None => mret (Err (ENew "failed to get user by wallet: user not found"))
    | Some user => mret (Ok user)
    end.

Definition GetReferralStats (walletAddress : string) : M (result ReferralStats.t) :=
  if bool_decide (walletAddress = EmptyString) then
    mret (Err (ENew "wallet address is required"))
  else
    stats <-? UserReferralStats walletAddress
      else Errorf "failed to get referral stats" ;;
    match stats with
    | None => mret (Err (ENew "failed to get referral stats: empty referral stats"))
    | Some stats => mret (Ok stats)
    end.
End UserManagement.
End UserManagement.

(** ** What profiles say *)

Section Profiles.
Context `{E : Env}.
Import UserManagement.

Lemma count_disjoint {A} (p q r : A → bool) l :
  (∀ x, p x = true → q x = true → False) →
  (∀ x, p x = true → r x = true) → (∀ x, q x = true → r x = true) →
  UserQueries.count p l + UserQueries.count q l ≤ UserQueries.count r l.
Proof.
  intros Hpq Hp Hq. unfold UserQueries.count. induction l as [|x l IH]; [done|].
  specialize (Hpq x). specialize (Hp x). specialize (Hq x). cbn [List.filter].
  destruct (p x), (q x), (r x); cbn [List.length]; try lia; exfalso; intuition congruence.
Qed.

(** What a successful read returns: the row, with the totals of the query. *)
Lemma GetUserByWallet_ok a w u :
  (GetUserByWallet a w).1 = Ok u →
  ∃ row, users (tables w) !! a = Some row ∧
    UserQueries.scanUser (UserQueries.profile a (games_rows (tables w)) row) = Ok u.
Proof.
  unfold GetUserByWallet. case_bool_decide; [done|].
  unfold GetByWallet, Postgres_users, UserQueries.GetByWallet, UserQueries.GetByWalletAddress,
    rbind, rbind_wrap, mbind, M_bind, ST_bind, statement, mret, M_ret, ST_ret.
  destruct (users (tables w) !! a) as [row|] eqn:Hr; [|by destruct (dbfault (stmts w))].
  destruct (UserQueries.scanUser _) as [u'|e] eqn:Hs; [|by destruct (dbfault (stmts w))].
  destruct (dbfault (stmts w)); simpl; [|done..]. intros [= <-]. eauto.
Qed.

Lemma GetUserByWallet_run a w row u :
  dbfault (stmts w) = FaultNone → a ≠ EmptyString → users (tables w) !! a = Some row →
  UserQueries.scanUser (UserQueries.profile a (games_rows (tables w)) row) = Ok u →
  (GetUserByWallet a w).1 = Ok u.
Proof.
  intros Hf Ha Hr Hs. unfold GetUserByWallet. rewrite bool_decide_false by done.
  unfold GetByWallet, Postgres_users, UserQueries.GetByWallet, UserQueries.GetByWalletAddress,
    rbind, rbind_wrap, mbind, M_bind, ST_bind, statement, mret, M_ret, ST_ret.
  by rewrite Hf, Hr, Hs.
Qed.

Lemma GetReferralStats_ok a w s :
  (GetReferralStats a w).1 = Ok s →
  ReferralStats.TotalReferrals s =
    UserQueries.count_distinct (UserQueries.referred a (games_rows (tables w))) ∧
  ReferralStats.TotalReferralEarnings s =
    default 0 (UserRow.TotalReferralEarnings <$> users (tables w) !! a).
Proof.
  unfold GetReferralStats. case_bool_decide; [done|].
  unfold UserReferralStats, Postgres_users, UserQueries.GetReferralStats,
    rbind, rbind_wrap, mbind, M_bind, ST_bind, statement, mret, M_ret, ST_ret.
  destruct (dbfault (stmts w)); simpl; [|done..]. intros [= <-]. simpl. split; [done|].
  by destruct (users (tables w) !! a).
Qed.

Lemma profile_fields a gs row u :
  UserQueries.scanUser (UserQueries.profile a gs row) = Ok u →
  let mine := List.filter (UserQueries.is_player a) gs in
  UserRow.TelegramUsername row = Some (User.TelegramUsername u) ∧
  User.TotalGamesPlayed u = UserQueries.count UserQueries.counts_played mine ∧
  User.TotalWins u = UserQueries.count (UserQueries.counts_won a) mine ∧
  User.TotalLosses u = UserQueries.count (UserQueries.counts_lost a) mine ∧
  User.TotalReferrals u = UserQueries.count_distinct (UserQueries.referred a gs) ∧
  User.TotalReferralEarnings u = UserRow.TotalReferralEarnings row.
Proof.
  unfold UserQueries.scanUser, UserQueries.scanUsername. simpl.
  destruct (UserRow.TelegramUsername row); [|done]. by intros [= <-].
Qed.

(** A profile that is read counts the games of the wallet that are settled: a won game
    and a lost game is a played game, no game is both, and the two referral totals are
    those that the referral statistics of the same state report, whatever the counters
    stored with the user say. *)
Theorem profile_totals a w w' u s :
  tables w' = tables w →
  (GetUserByWallet a w).1 = Ok u → (GetReferralStats a w').1 = Ok s →
  0 ≤ User.TotalWins u ∧ 0 ≤ User.TotalLosses u ∧
  User.TotalWins u + User.TotalLosses u ≤ User.TotalGamesPlayed u ∧
  User.TotalGamesPlayed u ≤ UserQueries.count (λ g, UserQueries.is_player a g &&
    UserQueries.settled g) (games_rows (tables w)) ∧
  User.TotalReferrals u = ReferralStats.TotalReferrals s ∧
  User.TotalReferralEarnings u = ReferralStats.TotalReferralEarnings s.
Proof.
  intros Ht (row & Hrow & Hu)%GetUserByWallet_ok [Hr He]%GetReferralStats_ok.
  rewrite Ht in Hr, He. rewrite Hrow in He. simpl in He.
  apply profile_fields in Hu as (_ & Hp & Hw & Hl & Hrf & Hea).
  rewrite Hp, Hw, Hl, Hrf, Hea, Hr, He. split_and!; [unfold UserQueries.count; lia..| | |done|done].
  - apply count_disjoint; intros g; unfold UserQueries.counts_won, UserQueries.counts_lost,
      UserQueries.counts_played; destruct (UserQueries.settled g), (Game.WinnerAddress g);
      simpl; repeat case_bool_decide; naive_solver.
  - unfold UserQueries.count. apply inj_le. clear.
    induction (games_rows (tables w)) as [|g gs IH]; simpl; [lia|].
    destruct (UserQueries.is_player a g); simpl; [|exact IH].
    assert (UserQueries.counts_played g = true → UserQueries.settled g = true) as Hs
      by (unfold UserQueries.counts_played; by intros [? _]%andb_true_iff).
    destruct (UserQueries.counts_played g), (UserQueries.settled g); simpl;
      [lia|by specialize (Hs eq_refl)|lia|exact IH].
Qed.

(** *** Users that only the chain knows *)

Definition nameless (t : Tables) : Prop :=
  ∀ a u, users t !! a = Some u → UserRow.TelegramUsername u = None.

Lemma nameless_writable : writable nameless.
Proof.
  split; try done; unfold nameless; simpl.
  - intros id now a t Hn Ht b u [[<- <-]|[? ?]]%lookup_insert_Some; eauto.
  - intros a u g wi l r x now t Hu Ht b v [[<- <-]|[? ?]]%lookup_insert_Some; simpl; eauto.
Qed.

Context `{!ClockMono E} `{!RangePerm E} (uc : Persistence.PersistenceUC).

Lemma service_nameless w w' :
  rtc (service_step uc) w w' → nameless (tables w) → nameless (tables w').
Proof.
  induction 1 as [w|w1 w2 w3 [m w Hown|e w] _ IH]; [done|..]; intros Hok; apply IH.
  - destruct (run_op m w Hown) as [k Hop]. by rewrite (op_tables _ _ _ Hop).
  - exact (routeEvent_writable uc nameless nameless_writable e w Hok).
Qed.

(** C15: no user that ingestion creates can be read: whatever events and lock operations the
    service ran, starting without signed-in users, reading the profile of any wallet is an
    error. The row exists, but its NULL username does not scan into a Go string. *)
Theorem profile_unreadable w w' a :
  nameless (tables w) → rtc (service_step uc) w w' →
  is_ok (GetUserByWallet a w').1 = false.
Proof.
  intros Hn Hr. pose proof (service_nameless _ _ Hr Hn) as Hn'.
  destruct (GetUserByWallet a w').1 as [u|e] eqn:Hg; [|done]. exfalso.
  apply GetUserByWallet_ok in Hg as (row & Hrow & Hs).
  apply profile_fields in Hs as [Hname _]. by rewrite (Hn' _ _ Hrow) in Hname.
Qed.
End Profiles.

(** *** Signing in *)

Section SignIn.
Context `{E : Env}.
Import UserManagement.

(** The row of a valid user fits its columns when the username does. *)
Lemma admit_inserted id now u :
  User.Validate u = Ok tt → Postgres.counters_ok (UserQueries.insertedRow 0 0 u) = true →
  beyond 255 (bytes (User.TelegramUsername u)) = [] →
  let row := UserQueries.insertedRow id now u in UserQueries.users_admit row = Ok row.
Proof.
  intros Hv Hc Hname row. assert (beyond 66 (bytes (User.WalletAddress u)) = []) as Haddr.
  { apply address_short. unfold User.Validate in Hv. case_bool_decide; [done|].
    by destruct (tonAddressRegex _). }
  unfold UserQueries.users_admit.
  change (Postgres.counters_ok row) with (Postgres.counters_ok (UserQueries.insertedRow 0 0 u)).
  change (UserRow.WalletAddress row) with (User.WalletAddress u).
  change (UserRow.TelegramUsername row) with (Some (User.TelegramUsername u)).
  rewrite Hc, (fits_kept _ _ Haddr). cbn [fits_null negb]. rewrite (fits_kept _ _ Hname).
  cbn [negb]. f_equal. unfold UserQueries.users_row, row. simpl. by rewrite !cut_id.
Qed.

(** Signing in makes the profile readable: the user that is returned is the one that
    reading the wallet gives, with the Telegram identity just written; a user known before
    keeps its id and its earnings. *)
Theorem sign_in_readable u w :
  schema_ok (tables w) → dbfault (stmts w) = FaultNone → dbfault (S (stmts w)) = FaultNone →
  User.Validate u = Ok tt → Postgres.counters_ok (UserQueries.insertedRow 0 0 u) = true →
  beyond 255 (bytes (User.TelegramUsername u)) = [] →
  let r := CreateOrUpdateUser u w in
  let a := User.WalletAddress u in
  ∃ u' v, r.1 = Ok u' ∧ (GetUserByWallet a r.2).1 = Ok v ∧
    User.ID v = User.ID u' ∧ User.CreatedAt v = User.CreatedAt u' ∧
    User.TelegramUserID v = User.TelegramUserID u ∧
    User.TelegramUsername v = User.TelegramUsername u ∧ User.WalletAddress v = a ∧
    (∀ old, users (tables w) !! a = Some old →
       User.ID v = UserRow.ID old ∧
       User.TotalReferralEarnings v = UserRow.TotalReferralEarnings old).
Proof.
  intros Hok Hf1 Hf2 Hv Hc Hname. cbv zeta.
  set (a := User.WalletAddress u).
  assert (a ≠ EmptyString) as Ha.
  { intros He. unfold User.Validate in Hv. fold a in Hv. by rewrite He in Hv. }
  set (row := match users (tables w) !! a with
              | None => UserQueries.insertedRow (Z.of_nat (S (stmts w))) (dbclock (stmts w)) u
              | Some old => UserQueries.identified u (dbclock (stmts w)) old
              end).
  assert (CreateOrUpdateUser u w =
    (Ok (UserQueries.returning row u),
     set_tables (set_users (<[a := row]> (users (tables w))) (tables w))
       (set_stmts (S (stmts w)) w))) as ->.
  { unfold CreateOrUpdateUser, CreateOrUpdate, Postgres_users, UserQueries.CreateOrUpdate,
      UserQueries.insertUser, rbind_wrap, lift_result, mbind, M_bind, ST_bind, statement,
      mret, M_ret, ST_ret.
    rewrite Hv, Hf1, admit_inserted by done. unfold row. fold a. simpl. fold a.
    by destruct (users (tables w) !! a). }
  eexists _, _. split; [done|]. split.
  { apply (GetUserByWallet_run a _ row); [exact Hf2|done|simpl; by rewrite lookup_insert_eq|].
    unfold UserQueries.scanUser, UserQueries.scanUsername. simpl.
    assert (UserRow.TelegramUsername row = Some (User.TelegramUsername u)) as ->
      by (unfold row; destruct (users (tables w) !! a); simpl; by rewrite ?cut_id).
    done. }
  simpl. unfold row. destruct (users (tables w) !! a) as [old|] eqn:Ho; simpl.
  - destruct (schema_user _ Hok _ _ Ho) as [Hw _]. split_and!; try done. by intros ? [= <-].
  - split_and!; done.
Qed.
End SignIn.

(** ** Concrete runs *)

Module UserRun.
Import Run DeliveryRun UserManagement.
#[local] Existing Instance Run.ticking.

(** Alice and bob play; the chain knows both, and no profile can be read. *)
Definition played : World := deliver uc won (deliver uc started w1).

Lemma played_reach : rtc (service_step uc) w0 played.
Proof.
  etrans; [apply w1_reach|]. eapply rtc_l; [apply service_event|].
  eapply rtc_l; [apply service_event|]. constructor.
Qed.

Lemma profile_unreadable_witness :
  is_Some (users (tables played) !! bob) ∧ is_ok (GetUserByWallet bob played).1 = false.
Proof.
  split; [vm_compute; eauto|].
  refine (profile_unreadable uc w0 played bob _ played_reach).
  intros a u Hu. change ((∅ : gmap string UserRow.t) !! a = Some u) in Hu.
  by rewrite lookup_empty in Hu.
Defined.

Definition bob_user : User.t := User.mk 0 (Some 77) "bob" bob 0 0 0 0 0 0 0.
Definition signed : World := (CreateOrUpdateUser bob_user played).2.

Lemma played_schema : schema_ok (tables played).
Proof.
  apply db_schema; [exact (service_db uc w0 played played_reach db_ok_empty)|].
  vm_compute. reflexivity.
Qed.

Lemma sign_in_readable_witness :
  ∃ u' v, (CreateOrUpdateUser bob_user played).1 = Ok u' ∧
    (GetUserByWallet bob signed).1 = Ok v ∧ User.TelegramUsername v = "bob".
Proof.
  destruct (sign_in_readable (E := Run.ticking) bob_user played played_schema eq_refl eq_refl eq_refl eq_refl eq_refl)
    as (u' & v & Hu & Hv & _ & _ & _ & Hn & _). exists u', v.
  split; [exact Hu|split; [exact Hv|exact Hn]].
Defined.

(** Bob's only game is won. *)
Lemma profile_totals_witness :
  ∃ u s, (GetUserByWallet bob signed).1 = Ok u ∧ (GetReferralStats bob signed).1 = Ok s ∧
    User.TotalGamesPlayed u = 1 ∧ User.TotalWins u = 1 ∧
    User.TotalWins u + User.TotalLosses u ≤ User.TotalGamesPlayed u.
Proof.
  eexists _, _. split; [vm_compute; reflexivity|]. split; [vm_compute; reflexivity|].
  split; [reflexivity|]. split; [reflexivity|].
  refine (proj1 (proj2 (proj2 (profile_totals bob signed signed _ _ eq_refl _ _))));
    vm_compute; reflexivity.
Defined.
End UserRun.
