(* ===== verification/GameQuery.v ===== *)
(** * Game listings (internal/usecase/game_query.go)

    Games by status or by player, most recent activity first, in pages. *)
From S2P Require Import Prelude GoTypes Entity World Repo Delivery Queries QueriesSpec.

(** [l[lo:hi]]; [None] is the panic of a slice expression out of range. *)
Definition slice {A} (l : list A) (lo hi : Z) : option (list A) :=
  if (0 <=? lo) && (lo <=? hi) && (hi <=? Z.of_nat (List.length l))
  then Some (take (Z.to_nat (hi - lo)) (drop (Z.to_nat lo) l)) else None.

(** The zero [time.Time]: January 1, year 1. *)
Definition ZeroTime : Z := -62135596800 * 10 ^ 9.

Definition latestGameActivity (game : option Game.t) : Z :=
  match game with
  | None => ZeroTime
  | Some g =>
      match Game.CompletedAt g with
      | Some t => t
      | None =>
          match Game.RevealedAt g with
          | Some t => t
          | None => match Game.JoinedAt g with Some t => t | None => Game.CreatedAt g end
          end
      end
  end.

Module GameQuery.
Section GameQuery.
Context `{E : Env} `{R : GameRepository} `{G : GameListing}.

Definition moreRecent (x y : Game.t) : bool :=
  latestGameActivity (Some y) <? latestGameActivity (Some x).

Definition sortGamesByMostRecentActivity : list Game.t → list Game.t := SliceStable moreRecent.

Definition getGamesForStatus (status : Z) : M (result (list Game.t)) :=
  games <-? ListByStatus status ;;
  if negb (status =? GameStatusEnded) then
    mret (Ok (sortGamesByMostRecentActivity games))
  else
    paidGames <-? ListByStatus GameStatusPaid ;;
    mret (Ok (sortGamesByMostRecentActivity (games ++ paidGames))).

(** The part of [l] from [offset] on; the sum of two ints wraps. *)
Definition page {A} (l : list A) (limit offset : Z) : option (list A) :=
  if Z.of_nat (List.length l) <=? offset then Some []
  else
    let end_ := wrap64 (offset + limit) in
    let end_ := if Z.of_nat (List.length l) <? end_ then Z.of_nat (List.length l) else end_ in
    slice l offset end_.

(** The inner [None] is a panic. *)
Definition ListGames (status limit offset : Z) : M (result (option (list Game.t))) :=
  if (status <? GameStatusUninitialized) || (GameStatusPaid <? status) then
    mret (Err (ENew "invalid status: must be 0-4"))
  else if limit <=? 0 then mret (Err (ENew "limit must be positive"))
  else if offset <? 0 then mret (Err (ENew "offset cannot be negative"))
  else
    games <-? getGamesForStatus status ;;
    mret (Ok (page games limit offset)).

Definition GetGameByID (gameID : Z) : M (result (option Game.t)) :=
  if gameID <=? 0 then mret (Err (ENew "gameID must be positive"))
  else
    game <-? GetByID gameID ;;
    mret (Ok game).

Definition GetGamesByPlayerPage (walletAddress : string) (limit offset : Z) :
    M (result (option (list Game.t) * Z)) :=
  if bool_decide (walletAddress = EmptyString) then
    mret (Err (ENew "wallet address is required"))
  else if limit <=? 0 then mret (Err (ENew "limit must be positive"))
  else if offset <? 0 then mret (Err (ENew "offset cannot be negative"))
  else
    games <-? ListByPlayer walletAddress ;;
    let games := sortGamesByMostRecentActivity games in
    mret (Ok (page games limit offset, Z.of_nat (List.length games))).

Definition GetGamesByPlayer (walletAddress : string) (limit offset : Z) :
    M (result (option (list Game.t))) :=
  r <-? GetGamesByPlayerPage walletAddress limit offset ;;
  mret (Ok r.1).
End GameQuery.
End GameQuery.

(** ** Pages *)

Section Pages.
Context {A : Type}.
Implicit Types l : list A.

Lemma page_fits l limit offset :
  0 < limit → 0 ≤ offset → offset + limit ≤ MaxInt64 →
  GameQuery.page l limit offset = Some (take (Z.to_nat limit) (drop (Z.to_nat offset) l)).
Proof.
  intros Hl Ho Hm. unfold GameQuery.page. destruct (Z.leb_spec (Z.of_nat (length l)) offset).
  { rewrite drop_ge by lia. by rewrite take_nil. }
  cbv zeta. rewrite wrap64_id by (unfold in_int64, MinInt64; lia). unfold slice.
  destruct (Z.ltb_spec (Z.of_nat (length l)) (offset + limit)).
  - rewrite (proj2 (Z.leb_le 0 offset)), (proj2 (Z.leb_le offset _)), Z.leb_refl by lia. simpl.
    f_equal. rewrite !take_ge by (rewrite length_drop; lia). done.
  - rewrite (proj2 (Z.leb_le 0 offset)), (proj2 (Z.leb_le offset _)),
      (proj2 (Z.leb_le _ (Z.of_nat (length l)))) by lia. simpl. do 2 f_equal. lia.
Qed.

(** A limit that takes the end of the page past the largest int is not clamped: the end
    wraps to a negative number, and the slice expression panics. *)
Lemma page_overflow l limit offset :
  0 ≤ offset < Z.of_nat (length l) → limit ≤ MaxInt64 → offset ≤ MaxInt64 →
  MaxInt64 < offset + limit → GameQuery.page l limit offset = None.
Proof.
  intros Ho Hl Hom Hm. unfold GameQuery.page, MaxInt64 in *.
  rewrite (proj2 (Z.leb_gt _ _)) by lia. cbv zeta.
  assert (wrap64 (offset + limit) < 0) as Hneg.
  { unfold wrap64. replace (offset + limit + 2 ^ 63) with (offset + limit - 2 ^ 63 + 1 * 2 ^ 64) by lia.
    rewrite Z.mod_add, Z.mod_small by lia. lia. }
  rewrite (proj2 (Z.ltb_ge _ _)) by lia. unfold slice.
  rewrite (proj2 (Z.leb_gt offset _)) by lia. by rewrite andb_false_r.
Qed.

(** A page is a segment of the list, or the request panics: when the offset is inside the
    list and the end of the page passes the largest int. *)
Definition segment (l : list A) (limit offset : Z) : option (list A) :=
  if (offset + limit <=? MaxInt64) || (Z.of_nat (length l) <=? offset)
  then Some (take (Z.to_nat limit) (drop (Z.to_nat offset) l)) else None.

Lemma page_segment l limit offset :
  0 < limit ≤ MaxInt64 → 0 ≤ offset ≤ MaxInt64 → GameQuery.page l limit offset = segment l limit offset.
Proof.
  intros Hl Ho. unfold segment. destruct (Z.leb_spec (offset + limit) MaxInt64); simpl.
  { apply page_fits; lia. }
  destruct (Z.leb_spec (Z.of_nat (length l)) offset); [|apply page_overflow; lia].
  unfold GameQuery.page. rewrite (proj2 (Z.leb_le _ _)) by done.
  by rewrite drop_ge, take_nil by lia.
Qed.

Lemma segment_fits l limit offset :
  offset + limit ≤ MaxInt64 →
  segment l limit offset = Some (take (Z.to_nat limit) (drop (Z.to_nat offset) l)).
Proof. intros Hm. unfold segment. by rewrite (proj2 (Z.leb_le _ _)). Qed.

(** Pages that follow one another tile the list. *)
Lemma page_tiles l n m offset :
  take n (drop offset l) ++ take m (drop (offset + n) l) = take (n + m) (drop offset l).
Proof. rewrite <-drop_drop. apply take_take_drop. Qed.
End Pages.

(** ** Listings *)

Section Listings.
Context `{E : Env} {G : GameListing} {variants : string → list string}
  `{!GameListingLaws E G variants}.
Import GameQuery.

(** What a listing by status shows: status 3 stands for 3 and 4. *)
Definition shown (status : Z) (g : Game.t) : bool :=
  (Game.Status g =? status) ||
  ((status =? GameStatusEnded) && (Game.Status g =? GameStatusPaid)).

(** [l] lists the games that satisfy [p], the most recent activity first. *)
Definition listing (p : Game.t → bool) (t : Tables) (l : list Game.t) : Prop :=
  lists p t l ∧ ordered moreRecent l.

Lemma sorted_ordered l : ordered moreRecent (sortGamesByMostRecentActivity l).
Proof.
  apply SliceStable_ordered; unfold moreRecent; intros *; rewrite ?Z.ltb_lt, ?Z.ltb_ge; lia.
Qed.

Lemma lists_perm p t l k : l ≡ₚ k → lists p t l → lists p t k.
Proof.
  intros Hp [Hs Ho Hc]. split.
  - intros g. rewrite <-Hp. apply Hs.
  - by rewrite <-Hp.
  - intros ? i g. rewrite <-Hp. by apply Hc.
Qed.

Lemma sorted_listing p t l : lists p t l → listing p t (sortGamesByMostRecentActivity l).
Proof.
  intros Hl. split; [|apply sorted_ordered]. eapply lists_perm; [|exact Hl].
  symmetry. apply SliceStable_perm.
Qed.

(** Two listings of disjoint sets of games. *)
Lemma lists_app p q t l k :
  (∀ g, p g = true → q g = true → False) → lists p t l → lists q t k →
  lists (λ g, p g || q g) t (l ++ k).
Proof.
  intros Hpq [Hs Ho Hc] [Hs' Ho' Hc']. split.
  - intros g [Hg|Hg]%elem_of_app; [destruct (Hs g Hg) as [? ->]|destruct (Hs' g Hg) as [? ->]];
      by rewrite ?orb_true_r.
  - rewrite fmap_app. apply NoDup_app. split_and!; [done| |done].
    intros i (g & -> & Hg)%list_elem_of_fmap (g' & Hid & Hg')%list_elem_of_fmap.
    destruct (Hs g Hg) as [Hi Hp], (Hs' g' Hg') as [Hi' Hq]. rewrite Hid in Hi. simplify_eq. eauto.
  - intros ? i g Hg [Hp|Hq]%orb_true_iff; apply elem_of_app; eauto.
Qed.

Lemma getGamesForStatus_ok s w l :
  keyed (tables w) → (getGamesForStatus s w).1 = Ok l → listing (shown s) (tables w) l.
Proof.
  intros Hk. unfold getGamesForStatus, rbind, mbind, M_bind, ST_bind, mret, M_ret, ST_ret.
  pose proof (ListByStatus_lists s w) as H1. pose proof (ListByStatus_quiet s w) as Hq.
  destruct (ListByStatus s w) as [[l1|e] w1]; simpl in *; [|done].
  specialize (H1 l1 Hk eq_refl). destruct (Z.eqb_spec s GameStatusEnded) as [->|Hs]; simpl.
  - pose proof (ListByStatus_lists GameStatusPaid w1) as H2. rewrite (later_tables _ _ Hq) in H2.
    destruct (ListByStatus GameStatusPaid w1) as [[l2|e] w2]; simpl in *; [|done].
    intros [= <-]. specialize (H2 l2 Hk eq_refl). apply sorted_listing.
    apply lists_app; [|done..]. intros g ?%Z.eqb_eq ?%Z.eqb_eq.
    unfold GameStatusEnded, GameStatusPaid in *. lia.
  - intros [= <-]. apply sorted_listing. eapply lists_ext; [|exact H1].
    intros g. unfold shown. rewrite (proj2 (Z.eqb_neq s _)) by done. by rewrite orb_false_r.
Qed.

Lemma listing_unique p t l k :
  AllRows E → (∀ i j x y, games t !! i = Some x → games t !! j = Some y →
     latestGameActivity (Some x) = latestGameActivity (Some y) → x = y) →
  listing p t l → listing p t k → l = k.
Proof.
  intros Hall Hinj [[Hs Ho Hc] Hl] [[Hs' Ho' Hc'] Hk].
  eapply (StronglySorted_unique_strong (λ x y, moreRecent y x = false)); [|exact Hl|exact Hk|].
  - intros x y [Hx _]%Hs [Hy _]%Hs'. unfold moreRecent. rewrite !Z.ltb_ge. intros.
    eapply Hinj; [exact Hx|exact Hy|lia].
  - apply NoDup_Permutation; [by eapply NoDup_fmap_1|by eapply NoDup_fmap_1|].
    intros g. split; intros Hg; [apply Hs in Hg as [? ?]|apply Hs' in Hg as [? ?]]; eauto.
Qed.

(** Which requests for a page are accepted. *)
Definition page_request (limit offset : Z) : Prop :=
  0 < limit ∧ 0 ≤ offset ∧ offset + limit ≤ MaxInt64.

Lemma ListGames_ok s n o w r :
  keyed (tables w) → (ListGames s n o w).1 = Ok r →
  0 < n ∧ 0 ≤ o ∧ ∃ l, listing (shown s) (tables w) l ∧ r = page l n o.
Proof.
  intros Hk. unfold ListGames. destruct (_ || _); [done|].
  destruct (Z.leb_spec n 0); [done|]. destruct (Z.ltb_spec o 0); [done|].
  unfold rbind, mbind, M_bind, ST_bind, mret, M_ret, ST_ret.
  pose proof (getGamesForStatus_ok s w) as Hg.
  destruct (getGamesForStatus s w) as [[l|e] w']; simpl in *; [|done].
  intros [= <-]. split_and!; [done..|]. exists l. auto.
Qed.

(** C28: over games whose rows are under their own ids, and for a limit and an offset in
    the range of ints: a page of games is a segment of a listing of the requested status,
    the most recent activity first, in which every entry is a stored game of that status
    and no game occurs twice, and, as long as the rows of the query all arrive, every such
    game occurs; status 3 lists ended and paid games together. When the offset is inside
    the listing and offset plus limit exceeds the largest int, the request panics instead.
    (A connection that breaks between two rows shortens the listing without an error:
    rows.Err() is never read.) *)
Theorem ListGames_spec s n o w r :
  keyed (tables w) → n ≤ MaxInt64 → o ≤ MaxInt64 → (ListGames s n o w).1 = Ok r →
  0 < n ∧ 0 ≤ o ∧ ∃ l, r = segment l n o ∧ ordered moreRecent l ∧
    NoDup (Game.GameID <$> l) ∧
    (∀ g, g ∈ l → games (tables w) !! Game.GameID g = Some g ∧ shown s g = true) ∧
    ((∀ id, rowsRead id = None) →
     ∀ k g, games (tables w) !! k = Some g → shown s g = true → g ∈ l).
Proof.
  intros Hk Hn Ho (Hn' & Ho' & l & [[Hs Hnd Hc] Hl] & ->)%ListGames_ok; [|done].
  split_and!; [done..|]. exists l. rewrite page_segment by done. by split_and!.
Qed.

(** Pages requested one after the other tile the listing: nothing is skipped and
    nothing repeated, as long as the games do not change in between and no two of them share
    the time of their last activity. *)
Theorem ListGames_tiles s n m o w1 w2 w3 p1 p2 p3 :
  AllRows E → keyed (tables w1) → tables w2 = tables w1 → tables w3 = tables w1 →
  (∀ i j x y, games (tables w1) !! i = Some x → games (tables w1) !! j = Some y →
     latestGameActivity (Some x) = latestGameActivity (Some y) → x = y) →
  o + n + m ≤ MaxInt64 →
  (ListGames s n o w1).1 = Ok (Some p1) → (ListGames s m (o + n) w2).1 = Ok (Some p2) →
  (ListGames s (n + m) o w3).1 = Ok (Some p3) → p1 ++ p2 = p3.
Proof.
  intros Hall Hk H2 H3 Hinj Hm (Hn & Ho & l1 & L1 & P1)%ListGames_ok; [|done].
  intros (Hm' & _ & l2 & L2 & P2)%ListGames_ok; [|by rewrite H2].
  intros (_ & _ & l3 & L3 & P3)%ListGames_ok; [|by rewrite H3].
  rewrite H2 in L2. rewrite H3 in L3.
  assert (l2 = l1) as -> by (by eapply listing_unique).
  assert (l3 = l1) as -> by (by eapply listing_unique).
  rewrite page_fits in P1, P2, P3 by lia. simplify_eq.
  rewrite !Z2Nat.inj_add by lia. apply page_tiles.
Qed.

(** A page of a player's games, with the number of all of them. *)
Theorem GetGamesByPlayerPage_spec a n o w r total :
  keyed (tables w) → o + n ≤ MaxInt64 → (GetGamesByPlayerPage a n o w).1 = Ok (r, total) →
  ∃ l, listing (GameQueries.plays (variants a)) (tables w) l ∧ total = Z.of_nat (length l) ∧
    r = Some (take (Z.to_nat n) (drop (Z.to_nat o) l)).
Proof.
  intros Hk Hm. unfold GetGamesByPlayerPage. case_bool_decide; [done|].
  destruct (Z.leb_spec n 0); [done|]. destruct (Z.ltb_spec o 0); [done|].
  unfold rbind, mbind, M_bind, ST_bind, mret, M_ret, ST_ret.
  pose proof (ListByPlayer_lists a w) as Hg.
  destruct (ListByPlayer a w) as [[l|e] w']; simpl in *; [|done].
  intros [= <- <-]. exists (sortGamesByMostRecentActivity l).
  split; [by apply sorted_listing, Hg|]. split; [done|]. apply page_fits; lia.
Qed.
End Listings.

(** ** Concrete runs *)

Module GameQueryRun.
Import TwoAddresses GameQuery.
Notation alice := DeliveryRun.alice.
Notation bob := DeliveryRun.bob.

(** Three games that wait for an opponent, of ages of their own. *)
Definition waiting (id created : Z) : Game.t :=
  Game.set_CreatedAt created (Run.game id GameStatusWaitingForOpponent alice None).
Definition w : World :=
  Run.world (Run.tables_of [waiting 1 100; waiting 2 300; waiting 3 200]) 3 1000.

Lemma w_rows k g :
  games (tables w) !! k = Some g → (k, g) ∈ [(1, waiting 1 100); (2, waiting 2 300); (3, waiting 3 200)].
Proof. intros Hg. exact (elem_of_list_to_map_2 _ _ _ Hg). Qed.

Lemma listing_keyed : keyed (tables w).
Proof.
  intros k g Hg%w_rows. rewrite !elem_of_cons in Hg.
  destruct Hg as [[= -> ->]|[[= -> ->]|[[= -> ->]|?%not_elem_of_nil]]]; done.
Qed.

Lemma w_times i j x y :
  games (tables w) !! i = Some x → games (tables w) !! j = Some y →
  latestGameActivity (Some x) = latestGameActivity (Some y) → x = y.
Proof.
  intros Hx%w_rows Hy%w_rows. rewrite !elem_of_cons in Hx, Hy.
  destruct Hx as [[= -> ->]|[[= -> ->]|[[= -> ->]|?%not_elem_of_nil]]];
    destruct Hy as [[= -> ->]|[[= -> ->]|[[= -> ->]|?%not_elem_of_nil]]]; done.
Qed.

Lemma ListGames_spec_witness :
  (ListGames 1 2 1 w).1 = Ok (Some [waiting 3 200; waiting 1 100]) ∧
  (ListGames 1 MaxInt64 1 w).1 = Ok None ∧
  (∃ l, Some [waiting 3 200; waiting 1 100] = segment l 2 1 ∧ waiting 2 300 ∈ l) ∧
  ∃ l, None = segment l MaxInt64 1 ∧ waiting 2 300 ∈ l.
Proof.
  split; [vm_compute; reflexivity|]. split; [vm_compute; reflexivity|]. split.
  - destruct (ListGames_spec 1 2 1 w (Some [waiting 3 200; waiting 1 100]) listing_keyed)
      as (_ & _ & l & Hr & _ & _ & _ & Hc); [vm_compute; done|vm_compute; done|vm_compute; reflexivity|].
    exists l. split; [exact Hr|]. apply (Hc (λ _, eq_refl) 2); reflexivity.
  - destruct (ListGames_spec 1 MaxInt64 1 w None listing_keyed)
      as (_ & _ & l & Hr & _ & _ & _ & Hc); [vm_compute; done|vm_compute; done|vm_compute; reflexivity|].
    exists l. split; [exact Hr|]. apply (Hc (λ _, eq_refl) 2); reflexivity.
Defined.

Lemma ListGames_tiles_witness :
  [waiting 2 300] ++ [waiting 3 200; waiting 1 100] =
  [waiting 2 300; waiting 3 200; waiting 1 100].
Proof.
  refine (ListGames_tiles 1 1 2 0 w w w _ _ _ _ listing_keyed eq_refl eq_refl w_times _ _ _ _);
    [done|vm_compute; reflexivity..].
Defined.
End GameQueryRun.
