(* ===== verification/Activity.v ===== *)
(** * Activity queues (internal/usecase/game_activity.go, internal/entity/player_activity.go)

    Games as a player sees them: joinable games, and the player's own games filed by what
    they ask of the player, with the advisory locks that affect them. *)
From S2P Require Import Prelude GoTypes Entity World Store Repo Locks LockOps Reservation CancelReservation RevealReservation ExpiredClaim Queries GameQuery.

(** ** Entities *)

Definition ActivityQueueJoinable : string := "joinable".
Definition ActivityQueueMyActive : string := "my-active".
Definition ActivityQueueRevealRequired : string := "reveal-required".
Definition ActivityQueueExpiredAttention : string := "expired-attention".
Definition ActivityQueueHistory : string := "history".

Definition ActivityNextActionJoin : string := "join".
Definition ActivityNextActionResumeJoin : string := "resume_join".
Definition ActivityNextActionWaitForJoinWindow : string := "wait_for_join_window".
Definition ActivityNextActionResumeCancel : string := "resume_cancel".
Definition ActivityNextActionWaitForCancel : string := "wait_for_cancel_resolution".
Definition ActivityNextActionWaitForOpponent : string := "wait_for_opponent".
Definition ActivityNextActionReveal : string := "reveal".
Definition ActivityNextActionResumeReveal : string := "resume_reveal".
Definition ActivityNextActionWaitForReveal : string := "wait_for_reveal".
Definition ActivityNextActionReviewResult : string := "review_result".
Definition ActivityNextActionResumeReview : string := "resume_review_result".
Definition ActivityNextActionWaitForReview : string := "wait_for_review_window".
Definition ActivityNextActionBrowseHistory : string := "browse_history".

Definition ActionClaimTypeJoin : string := "join".
Definition ActionClaimTypeCancel : string := "cancel".
Definition ActionClaimTypeReveal : string := "reveal".
Definition ActionClaimTypeExpiredFollowUp : string := "expired_follow_up".
Definition ActionClaimStatusActive : string := "active".

Module ActionClaim.
Record t := mk {
  ClaimType : string; GameID : Z; HolderWallet : string; Status : string; CreatedAt : Z;
  ExpiresAt : Z; ReleaseReason : string }.
End ActionClaim.

Module PlayerActivityGame.
Record t := mk {
  Game : Game.t; QueueKey : string; NextAction : string; RequiresAttention : bool;
  IsOwnedByPlayer : bool; LatestActivityAt : Z; ActiveClaims : list ActionClaim.t }.
End PlayerActivityGame.

Module GameplayQueue.
Record t := mk {
  Key : string; Title : string; AttentionRequired : bool; TotalCount : Z;
  Items : list PlayerActivityGame.t }.
End GameplayQueue.

Module PlayerActivitySummary.
Record t := mk {
  WalletAddress : string; JoinableCount : Z; MyActiveCount : Z; RevealRequiredCount : Z;
  ExpiredAttentionCount : Z; HistoryCount : Z; LastActivityAt : option Z }.
End PlayerActivitySummary.

Definition ActivityQueueTitle (queueKey : string) : string :=
  if bool_decide (queueKey = ActivityQueueJoinable) then "Можно присоединиться"
  else if bool_decide (queueKey = ActivityQueueMyActive) then "Мои активные"
  else if bool_decide (queueKey = ActivityQueueRevealRequired) then "Нужно раскрыть"
  else if bool_decide (queueKey = ActivityQueueExpiredAttention) then "Требуют внимания"
  else if bool_decide (queueKey = ActivityQueueHistory) then "История"
  else "Активность".

Definition QueueRequiresAttention (queueKey : string) : bool :=
  bool_decide (queueKey = ActivityQueueRevealRequired) ||
  bool_decide (queueKey = ActivityQueueExpiredAttention).

(** The queues, in the order in which a search visits them. *)
Definition all_queues : list string :=
  [ActivityQueueJoinable; ActivityQueueMyActive; ActivityQueueRevealRequired;
   ActivityQueueExpiredAttention; ActivityQueueHistory].

Definition IsValidActivityQueueKey (queueKey : string) : bool :=
  bool_decide (queueKey ∈ all_queues).

(** ** The use case *)

Record ActivityUC := mkActivityUC {
  with_reservation : bool; with_cancelReservation : bool; with_revealReservation : bool;
  with_expiredClaim : bool; DefaultLimit : Z; MaxLimit : Z }.

Module GameActivity.
Notation item := PlayerActivityGame.t.
Notation Queues := (gmap string (list PlayerActivityGame.t)).

Definition NewGameActivityUseCase (withReservation withReveal withExpired : bool)
    (cfgDefaultLimit cfgMaxLimit : Z) : ActivityUC :=
  mkActivityUC withReservation false withReveal withExpired
    (if cfgDefaultLimit <=? 0 then 20 else cfgDefaultLimit)
    (if cfgMaxLimit <=? 0 then 100 else cfgMaxLimit).

Definition SetCancelReservationUseCase (uc : ActivityUC) : ActivityUC :=
  mkActivityUC (with_reservation uc) true (with_revealReservation uc) (with_expiredClaim uc)
    (DefaultLimit uc) (MaxLimit uc).

(** *** Claims *)

Definition findClaim (claims : list ActionClaim.t) (claimType : string) :
    option ActionClaim.t :=
  List.find (λ c, bool_decide (ActionClaim.ClaimType c = claimType)) claims.

Section Classify.
Context `{E : Env}.

Definition belongsToWallet (game : Game.t) (normalizedWallet : string) : bool :=
  sameReservationWallet (Game.PlayerOneAddress game) normalizedWallet ||
  match Game.PlayerTwoAddress game with
  | Some p => sameReservationWallet p normalizedWallet
  | None => false
  end.

Definition hidden (choice : Z) : bool :=
  (choice =? CoinSideClosed) || (choice =? CoinSideUnknown).

Definition playerNeedsReveal (game : Game.t) (normalizedWallet : string) : bool :=
  if negb (Game.Status game =? GameStatusWaitingForOpenBids) then false
  else if sameReservationWallet (Game.PlayerOneAddress game) normalizedWallet then
    hidden (Game.PlayerOneChoice game)
  else
    match Game.PlayerTwoAddress game with
    | Some p =>
        if sameReservationWallet p normalizedWallet then
          match Game.PlayerTwoChoice game with Some c => hidden c | None => true end
        else false
    | None => false
    end.

(** The shape of the three [resolve...NextAction]: no claim, one's own, someone else's. *)
Definition resolve (claimType : string) (free mine other : string * bool)
    (claims : list ActionClaim.t) (normalizedWallet : string) : string * bool :=
  match findClaim claims claimType with
  | None => free
  | Some claim =>
      if sameReservationWallet (ActionClaim.HolderWallet claim) normalizedWallet
      then mine else other
  end.

Definition resolveRevealNextAction :=
  resolve ActionClaimTypeReveal (ActivityNextActionReveal, true)
    (ActivityNextActionResumeReveal, true) (ActivityNextActionWaitForReveal, false).

Definition resolveExpiredFollowUpNextAction :=
  resolve ActionClaimTypeExpiredFollowUp (ActivityNextActionReviewResult, true)
    (ActivityNextActionResumeReview, true) (ActivityNextActionWaitForReview, false).

Definition resolveWaitingLobbyNextAction :=
  resolve ActionClaimTypeCancel (ActivityNextActionWaitForOpponent, false)
    (ActivityNextActionResumeCancel, true) (ActivityNextActionWaitForCancel, false).

(** What [buildJoinableItem] makes of the claims it loaded. *)
Definition joinableItem (game : Game.t) (normalizedWallet : string)
    (claims : list ActionClaim.t) : item :=
  let '(nextAction, requiresAttention) :=
    match findClaim claims ActionClaimTypeCancel with
    | Some _ => (ActivityNextActionWaitForCancel, false)
    | None =>
        match findClaim claims ActionClaimTypeJoin with
        | Some claim =>
            if sameReservationWallet (ActionClaim.HolderWallet claim) normalizedWallet
            then (ActivityNextActionResumeJoin, true)
            else (ActivityNextActionWaitForJoinWindow, false)
        | None => (ActivityNextActionJoin, false)
        end
    end in
  PlayerActivityGame.mk game ActivityQueueJoinable nextAction requiresAttention false
    (latestGameActivity (Some game)) claims.

(** What [buildPlayerItem] makes of them; [None] is a nil item. *)
Definition playerItem (game : Game.t) (normalizedWallet : string)
    (claims : list ActionClaim.t) : option item :=
  let make queue (action : string * bool) :=
    Some (PlayerActivityGame.mk game queue action.1 action.2 true
            (latestGameActivity (Some game)) claims) in
  if Game.Status game =? GameStatusWaitingForOpponent then
    make ActivityQueueMyActive (resolveWaitingLobbyNextAction claims normalizedWallet)
  else if Game.Status game =? GameStatusWaitingForOpenBids then
    if playerNeedsReveal game normalizedWallet then
      make ActivityQueueRevealRequired (resolveRevealNextAction claims normalizedWallet)
    else make ActivityQueueMyActive (ActivityNextActionWaitForReveal, false)
  else if Game.Status game =? GameStatusEnded then
    make ActivityQueueExpiredAttention
      (resolveExpiredFollowUpNextAction claims normalizedWallet)
  else if Game.Status game =? GameStatusPaid then
    make ActivityQueueHistory (ActivityNextActionBrowseHistory, false)
  else None.
End Classify.

Section GameActivity.
Context `{E : Env} `{R : GameRepository} `{G : GameListing} (uc : ActivityUC).

Definition claimOf (claimType : string) (r : GameReservation.t) : ActionClaim.t :=
  ActionClaim.mk claimType (GameReservation.GameID r) (GameReservation.WalletAddress r)
    ActionClaimStatusActive (GameReservation.CreatedAt r) (GameReservation.ExpiresAt r)
    EmptyString.

(** One of the four blocks of [loadClaims]. *)
Definition loadClaim (enabled : bool) (what claimType : string)
    (get : M (result (option GameReservation.t))) (claims : list ActionClaim.t) :
    M (result (list ActionClaim.t)) :=
  if enabled then
    found <-? get else Errorf what ;;
    match found with
    | None => mret (Ok claims)
    | Some reservation =>
        active ← readActive reservation;
        mret (Ok (if active : bool then claims ++ [claimOf claimType reservation] else claims))
    end
  else mret (Ok claims).

Definition loadClaims (gameID : Z) : M (result (list ActionClaim.t)) :=
  claims <-? loadClaim (with_reservation uc) "get join reservation" ActionClaimTypeJoin
               (Reservation.GetReservation gameID) [] ;;
  claims <-? loadClaim (with_cancelReservation uc) "get cancel reservation"
               ActionClaimTypeCancel (CancelReservation.Get gameID) claims ;;
  claims <-? loadClaim (with_revealReservation uc) "get reveal reservation"
               ActionClaimTypeReveal (RevealReservation.Get gameID) claims ;;
  loadClaim (with_expiredClaim uc) "get expired follow-up claim"
    ActionClaimTypeExpiredFollowUp (ExpiredClaim.Get gameID) claims.

Definition buildJoinableItem (game : Game.t) (normalizedWallet : string) : M (result item) :=
  claims <-? loadClaims (Game.GameID game) ;;
  mret (Ok (joinableItem game normalizedWallet claims)).

Definition buildPlayerItem (game : Game.t) (normalizedWallet : string) :
    M (result (option item)) :=
  claims <-? loadClaims (Game.GameID game) ;;
  mret (Ok (playerItem game normalizedWallet claims)).

(** *** Queues *)

Definition newActivityQueueMap : Queues :=
  list_to_map ((λ k, (k, [])) <$> all_queues).

Definition queue (queues : Queues) (key : string) : list item := default [] (queues !! key).

(** [queues[key] = append(queues[key], item)] *)
Definition enqueue (key : string) (i : item) (queues : Queues) : Queues :=
  <[key := queue queues key ++ [i]]> queues.

(** The loop of [populateJoinableQueue]. *)
Fixpoint addJoinable (normalizedWallet : string) (games : list Game.t) (queues : Queues) :
    M (result Queues) :=
  match games with
  | [] => mret (Ok queues)
  | game :: games =>
      if negb (bool_decide (normalizedWallet = EmptyString)) &&
         belongsToWallet game normalizedWallet
      then addJoinable normalizedWallet games queues
      else
        item <-? buildJoinableItem game normalizedWallet
          else Errorf ("classify joinable game " +:+ FormatInt (Game.GameID game)) ;;
        addJoinable normalizedWallet games (enqueue ActivityQueueJoinable item queues)
  end.

Definition populateJoinableQueue (normalizedWallet : string) (queues : Queues) :
    M (result Queues) :=
  joinableGames <-? ListByStatus GameStatusWaitingForOpponent
    else Errorf "load joinable games" ;;
  addJoinable normalizedWallet joinableGames queues.

(** The loop of [populatePlayerQueues]. *)
Fixpoint addPlayer (normalizedWallet : string) (games : list Game.t) (queues : Queues) :
    M (result Queues) :=
  match games with
  | [] => mret (Ok queues)
  | game :: games =>
      item <-? buildPlayerItem game normalizedWallet
        else Errorf ("classify player game " +:+ FormatInt (Game.GameID game)) ;;
      match item with
      | None => addPlayer normalizedWallet games queues
      | Some item =>
          addPlayer normalizedWallet games
            (enqueue (PlayerActivityGame.QueueKey item) item queues)
      end
  end.

Definition activity_statuses : list Z :=
  [GameStatusWaitingForOpponent; GameStatusWaitingForOpenBids; GameStatusEnded;
   GameStatusPaid].

Definition populatePlayerQueues (walletAddress normalizedWallet : string) (queues : Queues) :
    M (result Queues) :=
  if bool_decide (normalizedWallet = EmptyString) then mret (Ok queues)
  else
    playerGames <-? ListByPlayerAndStatuses walletAddress activity_statuses
      else Errorf "load player activity games" ;;
    addPlayer normalizedWallet playerGames queues.

(** The same arithmetic as the pages of games. *)
Definition paginateActivityItems (items : list item) (limit offset : Z) : option (list item) :=
  GameQuery.page items limit offset.

Definition laterActivity (x y : item) : bool :=
  PlayerActivityGame.LatestActivityAt y <? PlayerActivityGame.LatestActivityAt x.

Definition sortActivityItems : list item → list item := SliceStable laterActivity.

(** The order of [range] over a map with string keys: a permutation of their positions. *)
Definition rangeQueues (queues : Queues) : M (list string) := λ w,
  let keys := (map_to_list queues).*1 in
  (omap (λ i, keys !! Z.to_nat i)
     (rangeOrder (ranges w) (Z.of_nat <$> seq 0 (List.length keys))),
   set_ranges (S (ranges w)) w).

(** The item with the latest activity, the first met of several. *)
Definition latest_of (latest : option item) (i : item) : option item :=
  match latest with
  | None => Some i
  | Some l =>
      if PlayerActivityGame.LatestActivityAt l <? PlayerActivityGame.LatestActivityAt i
      then Some i else latest
  end.

Definition buildPlayerActivitySummary (walletAddress : string) (queues : Queues) :
    M PlayerActivitySummary.t :=
  let count key := Z.of_nat (List.length (queue queues key)) in
  keys ← rangeQueues queues;
  let latest := foldl (λ latest key, foldl latest_of latest (queue queues key)) None keys in
  mret (PlayerActivitySummary.mk walletAddress (count ActivityQueueJoinable)
    (count ActivityQueueMyActive) (count ActivityQueueRevealRequired)
    (count ActivityQueueExpiredAttention) (count ActivityQueueHistory)
    (PlayerActivityGame.LatestActivityAt <$> latest)).

Definition buildQueues (walletAddress : string) :
    M (result (PlayerActivitySummary.t * Queues)) :=
  let normalizedWallet := normalizeReservationWallet walletAddress in
  queues <-? populateJoinableQueue normalizedWallet newActivityQueueMap ;;
  queues <-? populatePlayerQueues walletAddress normalizedWallet queues ;;
  keys ← rangeQueues queues;
  let queues := foldl (λ qs key, alter sortActivityItems key qs) queues keys in
  summary ← buildPlayerActivitySummary walletAddress queues;
  mret (Ok (summary, queues)).

(** *** The operations *)

Definition normalizeLimit (limit : Z) : Z :=
  if limit <=? 0 then DefaultLimit uc
  else if MaxLimit uc <? limit then MaxLimit uc else limit.

(** The inner [None] is a panic of the slice expression. *)
Definition GetQueue (queueKey walletAddress : string) (limit offset : Z) :
    M (result (option GameplayQueue.t * PlayerActivitySummary.t)) :=
  if negb (IsValidActivityQueueKey queueKey) then fail ErrInvalidActivityQueueKey
  else if offset <? 0 then fail ErrInvalidActivityOffset
  else
    built <-? buildQueues walletAddress ;;
    let '(summary, queues) := built in
    let items := queue queues queueKey in
    mret (Ok ((λ page, GameplayQueue.mk queueKey (ActivityQueueTitle queueKey)
                 (QueueRequiresAttention queueKey) (Z.of_nat (List.length items)) page) <$>
              paginateActivityItems items (normalizeLimit limit) offset, summary)).

Definition GetSummary (walletAddress : string) : M (result PlayerActivitySummary.t) :=
  if bool_decide (normalizeReservationWallet walletAddress = EmptyString) then
    fail ErrActivityWalletRequired
  else
    built <-? buildQueues walletAddress ;;
    mret (Ok built.1).

(** *** Search *)

Definition activitySearchCandidates (game : Game.t) : list string :=
  [Game.PlayerOneAddress game; normalizeReservationWallet (Game.PlayerOneAddress game);
   FormatInt (Game.GameID game)] ++
  match Game.PlayerTwoAddress game with
  | Some p => [p; normalizeReservationWallet p]
  | None => []
  end.

Definition matchesActivitySearch (i : item) (query : string) : bool :=
  let game := PlayerActivityGame.Game i in
  let lowerQuery := ToLower query in
  let normalizedWalletQuery := normalizeReservationWallet query in
  Contains (FormatInt (Game.GameID game)) lowerQuery ||
  (negb (bool_decide (normalizedWalletQuery = EmptyString)) &&
   belongsToWallet game normalizedWalletQuery) ||
  existsb (λ candidate, Contains (ToLower candidate) lowerQuery)
    (activitySearchCandidates game).

Definition filterActivitySearchItems (queues : Queues) (queueScope rawQuery : string) :
    list item :=
  let trimmedQuery := TrimSpace rawQuery in
  if bool_decide (trimmedQuery = EmptyString) then []
  else
    let searchQueues :=
      if bool_decide (queueScope = EmptyString) then all_queues else [queueScope] in
    sortActivityItems
      (flat_map (λ key, List.filter (λ i, matchesActivitySearch i trimmedQuery)
                          (queue queues key)) searchQueues).

Definition Search (walletAddress rawQuery queueScope : string) (limit offset : Z) :
    M (result (option (list item) * PlayerActivitySummary.t * Z)) :=
  let trimmedQuery := TrimSpace rawQuery in
  if offset <? 0 then fail ErrInvalidActivityOffset
  else if negb (bool_decide (queueScope = EmptyString)) &&
          negb (IsValidActivityQueueKey queueScope) then fail ErrInvalidActivityQueueKey
  else if bool_decide (trimmedQuery = EmptyString) then
    summary ← buildPlayerActivitySummary walletAddress newActivityQueueMap;
    mret (Ok (Some [], summary, 0))
  else
    built <-? buildQueues walletAddress ;;
    let '(summary, queues) := built in
    let matchedItems := filterActivitySearchItems queues queueScope trimmedQuery in
    mret (Ok (paginateActivityItems matchedItems (normalizeLimit limit) offset, summary,
              Z.of_nat (List.length matchedItems))).
End GameActivity.
End GameActivity.
