(* ===== verification/ActivitySpec.v ===== *)
(** * Correctness of the activity queues

    Every game of a player is filed in exactly one queue, with the locks that really are
    held on it; the summary counts what the queues hold; reading them changes no table. *)
From S2P Require Import Prelude GoTypes Entity World LockSpec Store Repo Locks LockOps Reservation CancelReservation RevealReservation ExpiredClaim Coordination Delivery Queries QueriesSpec GameQuery Activity.

(** ** Claims *)

Section Claims.
Context `{E : Env} `{!ClockMono E} {R : GameRepository} `{!GameRepositoryLaws E R}.
Context (uc : ActivityUC).
Import GameActivity.

(** The lock [r] of kind [k] is held on the game. *)
Definition held (k : LockKind) (g : Z) (r : GameReservation.t) (w : World) : Prop :=
  reservations (locks w k) !! g = Some r ∧ active_at (time w) r.

(** Reading the queues takes no lock, and touches none but expired-follow-up claims. *)
Lemma held_back k g r w w' : drops ClaimLock w w' → held k g r w' → held k g r w.
Proof.
  intros [Hop Hsh] [Hr Ha]. pose proof (op_time _ _ _ Hop). destruct (decide (k = ClaimLock)) as [->|Hk].
  - split; [by apply Hsh|]. by eapply active_at_mono.
  - rewrite (op_others _ _ _ Hop k Hk) in Hr. split; [done|]. by eapply active_at_mono.
Qed.

Lemma held_view k g r w : held k g r w → view (time w) (locks w k) !! g ≠ None.
Proof.
  intros [Hr Ha] Hn. apply view_lookup_None in Hn. apply Hn. unfold live. by rewrite Hr.
Qed.

Definition claim_type (k : LockKind) : string :=
  match k with
  | JoinLock => ActionClaimTypeJoin | CancelLock => ActionClaimTypeCancel
  | RevealLock => ActionClaimTypeReveal | ClaimLock => ActionClaimTypeExpiredFollowUp
  end.

Definition with_lock (k : LockKind) : bool :=
  match k with
  | JoinLock => with_reservation uc | CancelLock => with_cancelReservation uc
  | RevealLock => with_revealReservation uc | ClaimLock => with_expiredClaim uc
  end.

(** What each of the four [Get]s promises. *)
Definition get_ok (k : LockKind) (g : Z) (get : M (result (option GameReservation.t))) : Prop :=
  ∀ w, wp get (λ res w1, drops ClaimLock w w1 ∧
    match res with
    | Ok (Some r) => later w w1 ∧ held k g r w
    | Ok None => view (time w1) (locks w1 k) !! g = None
    | Err _ => True
    end) w.

Lemma getActive_ok k g : get_ok k g (getActive k g).
Proof.
  intros w. eapply wp_mono; [apply wp_getActive|]. intros res w1 [Hl ->].
  split; [by apply later_drops|].
  destruct (if bool_decide _ then _ else _) as [r|] eqn:Hf.
  - apply lookup_live in Hf as [? ?]. done.
  - apply lookup_not_live in Hf. apply view_free_later with w; [done|]. by apply view_lookup_None.
Qed.

Lemma claim_Get_ok g : get_ok ClaimLock g (ExpiredClaim.Get g).
Proof.
  intros w. eapply wp_mono; [apply wp_Get|]. intros [[r|]|e] w1 [Hd Hr]; (split; [done|]); [|done..].
  destruct Hr as (? & ? & ? & _). done.
Qed.

(** The claims loaded in a stretch of time: each held at its start, and none missing that
    is still held at its end. *)
Definition claims_between (ks : list LockKind) (g : Z) (w w' : World)
    (cs : list ActionClaim.t) : Prop :=
  (∀ c, c ∈ cs → ∃ k r, k ∈ ks ∧ with_lock k = true ∧ c = claimOf (claim_type k) r ∧ held k g r w) ∧
  (∀ k r, k ∈ ks → with_lock k = true → held k g r w' → claimOf (claim_type k) r ∈ cs).

Lemma wp_loadClaim k ks g what get cs w0 w :
  get_ok k g get → drops ClaimLock w0 w → claims_between ks g w0 w cs →
  wp (loadClaim (with_lock k) what (claim_type k) get cs) (λ res w', drops ClaimLock w0 w' ∧
    ∀ cs', res = Ok cs' → claims_between (ks ++ [k]) g w0 w' cs') w.
Proof.
  intros Hget H0 [Hs Hc].
  assert (∀ w' new, drops ClaimLock w w' →
    (∀ c, c ∈ new → ∃ r, with_lock k = true ∧ c = claimOf (claim_type k) r ∧ held k g r w) →
    (∀ r, with_lock k = true → held k g r w' → claimOf (claim_type k) r ∈ new) →
    claims_between (ks ++ [k]) g w0 w' (cs ++ new)) as Hadd.
  { intros w' new Hd Hsn Hcn. split.
    - intros c [Hin|Hin]%elem_of_app.
      + destruct (Hs c Hin) as (k' & r & ? & ? & ? & ?). exists k', r. set_solver.
      + destruct (Hsn c Hin) as (r & ? & ? & ?). exists k, r.
        split_and!; [set_solver|done..|by eapply held_back].
    - intros k' r [Hin| ->%list_elem_of_singleton]%elem_of_app Hw Hh; apply elem_of_app.
      + left. apply Hc; [done..|]. by eapply held_back.
      + right. by apply Hcn. }
  unfold loadClaim. destruct (with_lock k) eqn:Hw.
  2: { apply wp_ret. split; [done|]. intros cs' [= <-]. rewrite <-(app_nil_r cs).
       apply Hadd; [done| |]; [by intros c ?%not_elem_of_nil|done]. }
  apply wp_rbind_wrap. eapply wp_mono; [apply Hget|].
  intros [[r|]|e] w1 [Hd Hr]; [| |split; [by etrans|done]].
  - destruct Hr as [Hl Hh]. apply wp_bind, wp_readActive. intros w2 Hl2. apply wp_ret.
    assert (drops ClaimLock w w2) as Hd2 by (etrans; [exact Hd|by apply later_drops]).
    split; [by etrans|]. intros cs' [= <-].
    assert (∀ r', held k g r' w2 → r' = r ∧ active_at (time w1) r) as Hsame.
    { intros r' Hh'. pose proof (held_back _ _ _ _ _ Hd2 Hh') as [Hr' _].
      destruct Hh as [Hr _]. simplify_eq. split; [done|].
      apply (held_back k g r w1 w2); [by apply later_drops|done]. }
    destruct (GameReservation.IsActive (time w1) r) eqn:Ha.
    + apply Hadd; [done| |].
      * intros c ->%list_elem_of_singleton. eauto.
      * intros r' _ Hh'. destruct (Hsame r' Hh') as [-> _]. set_solver.
    + rewrite <-(app_nil_r cs). apply Hadd; [done|by intros c ?%not_elem_of_nil|].
      intros r' _ Hh'. destruct (Hsame r' Hh') as [-> Ha']. exfalso.
      apply IsActive_spec in Ha'. congruence.
  - apply wp_ret. split; [by etrans|]. intros cs' [= <-]. rewrite <-(app_nil_r cs).
    apply Hadd; [done|by intros c ?%not_elem_of_nil|].
    intros r _ Hh. by destruct (held_view _ _ _ _ Hh).
Qed.

Lemma wp_loadClaims g w :
  wp (loadClaims uc g) (λ res w', drops ClaimLock w w' ∧
    ∀ cs, res = Ok cs → claims_between [JoinLock; CancelLock; RevealLock; ClaimLock] g w w' cs) w.
Proof.
  unfold loadClaims. apply wp_rbind.
  eapply wp_mono; [apply (wp_loadClaim JoinLock [] g _ _ _ w); [apply getActive_ok|done|]|].
  { split; [by intros c ?%not_elem_of_nil|by intros k r ?%not_elem_of_nil]. }
  intros [cs|e] w1 [H1 C1]; [|done]. apply wp_rbind.
  eapply wp_mono; [apply (wp_loadClaim CancelLock [JoinLock] g _ _ _ w); [apply getActive_ok|done|by apply C1]|].
  intros [cs2|e] w2 [H2 C2]; [|done]. apply wp_rbind.
  eapply wp_mono; [apply (wp_loadClaim RevealLock [JoinLock; CancelLock] g _ _ _ w);
    [apply getActive_ok|done|by apply C2]|].
  intros [cs3|e] w3 [H3 C3]; [|done].
  apply (wp_loadClaim ClaimLock [JoinLock; CancelLock; RevealLock] g _ _ _ w);
    [apply claim_Get_ok|done|by apply C3].
Qed.
End Claims.

(** ** Queues as sets of games *)

Section Members.
Context `{E : Env}.
Import GameActivity.

(** The queue of a player's own game. *)
Definition player_queue (n : string) (g : Game.t) : option string :=
  if Game.Status g =? GameStatusWaitingForOpponent then Some ActivityQueueMyActive
  else if Game.Status g =? GameStatusWaitingForOpenBids then
    Some (if playerNeedsReveal g n then ActivityQueueRevealRequired else ActivityQueueMyActive)
  else if Game.Status g =? GameStatusEnded then Some ActivityQueueExpiredAttention
  else if Game.Status g =? GameStatusPaid then Some ActivityQueueHistory
  else None.

(** Is the game joinable for the wallet normalized to [n]? *)
Definition joinable_for (n : string) (g : Game.t) : bool :=
  negb (negb (bool_decide (n = EmptyString)) && belongsToWallet g n).

(** Does the game belong in the queue [key] of the wallet [a]? *)
Definition member (variants : string → list string) (a key : string) (g : Game.t) : bool :=
  let n := normalizeReservationWallet a in
  if bool_decide (key = ActivityQueueJoinable) then
    (Game.Status g =? GameStatusWaitingForOpponent) && joinable_for n g
  else
    negb (bool_decide (n = EmptyString)) && GameQueries.plays (variants a) g &&
    bool_decide (player_queue n g = Some key).

Lemma playerItem_spec g n cs :
  match playerItem g n cs with
  | Some i => PlayerActivityGame.Game i = g ∧
      player_queue n g = Some (PlayerActivityGame.QueueKey i) ∧
      PlayerActivityGame.LatestActivityAt i = latestGameActivity (Some g) ∧
      PlayerActivityGame.ActiveClaims i = cs
  | None => player_queue n g = None
  end.
Proof.
  unfold playerItem, player_queue.
  repeat match goal with |- context [if ?b then _ else _] => destruct b end; done.
Qed.

Lemma joinableItem_spec g n cs :
  let i := joinableItem g n cs in
  PlayerActivityGame.Game i = g ∧ PlayerActivityGame.QueueKey i = ActivityQueueJoinable ∧
  PlayerActivityGame.LatestActivityAt i = latestGameActivity (Some g) ∧
  PlayerActivityGame.ActiveClaims i = cs.
Proof. unfold joinableItem. repeat case_match; done. Qed.

Lemma player_queue_valid n g key :
  player_queue n g = Some key → key ∈ all_queues ∧ key ≠ ActivityQueueJoinable.
Proof.
  unfold player_queue.
  repeat match goal with |- context [if ?b then _ else _] => destruct b end;
    intros [= <-]; (split; [apply (bool_decide_unpack (_ ∈ _)); vm_compute; done|done]).
Qed.

(** *** The map of queues *)

Definition on (key : string) (i : PlayerActivityGame.t) : bool :=
  bool_decide (PlayerActivityGame.QueueKey i = key).

(** [qs'] is [qs] with the items appended to their queues. *)
Definition appended (items : list PlayerActivityGame.t)
    (qs qs' : gmap string (list PlayerActivityGame.t)) : Prop :=
  dom qs' = dom qs ∧ ∀ key, queue qs' key = queue qs key ++ List.filter (on key) items.

Lemma appended_nil qs : appended [] qs qs.
Proof. split; [done|]. intros key. by rewrite app_nil_r. Qed.

Lemma appended_cons i items qs qs' :
  PlayerActivityGame.QueueKey i ∈ dom qs →
  appended items (enqueue (PlayerActivityGame.QueueKey i) i qs) qs' →
  appended (i :: items) qs qs'.
Proof.
  intros Hi [Hd Hq]. split.
  - rewrite Hd. unfold enqueue. rewrite dom_insert_L. set_solver.
  - intros key. rewrite Hq. unfold enqueue, queue, on. simpl. case_bool_decide as Hk.
    + subst key. rewrite lookup_insert_eq. simpl. by rewrite <-app_assoc.
    + by rewrite lookup_insert_ne.
Qed.

Lemma appended_trans l k qs1 qs2 qs3 :
  appended l qs1 qs2 → appended k qs2 qs3 → appended (l ++ k) qs1 qs3.
Proof.
  intros [D1 Q1] [D2 Q2]. split; [congruence|]. intros key.
  by rewrite Q2, Q1, List.filter_app, app_assoc.
Qed.

Lemma new_queues : dom newActivityQueueMap = list_to_set all_queues ∧
  ∀ key, queue newActivityQueueMap key = [].
Proof.
  split; [reflexivity|]. intros key. unfold queue.
  destruct (newActivityQueueMap !! key) as [l|] eqn:Hl; [|done]. simpl.
  apply elem_of_list_to_map_2, list_elem_of_fmap in Hl as (k & Hk & _). congruence.
Qed.

(** *** Ranging over the map *)

Lemma seq_lookup_all (l : list string) :
  omap (λ i, l !! Z.to_nat i) (Z.of_nat <$> seq 0 (List.length l)) = l.
Proof.
  enough (∀ pre, omap (λ i, (pre ++ l) !! Z.to_nat i)
                   (Z.of_nat <$> seq (List.length pre) (List.length l)) = l)
    as H by exact (H []).
  induction l as [|x l IH]; intros pre; [done|]. cbn [List.length seq fmap list_fmap omap list_omap].
  rewrite Nat2Z.id, lookup_app_r, Nat.sub_diag by done. simpl. f_equal.
  specialize (IH (pre ++ [x])). rewrite <-app_assoc, length_app, Nat.add_1_r in IH. exact IH.
Qed.

Lemma rangeQueues_spec `{!RangePerm E} qs w :
  (rangeQueues qs w).1 ≡ₚ (map_to_list qs).*1 ∧ later w (rangeQueues qs w).2.
Proof.
  split; [|done]. simpl. rewrite (range_perm (ranges w)). by rewrite seq_lookup_all.
Qed.

(** Sorting every queue in turn, in any order, sorts them all. *)
Lemma sort_each keys qs key :
  NoDup keys → 
  queue (foldl (λ qs key, alter sortActivityItems key qs) qs keys) key =
  if decide (key ∈ keys) then sortActivityItems (queue qs key) else queue qs key.
Proof.
  revert qs. induction keys as [|k keys IH]; intros qs Hnd; simpl; [done|].
  apply NoDup_cons in Hnd as [Hk Hnd]. rewrite IH by done. unfold queue.
  destruct (decide (key = k)) as [->|Hne].
  - rewrite decide_False by done. rewrite decide_True by set_solver.
    rewrite lookup_alter_eq. by destruct (qs !! k).
  - rewrite lookup_alter_ne by done. destruct (decide (key ∈ keys)).
    + by rewrite decide_True by set_solver.
    + by rewrite decide_False by set_solver.
Qed.
End Members.

(** ** Filling the queues *)

Section Fill.
Context `{E : Env} `{!ClockMono E} {R : GameRepository} `{!GameRepositoryLaws E R}.
Context (uc : ActivityUC).
Import GameActivity.

Definition all_locks : list LockKind := [JoinLock; CancelLock; RevealLock; ClaimLock].

(** [i] shows [g], with the claims of the stretch of time from [w] to [w']. *)
Definition item_ok (w w' : World) (g : Game.t) (i : PlayerActivityGame.t) : Prop :=
  PlayerActivityGame.Game i = g ∧
  PlayerActivityGame.LatestActivityAt i = latestGameActivity (Some g) ∧
  claims_between uc all_locks (Game.GameID g) w w' (PlayerActivityGame.ActiveClaims i).

Lemma item_ok_widen w0 w1 w2 w3 g i :
  drops ClaimLock w0 w1 → drops ClaimLock w2 w3 → item_ok w1 w2 g i → item_ok w0 w3 g i.
Proof.
  intros H01 H23 (Hg & Hl & Hs & Hc). split_and!; [done..|]. split.
  - intros c Hin. destruct (Hs c Hin) as (k & r & ? & ? & ? & Hh). exists k, r.
    split_and!; [done..|]. by eapply held_back.
  - intros k r Hk Hw Hh. apply Hc; [done..|]. by eapply held_back.
Qed.

(** [items] are the entries that the games in [gs] get, filed as [filed] says. *)
Definition entries (filed : Game.t → PlayerActivityGame.t → Prop) (w w' : World) :
    list Game.t → list PlayerActivityGame.t → Prop :=
  Forall2 (λ g i, item_ok w w' g i ∧ filed g i).

(** The entry is what its queue makes of its claims. *)
Definition joinable_entry (n : string) (g : Game.t) (i : PlayerActivityGame.t) : Prop :=
  i = joinableItem g n (PlayerActivityGame.ActiveClaims i).
Definition player_entry (n : string) (g : Game.t) (i : PlayerActivityGame.t) : Prop :=
  playerItem g n (PlayerActivityGame.ActiveClaims i) = Some i.

Lemma joinable_entry_key n g i :
  joinable_entry n g i → PlayerActivityGame.QueueKey i = ActivityQueueJoinable.
Proof. intros ->. apply joinableItem_spec. Qed.

Lemma player_entry_key n g i :
  player_entry n g i → player_queue n g = Some (PlayerActivityGame.QueueKey i).
Proof.
  intros He. pose proof (playerItem_spec g n (PlayerActivityGame.ActiveClaims i)) as Hi.
  rewrite He in Hi. apply Hi.
Qed.

Lemma entries_widen filed w0 w1 w2 w3 gs items :
  drops ClaimLock w0 w1 → drops ClaimLock w2 w3 →
  entries filed w1 w2 gs items → entries filed w0 w3 gs items.
Proof.
  intros H01 H23 Hent. eapply Forall2_impl; [exact Hent|]. intros g i [Hi ?]. split; [|done].
  by eapply item_ok_widen.
Qed.

Lemma wp_addJoinable n gs qs w :
  ActivityQueueJoinable ∈ dom qs →
  wp (addJoinable uc n gs qs) (λ res w', drops ClaimLock w w' ∧ ∀ qs', res = Ok qs' →
    ∃ items, appended items qs qs' ∧
      entries (joinable_entry n) w w' (List.filter (joinable_for n) gs) items) w.
Proof.
  revert qs w. induction gs as [|g gs IH]; intros qs w Hdom; simpl.
  { apply wp_ret. split; [done|]. intros qs' [= <-]. exists [].
    split; [apply appended_nil|constructor]. }
  replace (negb (bool_decide (n = EmptyString)) && belongsToWallet g n)
    with (negb (joinable_for n g)) by (unfold joinable_for; by rewrite negb_involutive).
  destruct (joinable_for n g); cbn [negb]; [|exact (IH qs w Hdom)].
  apply wp_rbind_wrap, wp_rbind. eapply wp_mono; [apply wp_loadClaims|].
  intros [cs|e] w1 [H1 C1]; [|split; [done|by intros ? [=]]]. apply wp_ret.
  set (i := joinableItem g n cs).
  assert (joinable_entry n g i) as Hentry
    by (unfold joinable_entry, i; by rewrite (proj2 (proj2 (proj2 (joinableItem_spec g n cs))))).
  destruct (joinableItem_spec g n cs) as (Hg & Hq & Hl & Hcs). fold i in Hg, Hq, Hl, Hcs.
  eapply wp_mono; [apply IH; unfold enqueue; rewrite dom_insert_L; set_solver|].
  intros res w2 [H2 Hres]. split; [by etrans|]. intros qs' Hok.
  destruct (Hres qs' Hok) as (items & Happ & Hent). exists (i :: items). split.
  - apply appended_cons; by rewrite Hq.
  - constructor; [|exact (entries_widen _ w w1 w2 w2 _ _ H1 (reflexivity w2) Hent)].
    split; [|done].
    eapply (item_ok_widen w w); [done|exact H2|]. split_and!; [done..|].
    rewrite Hcs. by apply C1.
Qed.

(** Is the game shown to its player at all? *)
Definition queued (n : string) (g : Game.t) : bool :=
  match player_queue n g with Some _ => true | None => false end.

Lemma wp_addPlayer n gs qs w :
  list_to_set all_queues ⊆ dom qs →
  wp (addPlayer uc n gs qs) (λ res w', drops ClaimLock w w' ∧ ∀ qs', res = Ok qs' →
    ∃ items, appended items qs qs' ∧
      entries (player_entry n) w w' (List.filter (queued n) gs) items) w.
Proof.
  revert qs w. induction gs as [|g gs IH]; intros qs w Hdom; simpl.
  { apply wp_ret. split; [done|]. intros qs' [= <-]. exists [].
    split; [apply appended_nil|constructor]. }
  apply wp_rbind_wrap, wp_rbind. eapply wp_mono; [apply wp_loadClaims|].
  intros [cs|e] w1 [H1 C1]; [|split; [done|by intros ? [=]]]. apply wp_ret.
  pose proof (playerItem_spec g n cs) as Hi.
  assert (∀ i, playerItem g n cs = Some i → player_entry n g i) as Hentry.
  { intros i Hp. unfold player_entry. rewrite Hp in Hi. by destruct Hi as (_ & _ & _ & ->). }
  assert (queued n g = match playerItem g n cs with Some _ => true | None => false end) as ->
    by (unfold queued; destruct (playerItem g n cs); [by destruct Hi as (_ & -> & _)|by rewrite Hi]).
  destruct (playerItem g n cs) as [i|]; [specialize (Hentry i eq_refl)|].
  2: { eapply wp_mono; [by apply IH|]. intros res w2 [H2 Hres].
       split; [by etrans|]. intros qs' Hok. destruct (Hres qs' Hok) as (items & ? & Hent).
       exists items. split; [done|].
       exact (entries_widen _ w w1 w2 w2 _ _ H1 (reflexivity w2) Hent). }
  destruct Hi as (Hg & Hq & Hl & Hcs).
  pose proof (player_queue_valid _ _ _ Hq) as [Hin _].
  eapply wp_mono; [apply IH; unfold enqueue; rewrite dom_insert_L; set_solver|].
  intros res w2 [H2 Hres]. split; [by etrans|]. intros qs' Hok.
  destruct (Hres qs' Hok) as (items & Happ & Hent). exists (i :: items). split.
  - apply appended_cons; [set_solver|done].
  - constructor; [|exact (entries_widen _ w w1 w2 w2 _ _ H1 (reflexivity w2) Hent)].
    split; [|done].
    eapply (item_ok_widen w w); [done|exact H2|]. split_and!; [done..|].
    rewrite Hcs. by apply C1.
Qed.
End Fill.

(** ** The queues that are built *)

Section Build.
Context `{E : Env} `{!ClockMono E} `{!RangePerm E} {R : GameRepository}
  `{!GameRepositoryLaws E R} {G : GameListing} {variants : string → list string}
  `{!GameListingLaws E G variants}.
Context (uc : ActivityUC).
Import GameActivity.
Notation Game_of := PlayerActivityGame.Game.
Notation Latest := PlayerActivityGame.LatestActivityAt.

(** One queue of the wallet [a], built from [w] to [w']. *)
Definition classified (n : string) (i : PlayerActivityGame.t) : Prop :=
  joinable_entry n (Game_of i) i ∨ player_entry n (Game_of i) i.

Record queue_ok (a : string) (w w' : World) (key : string)
    (items : list PlayerActivityGame.t) : Prop := {
  queue_ordered : ordered laterActivity items;
  queue_games : lists (member variants a key) (tables w) (Game_of <$> items);
  queue_items i : i ∈ items →
    item_ok uc w w' (Game_of i) i ∧ PlayerActivityGame.QueueKey i = key ∧
    classified (normalizeReservationWallet a) i }.

Definition summary_ok (s : PlayerActivitySummary.t)
    (qs : gmap string (list PlayerActivityGame.t)) : Prop :=
  let count key := Z.of_nat (List.length (queue qs key)) in
  PlayerActivitySummary.JoinableCount s = count ActivityQueueJoinable ∧
  PlayerActivitySummary.MyActiveCount s = count ActivityQueueMyActive ∧
  PlayerActivitySummary.RevealRequiredCount s = count ActivityQueueRevealRequired ∧
  PlayerActivitySummary.ExpiredAttentionCount s = count ActivityQueueExpiredAttention ∧
  PlayerActivitySummary.HistoryCount s = count ActivityQueueHistory ∧
  match PlayerActivitySummary.LastActivityAt s with
  | None => ∀ key, queue qs key = []
  | Some t => (∃ key i, i ∈ queue qs key ∧ Latest i = t) ∧
              ∀ key i, i ∈ queue qs key → Latest i ≤ t
  end.

(** *** The latest item *)

Definition latest_ok (l : list PlayerActivityGame.t) (o : option PlayerActivityGame.t) : Prop :=
  match o with
  | None => l = []
  | Some m => m ∈ l ∧ ∀ i, i ∈ l → Latest i ≤ Latest m
  end.

Lemma latest_fold k l o : latest_ok l o → latest_ok (l ++ k) (foldl latest_of o k).
Proof.
  revert l o. induction k as [|i k IH]; intros l o Ho; simpl; [by rewrite app_nil_r|].
  rewrite cons_middle, app_assoc. apply IH. unfold latest_of. destruct o as [m|]; simpl in *.
  - destruct Ho as [Hm Hmax]. destruct (Z.ltb_spec (Latest m) (Latest i)); simpl;
      (split; [set_solver|]); intros j [Hj| ->%list_elem_of_singleton]%elem_of_app;
      try apply Hmax in Hj; lia.
  - subst l. simpl. split; [set_solver|]. intros j ->%list_elem_of_singleton. lia.
Qed.

Lemma latest_folds (f : string → list PlayerActivityGame.t) keys l o :
  latest_ok l o →
  latest_ok (l ++ flat_map f keys) (foldl (λ latest key, foldl latest_of latest (f key)) o keys).
Proof.
  revert l o. induction keys as [|k keys IH]; intros l o Ho; simpl; [by rewrite app_nil_r|].
  rewrite app_assoc. by apply IH, latest_fold.
Qed.

Lemma elem_of_flat_map {A B} (f : A → list B) l x : x ∈ flat_map f l ↔ ∃ y, y ∈ l ∧ x ∈ f y.
Proof.
  rewrite list_elem_of_In, in_flat_map. setoid_rewrite <-list_elem_of_In. done.
Qed.

Lemma elem_of_keys (qs : gmap string (list PlayerActivityGame.t)) key :
  key ∈ (map_to_list qs).*1 ↔ key ∈ dom qs.
Proof.
  rewrite elem_of_dom, list_elem_of_fmap. split.
  - intros ([k l] & -> & Hl%elem_of_map_to_list). by eexists.
  - intros [l Hl]. exists (key, l). by rewrite elem_of_map_to_list.
Qed.

Lemma queue_absent qs key : key ∉ dom qs → queue qs key = [].
Proof. intros Hk%not_elem_of_dom. unfold queue. by rewrite Hk. Qed.

Lemma wp_summary a qs w :
  wp (buildPlayerActivitySummary a qs) (λ s w', later w w' ∧ summary_ok s qs) w.
Proof.
  apply wp_bind. destruct (rangeQueues_spec qs w) as [Hp Hl].
  unfold wp at 1. set (keys := (rangeQueues qs w).1) in *. apply wp_ret. split; [done|].
  unfold summary_ok. simpl. split_and!; try done.
  pose proof (latest_folds (queue qs) keys [] None eq_refl) as Hok. simpl in Hok.
  assert (∀ key i, i ∈ queue qs key → i ∈ flat_map (queue qs) keys) as Hall.
  { intros key i Hi. apply elem_of_flat_map. exists key. split; [|done]. rewrite Hp.
    apply elem_of_keys. destruct (decide (key ∈ dom qs)); [done|].
    rewrite queue_absent in Hi by done. by apply not_elem_of_nil in Hi. }
  destruct (foldl _ None keys) as [m|]; simpl in *.
  - destruct Hok as [Hm Hmax]. split; [|eauto].
    apply elem_of_flat_map in Hm as (key & _ & Hm). eauto.
  - intros key. destruct (queue qs key) as [|i l] eqn:Hq; [done|]. exfalso.
    apply (not_elem_of_nil i). rewrite <-Hok. apply (Hall key). rewrite Hq. set_solver.
Qed.
(** *** From entries to queues *)

Lemma entries_games filed w w' gs items :
  entries uc filed w w' gs items → Game_of <$> items = gs.
Proof. induction 1 as [|g i gs items [[Hg _] _] _ IH]; [done|].
  rewrite fmap_cons. f_equal; [exact Hg|exact IH].
Qed.

Lemma entries_items filed w w' gs items i :
  entries uc filed w w' gs items → i ∈ items →
  item_ok uc w w' (Game_of i) i ∧ filed (Game_of i) i.
Proof.
  induction 1 as [|g j gs items [Hok Hf] _ IH]; [by intros ?%not_elem_of_nil|].
  intros [->|Hi]%elem_of_cons; [|auto]. assert (Game_of j = g) as -> by apply Hok. done.
Qed.

(** The entries in one queue are those of the games that are filed there. *)
Lemma entries_on (p : Game.t → bool) filed key w w' gs items :
  (∀ g i, filed g i → p g = on key i) →
  entries uc filed w w' gs items →
  entries uc filed w w' (List.filter p gs) (List.filter (on key) items).
Proof.
  intros Hp. induction 1 as [|g i gs items [Hok Hf] _ IH]; simpl; [constructor|].
  rewrite (Hp _ _ Hf). destruct (on key i); [constructor|]; done.
Qed.

Lemma lists_filter p q t l : lists p t l → lists (λ g, p g && q g) t (List.filter q l).
Proof.
  intros [Hs Ho Hc]. split.
  - intros g [Hg Hq]%elem_of_List_filter. destruct (Hs g Hg) as [? ->]. by rewrite Hq.
  - by apply NoDup_fmap_filter.
  - intros ? k g Hg [Hp Hq]%andb_true_iff. apply elem_of_List_filter. eauto.
Qed.

Lemma lists_sorted p t items :
  lists p t (Game_of <$> items) → lists p t (Game_of <$> sortActivityItems items).
Proof. apply lists_perm. apply fmap_Permutation. symmetry. apply SliceStable_perm. Qed.

(** *** The two loops together *)

Definition filled (a : string) (w w' : World)
    (qs : gmap string (list PlayerActivityGame.t)) : Prop :=
  dom qs = list_to_set all_queues ∧ ∀ key, key ∈ all_queues →
    lists (member variants a key) (tables w) (Game_of <$> queue qs key) ∧
    ∀ i, i ∈ queue qs key → item_ok uc w w' (Game_of i) i ∧
      PlayerActivityGame.QueueKey i = key ∧ classified (normalizeReservationWallet a) i.

Lemma filled_later a w w1 w2 qs : drops ClaimLock w1 w2 → filled a w w1 qs → filled a w w2 qs.
Proof.
  intros Hd [Hdom Hq]. split; [done|]. intros key Hk. destruct (Hq key Hk) as [Hl Hi].
  split; [done|]. intros i Hin. destruct (Hi i Hin). split; [|done].
  by eapply (item_ok_widen uc w w w1).
Qed.

Lemma member_joinable a g :
  member variants a ActivityQueueJoinable g =
  (Game.Status g =? GameStatusWaitingForOpponent) && joinable_for (normalizeReservationWallet a) g.
Proof. done. Qed.

Lemma member_player a key g :
  key ≠ ActivityQueueJoinable → member variants a key g =
  negb (bool_decide (normalizeReservationWallet a = EmptyString)) &&
  GameQueries.plays (variants a) g &&
  bool_decide (player_queue (normalizeReservationWallet a) g = Some key).
Proof. intros Hk. unfold member. by rewrite (bool_decide_false (key = _)). Qed.

(** Every game with a queue has one of the statuses the use case asks for. *)
Lemma player_queue_status n g key :
  player_queue n g = Some key → GameQueries.has_status activity_statuses g = true.
Proof.
  unfold player_queue, GameQueries.has_status, activity_statuses. rewrite bool_decide_eq_true.
  destruct (Z.eqb_spec (Game.Status g) GameStatusWaitingForOpponent) as [->|]; [set_solver|].
  destruct (Z.eqb_spec (Game.Status g) GameStatusWaitingForOpenBids) as [->|]; [set_solver|].
  destruct (Z.eqb_spec (Game.Status g) GameStatusEnded) as [->|]; [set_solver|].
  destruct (Z.eqb_spec (Game.Status g) GameStatusPaid) as [->|]; [set_solver|done].
Qed.

Section Both.
Context (a : string) (w : World).
Notation n := (normalizeReservationWallet a).

Lemma queues_joined w1 l1 items1 qs1 :
  lists (λ g, Game.Status g =? GameStatusWaitingForOpponent) (tables w) l1 →
  appended items1 newActivityQueueMap qs1 →
  entries uc (joinable_entry n) w w1 (List.filter (joinable_for n) l1) items1 →
  dom qs1 = list_to_set all_queues ∧ queue qs1 ActivityQueueJoinable = items1 ∧
  (∀ key, key ≠ ActivityQueueJoinable → queue qs1 key = []) ∧
  lists (member variants a ActivityQueueJoinable) (tables w) (Game_of <$> items1).
Proof.
  intros Hl [Hd Hq] He. destruct new_queues as [Hnd Hnq].
  assert (∀ key, List.filter (on key) items1 =
            if bool_decide (key = ActivityQueueJoinable) then items1 else []) as Hf.
  { intros key. clear -He. induction He as [|g i gs items [_ Hk%joinable_entry_key] _ IH]; simpl.
    - by case_bool_decide.
    - unfold on at 1. rewrite Hk, IH. by repeat case_bool_decide; congruence. }
  split; [congruence|]. split_and!.
  - by rewrite Hq, Hnq, Hf.
  - intros key Hk. by rewrite Hq, Hnq, Hf, bool_decide_false.
  - rewrite (entries_games _ _ _ _ _ He). eapply lists_ext; [|by apply lists_filter].
    intros g. by rewrite member_joinable.
Qed.

Lemma queues_played w1 w2 l2 items2 key :
  n ≠ EmptyString → key ≠ ActivityQueueJoinable →
  lists (λ g, GameQueries.plays (variants a) g &&
              GameQueries.has_status activity_statuses g) (tables w) l2 →
  entries uc (player_entry n) w1 w2 (List.filter (queued n) l2) items2 →
  lists (member variants a key) (tables w) (Game_of <$> List.filter (on key) items2).
Proof.
  intros Hn Hk Hl He.
  apply (entries_on (λ g, bool_decide (player_queue n g = Some key)) _ key) in He.
  2: { intros g i ->%player_entry_key. apply bool_decide_ext. naive_solver. }
  rewrite (entries_games _ _ _ _ _ He).
  eapply lists_ext; [|apply lists_filter, lists_filter, Hl]. intros g. simpl.
  rewrite member_player, (bool_decide_false (n = _)) by done. simpl.
  case_bool_decide as Hp; [|by rewrite !andb_false_r].
  unfold queued. by rewrite (player_queue_status _ _ _ Hp), Hp, !andb_true_r.
Qed.

Lemma wp_populateJoinable :
  keyed (tables w) →
  wp (populateJoinableQueue uc n newActivityQueueMap) (λ res w1, drops ClaimLock w w1 ∧
    ∀ qs, res = Ok qs → ∃ l items, appended items newActivityQueueMap qs ∧
      lists (λ g, Game.Status g =? GameStatusWaitingForOpponent) (tables w) l ∧
      entries uc (joinable_entry n) w w1
        (List.filter (joinable_for n) l) items) w.
Proof.
  intros Hk. unfold populateJoinableQueue. apply wp_rbind_wrap. unfold wp at 1.
  pose proof (ListByStatus_quiet GameStatusWaitingForOpponent w) as Hq.
  pose proof (ListByStatus_lists GameStatusWaitingForOpponent w) as Hl.
  destruct (ListByStatus GameStatusWaitingForOpponent w) as [[l|e] w1]; simpl in *.
  2: { split; [by apply later_drops|done]. }
  eapply wp_mono; [apply wp_addJoinable; rewrite (proj1 new_queues); set_solver|]. intros res w2 [H2 Hres].
  assert (drops ClaimLock w w1) as H1 by by apply later_drops.
  split; [by etrans|]. intros qs Hok. destruct (Hres qs Hok) as (items & Happ & He).
  exists l, items. split; [done|]. split; [by apply Hl|].
  exact (entries_widen uc _ w w1 w2 w2 _ _ H1 (reflexivity w2) He).
Qed.

Lemma wp_populatePlayer w1 qs :
  keyed (tables w) → drops ClaimLock w w1 → dom qs = list_to_set all_queues →
  wp (populatePlayerQueues uc a n qs) (λ res w2, drops ClaimLock w1 w2 ∧
    ∀ qs', res = Ok qs' → ∃ items, appended items qs qs' ∧
      (n = EmptyString → items = []) ∧
      (n ≠ EmptyString → ∃ l, entries uc (player_entry n) w w2
         (List.filter (queued n) l) items ∧
       lists (λ g, GameQueries.plays (variants a) g &&
                   GameQueries.has_status activity_statuses g) (tables w) l)) w1.
Proof.
  intros Hk H1 Hd. unfold populatePlayerQueues. case_bool_decide as Hn.
  { apply wp_ret. split; [done|]. intros qs' [= <-]. exists [].
    split; [apply appended_nil|done]. }
  apply wp_rbind_wrap. unfold wp at 1.
  pose proof (ListByPlayerAndStatuses_quiet a activity_statuses w1) as Hq.
  pose proof (ListByPlayerAndStatuses_lists a activity_statuses w1) as Hl.
  rewrite (op_tables _ _ _ (proj1 H1)) in Hl.
  destruct (ListByPlayerAndStatuses a activity_statuses w1) as [[l|e] w2]; simpl in *.
  2: { split; [by apply later_drops|done]. }
  assert (drops ClaimLock w w2) as H2 by (etrans; [exact H1|by apply later_drops]).
  eapply wp_mono; [apply wp_addPlayer; by rewrite Hd|]. intros res w3 [H3 Hres].
  split; [etrans; [by apply later_drops|done]|]. intros qs' Hok. destruct (Hres qs' Hok) as (items & Happ & He).
  exists items. split; [done|]. split; [done|]. intros _. exists l. split; [|by apply Hl].
  exact (entries_widen uc _ w w2 w3 w3 _ _ H2 (reflexivity w3) He).
Qed.

Lemma queues_filled w1 w2 l1 items1 qs1 items2 qs2 :
  drops ClaimLock w1 w2 →
  appended items1 newActivityQueueMap qs1 →
  lists (λ g, Game.Status g =? GameStatusWaitingForOpponent) (tables w) l1 →
  entries uc (joinable_entry n) w w1 (List.filter (joinable_for n) l1) items1 →
  appended items2 qs1 qs2 → (n = EmptyString → items2 = []) →
  (n ≠ EmptyString → ∃ l, entries uc (player_entry n) w w2
     (List.filter (queued n) l) items2 ∧
   lists (λ g, GameQueries.plays (variants a) g &&
               GameQueries.has_status activity_statuses g) (tables w) l) →
  filled a w w2 qs2.
Proof.
  intros H12 A1 L1 E1 [D2 Q2] Hno Hyes.
  destruct (queues_joined _ _ _ _ L1 A1 E1) as (D1 & J1 & P1 & M1).
  split; [congruence|]. intros key Hkey. rewrite Q2.
  assert (∀ i, i ∈ List.filter (on key) items2 → key ≠ ActivityQueueJoinable ∧
    item_ok uc w w2 (Game_of i) i ∧ PlayerActivityGame.QueueKey i = key ∧ classified n i) as Hi2.
  { intros i [Hi Hon%bool_decide_eq_true]%elem_of_List_filter.
    destruct (decide (n = EmptyString)) as [Hn|Hn]; [by rewrite (Hno Hn) in Hi; apply not_elem_of_nil in Hi|].
    destruct (Hyes Hn) as (l & He & _). destruct (entries_items _ _ _ _ _ _ He Hi) as [? Hf].
    pose proof (player_queue_valid _ _ _ (player_entry_key _ _ _ Hf)) as [_ Hv].
    rewrite Hon in Hv. split_and!; [done..|]. by right. }
  destruct (decide (key = ActivityQueueJoinable)) as [->|Hk].
  - rewrite J1. assert (List.filter (on ActivityQueueJoinable) items2 = []) as ->.
    { destruct (List.filter _ items2) as [|i l]; [done|]. by destruct (Hi2 i); [set_solver|]. }
    rewrite app_nil_r. split; [done|]. intros i Hi.
    destruct (entries_items _ _ _ _ _ _ E1 Hi) as [Hok He].
    split; [by eapply (item_ok_widen uc w w w1 w2)|].
    split; [by eapply joinable_entry_key|by left].
  - rewrite P1 by done. simpl. split; [|intros i Hi; by destruct (Hi2 i Hi) as (_ & ? & ? & ?)].
    destruct (decide (n = EmptyString)) as [Hn|Hn].
    + rewrite (Hno Hn). simpl. apply lists_nil. intros g. rewrite member_player by done.
      by rewrite bool_decide_true.
    + destruct (Hyes Hn) as (l & He & Hl). by eapply queues_played.
Qed.

(** What the queues and the summary of a wallet hold. *)
Definition built_ok (w' : World) (s : PlayerActivitySummary.t)
    (qs : gmap string (list PlayerActivityGame.t)) : Prop :=
  summary_ok s qs ∧ (∀ key, key ∉ all_queues → queue qs key = []) ∧
  ∀ key, key ∈ all_queues → queue_ok a w w' key (queue qs key).

Lemma wp_buildQueues :
  keyed (tables w) →
  wp (buildQueues uc a) (λ res w', drops ClaimLock w w' ∧
    ∀ s qs, res = Ok (s, qs) → built_ok w' s qs) w.
Proof.
  intros Hk. unfold buildQueues. cbv zeta. apply wp_rbind.
  eapply wp_mono; [by apply wp_populateJoinable|]. intros [qs1|e] w1 [H1 C1]; [|split; [done|by intros ? ? [=]]].
  destruct (C1 qs1 eq_refl) as (l1 & items1 & A1 & L1 & E1). apply wp_rbind.
  destruct (queues_joined _ _ _ _ L1 A1 E1) as (D1 & _).
  eapply wp_mono; [by apply wp_populatePlayer|]. intros [qs2|e] w2 [H2 C2]; [|split; [by etrans|by intros ? ? [=]]].
  destruct (C2 qs2 eq_refl) as (items2 & A2 & Hno & Hyes).
  pose proof (queues_filled _ _ _ _ _ _ _ H2 A1 L1 E1 A2 Hno Hyes) as Hf.
  apply wp_bind. destruct (rangeQueues_spec qs2 w2) as [Hp Hl3]. unfold wp at 1.
  set (keys := (rangeQueues qs2 w2).1) in *. set (w3 := (rangeQueues qs2 w2).2) in *.
  apply wp_bind. eapply wp_mono; [apply wp_summary|]. intros s w4 [H4 Hs]. apply wp_ret.
  assert (drops ClaimLock w2 w4) as H24 by (apply later_drops; by etrans).
  split; [etrans; [exact H1|etrans; [exact H2|exact H24]]|]. intros s' qs [= <- <-].
  assert (NoDup keys) as Hnd by (rewrite Hp; apply NoDup_fst_map_to_list).
  destruct (filled_later _ _ _ _ _ H24 Hf) as [Hd Hq].
  split; [done|split; intros key Hkey; rewrite sort_each by done].
  { rewrite decide_False by (rewrite Hp, elem_of_keys, Hd; set_solver).
    apply queue_absent. rewrite Hd. set_solver. }
  destruct (Hq key Hkey) as [Hli Hit].
  rewrite decide_True by (rewrite Hp, elem_of_keys, Hd; set_solver). split.
  - apply SliceStable_ordered; unfold laterActivity; intros *; rewrite ?Z.ltb_lt, ?Z.ltb_ge; lia.
  - by apply lists_sorted.
  - intros i Hi. apply Hit. by apply elem_of_SliceStable in Hi.
Qed.
End Both.
End Build.

(** ** Every game in its queue *)

Section Partition.
Context `{E : Env} `{L : AddressLib} `{!AddressLaws E L}.
Notation queue_member := (member GameQueries.buildWalletAddressVariants).

(** The addresses of a stored game, as far as it has them. *)
Definition stored_game (g : Game.t) : Prop :=
  stored_address (Game.PlayerOneAddress g) ∧
  match Game.PlayerTwoAddress g with Some p => stored_address p | None => True end.

(** The players whom the database finds by the variants of a wallet are those whom the use
    case takes for that wallet. *)
Lemma plays_belongs a x g :
  TrimSpace a ≠ EmptyString → names a x → stored_game g →
  GameQueries.plays (GameQueries.buildWalletAddressVariants a) g =
  GameActivity.belongsToWallet g (normalizeReservationWallet a).
Proof.
  intros Ha Hx [H1 H2]. rewrite (normalize_parsed _ _ Ha Hx).
  unfold GameQueries.plays, GameActivity.belongsToWallet.
  assert (∀ s, stored_address s →
    bool_decide (s ∈ GameQueries.buildWalletAddressVariants a) =
    sameReservationWallet s (StringRaw x)) as Hs.
  { intros s Hs. apply Bool.eq_iff_eq_true.
    rewrite bool_decide_eq_true, sameReservationWallet_spec. by apply variants_spec. }
  rewrite Hs by done. f_equal. destruct (Game.PlayerTwoAddress g); auto.
Qed.

(** The address [s] is one of the wallet [x]. *)
Definition is_for (x : Address) (s : string) : Prop := normalizeReservationWallet s = StringRaw x.

(** The wallet is one of the two players. *)
Definition plays_for (x : Address) (g : Game.t) : Prop :=
  is_for x (Game.PlayerOneAddress g) ∨ ∃ p, Game.PlayerTwoAddress g = Some p ∧ is_for x p.

(** The side of the wallet, as player one or else as player two, is not shown yet. *)
Definition must_reveal (x : Address) (g : Game.t) : Prop :=
  (is_for x (Game.PlayerOneAddress g) ∧
     Game.PlayerOneChoice g ∈ [CoinSideClosed; CoinSideUnknown]) ∨
  (¬ is_for x (Game.PlayerOneAddress g) ∧
     ∀ c, Game.PlayerTwoChoice g = Some c → c ∈ [CoinSideClosed; CoinSideUnknown]).

(** Where a game is to be shown to the wallet. *)
Inductive files (x : Address) (g : Game.t) : string → Prop :=
| files_joinable : ¬ plays_for x g → Game.Status g = GameStatusWaitingForOpponent →
    files x g ActivityQueueJoinable
| files_waiting : plays_for x g → Game.Status g = GameStatusWaitingForOpponent →
    files x g ActivityQueueMyActive
| files_reveal : plays_for x g → Game.Status g = GameStatusWaitingForOpenBids →
    must_reveal x g → files x g ActivityQueueRevealRequired
| files_revealed : plays_for x g → Game.Status g = GameStatusWaitingForOpenBids →
    ¬ must_reveal x g → files x g ActivityQueueMyActive
| files_ended : plays_for x g → Game.Status g = GameStatusEnded →
    files x g ActivityQueueExpiredAttention
| files_paid : plays_for x g → Game.Status g = GameStatusPaid →
    files x g ActivityQueueHistory.

Lemma files_unique x g k1 k2 : files x g k1 → files x g k2 → k1 = k2.
Proof.
  intros H1 H2. destruct H1, H2; try done; exfalso;
    unfold GameStatusWaitingForOpponent, GameStatusWaitingForOpenBids, GameStatusEnded,
      GameStatusPaid in *; first [contradiction|lia].
Qed.

Lemma belongs_plays x g :
  GameActivity.belongsToWallet g (StringRaw x) = true ↔ plays_for x g.
Proof.
  unfold GameActivity.belongsToWallet, plays_for, is_for.
  rewrite orb_true_iff, sameReservationWallet_spec.
  destruct (Game.PlayerTwoAddress g); rewrite ?sameReservationWallet_spec; naive_solver.
Qed.

Lemma hidden_spec c : GameActivity.hidden c = true ↔ c ∈ [CoinSideClosed; CoinSideUnknown].
Proof.
  unfold GameActivity.hidden. rewrite orb_true_iff, !Z.eqb_eq. set_solver.
Qed.

Lemma needs_reveal x g :
  plays_for x g → Game.Status g = GameStatusWaitingForOpenBids →
  GameActivity.playerNeedsReveal g (StringRaw x) = true ↔ must_reveal x g.
Proof.
  intros Hp Hs. unfold GameActivity.playerNeedsReveal, must_reveal. rewrite Hs. simpl.
  destruct (sameReservationWallet (Game.PlayerOneAddress g) _) eqn:H1.
  { apply sameReservationWallet_spec in H1. rewrite hidden_spec. unfold is_for. tauto. }
  assert (¬ is_for x (Game.PlayerOneAddress g)) as Hn
    by (intros H; apply sameReservationWallet_spec in H; congruence).
  destruct Hp as [|(p & -> & Hp)]; [done|]. apply sameReservationWallet_spec in Hp as ->.
  destruct (Game.PlayerTwoChoice g) as [c|]; [rewrite hidden_spec|]; naive_solver.
Qed.

Lemma own_queue x g key :
  plays_for x g → player_queue (StringRaw x) g = Some key ↔
  files x g key ∧ key ≠ ActivityQueueJoinable.
Proof.
  intros Hp. unfold player_queue. split.
  - destruct (Z.eqb_spec (Game.Status g) GameStatusWaitingForOpponent);
      [intros [= <-]; split; [by apply files_waiting|done]|].
    destruct (Z.eqb_spec (Game.Status g) GameStatusWaitingForOpenBids) as [Hs|].
    { pose proof (needs_reveal x g Hp Hs) as Hr.
      destruct (GameActivity.playerNeedsReveal g _); intros [= <-]; (split; [|done]).
      - apply files_reveal; naive_solver.
      - apply files_revealed; naive_solver. }
    destruct (Z.eqb_spec (Game.Status g) GameStatusEnded);
      [intros [= <-]; split; [by apply files_ended|done]|].
    destruct (Z.eqb_spec (Game.Status g) GameStatusPaid); intros [= <-].
    split; [by apply files_paid|done].
  - intros [Hf Hj]. destruct Hf as [| _ Hs|_ Hs Hr|_ Hs Hr|_ Hs|_ Hs]; [done|..];
      rewrite Hs; simpl; try done.
    + by rewrite (proj2 (needs_reveal x g Hp Hs)).
    + pose proof (needs_reveal x g Hp Hs). by destruct (GameActivity.playerNeedsReveal g _); [naive_solver|].
Qed.

(** The specification predicate of the queues says where a game is to be shown. *)
Lemma member_files a x key g :
  TrimSpace a ≠ EmptyString → names a x → stored_game g →
  queue_member a key g = true ↔ files x g key.
Proof.
  intros Ha Hx Hg. unfold member, joinable_for. rewrite (plays_belongs a x g Ha Hx Hg).
  rewrite (normalize_parsed _ _ Ha Hx).
  destruct (StringRaw_trimmed x) as [_ Hne]. rewrite (bool_decide_false (StringRaw x = _)) by done.
  simpl. pose proof (belongs_plays x g) as Hb.
  destruct (GameActivity.belongsToWallet g (StringRaw x)) eqn:Hp.
  - pose proof (proj1 Hb eq_refl) as Hpl. case_bool_decide as Hk; simpl.
    + subst key. rewrite andb_false_r. split; [done|]. intros Hf. by inversion Hf.
    + rewrite bool_decide_eq_true, own_queue by done. tauto.
  - assert (¬ plays_for x g) as Hpl by (intros H; apply Hb in H; congruence).
    case_bool_decide as Hk; simpl.
    + subst key. rewrite andb_true_r, Z.eqb_eq. split; [by apply files_joinable|].
      intros Hf. by inversion Hf.
    + split; [done|]. intros Hf. by inversion Hf.
Qed.
End Partition.

(** ** Properties *)

Section Properties.
Context `{E : Env} `{!ClockMono E} `{!RangePerm E} {R : GameRepository}
  `{!GameRepositoryLaws E R} {G : GameListing} {variants : string → list string}
  `{!GameListingLaws E G variants}.
Context (uc : ActivityUC).
Import GameActivity.

(** How many games of the tables belong in a queue. *)
Definition number (a key : string) (t : Tables) : Z :=
  UserQueries.count (member variants a key) (games_rows t).

Lemma lists_number p t l :
  AllRows E → keyed t → lists p t l → Z.of_nat (List.length l) = UserQueries.count p (games_rows t).
Proof.
  intros Hall Hk [Hs Ho Hc]. unfold UserQueries.count. f_equal. apply Permutation_length.
  apply NoDup_Permutation; [by eapply NoDup_fmap_1| |].
  - eapply NoDup_fmap_1, NoDup_fmap_filter, (games_rows_once _ Hk).
  - intros g. rewrite elem_of_List_filter, elem_of_games_rows. split.
    + intros [? ?]%Hs. eauto.
    + intros [[k Hg] Hp]. eauto.
Qed.

(** The slice of a queue that a page shows. *)
Definition page_of (items : list PlayerActivityGame.t) (limit offset : Z) :
    list PlayerActivityGame.t :=
  take (Z.to_nat (normalizeLimit uc limit)) (drop (Z.to_nat offset) items).

Definition queue_post (key a : string) (limit offset : Z) (w : World)
    (res : result (option GameplayQueue.t * PlayerActivitySummary.t)) (w' : World) : Prop :=
  drops ClaimLock w w' ∧ ∀ q s, res = Ok (q, s) →
    key ∈ all_queues ∧ 0 ≤ offset ∧ ∃ items, queue_ok (variants := variants) uc a w w' key items ∧
      q = GameplayQueue.mk key (ActivityQueueTitle key) (QueueRequiresAttention key)
            (Z.of_nat (List.length items)) <$> segment items (normalizeLimit uc limit) offset.

Lemma wp_GetQueue key a limit offset w :
  keyed (tables w) → 0 < normalizeLimit uc limit ≤ MaxInt64 → offset ≤ MaxInt64 →
  wp (GetQueue uc key a limit offset) (queue_post key a limit offset w) w.
Proof.
  intros Hk Hl Hm. unfold GetQueue, IsValidActivityQueueKey.
  destruct (bool_decide (key ∈ all_queues)) eqn:Hv; simpl; [|by apply wp_ret].
  apply bool_decide_eq_true in Hv. destruct (Z.ltb_spec offset 0); [by apply wp_ret|].
  apply wp_rbind. eapply wp_mono; [by apply (wp_buildQueues uc a w)|].
  intros [[s qs]|e] w' [Hd Hb]; [|split; [done|by intros ? ? [=]]]. apply wp_ret.
  split; [done|]. intros q s' [= <- <-]. destruct (Hb s qs eq_refl) as (_ & _ & Hq).
  split_and!; [done..|]. exists (queue qs key). split; [by apply Hq|].
  unfold paginateActivityItems. rewrite page_segment by done. by destruct (segment _ _ _).
Qed.

(** C11: over games whose rows are under their own ids, and for a limit, once defaulted,
    and an offset in the range of ints, the limit positive: a page of a queue is a segment
    of that queue, whose entries are stored games that belong there, each once and the
    latest activity first, and, as long as the rows of the queries all arrive, all of
    them; [TotalCount] is their number. When the offset is inside the queue and offset
    plus limit exceeds the largest int, the request panics instead. Reading a queue
    changes no table and takes no lock; it may drop expired-follow-up claims. (Rows that
    do not arrive are missing without an error: rows.Err() is never read.) *)
Theorem GetQueue_spec key a limit offset w :
  keyed (tables w) → 0 < normalizeLimit uc limit ≤ MaxInt64 → offset ≤ MaxInt64 →
  wp (GetQueue uc key a limit offset) (λ res w', drops ClaimLock w w' ∧ ∀ q s, res = Ok (q, s) →
    key ∈ all_queues ∧ 0 ≤ offset ∧ ∃ items,
      q = GameplayQueue.mk key (ActivityQueueTitle key) (QueueRequiresAttention key)
            (Z.of_nat (List.length items)) <$> segment items (normalizeLimit uc limit) offset ∧
      ordered laterActivity items ∧
      NoDup (Game.GameID ∘ PlayerActivityGame.Game <$> items) ∧
      (∀ i, i ∈ items → let g := PlayerActivityGame.Game i in
         games (tables w) !! Game.GameID g = Some g ∧ member variants a key g = true ∧
         item_ok uc w w' g i) ∧
      ((∀ id, rowsRead id = None) → ∀ k g,
         games (tables w) !! k = Some g → member variants a key g = true →
         ∃ i, i ∈ items ∧ PlayerActivityGame.Game i = g)) w.
Proof.
  intros Hk Hl Ho. eapply wp_mono; [by apply wp_GetQueue|]. intros res w' [Hd Hq].
  split; [done|]. intros q s Hok. destruct (Hq q s Hok) as (? & ? & items & [Hord Hg Hi] & ->).
  split_and!; [done..|]. exists items. split; [done|]. split; [done|].
  destruct Hg as [Hs Hn Hc]. split; [by rewrite list_fmap_compose|]. split.
  - intros i Hin. destruct (Hs (PlayerActivityGame.Game i)) as [? ?];
      [apply list_elem_of_fmap; eauto|]. split_and!; [done..|]. by apply Hi.
  - intros Hall k g Hkg Hm. specialize (Hc Hall k g Hkg Hm).
    apply list_elem_of_fmap in Hc as (i & -> & Hin). eauto.
Qed.

(** What an action offered to the wallet [n] says about the locks of the game. *)
Definition action_ok (n : string) (g : Z) (action : string) (w w' : World) : Prop :=
  (action = ActivityNextActionJoin →
     (with_reservation uc = true → ∀ r, ¬ held JoinLock g r w') ∧
     (with_cancelReservation uc = true → ∀ r, ¬ held CancelLock g r w')) ∧
  (action = ActivityNextActionReveal → with_revealReservation uc = true →
     ∀ r, ¬ held RevealLock g r w') ∧
  (action = ActivityNextActionReviewResult → with_expiredClaim uc = true →
     ∀ r, ¬ held ClaimLock g r w') ∧
  ∀ k, action = match k with
                | JoinLock => ActivityNextActionResumeJoin
                | CancelLock => ActivityNextActionResumeCancel
                | RevealLock => ActivityNextActionResumeReveal
                | ClaimLock => ActivityNextActionResumeReview
                end →
     ∃ r, held k g r w ∧ normalizeReservationWallet (GameReservation.WalletAddress r) = n.

Lemma findClaim_Some cs ty c :
  findClaim cs ty = Some c → c ∈ cs ∧ ActionClaim.ClaimType c = ty.
Proof.
  intros [Hin Hty]%List.find_some. split; [by apply list_elem_of_In|].
  by apply bool_decide_eq_true in Hty.
Qed.

Lemma findClaim_None cs ty c : findClaim cs ty = None → c ∈ cs → ActionClaim.ClaimType c ≠ ty.
Proof.
  intros Hn Hc%list_elem_of_In. pose proof (List.find_none _ _ Hn c Hc) as Hf.
  by apply bool_decide_eq_false in Hf.
Qed.

Section Actions.
Context (g : Game.t) (w w' : World) (cs : list ActionClaim.t) (n : string).
Hypothesis Hcs : claims_between uc all_locks (Game.GameID g) w w' cs.

Lemma no_claim k r :
  findClaim cs (claim_type k) = None → with_lock uc k = true → ¬ held k (Game.GameID g) r w'.
Proof.
  intros Hn Hw Hh. destruct Hcs as [_ Hc].
  assert (claimOf (claim_type k) r ∈ cs) as Hin by (apply Hc; [destruct k; set_solver|done..]).
  by apply (findClaim_None _ _ _ Hn Hin).
Qed.

Lemma claim_type_inj k k' : claim_type k = claim_type k' → k = k'.
Proof. by destruct k, k'. Qed.

Lemma own_claim k c :
  findClaim cs (claim_type k) = Some c →
  sameReservationWallet (ActionClaim.HolderWallet c) n = true →
  ∃ r, held k (Game.GameID g) r w ∧ normalizeReservationWallet (GameReservation.WalletAddress r) = n.
Proof.
  intros [Hin Hty]%findClaim_Some Hs. destruct Hcs as [Hc _].
  destruct (Hc c Hin) as (k' & r & _ & _ & -> & Hh). apply claim_type_inj in Hty as ->.
  exists r. split; [done|]. by apply sameReservationWallet_spec in Hs.
Qed.

Lemma joinable_action i :
  i = joinableItem g n cs → action_ok n (Game.GameID g) (PlayerActivityGame.NextAction i) w w'.
Proof.
  intros ->. unfold joinableItem. pose proof (no_claim JoinLock) as HJ.
  pose proof (no_claim CancelLock) as HC. simpl in *.
  destruct (findClaim cs ActionClaimTypeCancel) eqn:Hc; simpl.
  { split_and!; try done. by intros []. }
  destruct (findClaim cs ActionClaimTypeJoin) as [c|] eqn:Hj; simpl.
  - destruct (sameReservationWallet _ n) eqn:Hs; simpl; (split_and!; [done..|]); intros []; try done.
    intros _. by eapply (own_claim JoinLock).
  - split_and!; try done; [|by intros []]. intros _. split; intros; auto.
Qed.

Lemma player_action i :
  playerItem g n cs = Some i → action_ok n (Game.GameID g) (PlayerActivityGame.NextAction i) w w'.
Proof.
  unfold playerItem, resolveWaitingLobbyNextAction, resolveRevealNextAction,
    resolveExpiredFollowUpNextAction, resolve.
  pose proof (no_claim RevealLock) as HR. pose proof (no_claim ClaimLock) as HE.
  pose proof (own_claim CancelLock) as OC. pose proof (own_claim RevealLock) as OR.
  pose proof (own_claim ClaimLock) as OE. simpl in *.
  destruct (Game.Status g =? GameStatusWaitingForOpponent).
  { intros [= <-]. simpl. destruct (findClaim cs ActionClaimTypeCancel) as [c|]; simpl;
      [destruct (sameReservationWallet _ n) eqn:Hs; simpl|];
      (split_and!; [done..|]); intros []; try done. intros _. by eapply OC. }
  destruct (Game.Status g =? GameStatusWaitingForOpenBids).
  { destruct (playerNeedsReveal g n); intros [= <-]; simpl.
    - destruct (findClaim cs ActionClaimTypeReveal) as [c|]; simpl;
        [destruct (sameReservationWallet _ n) eqn:Hs; simpl|];
        (split_and!; try done); try (intros []; done).
      + intros []; try done. intros _. by eapply OR.
      + intros _ Hw r. by apply HR.
    - split_and!; try done. by intros []. }
  destruct (Game.Status g =? GameStatusEnded).
  { intros [= <-]. simpl. destruct (findClaim cs ActionClaimTypeExpiredFollowUp) as [c|]; simpl;
      [destruct (sameReservationWallet _ n) eqn:Hs; simpl|];
      (split_and!; try done); try (intros []; done).
    - intros []; try done. intros _. by eapply OE.
    - intros _ Hw r. by apply HE. }
  destruct (Game.Status g =? GameStatusPaid); intros [= <-]. simpl.
  split_and!; try done. by intros [].
Qed.
End Actions.

(** C12: the action offered with an entry fits the locks of its game: "join", "reveal" and
    "review" are offered only when no lock in the way outlives the reading, and a "resume"
    only to the wallet that held the lock when the reading began. *)
Theorem next_action_sound key a limit offset w :
  keyed (tables w) → 0 < normalizeLimit uc limit → offset + normalizeLimit uc limit ≤ MaxInt64 →
  wp (GetQueue uc key a limit offset) (λ res w', ∀ q s, res = Ok (Some q, s) →
    ∀ i, i ∈ GameplayQueue.Items q →
      action_ok (normalizeReservationWallet a) (Game.GameID (PlayerActivityGame.Game i))
        (PlayerActivityGame.NextAction i) w w') w.
Proof.
  intros Hk Hl Hm. destruct (decide (offset < 0)) as [Hneg|Hoff].
  { unfold GetQueue. rewrite (proj2 (Z.ltb_lt _ _) Hneg).
    destruct (negb _); by apply wp_ret. }
  eapply wp_mono; [apply wp_GetQueue; [done|lia..]|].
  intros res w' [_ Hres] q s Hok i Hi.
  destruct (Hres _ _ Hok) as (_ & _ & items & Hq & Hseg).
  rewrite segment_fits in Hseg by done. injection Hseg as ->. simpl in Hi.
  fold (page_of items limit offset) in Hi.
  assert (i ∈ items) as Hin.
  { unfold page_of in Hi. rewrite <-(take_drop (Z.to_nat offset) items). apply elem_of_app.
    right. by eapply elem_of_take in Hi as (j & Hj & _); eapply list_elem_of_lookup_2. }
  destruct (queue_items _ _ _ _ _ _ Hq i Hin) as ((_ & _ & Hcs) & _ & [He|He]).
  - by eapply joinable_action.
  - by eapply player_action.
Qed.

(** A search finds exactly the entries, of the queue it is limited to or of all, that match
    the query, the latest activity first. *)
Theorem Search_spec a raw scope limit offset w :
  keyed (tables w) → 0 < normalizeLimit uc limit → offset + normalizeLimit uc limit ≤ MaxInt64 →
  TrimSpace raw ≠ EmptyString →
  wp (Search uc a raw scope limit offset) (λ res w', drops ClaimLock w w' ∧
    ∀ p s n, res = Ok (p, s, n) → ∃ qs hits, built_ok (variants := variants) uc a w w' s qs ∧
      p = Some (page_of hits limit offset) ∧ n = Z.of_nat (List.length hits) ∧
      ordered laterActivity hits ∧
      ∀ i, i ∈ hits ↔ matchesActivitySearch i (TrimSpace raw) = true ∧
        ∃ key, (if bool_decide (scope = EmptyString) then key ∈ all_queues else key = scope) ∧
          i ∈ queue qs key) w.
Proof.
  intros Hk Hl Hm Hne. unfold Search. cbv zeta.
  destruct (Z.ltb_spec offset 0); [by apply wp_ret|].
  destruct (_ && _); [by apply wp_ret|]. rewrite bool_decide_false by done.
  apply wp_rbind. eapply wp_mono; [by apply (wp_buildQueues uc a w)|].
  intros [[s qs]|e] w' [Hd Hb]; [|split; [done|by intros ? ? ? [=]]]. apply wp_ret.
  split; [done|]. intros p s' n [= <- <- <-].
  exists qs, (filterActivitySearchItems qs scope (TrimSpace raw)).
  split; [by apply Hb|]. split; [by apply page_fits|]. split; [done|].
  unfold filterActivitySearchItems. cbv zeta. rewrite TrimSpace_idem, bool_decide_false by done.
  split.
  - apply SliceStable_ordered; unfold laterActivity; intros *; rewrite ?Z.ltb_lt, ?Z.ltb_ge; lia.
  - intros i. unfold sortActivityItems. rewrite elem_of_SliceStable, elem_of_flat_map.
    setoid_rewrite elem_of_List_filter. case_bool_decide; [naive_solver|].
    setoid_rewrite list_elem_of_singleton. naive_solver.
Qed.

(** The latest of the activities that the summary covers. *)
Definition last_activity (a : string) (t : Tables) (o : option Z) : Prop :=
  let shown g := ∃ key, key ∈ all_queues ∧ member variants a key g = true in
  match o with
  | None => ∀ k g, games t !! k = Some g → ¬ shown g
  | Some at_ =>
      (∃ k g, games t !! k = Some g ∧ shown g ∧ latestGameActivity (Some g) = at_) ∧
      ∀ k g, games t !! k = Some g → shown g → latestGameActivity (Some g) ≤ at_
  end.

(** The summary counts, for every queue, exactly the games of the tables that belong
    there, and its last activity is the latest of all of them, in whatever order the map of
    queues is visited. *)
Theorem GetSummary_spec a w :
  AllRows E → keyed (tables w) →
  wp (GetSummary uc a) (λ res w', drops ClaimLock w w' ∧ ∀ s, res = Ok s →
    PlayerActivitySummary.JoinableCount s = number a ActivityQueueJoinable (tables w) ∧
    PlayerActivitySummary.MyActiveCount s = number a ActivityQueueMyActive (tables w) ∧
    PlayerActivitySummary.RevealRequiredCount s =
      number a ActivityQueueRevealRequired (tables w) ∧
    PlayerActivitySummary.ExpiredAttentionCount s =
      number a ActivityQueueExpiredAttention (tables w) ∧
    PlayerActivitySummary.HistoryCount s = number a ActivityQueueHistory (tables w) ∧
    last_activity a (tables w) (PlayerActivitySummary.LastActivityAt s)) w.
Proof.
  intros Hall Hk. unfold GetSummary. case_bool_decide; [by apply wp_ret|].
  apply wp_rbind. eapply wp_mono; [by apply (wp_buildQueues uc a w)|].
  intros [[s qs]|e] w' [Hd Hb]; [|split; [done|by intros ? [=]]]. apply wp_ret.
  split; [done|]. intros s' [= <-]. destruct (Hb s qs eq_refl) as (Hs & Hno & Hq). simpl.
  destruct Hs as (-> & -> & -> & -> & -> & Hlast).
  assert (∀ key, key ∈ all_queues →
    Z.of_nat (List.length (queue qs key)) = number a key (tables w)) as Hn.
  { intros key Hkey. unfold number. rewrite <-(lists_number _ _ _ Hall Hk (queue_games _ _ _ _ _ _ (Hq key Hkey))).
    by rewrite length_fmap. }
  rewrite !Hn by set_solver. split_and!; [done..|].
  unfold last_activity. 
  destruct (PlayerActivitySummary.LastActivityAt s) as [t|].
  - destruct Hlast as [(key & i & Hi & Ht) Hmax].
    assert (key ∈ all_queues) as Hkey.
    { destruct (decide (key ∈ all_queues)); [done|]. rewrite Hno in Hi by done.
      by apply not_elem_of_nil in Hi. }
    assert (∀ key i, key ∈ all_queues → i ∈ queue qs key →
      PlayerActivityGame.LatestActivityAt i = latestGameActivity (Some (PlayerActivityGame.Game i)))
      as Hlat by (intros k j Hk' Hj; by destruct (queue_items _ _ _ _ _ _ (Hq k Hk') j Hj) as ((_ & ? & _) & _)).
    split.
    + assert (PlayerActivityGame.Game i ∈ PlayerActivityGame.Game <$> queue qs key) as Hin
        by (apply list_elem_of_fmap; eauto).
      destruct (lists_sound _ _ _ (queue_games _ _ _ _ _ _ (Hq key Hkey)) _ Hin) as [Hg Hm].
      eexists _, _. split; [exact Hg|]. split; [by exists key|]. by rewrite <-(Hlat key i).
    + intros k g Hg (key' & Hkey' & Hm).
      pose proof (lists_complete _ _ _ (queue_games _ _ _ _ _ _ (Hq key' Hkey')) Hall _ _ Hg Hm) as Hin.
      apply list_elem_of_fmap in Hin as (j & -> & Hj). rewrite <-(Hlat key' j) by done. eauto.
  - intros k g Hg (key & Hkey & Hm).
    pose proof (lists_complete _ _ _ (queue_games _ _ _ _ _ _ (Hq key Hkey)) Hall _ _ Hg Hm) as Hin.
    rewrite Hlast in Hin. by apply not_elem_of_nil in Hin.
Qed.
End Properties.

(** ** Every game in its queue *)

Section Filing.
Context `{E : Env} `{!ClockMono E} `{!RangePerm E} `{!ScanPerm E} `{L : AddressLib}
  `{!AddressLaws E L} (uc : ActivityUC).
Import GameActivity.

(** C10: in the queues built for a wallet whose address parses, over games whose addresses
    are TON addresses and whose rows are under their own ids, every entry is a stored game
    in the queue where it is to be shown: a game that the wallet plays is in its active
    games while it waits for an opponent or once the wallet has shown its side, in the
    games to reveal while it has not, in those that need attention when it has ended, and
    in the history when it is paid; a game it does not play is joinable while it waits for
    an opponent, and nowhere else. No game is in two queues or twice in one; and every
    game that is to be shown is there when the rows of the queries all arrive. *)
Theorem queues_partition a x w :
  TrimSpace a ≠ EmptyString → names a x → keyed (tables w) →
  (∀ k g, games (tables w) !! k = Some g → stored_game g) →
  wp (buildQueues uc a) (λ res _, ∀ s qs, res = Ok (s, qs) →
    let game := PlayerActivityGame.Game in
    (∀ key i, i ∈ queue qs key →
       games (tables w) !! Game.GameID (game i) = Some (game i) ∧ files x (game i) key) ∧
    (∀ key1 key2 i j, i ∈ queue qs key1 → j ∈ queue qs key2 →
       Game.GameID (game i) = Game.GameID (game j) → key1 = key2) ∧
    (∀ key, NoDup (Game.GameID ∘ game <$> queue qs key)) ∧
    ((∀ id, rowsRead id = None) → ∀ k g key, games (tables w) !! k = Some g →
       files x g key → ∃ i, i ∈ queue qs key ∧ game i = g)) w.
Proof.
  intros Ha Hx Hk Hst. eapply wp_mono; [by apply (wp_buildQueues uc a w)|].
  intros res w' [_ Hb] s qs Hok. destruct (Hb s qs Hok) as (_ & Hno & Hq). clear Hb Hok.
  set (game := PlayerActivityGame.Game).
  assert (∀ key i, i ∈ queue qs key →
    games (tables w) !! Game.GameID (game i) = Some (game i) ∧ files x (game i) key) as Hin.
  { intros key i Hi. destruct (decide (key ∈ all_queues)) as [Hkey|Hkey].
    2: { rewrite Hno in Hi by done. by apply not_elem_of_nil in Hi. }
    destruct (lists_sound _ _ _ (queue_games _ _ _ _ _ _ (Hq key Hkey)) (game i)) as [Hg Hm];
      [apply list_elem_of_fmap; eauto|].
    split; [done|]. apply (member_files a x key _ Ha Hx); [by eapply Hst|done]. }
  split; [exact Hin|]. split; [|split].
  - intros key1 key2 i j Hi Hj Hid. destruct (Hin _ _ Hi) as [Gi Fi], (Hin _ _ Hj) as [Gj Fj].
    rewrite Hid in Gi. rewrite Gi in Gj. injection Gj as Gj. rewrite Gj in Fi.
    by eapply files_unique.
  - intros key. destruct (decide (key ∈ all_queues)) as [Hkey|Hkey].
    + rewrite list_fmap_compose. apply (lists_once _ _ _ (queue_games _ _ _ _ _ _ (Hq key Hkey))).
    + rewrite Hno by done. constructor.
  - intros Hall k g key Hg Hf. assert (key ∈ all_queues) as Hkey
      by (destruct Hf; apply (bool_decide_unpack (_ ∈ _)); vm_compute; done).
    apply (member_files a x key g Ha Hx) in Hf; [|by eapply Hst].
    pose proof (lists_complete _ _ _ (queue_games _ _ _ _ _ _ (Hq key Hkey)) Hall _ _ Hg Hf) as Hi.
    apply list_elem_of_fmap in Hi as (i & -> & Hi). eauto.
Qed.
End Filing.

(** ** Concrete runs *)

Module ActivityRun.
Import TwoAddresses GameActivity.
Notation alice := DeliveryRun.alice.
Notation bob := DeliveryRun.bob.

Definition uc : ActivityUC :=
  SetCancelReservationUseCase (NewGameActivityUseCase true true true 0 0).

Definition at_time (created : Z) (g : Game.t) : Game.t := Game.set_CreatedAt created g.
Definition g1 : Game.t := at_time 100 (Run.game 1 GameStatusWaitingForOpponent alice None).
Definition g2 : Game.t := at_time 200 (Run.game 2 GameStatusWaitingForOpponent bob None).
Definition g3 : Game.t := at_time 300 (Run.game 3 GameStatusWaitingForOpenBids alice (Some bob)).
Definition g4 : Game.t := at_time 400 (Run.game 4 GameStatusPaid bob (Some alice)).

(** Bob has reserved the joining of the first game. *)
Definition w0 : World := Run.world (Run.tables_of [g1; g2; g3; g4]) 3 1000.
Definition w : World := (run (JoinReserve 1 bob) w0).2.

Definition bob_raw : string := raw false.

Lemma w_keyed : keyed (tables w).
Proof.
  change (tables w) with (Run.tables_of [g1; g2; g3; g4]). intros k g Hg.
  apply elem_of_list_to_map_2 in Hg. rewrite !list_elem_of_fmap in Hg.
  by destruct Hg as (x & [= -> ->] & _).
Qed.

(** Bob resumes his join of game 1 and must reveal in game 3; both are asked for with the
    raw form of his address. *)
Lemma GetQueue_spec_witness :
  ∃ q s items, (GetQueue uc ActivityQueueJoinable bob_raw 0 0 w).1 = Ok (Some q, s) ∧
    ((λ i, (Game.GameID (PlayerActivityGame.Game i), PlayerActivityGame.NextAction i))
       <$> GameplayQueue.Items q) = [(1, ActivityNextActionResumeJoin)] ∧
    GameplayQueue.Items q = take (Z.to_nat (normalizeLimit uc 0)) items ∧
    ∃ i, i ∈ items ∧ PlayerActivityGame.Game i = g1.
Proof.
  assert ((0 < normalizeLimit uc 0 ≤ MaxInt64) ∧ 0 ≤ MaxInt64) as [H1 H2]
    by (vm_compute; repeat split; done).
  pose proof (GetQueue_spec uc ActivityQueueJoinable bob_raw 0 0 w w_keyed H1 H2) as H.
  unfold wp in H. destruct (GetQueue uc ActivityQueueJoinable bob_raw 0 0 w) as [r w'] eqn:Hr.
  assert (∃ q s, r = Ok (Some q, s) ∧
    ((λ i, (Game.GameID (PlayerActivityGame.Game i), PlayerActivityGame.NextAction i))
       <$> GameplayQueue.Items q) = [(1, ActivityNextActionResumeJoin)]) as (q & s & -> & Hq).
  { apply (f_equal fst) in Hr. simpl in Hr. rewrite <-Hr. eexists _, _.
    split; vm_compute; reflexivity. }
  destruct H as [_ H]. destruct (H (Some q) s eq_refl) as (_ & _ & items & Hseg & _ & _ & _ & Hall).
  exists q, s, items. split; [reflexivity|]. split; [exact Hq|]. split.
  - rewrite segment_fits in Hseg by (vm_compute; discriminate). injection Hseg as ->. reflexivity.
  - apply (Hall (λ _, eq_refl) 1); vm_compute; reflexivity.
Defined.

Lemma next_action_sound_witness :
  ∃ r, held JoinLock 1 r w ∧ normalizeReservationWallet (GameReservation.WalletAddress r) = bob_raw.
Proof.
  assert (0 < normalizeLimit uc 0 ∧ 0 + normalizeLimit uc 0 ≤ MaxInt64) as [H1 H2]
    by (vm_compute; split; done).
  pose proof (next_action_sound uc ActivityQueueJoinable bob_raw 0 0 w w_keyed H1 H2) as H.
  unfold wp in H.
  assert (∃ q s i, (GetQueue uc ActivityQueueJoinable bob_raw 0 0 w).1 = Ok (Some q, s) ∧
    GameplayQueue.Items q = [i] ∧ Game.GameID (PlayerActivityGame.Game i) = 1 ∧
    PlayerActivityGame.NextAction i = ActivityNextActionResumeJoin)
    as (q & s & i & Hok & Hi & Hg & Ha)
    by (eexists _, _, _; split_and!; vm_compute; reflexivity).
  specialize (H q s Hok i). rewrite Hi, Hg, Ha in H.
  specialize (H (proj2 (list_elem_of_singleton i i) eq_refl)).
  exact (proj2 (proj2 (proj2 H)) JoinLock eq_refl).
Defined.

(** One joinable game, the player's own waiting game, one to reveal, one settled. *)
Lemma GetSummary_spec_witness :
  ∃ s, (GetSummary uc bob_raw w).1 = Ok s ∧ PlayerActivitySummary.HistoryCount s = 1 ∧
    PlayerActivitySummary.LastActivityAt s = Some 400 ∧
    PlayerActivitySummary.HistoryCount s =
      number (variants := GameQueries.buildWalletAddressVariants) bob_raw ActivityQueueHistory (tables w).
Proof.
  pose proof (GetSummary_spec uc bob_raw w ltac:(apply _) w_keyed) as H. unfold wp in H.
  destruct (GetSummary uc bob_raw w) as [r w'] eqn:Hr. apply (f_equal fst) in Hr. simpl in Hr.
  assert (∃ s, r = Ok s ∧ PlayerActivitySummary.HistoryCount s = 1 ∧
    PlayerActivitySummary.LastActivityAt s = Some 400) as (s & -> & Hc & Hl)
    by (rewrite <-Hr; eexists; split_and!; vm_compute; reflexivity).
  destruct H as [_ H]. destruct (H s eq_refl) as (_ & _ & _ & _ & Hh & _).
  exists s. split; [reflexivity|]. split; [exact Hc|]. split; [exact Hl|exact Hh].
Defined.

(** Bob may join game 1, waits in game 2 and is to reveal in game 3; game 4 is history. *)
Lemma bob_files : files false g1 ActivityQueueJoinable ∧ files false g2 ActivityQueueMyActive ∧
  files false g3 ActivityQueueRevealRequired ∧ files false g4 ActivityQueueHistory.
Proof.
  assert (is_for false bob ∧ ¬ is_for false alice) as [Hb Ha] by (split; vm_compute; done).
  split_and!.
  - apply files_joinable; [|done]. intros [H|(p & H & _)]; [done|discriminate H].
  - apply files_waiting; [by left|done].
  - apply files_reveal; [right; by exists bob|done|]. right. split; [done|].
    intros c [= <-]. apply hidden_spec. reflexivity.
  - apply files_paid; [by left|done].
Qed.

Lemma queues_partition_witness :
  ∃ s qs, (buildQueues uc bob w).1 = Ok (s, qs) ∧
    (∃ i, i ∈ queue qs ActivityQueueJoinable ∧ PlayerActivityGame.Game i = g1) ∧
    (∃ i, i ∈ queue qs ActivityQueueRevealRequired ∧ PlayerActivityGame.Game i = g3).
Proof.
  assert (names bob false) as Hn by (left; vm_compute; reflexivity).
  assert (stored_address alice ∧ stored_address bob) as [Sa Sb]
    by (split; (split; [vm_compute; reflexivity|eexists; vm_compute; reflexivity])).
  assert (TrimSpace bob ≠ EmptyString) as Ht by (vm_compute; discriminate).
  assert (∀ k g, games (tables w) !! k = Some g → stored_game g) as Hst.
  { change (tables w) with (Run.tables_of [g1; g2; g3; g4]). intros k g Hg.
    apply elem_of_list_to_map_2 in Hg. rewrite !list_elem_of_fmap in Hg.
    destruct Hg as (x & [= -> ->] & Hx). rewrite !elem_of_cons in Hx.
    destruct Hx as [->|[->|[->|[->|?%not_elem_of_nil]]]]; done. }
  pose proof (queues_partition uc bob false w Ht Hn w_keyed Hst) as H. unfold wp in H.
  destruct (buildQueues uc bob w) as [r w'] eqn:Hr. apply (f_equal fst) in Hr. simpl in Hr.
  assert (∃ s qs, r = Ok (s, qs)) as (s & qs & ->)
    by (rewrite <-Hr; eexists _, _; vm_compute; reflexivity).
  destruct (H s qs eq_refl) as (_ & _ & _ & Hall). exists s, qs. split; [reflexivity|]. split.
  - apply (Hall (λ _, eq_refl) 1); [vm_compute; reflexivity|exact (proj1 bob_files)].
  - apply (Hall (λ _, eq_refl) 3); [vm_compute; reflexivity|exact (proj1 (proj2 (proj2 bob_files)))].
Defined.
End ActivityRun.
