(* ===== verification/Rest.v ===== *)
(** * The REST handlers (internal/controller/rest, internal/controller/http/router.go)

    Each handler is an action of the service that reads a request and answers a response.
    What the web framework does with the wire (path and query parameters, decoding of
    bodies) is data of the request; marshalling the payload and logging are left out.
    The health handler is in Health.v. *)
From S2P Require Import Prelude GoTypes Entity World Store Repo Locks LockOps Reservation CancelReservation RevealReservation ExpiredClaim Queries UserManagement GameQuery Activity.

(** ** Requests and responses *)

Record Request := mkRequest {
  Params : string → string;              (* "" for a name that is not there *)
  Query : string → string;
  QueryInt : string → Z → Z;             (* with the default of the call *)
  body_wallet : result string;           (* BodyParser: {wallet_address} *)
  body_batch : result (string * list Z)  (* BodyParser: {wallet_address, game_ids} *)
}.

(** time.Time.Format(time.RFC3339), in the zone of the process. *)
Class TimeFormat := FormatTime : Z → string.

(** The shape shared by Reservation, ReservationResponse, CancelReservationResponse,
    RevealReservationResponse and ExpiredClaimResponse. *)
Module ReservationResponse.
Record t := mk {
  GameID : Z; WalletAddress : string; CreatedAt : string; ExpiresAt : string;
  Status : string }.
End ReservationResponse.

Module GameWithReservation.
Record t := mk { Game : Game.t; Reservation : option ReservationResponse.t }.
End GameWithReservation.

Module GameListResponse.
Record t := mk { Games : list GameWithReservation.t; Total : Z; Limit : Z; Offset : Z }.
End GameListResponse.

Module GameHistoryResponse.
Record t := mk {
  WalletAddress : string; Games : list Game.t; Limit : Z; Offset : Z; Total : Z }.
End GameHistoryResponse.

Module GameActivityQueueResponse.
Record t := mk {
  QueueKey : string; Title : string; AttentionRequired : bool;
  Items : list PlayerActivityGame.t; Summary : PlayerActivitySummary.t; Total : Z;
  Limit : Z; Offset : Z }.
End GameActivityQueueResponse.

Module GameActivitySearchResponse.
Record t := mk {
  Query : string; QueueScope : string; Items : list PlayerActivityGame.t;
  Summary : PlayerActivitySummary.t; Total : Z; Limit : Z; Offset : Z; Message : string }.
End GameActivitySearchResponse.

Inductive Payload :=
| ErrorResponse (Error Message : string)
| ReservationEnvelope (r : ReservationResponse.t)
| ReservationList (l : list ReservationResponse.t)
| ClaimEnvelope (r : ReservationResponse.t)
| GamePayload (g : option Game.t)
| GameListPayload (l : GameListResponse.t)
| UserPayload (u : User.t)
| HistoryPayload (h : GameHistoryResponse.t)
| ReferralPayload (s : ReferralStats.t)
| QueuePayload (q : GameActivityQueueResponse.t)
| SearchPayload (s : GameActivitySearchResponse.t)
| SummaryPayload (s : PlayerActivitySummary.t).

(** A response with a status and a body; [None] is a status alone. *)
Record Response := mkResponse { StatusCode : Z; payload : option Payload }.

(** What a handler comes to. *)
Inductive Outcome := Answer (r : Response) | Panic.

Notation StatusOK := 200.
Notation StatusCreated := 201.
Notation StatusNoContent := 204.
Notation StatusBadRequest := 400.
Notation StatusForbidden := 403.
Notation StatusNotFound := 404.
Notation StatusConflict := 409.
Notation StatusInternalServerError := 500.

Definition JSON (status : Z) (p : Payload) : Outcome := Answer (mkResponse status (Some p)).
Definition SendStatus (status : Z) : Outcome := Answer (mkResponse status None).
Definition bad_request (message : string) : Outcome :=
  JSON StatusBadRequest (ErrorResponse "bad_request" message).
Definition internal_error (message : string) : Outcome :=
  JSON StatusInternalServerError (ErrorResponse "internal_error" message).

(** [strconv.ParseInt(c.Params("gameId"), 10, 64)] and its refusal. *)
Definition withGameID (c : Request) (k : Z → M Outcome) : M Outcome :=
  match ParseInt (Params c "gameId") with
  | None => mret (bad_request "Invalid game ID format")
  | Some gameID => k gameID
  end.

(** A body that does not parse and an empty wallet are refused alike. *)
Definition withWallet (c : Request) (k : string → M Outcome) : M Outcome :=
  match body_wallet c with
  | Err _ => mret (bad_request "wallet_address is required")
  | Ok wallet =>
      if bool_decide (wallet = EmptyString) then
        mret (bad_request "wallet_address is required")
      else k wallet
  end.

(** A required query parameter. *)
Definition withQueryWallet (c : Request) (k : string → M Outcome) : M Outcome :=
  let wallet := Query c "wallet" in
  if bool_decide (wallet = EmptyString) then
    mret (bad_request "wallet query parameter is required")
  else k wallet.

Definition toReservationResponse `{TimeFormat} (r : GameReservation.t) : ReservationResponse.t :=
  ReservationResponse.mk (GameReservation.GameID r) (GameReservation.WalletAddress r)
    (FormatTime (GameReservation.CreatedAt r)) (FormatTime (GameReservation.ExpiresAt r))
    (GameReservation.Status r).

(** ** reservation_handler.go *)

Module ReservationHandler.
Section Handler.
Context `{E : Env} `{R : GameRepository} `{TF : TimeFormat}.

(** The [switch err] of [ReserveGame]: it compares, it does not unwrap. *)
Definition reserveError (err : error) : Outcome :=
  let refuse status code s := JSON status (ErrorResponse code (sentinel_message s)) in
  match err with
  | ESentinel ErrGameAlreadyReserved => refuse StatusConflict "conflict" ErrGameAlreadyReserved
  | ESentinel ErrGameCancellationPending =>
      refuse StatusConflict "cancel_pending" ErrGameCancellationPending
  | ESentinel ErrTooManyReservations =>
      refuse StatusConflict "too_many_reservations" ErrTooManyReservations
  | ESentinel ErrCannotReserveOwnGame =>
      refuse StatusForbidden "forbidden" ErrCannotReserveOwnGame
  | ESentinel ErrGameNotAvailable => refuse StatusNotFound "not_found" ErrGameNotAvailable
  | _ => internal_error "Failed to reserve game"
  end.

(** Parsing the body and looking at the wallet, with a message each. *)
Definition withReserveRequest (c : Request) (k : string → M Outcome) : M Outcome :=
  match body_wallet c with
  | Err _ => mret (bad_request "Invalid request body")
  | Ok wallet =>
      if bool_decide (wallet = EmptyString) then
        mret (bad_request "wallet_address is required")
      else k wallet
  end.

Definition ReserveGame (c : Request) : M Outcome :=
  withGameID c (λ gameID, withReserveRequest c (λ wallet,
    res ← Reservation.Reserve (CancelGet := CancelReservation.service) gameID wallet;
    mret match res with
         | Err err => reserveError err
         | Ok reservation =>
             JSON StatusCreated (ReservationEnvelope (toReservationResponse reservation))
         end)).

Definition GetReservation (c : Request) : M Outcome :=
  withGameID c (λ gameID,
    res ← Reservation.GetReservation gameID;
    mret match res with
         | Err _ => internal_error "Failed to get reservation"
         | Ok None => SendStatus StatusNoContent
         | Ok (Some reservation) =>
             JSON StatusOK (ReservationEnvelope (toReservationResponse reservation))
         end).

Definition ListReservationsByWallet (c : Request) : M Outcome :=
  withQueryWallet c (λ wallet,
    res ← Reservation.ListByWallet wallet;
    mret match res with
         | Err _ => internal_error "Failed to list reservations"
         | Ok l => JSON StatusOK (ReservationList (toReservationResponse <$> l))
         end).

Definition cancelError (err : error) : Outcome :=
  match err with
  | ESentinel ErrReservationNotFound =>
      JSON StatusNotFound (ErrorResponse "not_found" (sentinel_message ErrReservationNotFound))
  | ESentinel ErrNotReservationHolder =>
      JSON StatusForbidden (ErrorResponse "forbidden" (sentinel_message ErrNotReservationHolder))
  | _ => internal_error "Failed to cancel reservation"
  end.

Definition CancelReservation (c : Request) : M Outcome :=
  withGameID c (λ gameID, withReserveRequest c (λ wallet,
    res ← Reservation.Cancel gameID wallet;
    mret match res with
         | Err err => cancelError err
         | Ok _ => SendStatus StatusNoContent
         end)).
End Handler.
End ReservationHandler.

(** ** cancel_reservation_handler.go *)

Module CancelReservationHandler.
Section Handler.
Context `{E : Env} `{R : GameRepository} `{TF : TimeFormat}.

Definition cancelReservationStatus (err : error) : Z * string :=
  match err with
  | ESentinel ErrCancelAlreadyReserved => (StatusConflict, "cancel_already_reserved")
  | ESentinel ErrTooManyCancelReservations => (StatusConflict, "too_many_cancel_reservations")
  | ESentinel ErrCancelNotAvailable => (StatusNotFound, "cancel_not_available")
  | ESentinel ErrNotGameCreator => (StatusForbidden, "not_game_creator")
  | ESentinel ErrCancelReservationNotFound => (StatusNotFound, "not_found")
  | ESentinel ErrNotCancelReservationHolder => (StatusForbidden, "not_cancel_reservation_holder")
  | ESentinel ErrGameAlreadyReserved => (StatusConflict, "game_already_reserved")
  | _ => (StatusInternalServerError, "internal_error")
  end.

Definition cancelRefused (err : error) : Outcome :=
  let '(status, code) := cancelReservationStatus err in
  JSON status (ErrorResponse code (Error err)).

Definition ReserveCancel (c : Request) : M Outcome :=
  withGameID c (λ gameID, withWallet c (λ wallet,
    res ← CancelReservation.Reserve (JoinGet := Reservation.service) gameID wallet;
    mret match res with
         | Err err => cancelRefused err
         | Ok reservation =>
             JSON StatusCreated (ReservationEnvelope (toReservationResponse reservation))
         end)).

Definition GetCancelReservation (c : Request) : M Outcome :=
  withGameID c (λ gameID,
    res ← CancelReservation.Get gameID;
    mret match res with
         | Err _ => internal_error "Failed to get cancel reservation"
         | Ok None => SendStatus StatusNoContent
         | Ok (Some reservation) =>
             JSON StatusOK (ReservationEnvelope (toReservationResponse reservation))
         end).

Definition ListCancelReservationsByWallet (c : Request) : M Outcome :=
  withQueryWallet c (λ wallet,
    res ← CancelReservation.ListByWallet wallet;
    mret match res with
         | Err _ => internal_error "Failed to list cancel reservations"
         | Ok l => JSON StatusOK (ReservationList (toReservationResponse <$> l))
         end).

Definition CancelCancelReservation (c : Request) : M Outcome :=
  withGameID c (λ gameID, withWallet c (λ wallet,
    res ← CancelReservation.Cancel gameID wallet;
    mret match res with
         | Err err => cancelRefused err
         | Ok _ => SendStatus StatusNoContent
         end)).
End Handler.
End CancelReservationHandler.

(** ** reveal_reservation_handler.go *)

Module RevealReservationHandler.
Section Handler.
Context `{E : Env} `{R : GameRepository} `{TF : TimeFormat}.

Definition revealReservationStatus (err : error) : Z * string :=
  match err with
  | ESentinel ErrRevealAlreadyReserved => (StatusConflict, "reveal_already_reserved")
  | ESentinel ErrTooManyRevealReservations => (StatusConflict, "too_many_reveal_reservations")
  | ESentinel ErrRevealNotAvailable => (StatusNotFound, "reveal_not_available")
  | ESentinel ErrNotAPlayer => (StatusForbidden, "not_a_player")
  | ESentinel ErrRevealReservationNotFound => (StatusNotFound, "not_found")
  | ESentinel ErrNotRevealReservationHolder => (StatusForbidden, "not_reveal_reservation_holder")
  | _ => (StatusInternalServerError, "internal_error")
  end.

Definition revealRefused (err : error) : Outcome :=
  let '(status, code) := revealReservationStatus err in
  JSON status (ErrorResponse code (Error err)).

Definition ReserveReveal (c : Request) : M Outcome :=
  withGameID c (λ gameID, withWallet c (λ wallet,
    res ← RevealReservation.Reserve gameID wallet;
    mret match res with
         | Err err => revealRefused err
         | Ok r => JSON StatusCreated (ReservationEnvelope (toReservationResponse r))
         end)).

Definition ReserveRevealBatch (c : Request) : M Outcome :=
  match body_batch c with
  | Err _ => mret (bad_request "Invalid request body")
  | Ok (wallet, gameIDs) =>
      if bool_decide (wallet = EmptyString) || bool_decide (gameIDs = []) then
        mret (bad_request "wallet_address and game_ids are required")
      else
        res ← RevealReservation.ReserveBatch gameIDs wallet;
        mret match res with
             | Err err => revealRefused err
             | Ok created =>
                 JSON StatusCreated (ReservationList (toReservationResponse <$> created))
             end
  end.

Definition GetRevealReservation (c : Request) : M Outcome :=
  withGameID c (λ gameID,
    res ← RevealReservation.Get gameID;
    mret match res with
         | Err _ => internal_error "Failed to get reveal reservation"
         | Ok None => SendStatus StatusNoContent
         | Ok (Some r) => JSON StatusOK (ReservationEnvelope (toReservationResponse r))
         end).

Definition ListRevealReservationsByWallet (c : Request) : M Outcome :=
  withQueryWallet c (λ wallet,
    res ← RevealReservation.ListByWallet wallet;
    mret match res with
         | Err _ => internal_error "Failed to list reveal reservations"
         | Ok l => JSON StatusOK (ReservationList (toReservationResponse <$> l))
         end).

Definition CancelRevealReservation (c : Request) : M Outcome :=
  withGameID c (λ gameID, withWallet c (λ wallet,
    res ← RevealReservation.Cancel gameID wallet;
    mret match res with
         | Err err => revealRefused err
         | Ok _ => SendStatus StatusNoContent
         end)).
End Handler.
End RevealReservationHandler.

(** ** game_activity_handler.go *)

Module GameActivityHandler.
Section Handler.
Context `{E : Env} `{R : GameRepository} `{G : GameListing} `{TF : TimeFormat}.
Context (uc : ActivityUC).

Definition defaultActivityResponseLimit : Z := 20.
Definition maxActivityResponseLimit : Z := 100.

(** The limit that the answer reports. *)
Definition responseLimit (limit : Z) : Z :=
  let responseLimit := if limit <=? 0 then defaultActivityResponseLimit else limit in
  if maxActivityResponseLimit <? responseLimit then maxActivityResponseLimit
  else responseLimit.

(** The error branch shared by the three reads: the code is "bad_request" whatever the
    status is. *)
Definition activityRefused (clientErrors : list sentinel) (err : error) : Outcome :=
  let status :=
    if existsb (errors_Is err) clientErrors then StatusBadRequest
    else StatusInternalServerError in
  JSON status (ErrorResponse "bad_request" (Error err)).

Definition ListQueue (c : Request) : M Outcome :=
  let limit := QueryInt c "limit" 0 in
  let offset := QueryInt c "offset" 0 in
  res ← GameActivity.GetQueue uc (Params c "queueKey") (Query c "wallet") limit offset;
  mret match res with
       | Err err => activityRefused [ErrInvalidActivityQueueKey; ErrInvalidActivityOffset] err
       | Ok (None, _) => Panic
       | Ok (Some queue, summary) =>
           JSON StatusOK (QueuePayload (GameActivityQueueResponse.mk
             (GameplayQueue.Key queue) (GameplayQueue.Title queue)
             (GameplayQueue.AttentionRequired queue) (GameplayQueue.Items queue) summary
             (GameplayQueue.TotalCount queue) (responseLimit limit) offset))
       end.

Definition SearchActivity (c : Request) : M Outcome :=
  let query := Query c "q" in
  let queueScope := Query c "queue" in
  let limit := QueryInt c "limit" 0 in
  let offset := QueryInt c "offset" 0 in
  res ← GameActivity.Search uc (Query c "wallet") query queueScope limit offset;
  mret match res with
       | Err err => activityRefused [ErrInvalidActivityQueueKey; ErrInvalidActivityOffset] err
       | Ok (None, _, _) => Panic
       | Ok (Some items, summary, total) =>
           let message :=
             if bool_decide (query = EmptyString) then
               "Enter a wallet, opponent, or game ID to search activity."
             else if total =? 0 then "No matching activity found." else EmptyString in
           JSON StatusOK (SearchPayload (GameActivitySearchResponse.mk query queueScope items
             summary total (responseLimit limit) offset message))
       end.

Definition GetUserActivitySummary (c : Request) : M Outcome :=
  res ← GameActivity.GetSummary uc (Params c "address");
  mret match res with
       | Err err => activityRefused [ErrActivityWalletRequired] err
       | Ok summary => JSON StatusOK (SummaryPayload summary)
       end.

(** The claim endpoints.  [parseExpiredClaimRequest] fails on a body that does not parse
    and on an empty wallet; both answer alike. *)
Definition createExpiredClaimErrorResponse (err : error) : Outcome :=
  let refuse status code := JSON status (ErrorResponse code (Error err)) in
  if errors_Is err ErrExpiredClaimWalletRequired then refuse StatusBadRequest "bad_request"
  else if errors_Is err ErrExpiredClaimAlreadyClaimed then
    refuse StatusConflict "expired_claim_already_claimed"
  else if errors_Is err ErrTooManyExpiredClaims then
    refuse StatusConflict "too_many_expired_claims"
  else if errors_Is err ErrNotExpiredClaimParticipant then
    refuse StatusForbidden "not_a_participant"
  else if errors_Is err ErrExpiredClaimNotAvailable then refuse StatusNotFound "not_found"
  else internal_error "Failed to create expired claim".

Definition releaseExpiredClaimErrorResponse (err : error) : Outcome :=
  let refuse status code := JSON status (ErrorResponse code (Error err)) in
  if errors_Is err ErrExpiredClaimWalletRequired then refuse StatusBadRequest "bad_request"
  else if errors_Is err ErrExpiredClaimNotFound then refuse StatusNotFound "not_found"
  else if errors_Is err ErrNotExpiredClaimHolder then refuse StatusForbidden "forbidden"
  else internal_error "Failed to release expired claim".

Definition CreateExpiredClaim (c : Request) : M Outcome :=
  withGameID c (λ gameID, withWallet c (λ wallet,
    res ← ExpiredClaim.Claim gameID wallet;
    mret match res with
         | Err err => createExpiredClaimErrorResponse err
         | Ok claim => JSON StatusCreated (ClaimEnvelope (toReservationResponse claim))
         end)).

Definition GetExpiredClaim (c : Request) : M Outcome :=
  withGameID c (λ gameID,
    res ← ExpiredClaim.Get gameID;
    mret match res with
         | Err _ => internal_error "Failed to get expired claim"
         | Ok None => SendStatus StatusNoContent
         | Ok (Some claim) => JSON StatusOK (ClaimEnvelope (toReservationResponse claim))
         end).

Definition DeleteExpiredClaim (c : Request) : M Outcome :=
  withGameID c (λ gameID, withWallet c (λ wallet,
    res ← ExpiredClaim.Release gameID wallet;
    mret match res with
         | Err err => releaseExpiredClaimErrorResponse err
         | Ok _ => SendStatus StatusNoContent
         end)).
End Handler.
End GameActivityHandler.

(** ** game_handler.go *)

Module GameHandler.
Section Handler.
Context `{E : Env} `{R : GameRepository} `{G : GameListing} `{TF : TimeFormat}.

(** The loop over the page; an error of [GetReservation] shows as no reservation. *)
Fixpoint withReservations (has_reservationUC : bool) (games : list Game.t) :
    M (list GameWithReservation.t) :=
  match games with
  | [] => mret []
  | game :: games =>
      reservation ←
        (if has_reservationUC then
           res ← Reservation.GetReservation (Game.GameID game);
           mret match res with
                | Ok (Some r) => Some (toReservationResponse r)
                | _ => None
                end
         else mret None);
      rest ← withReservations has_reservationUC games;
      mret (GameWithReservation.mk game reservation :: rest)
  end.

Definition ListGames (has_reservationUC : bool) (c : Request) : M Outcome :=
  let status := QueryInt c "status" GameStatusWaitingForOpponent in
  let limit := QueryInt c "limit" 20 in
  let offset := QueryInt c "offset" 0 in
  res ← GameQuery.ListGames status limit offset;
  match res with
  | Err err => mret (bad_request (Error err))
  | Ok None => mret Panic
  | Ok (Some games) =>
      gamesWithReservation ← withReservations has_reservationUC games;
      mret (JSON StatusOK (GameListPayload (GameListResponse.mk gamesWithReservation
              (Z.of_nat (List.length games)) limit offset)))
  end.

Definition GetGameByID (c : Request) : M Outcome :=
  withGameID c (λ gameID,
    res ← GameQuery.GetGameByID gameID;
    mret match res with
         | Err err =>
             let errMsg := Error err in
             if bool_decide (errMsg = "game not found") ||
                Contains errMsg "no rows in result set"
             then JSON StatusNotFound (ErrorResponse "not_found" "Game not found")
             else internal_error "Failed to retrieve game"
         | Ok game => JSON StatusOK (GamePayload game)
         end).
End Handler.
End GameHandler.

(** ** user_handler.go *)

Module UserHandler.
Section Handler.
Context `{E : Env} `{G : GameListing} `{U : UserRepository}.

(** The errors of this handler have a text instead of a code, and no message. *)
Definition user_error (status : Z) (text : string) : Outcome :=
  JSON status (ErrorResponse text EmptyString).

Definition GetUserProfile (c : Request) : M Outcome :=
  res ← UserManagement.GetUserByWallet (Params c "address");
  mret match res with
       | Err _ => user_error StatusNotFound "User not found"
       | Ok user => JSON StatusOK (UserPayload user)
       end.

(** A parameter that is there must parse and satisfy [valid]. *)
Definition pageParam (param : string) (default : Z) (valid : Z → bool) : option Z :=
  if bool_decide (param = EmptyString) then Some default
  else match ParseInt param with
       | Some z => if valid z then Some z else None
       | None => None
       end.

Definition GetUserGameHistory (c : Request) : M Outcome :=
  let walletAddress := Params c "address" in
  match pageParam (Query c "limit") 20 (λ z, (0 <? z) && (z <=? 100)) with
  | None => mret (user_error StatusBadRequest
                    "Invalid limit parameter (must be between 1 and 100)")
  | Some limit =>
      match pageParam (Query c "offset") 0 (λ z, 0 <=? z) with
      | None => mret (user_error StatusBadRequest
                        "Invalid offset parameter (must be non-negative)")
      | Some offset =>
          user ← UserManagement.GetUserByWallet walletAddress;
          match user with
          | Err _ => mret (user_error StatusNotFound "User not found")
          | Ok _ =>
              res ← GameQuery.GetGamesByPlayerPage walletAddress limit offset;
              mret match res with
                   | Err _ => user_error StatusInternalServerError
                                "Failed to retrieve game history"
                   | Ok (None, _) => Panic
                   | Ok (Some games, total) =>
                       JSON StatusOK (HistoryPayload (GameHistoryResponse.mk walletAddress
                         games limit offset total))
                   end
          end
      end
  end.

Definition GetReferralStats (c : Request) : M Outcome :=
  res ← UserManagement.GetReferralStats (Params c "address");
  mret match res with
       | Err _ => user_error StatusInternalServerError
                    "Failed to retrieve referral statistics"
       | Ok stats => JSON StatusOK (ReferralPayload stats)
       end.
End Handler.
End UserHandler.

(** ** The routes under /api/v1 (router.go), but for the health check *)

(** The parts of [RouterDeps] that may be nil. *)
Record RouterDeps := mkRouterDeps {
  GameActivityUC : option ActivityUC; has_ReservationUC : bool;
  has_CancelReservationUC : bool; has_RevealReservationUC : bool }.

Section Routes.
Context `{E : Env} `{R : GameRepository} `{G : GameListing} `{U : UserRepository}.
Context `{TF : TimeFormat}.

Notation route := (string * string * (Request → M Outcome))%type.

Definition activity_routes (uc : ActivityUC) : list route := [
  ("GET", "/games/activity/search", GameActivityHandler.SearchActivity uc);
  ("GET", "/games/activity/:queueKey", GameActivityHandler.ListQueue uc);
  ("GET", "/users/:address/activity-summary", GameActivityHandler.GetUserActivitySummary uc);
  ("POST", "/games/:gameId/expired-claim", GameActivityHandler.CreateExpiredClaim);
  ("GET", "/games/:gameId/expired-claim", GameActivityHandler.GetExpiredClaim);
  ("DELETE", "/games/:gameId/expired-claim", GameActivityHandler.DeleteExpiredClaim)].

Definition reservation_routes : list route := [
  ("POST", "/games/:gameId/reserve", ReservationHandler.ReserveGame);
  ("GET", "/games/:gameId/reservation", ReservationHandler.GetReservation);
  ("DELETE", "/games/:gameId/reserve", ReservationHandler.CancelReservation);
  ("GET", "/reservations", ReservationHandler.ListReservationsByWallet)].

Definition cancel_routes : list route := [
  ("POST", "/games/:gameId/cancel-reserve", CancelReservationHandler.ReserveCancel);
  ("GET", "/games/:gameId/cancel-reservation", CancelReservationHandler.GetCancelReservation);
  ("DELETE", "/games/:gameId/cancel-reserve", CancelReservationHandler.CancelCancelReservation);
  ("GET", "/cancel-reservations", CancelReservationHandler.ListCancelReservationsByWallet)].

Definition reveal_routes : list route := [
  ("POST", "/games/:gameId/reveal-reserve", RevealReservationHandler.ReserveReveal);
  ("GET", "/games/:gameId/reveal-reservation", RevealReservationHandler.GetRevealReservation);
  ("DELETE", "/games/:gameId/reveal-reserve", RevealReservationHandler.CancelRevealReservation);
  ("POST", "/reveal-reserve", RevealReservationHandler.ReserveRevealBatch);
  ("GET", "/reveal-reservations", RevealReservationHandler.ListRevealReservationsByWallet)].

Definition user_routes : list route := [
  ("GET", "/users/:address", UserHandler.GetUserProfile);
  ("GET", "/users/:address/history", UserHandler.GetUserGameHistory);
  ("GET", "/users/:address/referrals", UserHandler.GetReferralStats)].

Definition apiV1Group (deps : RouterDeps) : list route :=
  [("GET", "/games", GameHandler.ListGames (has_ReservationUC deps));
   ("GET", "/games/:gameId", GameHandler.GetGameByID)] ++
  match GameActivityUC deps with Some uc => activity_routes uc | None => [] end ++
  reservation_routes ++
  (if has_CancelReservationUC deps then cancel_routes else []) ++
  (if has_RevealReservationUC deps then reveal_routes else []) ++
  user_routes.
End Routes.
