(* ===== verification/RestSpec.v ===== *)
(** * What the REST answers mean

    A GET takes no lock and writes nothing; the answer to a POST or a DELETE tells what
    happened to the locks; a game that the service does not know is an internal error. *)
From S2P Require Import Prelude GoTypes Entity World LockSpec Store Repo Locks LockOps Reservation CancelReservation RevealReservation ExpiredClaim Coordination Delivery Queries QueriesSpec UserManagement GameQuery Activity ActivitySpec Rest.

(** ** The reads *)

Class UserRepositoryLaws (E : Env) (U : UserRepository) : Prop := {
  GetByWallet_quiet a w : later w (GetByWallet a w).2;
  UserReferralStats_quiet a w : later w (UserReferralStats a w).2 }.

#[export] Instance Postgres_users_laws (E : Env) : UserRepositoryLaws E Postgres_users.
Proof.
  split; intros a w; simpl; unfold UserQueries.GetByWallet, UserQueries.GetByWalletAddress,
    UserQueries.GetReferralStats, rbind, rbind_wrap, mbind, M_bind, ST_bind, statement, later,
    mret, M_ret, ST_ret.
  - destruct (users (tables w) !! a) as [row|]; [destruct (UserQueries.scanUser _)|];
      by destruct (dbfault (stmts w)).
  - by destruct (dbfault (stmts w)).
Qed.

Section Reads.
Context `{E : Env} `{!ClockMono E} `{!RangePerm E} {R : GameRepository}
  `{!GameRepositoryLaws E R} {G : GameListing} {variants : string → list string}
  `{!GameListingLaws E G variants} {U : UserRepository} `{!UserRepositoryLaws E U}
  `{TF : TimeFormat}.

(** [m] only reads, but for locks it finds to be over. *)
Definition reads {A} (m : M A) (w : World) : Prop := ∃ k, drops k w (m w).2.

Lemma handler_reads_ret {A} (a : A) w : reads (mret a) w.
Proof. by exists JoinLock. Qed.

Lemma reads_later {A} (m : M A) w : later w (m w).2 → reads m w.
Proof. intros Hl. exists JoinLock. by apply later_drops. Qed.

Lemma reads_map {A B} (m : M A) (f : A → B) w : reads m w → reads (a ← m; mret (f a)) w.
Proof.
  unfold reads, mbind, M_bind, ST_bind, mret, M_ret, ST_ret. by destruct (m w).
Qed.

Lemma reads_wp {A} k (m : M A) (Q : A → World → Prop) w :
  wp m (λ a w', drops k w w' ∧ Q a w') w → reads m w.
Proof. intros [H _]. by exists k. Qed.

Lemma handler_reads_gameID c k w : (∀ g, reads (k g) w) → reads (withGameID c k) w.
Proof. intros H. unfold withGameID. destruct (ParseInt _); [done|apply handler_reads_ret]. Qed.

Lemma reads_queryWallet c k w : (∀ a, reads (k a) w) → reads (withQueryWallet c k) w.
Proof. intros H. unfold withQueryWallet. case_bool_decide; [apply handler_reads_ret|done]. Qed.

Lemma reads_getActive k g w : reads (getActive k g) w.
Proof. apply reads_later, (wp_getActive k g w). Qed.

Lemma reads_GetQueue uc key a limit offset w :
  keyed (tables w) → reads (GameActivity.GetQueue uc key a limit offset) w.
Proof.
  intros Hk. apply (reads_wp ClaimLock _ (λ _ _, True)). unfold GameActivity.GetQueue.
  destruct (negb _); [by apply wp_ret|]. destruct (_ <? _); [by apply wp_ret|].
  apply wp_rbind. eapply wp_mono; [by apply (wp_buildQueues uc a w)|].
  intros [[s qs]|e] w' [Hd _]; [by apply wp_ret|done].
Qed.

Lemma reads_Search uc a raw scope limit offset w :
  keyed (tables w) → reads (GameActivity.Search uc a raw scope limit offset) w.
Proof.
  intros Hk. apply (reads_wp ClaimLock _ (λ _ _, True)). unfold GameActivity.Search. cbv zeta.
  destruct (_ <? _); [by apply wp_ret|]. destruct (_ && _); [by apply wp_ret|].
  case_bool_decide.
  { apply wp_bind. eapply wp_mono; [apply wp_summary|]. intros s w' [Hl _].
    apply wp_ret. split; [by apply later_drops|done]. }
  apply wp_rbind. eapply wp_mono; [by apply (wp_buildQueues uc a w)|].
  intros [[s qs]|e] w' [Hd _]; [by apply wp_ret|done].
Qed.

Lemma reads_GetSummary uc a w : keyed (tables w) → reads (GameActivity.GetSummary uc a) w.
Proof.
  intros Hk. apply (reads_wp ClaimLock _ (λ _ _, True)). unfold GameActivity.GetSummary.
  case_bool_decide; [by apply wp_ret|].
  apply wp_rbind. eapply wp_mono; [by apply (wp_buildQueues uc a w)|].
  intros [[s qs]|e] w' [Hd _]; [by apply wp_ret|done].
Qed.

Lemma later_rbind {A B} (m : M (result A)) (f : A → M (result B)) w :
  later w (m w).2 → (∀ a w', later w' (f a w').2) → later w (rbind m f w).2.
Proof.
  intros Hm Hf. unfold rbind, mbind, M_bind, ST_bind. destruct (m w) as [[a|e] w1]; simpl in *.
  - etrans; [exact Hm|apply Hf].
  - exact Hm.
Qed.

Lemma later_rbind_wrap {A B} h (m : M (result A)) (f : A → M (result B)) w :
  later w (m w).2 → (∀ a w', later w' (f a w').2) → later w (rbind_wrap h m f w).2.
Proof.
  intros Hm Hf. unfold rbind_wrap, mbind, M_bind, ST_bind.
  destruct (m w) as [[a|e] w1]; simpl in *.
  - etrans; [exact Hm|apply Hf].
  - exact Hm.
Qed.

Lemma later_ListGames status limit offset w :
  later w (GameQuery.ListGames status limit offset w).2.
Proof.
  unfold GameQuery.ListGames, GameQuery.getGamesForStatus.
  destruct (_ || _); [done|]. destruct (_ <=? _); [done|]. destruct (_ <? _); [done|].
  apply later_rbind; [|done]. apply later_rbind; [apply ListByStatus_quiet|].
  intros l w1. destruct (negb _); [done|]. apply later_rbind; [apply ListByStatus_quiet|done].
Qed.

Lemma later_GetGamesByPlayerPage a limit offset w :
  later w (GameQuery.GetGamesByPlayerPage a limit offset w).2.
Proof.
  unfold GameQuery.GetGamesByPlayerPage. case_bool_decide; [done|].
  destruct (_ <=? _); [done|]. destruct (_ <? _); [done|].
  apply later_rbind; [apply ListByPlayer_quiet|done].
Qed.

Lemma later_GetUserByWallet a w : later w (UserManagement.GetUserByWallet a w).2.
Proof.
  unfold UserManagement.GetUserByWallet. case_bool_decide; [done|].
  apply later_rbind_wrap; [apply GetByWallet_quiet|]. by intros [u|] w1.
Qed.

Lemma later_withReservations b games w : later w (GameHandler.withReservations b games w).2.
Proof.
  revert w. induction games as [|g games IH]; intros w; simpl; [done|].
  unfold mbind, M_bind, ST_bind, mret, M_ret, ST_ret. destruct b.
  - unfold Reservation.GetReservation.
    pose proof (wp_getActive JoinLock (Game.GameID g) w) as [Hl _].
    destruct (getActive _ _ w) as [r w1]. specialize (IH w1).
    destruct (GameHandler.withReservations true games w1) as [l w2]. by etrans.
  - specialize (IH w). by destruct (GameHandler.withReservations false games w).
Qed.

Lemma reads_ListGames b c w : reads (GameHandler.ListGames b c) w.
Proof.
  apply reads_later. unfold GameHandler.ListGames, mbind, M_bind, ST_bind, mret, M_ret, ST_ret.
  cbv zeta.
  pose proof (later_ListGames (QueryInt c "status" GameStatusWaitingForOpponent)
                (QueryInt c "limit" 20) (QueryInt c "offset" 0) w) as Hl.
  destruct (GameQuery.ListGames _ _ _ w) as [[[games|]|e] w1]; [|done..].
  pose proof (later_withReservations b games w1) as Hl2.
  destruct (GameHandler.withReservations b games w1). by etrans.
Qed.

Lemma reads_history c w : reads (UserHandler.GetUserGameHistory c) w.
Proof.
  unfold UserHandler.GetUserGameHistory.
  destruct (UserHandler.pageParam _ _ _) as [limit|]; [|apply handler_reads_ret].
  destruct (UserHandler.pageParam _ _ _) as [offset|]; [|apply handler_reads_ret].
  apply reads_later. unfold mbind, M_bind, ST_bind, mret, M_ret, ST_ret.
  pose proof (later_GetUserByWallet (Params c "address") w) as Hl.
  destruct (UserManagement.GetUserByWallet _ w) as [[u|e] w1]; [|done].
  pose proof (later_GetGamesByPlayerPage (Params c "address") limit offset w1) as Hl2.
  destruct (GameQuery.GetGamesByPlayerPage _ _ _ w1). by etrans.
Qed.

(** C20: a GET is safe: whatever the request, a route registered for GET changes no table
    and takes no lock; the most it does is drop locks of one kind that are over. *)
Theorem GET_safe deps p h c w :
  keyed (tables w) → ("GET", p, h) ∈ apiV1Group deps → reads (h c) w.
Proof.
  intros Hk Hin. unfold apiV1Group in Hin. rewrite !elem_of_app in Hin.
  destruct Hin as [Hin|[Hin|[Hin|[Hin|[Hin|Hin]]]]].
  - set_unfold in Hin. destruct Hin as [[= _ ->]|[[= _ ->]|[]]]; [apply reads_ListGames|].
    apply handler_reads_gameID. intros g. apply reads_map, reads_later.
    unfold GameQuery.GetGameByID. destruct (_ <=? _); [done|].
    apply later_rbind; [apply GetByID_quiet|done].
  - destruct (GameActivityUC deps) as [uc|]; [|by apply not_elem_of_nil in Hin].
    set_unfold in Hin. destruct Hin as [[= _ ->]|[[= _ ->]|[[= _ ->]|[[=]|[[= _ ->]|[[=]|[]]]]]]].
    + apply reads_map. by apply reads_Search.
    + apply reads_map. by apply reads_GetQueue.
    + apply reads_map. by apply reads_GetSummary.
    + apply handler_reads_gameID. intros g. apply reads_map. exists ClaimLock. by apply wp_Get.
  - set_unfold in Hin. destruct Hin as [[=]|[[= _ ->]|[[=]|[[= _ ->]|[]]]]].
    + apply handler_reads_gameID. intros g. apply reads_map, reads_getActive.
    + apply reads_queryWallet. intros a. apply reads_map. exists JoinLock. by apply ListByWallet_spec.
  - destruct (has_CancelReservationUC deps); [|by apply not_elem_of_nil in Hin].
    set_unfold in Hin. destruct Hin as [[=]|[[= _ ->]|[[=]|[[= _ ->]|[]]]]].
    + apply handler_reads_gameID. intros g. apply reads_map, reads_getActive.
    + apply reads_queryWallet. intros a. apply reads_map. exists CancelLock.
      by apply wp_cancel_ListByWallet.
  - destruct (has_RevealReservationUC deps); [|by apply not_elem_of_nil in Hin].
    set_unfold in Hin. destruct Hin as [[=]|[[= _ ->]|[[=]|[[=]|[[= _ ->]|[]]]]]].
    + apply handler_reads_gameID. intros g. apply reads_map, reads_getActive.
    + apply reads_queryWallet. intros a. apply reads_map, reads_later.
      by apply wp_reveal_ListByWallet.
  - set_unfold in Hin. destruct Hin as [[= _ ->]|[[= _ ->]|[[= _ ->]|[]]]].
    + apply reads_map, reads_later, later_GetUserByWallet.
    + apply reads_history.
    + apply reads_map, reads_later. unfold UserManagement.GetReferralStats.
      case_bool_decide; [done|]. apply later_rbind_wrap; [apply UserReferralStats_quiet|].
      by intros [s|] w1.
Qed.
End Reads.

(** ** The requests that take or release locks *)

Section Writes.
Context `{E : Env} `{!ClockMono E} {R : GameRepository} `{!GameRepositoryLaws E R}
  `{TF : TimeFormat}.

(** The games and the wallet that a request names. *)
Definition asked (c : Request) (gs : list Z) (a : string) : Prop :=
  (∃ g, ParseInt (Params c "gameId") = Some g ∧ gs = [g]) ∧ body_wallet c = Ok a.
Definition asked_batch (c : Request) (gs : list Z) (a : string) : Prop :=
  body_batch c = Ok (a, gs).

(** A refusal: an error status with an error body. *)
Definition refusal (r : Response) : Prop :=
  StatusCode r ∈ [StatusBadRequest; StatusForbidden; StatusNotFound; StatusConflict;
                  StatusInternalServerError] ∧
  ∃ code message, payload r = Some (ErrorResponse code message).

(** ... after which tables and locks are what they were. *)
Definition refused_unchanged (o : Outcome) (w w' : World) : Prop :=
  ∃ r, o = Answer r ∧ refusal r ∧ tables w' = tables w ∧ locks w' = locks w.

(** The bodies that show the locks [rs]. *)
Inductive shows : Payload → list GameReservation.t → Prop :=
| shows_one r : shows (ReservationEnvelope (toReservationResponse r)) [r]
| shows_claim r : shows (ClaimEnvelope (toReservationResponse r)) [r]
| shows_all rs : shows (ReservationList (toReservationResponse <$> rs)) rs.

(** The lock on [g] is stored as [r], for the wallet [a]. *)
Definition stored_for (k : LockKind) (a : string) (w : World) (g : Z)
    (r : GameReservation.t) : Prop :=
  reservations (locks w k) !! g = Some r ∧
  normalizeReservationWallet (GameReservation.WalletAddress r) = normalizeReservationWallet a.

(** 201 with the locks that are now stored, or a refusal. *)
Definition takes (k : LockKind) (ask : list Z → string → Prop) (w : World)
    (o : Outcome) (w' : World) : Prop :=
  refused_unchanged o w w' ∨
  ∃ gs a p rs, ask gs a ∧ o = JSON StatusCreated p ∧ shows p rs ∧
    lock_op k w w' ∧ Forall2 (stored_for k a w') gs rs.

(** 204 for the holder, whose lock is then gone and the only one to change, or a refusal. *)
Definition frees (k : LockKind) (c : Request) (w : World) (o : Outcome) (w' : World) : Prop :=
  refused_unchanged o w w' ∨
  ∃ g a r, asked c [g] a ∧ o = SendStatus StatusNoContent ∧
    stored_for k a w g r ∧ active_at (time w) r ∧
    lock_op k w w' ∧ view (time w') (locks w' k) !! g = None ∧
    ∀ g', g' ≠ g → reservations (locks w' k) !! g' = reservations (locks w k) !! g'.

Lemma refused_later r w w' :
  refusal r → later w w' → refused_unchanged (Answer r) w w'.
Proof.
  intros Hr Hl. exists r. split_and!; [done..|by apply later_tables|by apply later_locks].
Qed.

Lemma refused_bad_request message w : refused_unchanged (bad_request message) w w.
Proof. eapply refused_later; [|done]. split; [set_solver|eauto]. Qed.

(** *** Refusing a malformed request *)

Lemma wp_withGameID c k w (Q : Outcome → World → Prop) :
  (∀ o, refused_unchanged o w w → Q o w) →
  (∀ g, ParseInt (Params c "gameId") = Some g → wp (k g) Q w) →
  wp (withGameID c k) Q w.
Proof.
  intros Hb Hk. unfold withGameID. destruct (ParseInt _); [by apply Hk|].
  apply wp_ret, Hb, refused_bad_request.
Qed.

Lemma wp_withWallet c k w (Q : Outcome → World → Prop) :
  (∀ o, refused_unchanged o w w → Q o w) →
  (∀ a, body_wallet c = Ok a → a ≠ EmptyString → wp (k a) Q w) →
  wp (withWallet c k) Q w.
Proof.
  intros Hb Hk. unfold withWallet. destruct (body_wallet c) as [a|e].
  - case_bool_decide; [|by apply Hk]. apply wp_ret, Hb, refused_bad_request.
  - apply wp_ret, Hb, refused_bad_request.
Qed.

Lemma wp_withReserveRequest c k w (Q : Outcome → World → Prop) :
  (∀ o, refused_unchanged o w w → Q o w) →
  (∀ a, body_wallet c = Ok a → a ≠ EmptyString → wp (k a) Q w) →
  wp (ReservationHandler.withReserveRequest c k) Q w.
Proof.
  intros Hb Hk. unfold ReservationHandler.withReserveRequest. destruct (body_wallet c) as [a|e].
  - case_bool_decide; [|by apply Hk]. apply wp_ret, Hb, refused_bad_request.
  - apply wp_ret, Hb, refused_bad_request.
Qed.

(** *** The error branches *)

Definition refuses (f : error → Outcome) : Prop := ∀ e, ∃ r, f e = Answer r ∧ refusal r.

Lemma refuses_unchanged f e w w' :
  refuses f → tables w' = tables w → locks w' = locks w → refused_unchanged (f e) w w'.
Proof. intros Hf Ht Hl. destruct (Hf e) as (r & -> & Hr). by exists r. Qed.

Ltac refusing := eexists; split; [reflexivity|split; [set_solver|eauto]].

Lemma refuses_reserve : refuses ReservationHandler.reserveError.
Proof. intros [m|[]|pre e post]; refusing. Qed.
Lemma refuses_cancel : refuses ReservationHandler.cancelError.
Proof. intros [m|[]|pre e post]; refusing. Qed.
Lemma refuses_cancel_reservation : refuses CancelReservationHandler.cancelRefused.
Proof. intros [m|[]|pre e post]; refusing. Qed.
Lemma refuses_reveal : refuses RevealReservationHandler.revealRefused.
Proof. intros [m|[]|pre e post]; refusing. Qed.
Lemma refuses_claim : refuses GameActivityHandler.createExpiredClaimErrorResponse.
Proof.
  intros e. unfold GameActivityHandler.createExpiredClaimErrorResponse. cbv zeta.
  repeat case_match; refusing.
Qed.
Lemma refuses_release : refuses GameActivityHandler.releaseExpiredClaimErrorResponse.
Proof.
  intros e. unfold GameActivityHandler.releaseExpiredClaimErrorResponse. cbv zeta.
  repeat case_match; refusing.
Qed.

(** *** Composing an operation with its answer *)

(** What the operations that take locks of kind [k] promise. *)
Definition taking {A} (k : LockKind) (gs : list Z) (a : string)
    (tell : A → list GameReservation.t) (m : M (result A)) (w : World) : Prop :=
  wp m (λ res w', lock_op k w w' ∧
    match res with
    | Ok x => Forall2 (stored_for k a w') gs (tell x)
    | Err _ => locks w' = locks w
    end) w.

Lemma takes_by {A} k (ask : list Z → string → Prop) gs a (tell : A → list GameReservation.t)
    (p : A → Payload) f m w :
  ask gs a → refuses f → (∀ x, shows (p x) (tell x)) → taking k gs a tell m w →
  wp (res ← m; mret match res with
                    | Err err => f err
                    | Ok x => JSON StatusCreated (p x)
                    end) (takes k ask w) w.
Proof.
  intros Hask Hf Hp Hm. unfold taking in Hm. apply wp_bind. eapply wp_mono; [exact Hm|].
  intros [x|e] w' [Hop Hr]; apply wp_ret.
  - right. exists gs, a, (p x), (tell x). done.
  - left. by apply refuses_unchanged; [|apply (op_tables _ _ _ Hop)|].
Qed.

(** ... and those that release one. *)
Definition freeing (k : LockKind) (g : Z) (a : string) (m : M (result unit)) (w : World) : Prop :=
  wp m (λ res w',
    match res with
    | Ok _ => lock_op k w w' ∧ view (time w') (locks w' k) !! g = None ∧
        (∀ g', g' ≠ g → reservations (locks w' k) !! g' = reservations (locks w k) !! g') ∧
        ∃ r, stored_for k a w g r ∧ active_at (time w) r
    | Err _ => tables w' = tables w ∧ locks w' = locks w
    end) w.

Lemma frees_by k c g a f m w :
  asked c [g] a → refuses f → freeing k g a m w →
  wp (res ← m; mret match res with
                    | Err err => f err
                    | Ok _ => SendStatus StatusNoContent
                    end) (frees k c w) w.
Proof.
  intros Hask Hf Hm. unfold freeing in Hm. apply wp_bind. eapply wp_mono; [exact Hm|].
  intros [x|e] w' Hr; apply wp_ret.
  - right. destruct Hr as (? & ? & ? & r & ? & ?). by exists g, a, r.
  - left. destruct Hr. by apply refuses_unchanged.
Qed.

(** *** The operations *)

Definition alone (r : GameReservation.t) : list GameReservation.t := [r].

Lemma stored_alone k g a w r :
  reservations (locks w k) !! g = Some r →
  normalizeReservationWallet (GameReservation.WalletAddress r) = normalizeReservationWallet a →
  Forall2 (stored_for k a w) [g] [r].
Proof. intros. by repeat constructor. Qed.

Lemma taking_join g a w :
  taking JoinLock [g] a alone
    (Reservation.Reserve (CancelGet := CancelReservation.service) g a) w.
Proof.
  unfold taking. eapply wp_mono; [apply (Reservation.wp_Reserve g a w)|]. intros [r|e] w' [Hop H];
    (split; [done|]).
  - destruct H as [_ Hr]. apply stored_alone; [by apply Hr|].
    by rewrite (reserved_fields _ _ _ _ _ Hr).
  - by destruct H.
Qed.

Lemma taking_cancel g a w :
  taking CancelLock [g] a alone
    (CancelReservation.Reserve (JoinGet := Reservation.service) g a) w.
Proof.
  unfold taking. eapply wp_mono; [apply (wp_cancel_Reserve g a w)|]. intros [r|e] w' [Hop H];
    (split; [done|]).
  - destruct H as [_ Hr]. apply stored_alone; [by apply Hr|].
    by rewrite (cancel_reserved_fields _ _ _ _ _ Hr).
  - by destruct H.
Qed.

Lemma taking_batch gs a w : taking RevealLock gs a id (RevealReservation.ReserveBatch gs a) w.
Proof.
  unfold taking. eapply wp_mono; [apply (wp_ReserveBatch gs a w)|]. intros [rs|e] w' [Hop H];
    (split; [done|]).
  - destruct H as (_ & _ & now & [Hrs _ Hst _ _ _ _]). simpl. rewrite Hrs.
    apply Forall2_fmap_r, Forall_Forall2_diag, Forall_forall. intros g Hg.
    split; [by apply Hst|done].
  - by apply later_locks, H.
Qed.

Lemma taking_reveal g a w : taking RevealLock [g] a alone (RevealReservation.Reserve g a) w.
Proof.
  unfold taking. apply wp_rbind. eapply wp_mono; [apply (taking_batch [g] a w)|].
  intros [rs|e] w' [Hop H]; [|done]. simpl in H.
  apply Forall2_cons_inv_l in H as (r & l & Hr & ->%Forall2_nil_inv_l & ->).
  apply wp_ret. split; [done|]. constructor; [exact Hr|constructor].
Qed.

Lemma taking_claim g a w : taking ClaimLock [g] a alone (ExpiredClaim.Claim g a) w.
Proof.
  unfold taking. eapply wp_mono; [apply (wp_Claim g a w)|]. intros [r|e] w' [Hop H];
    (split; [done|]).
  - destruct H as [_ [Hst Hr _ _ _ _|Hl Hst _ Ha]]; apply stored_alone; try done.
    + by rewrite Hr.
    + by rewrite (later_locks _ _ Hl).
  - by apply later_locks, H.
Qed.

Lemma freeing_dropped k g a mt n w w' r :
  dropped k g mt n w w' → reservations (locks w k) !! g = Some r → active_at (time w) r →
  normalizeReservationWallet (GameReservation.WalletAddress r) = normalizeReservationWallet a →
  lock_op k w w' ∧ view (time w') (locks w' k) !! g = None ∧
  (∀ g', g' ≠ g → reservations (locks w' k) !! g' = reservations (locks w k) !! g') ∧
  ∃ r, stored_for k a w g r ∧ active_at (time w) r.
Proof. intros [? ? ? _] ? ? ?. split_and!; [done..|]. by exists r. Qed.

Lemma freeing_join g a w : freeing JoinLock g a (Reservation.Cancel g a) w.
Proof.
  unfold freeing. eapply wp_mono; [apply (wp_Cancel g a w)|]. intros [u|e] w' H.
  - destruct H as (Hd & r & ? & ? & ?). by eapply freeing_dropped.
  - destruct H as [Hl _]. by split; [apply later_tables|apply later_locks].
Qed.

Lemma freeing_cancel g a w : freeing CancelLock g a (CancelReservation.Cancel g a) w.
Proof.
  unfold freeing. eapply wp_mono; [apply (wp_cancel_Cancel g a w)|]. intros [u|e] w' [Hop H].
  - destruct H as (Hd & r & ? & ? & ?). by eapply freeing_dropped.
  - destruct H as [Hl _]. split; [by apply (op_tables _ _ _ Hop)|done].
Qed.

Lemma freeing_reveal g a w : freeing RevealLock g a (RevealReservation.Cancel g a) w.
Proof.
  unfold freeing. eapply wp_mono; [apply (wp_reveal_Cancel g a w)|]. intros [u|e] w' H.
  - destruct H as (Hd & r & ? & ? & ?). by eapply freeing_dropped.
  - destruct H as [Hl _]. by split; [apply later_tables|apply later_locks].
Qed.

Lemma freeing_claim g a w : freeing ClaimLock g a (ExpiredClaim.Release g a) w.
Proof.
  unfold freeing. eapply wp_mono; [apply (wp_Release g a w)|]. intros [u|e] w' [_ H].
  - destruct H as (Hd & r & ? & ? & ?). by eapply freeing_dropped.
  - by split; [apply later_tables|apply later_locks].
Qed.

Lemma takes_refused k ask o w : refused_unchanged o w w → takes k ask w o w.
Proof. by left. Qed.
Lemma frees_refused k c o w : refused_unchanged o w w → frees k c w o w.
Proof. by left. Qed.

Lemma asked_one c g a : ParseInt (Params c "gameId") = Some g → body_wallet c = Ok a → asked c [g] a.
Proof. intros. split; eauto. Qed.

Hint Resolve takes_refused frees_refused asked_one refuses_reserve refuses_cancel
  refuses_cancel_reservation refuses_reveal refuses_claim refuses_release shows_one
  shows_claim shows_all : rest.

(** A handler for one game: parse, check the wallet, run the operation. *)
Ltac rest_handler body_rule operation :=
  apply wp_withGameID; [by auto with rest|]; intros g Hg;
  apply body_rule; [by auto with rest|]; intros a Ha _;
  first [ eapply (takes_by _ _ [g] a alone) | eapply (frees_by _ _ g a) ];
  [by auto with rest|auto with rest..|apply operation].

(** C18: the answer to a POST or a DELETE tells what happened. 201 shows locks of the kind of
    the route that are now stored for the games and the wallet of the request; 204 frees the
    lock, which that wallet held, and moves no other; every other answer is 400, 403, 404,
    409 or 500 with an error body, and then tables and locks are what they were. *)
Theorem mutations_reported c w :
  wp (ReservationHandler.ReserveGame c) (takes JoinLock (asked c) w) w ∧
  wp (CancelReservationHandler.ReserveCancel c) (takes CancelLock (asked c) w) w ∧
  wp (RevealReservationHandler.ReserveReveal c) (takes RevealLock (asked c) w) w ∧
  wp (RevealReservationHandler.ReserveRevealBatch c) (takes RevealLock (asked_batch c) w) w ∧
  wp (GameActivityHandler.CreateExpiredClaim c) (takes ClaimLock (asked c) w) w ∧
  wp (ReservationHandler.CancelReservation c) (frees JoinLock c w) w ∧
  wp (CancelReservationHandler.CancelCancelReservation c) (frees CancelLock c w) w ∧
  wp (RevealReservationHandler.CancelRevealReservation c) (frees RevealLock c w) w ∧
  wp (GameActivityHandler.DeleteExpiredClaim c) (frees ClaimLock c w) w.
Proof.
  split_and!.
  - rest_handler wp_withReserveRequest taking_join.
  - rest_handler wp_withWallet taking_cancel.
  - rest_handler wp_withWallet taking_reveal.
  - unfold RevealReservationHandler.ReserveRevealBatch.
    destruct (body_batch c) as [[a gs]|e] eqn:Hb;
      [|apply wp_ret, takes_refused, refused_bad_request].
    destruct (_ || _); [apply wp_ret, takes_refused, refused_bad_request|].
    eapply (takes_by _ _ gs a id); [done|auto with rest..|apply taking_batch].
  - rest_handler wp_withWallet taking_claim.
  - rest_handler wp_withReserveRequest freeing_join.
  - rest_handler wp_withWallet freeing_cancel.
  - rest_handler wp_withWallet freeing_reveal.
  - rest_handler wp_withWallet freeing_claim.
Qed.
End Writes.

(** *** Games that the service does not know *)

Definition status_of (o : Outcome) : option Z :=
  match o with Answer r => Some (StatusCode r) | Panic => None end.

Section Missing.
Context `{E : Env} `{TF : TimeFormat}.
#[local] Existing Instance Postgres.repository.

(** A missing row is an error of the repository, whatever the database does. *)
Lemma missing_GetByID g w :
  games (tables w) !! g = None →
  ∃ e, (GetByID g w).1 = Err (EWrap "execute query: " e EmptyString) ∧
    (e = ESentinel ErrNoRows ∨ ∃ message, e = ENew message).
Proof.
  intros Hg. unfold GetByID, Postgres.repository, Postgres.GetByID, rbind, rbind_wrap, mbind,
    M_bind, ST_bind, statement, mret, M_ret, ST_ret. rewrite Hg.
  destruct (dbfault (stmts w)); simpl; eauto.
Qed.

Lemma rbind_Err {A B} (m : M (result A)) (k : A → M (result B)) e w :
  (m w).1 = Err e → (rbind m k w).1 = Err e.
Proof.
  unfold rbind, mbind, M_bind, ST_bind. destruct (m w) as [r w']. simpl. by intros ->.
Qed.

Lemma answer_of {A} (m : M (result A)) (f : result A → Outcome) r w :
  (m w).1 = r → ((res ← m; mret (f res)) w).1 = f r.
Proof.
  unfold mbind, M_bind, ST_bind, mret, M_ret, ST_ret. destruct (m w). simpl. by intros ->.
Qed.

(** A game that the service does not know is answered as an internal error (500) by the
    four requests that take a lock, not as a game that is not found, although the handlers
    have a 404 for it: the repository reports the missing row as an error, and the branch
    for a nil game is never taken. *)
Theorem missing_game_500 c g a w :
  ParseInt (Params c "gameId") = Some g → body_wallet c = Ok a →
  normalizeReservationWallet a ≠ EmptyString → games (tables w) !! g = None →
  status_of (ReservationHandler.ReserveGame c w).1 = Some StatusInternalServerError ∧
  status_of (CancelReservationHandler.ReserveCancel c w).1 = Some StatusInternalServerError ∧
  status_of (RevealReservationHandler.ReserveReveal c w).1 = Some StatusInternalServerError ∧
  status_of (GameActivityHandler.CreateExpiredClaim c w).1 = Some StatusInternalServerError.
Proof.
  intros Hg Ha Hn Hm.
  assert (a ≠ EmptyString) as Hne by (intros ->; by apply Hn).
  assert (bool_decide (a = EmptyString) = false) as Hd by by apply bool_decide_false.
  unfold ReservationHandler.ReserveGame, CancelReservationHandler.ReserveCancel,
    RevealReservationHandler.ReserveReveal, GameActivityHandler.CreateExpiredClaim, withGameID,
    withWallet, ReservationHandler.withReserveRequest. rewrite Hg, Ha, Hd.
  destruct (missing_GetByID g w Hm) as (e & He & Hkind).
  assert (∀ {A} (m : M (result A)) (f : result A → Outcome) e', (m w).1 = Err e' →
    status_of (f (Err e')) = Some StatusInternalServerError →
    status_of ((res ← m; mret (f res)) w).1 = Some StatusInternalServerError) as Hans
    by (intros A m f e' Hr; by erewrite answer_of by exact Hr).
  split_and!; (apply (Hans _ _ _ (EWrap "execute query: " e EmptyString)); [|by destruct Hkind as [->|[m ->]]]).
  - do 2 apply rbind_Err. exact He.
  - do 2 apply rbind_Err. exact He.
  - apply rbind_Err. unfold RevealReservation.ReserveBatch. rewrite bool_decide_false by done.
    do 2 apply rbind_Err. exact He.
  - unfold ExpiredClaim.Claim. rewrite bool_decide_false by done.
    do 2 apply rbind_Err. exact He.
Qed.
End Missing.

(** *** The listing of games *)

Section Listing.
Context `{E : Env} `{!ClockMono E} {R : GameRepository} {G : GameListing}
  {variants : string → list string} `{!GameListingLaws E G variants} `{TF : TimeFormat}.

(** The lock shown with a game is one that was active when the reading began, and a game is
    shown without one only if none was active any more when it ended. *)
Definition shows_lock (w w' : World) (i : GameWithReservation.t) : Prop :=
  let g := Game.GameID (GameWithReservation.Game i) in
  match GameWithReservation.Reservation i with
  | Some shown => ∃ r, held JoinLock g r w ∧ shown = toReservationResponse r
  | None => ∀ r, ¬ held JoinLock g r w'
  end.

Lemma shows_lock_mono w0 w w' w1 i :
  later w0 w → later w' w1 → shows_lock w w' i → shows_lock w0 w1 i.
Proof.
  intros H0 H1. unfold shows_lock. destruct (GameWithReservation.Reservation i).
  - intros (r & Hr & ->). exists r. split; [|done].
    by apply (held_back _ _ _ _ w), Hr; apply later_drops.
  - intros Hn r Hr. apply (Hn r). by apply (held_back _ _ _ _ w1), Hr; apply later_drops.
Qed.

Lemma wp_GetReservation g w :
  wp (Reservation.GetReservation g) (λ res w1, later w w1 ∧ ∃ found, res = Ok found ∧
    match found with
    | Some r => held JoinLock g r w
    | None => ∀ r, ¬ held JoinLock g r w1
    end) w.
Proof.
  eapply wp_mono; [apply (wp_getActive JoinLock g w)|]. intros res w1 [Hl ->]. split; [done|].
  eexists. split; [done|]. destruct (if bool_decide _ then _ else _) as [r|] eqn:Hf.
  - apply lookup_live in Hf. done.
  - apply lookup_not_live in Hf. intros r Hr. apply held_view in Hr. apply Hr.
    apply view_free_later with w; [done|]. by apply view_lookup_None.
Qed.

Lemma wp_withReservations games w :
  wp (GameHandler.withReservations true games) (λ l w', later w w' ∧
    GameWithReservation.Game <$> l = games ∧ Forall (shows_lock w w') l) w.
Proof.
  revert w. induction games as [|g games IH]; intros w; simpl.
  { apply wp_ret. split_and!; [done..|constructor]. }
  apply wp_bind, wp_bind. eapply wp_mono; [apply (wp_GetReservation (Game.GameID g) w)|].
  intros res w1 (Hl & found & -> & Hf). apply wp_ret, wp_bind.
  eapply wp_mono; [apply IH|]. intros l w2 (Hl2 & Hg & Hs). apply wp_ret.
  split_and!; [by etrans|by rewrite fmap_cons, Hg|]. constructor.
  - destruct found as [r|]; unfold shows_lock; simpl; [by exists r|].
    intros r Hr. apply (Hf r). by apply (held_back _ _ _ _ w2), Hr; apply later_drops.
  - eapply Forall_impl; [exact Hs|]. intros i. by apply shows_lock_mono.
Qed.

(** C29: GET /games answers with the page that the listing has at the offset, in its order,
    each game with the join lock that is held on it; [Total] counts the page and not the
    listing. *)
Theorem listing_shows_locks c w :
  keyed (tables w) → QueryInt c "offset" 0 + QueryInt c "limit" 20 ≤ MaxInt64 →
  wp (GameHandler.ListGames true c) (λ o w', later w w' ∧
    ((∃ message, o = bad_request message) ∨
     ∃ l page, let status := QueryInt c "status" GameStatusWaitingForOpponent in
       listing (shown status) (tables w) l ∧
       o = JSON StatusOK (GameListPayload page) ∧
       GameWithReservation.Game <$> GameListResponse.Games page =
         take (Z.to_nat (QueryInt c "limit" 20)) (drop (Z.to_nat (QueryInt c "offset" 0)) l) ∧
       Forall (shows_lock w w') (GameListResponse.Games page) ∧
       GameListResponse.Total page = Z.of_nat (List.length (GameListResponse.Games page)))) w.
Proof.
  intros Hk Hm. unfold GameHandler.ListGames. cbv zeta. apply wp_bind. unfold wp at 1.
  pose proof (later_ListGames (QueryInt c "status" GameStatusWaitingForOpponent)
                (QueryInt c "limit" 20) (QueryInt c "offset" 0) w) as Hl.
  pose proof (ListGames_ok (QueryInt c "status" GameStatusWaitingForOpponent)
                (QueryInt c "limit" 20) (QueryInt c "offset" 0) w) as Hs.
  destruct (GameQuery.ListGames _ _ _ w) as [[r|e] w1]; simpl in *.
  2: { apply wp_ret. split; [done|]. left. by eexists. }
  destruct (Hs r Hk eq_refl) as (Hn & Ho & l & Hlist & ->). rewrite page_fits by done. simpl.
  apply wp_bind. eapply wp_mono; [apply wp_withReservations|]. intros rs w2 (Hl2 & Hg & Hf).
  apply wp_ret. split; [by etrans|]. right. eexists l, _. split; [done|]. split; [done|]. simpl.
  split; [done|]. split.
  - eapply Forall_impl; [exact Hf|]. intros i. by apply shows_lock_mono.
  - by rewrite <-Hg, length_fmap.
Qed.
End Listing.

(** ** The limit that an activity answer reports *)

(** With the limits that the handler assumes, it is the limit the page was cut with. *)
Lemma responseLimit_applied uc limit :
  DefaultLimit uc = 20 → MaxLimit uc = 100 →
  GameActivityHandler.responseLimit limit = GameActivity.normalizeLimit uc limit.
Proof.
  intros Hd Hm. unfold GameActivityHandler.responseLimit, GameActivity.normalizeLimit,
    GameActivityHandler.defaultActivityResponseLimit,
    GameActivityHandler.maxActivityResponseLimit. rewrite Hd, Hm.
  destruct (Z.leb_spec limit 0), (Z.ltb_spec 100 limit); simpl; try done; lia.
Qed.

(** With ACTIVITY_MAX_LIMIT=10, a request for 50 games is cut to 10 and reported as 50. *)
Example limit_misreported :
  let uc := GameActivity.NewGameActivityUseCase true true true 20 10 in
  (GameActivityHandler.responseLimit 50, GameActivity.normalizeLimit uc 50) = (50, 10).
Proof. reflexivity. Qed.

(** ** Concrete requests *)

Module RestRun.
Import TwoAddresses ActivityRun.
#[local] Existing Instance Postgres.repository.
#[local] Instance seconds : TimeFormat := FormatInt.

Definition request (gameId queueKey wallet : string) (gs : list Z) : Request := {|
  Params name := if bool_decide (name = "gameId") then gameId
                 else if bool_decide (name = "queueKey") then queueKey
                 else if bool_decide (name = "address") then wallet else EmptyString;
  Query name := if bool_decide (name = "wallet") then wallet else EmptyString;
  QueryInt _ default := default;
  body_wallet := Ok wallet;
  body_batch := Ok (wallet, gs) |}.

Definition deps : RouterDeps := mkRouterDeps (Some uc) true true true.

(** Bob reads what he can join. *)
Lemma GET_safe_witness :
  let c := request EmptyString ActivityQueueJoinable bob_raw [] in
  status_of (GameActivityHandler.ListQueue uc c w).1 = Some StatusOK ∧
  reads (GameActivityHandler.ListQueue uc c) w.
Proof.
  intros c. split; [vm_compute; reflexivity|].
  apply (GET_safe deps "/games/activity/:queueKey" (GameActivityHandler.ListQueue uc) c w w_keyed).
  unfold apiV1Group. simpl. do 3 right. left.
Defined.

(** Bob reserves the first game, and tries again. *)
Definition bob_reserves : Request := request "1" EmptyString bob [].
Definition reserved1 : World := (ReservationHandler.ReserveGame bob_reserves w0).2.

Lemma mutations_reported_witness :
  status_of (ReservationHandler.ReserveGame bob_reserves w0).1 = Some StatusCreated ∧
  status_of (ReservationHandler.ReserveGame bob_reserves reserved1).1 = Some StatusConflict ∧
  takes JoinLock (asked bob_reserves) w0 (ReservationHandler.ReserveGame bob_reserves w0).1
    reserved1 ∧
  takes JoinLock (asked bob_reserves) reserved1
    (ReservationHandler.ReserveGame bob_reserves reserved1).1
    (ReservationHandler.ReserveGame bob_reserves reserved1).2.
Proof.
  split; [vm_compute; reflexivity|]. split; [vm_compute; reflexivity|].
  split; [exact (proj1 (mutations_reported bob_reserves w0))
         |exact (proj1 (mutations_reported bob_reserves reserved1))].
Defined.

Lemma missing_game_500_witness :
  status_of (ReservationHandler.ReserveGame (request "99" EmptyString bob []) w0).1 =
    Some StatusInternalServerError.
Proof.
  refine (proj1 (missing_game_500 (request "99" EmptyString bob []) 99 bob w0 _ _ _ _));
    [vm_compute; reflexivity|reflexivity|by vm_compute|vm_compute; reflexivity].
Defined.

(** The games of a listing, and whether they are shown as reserved. *)
Definition entries (o : Outcome) : list (Z * bool) :=
  match o with
  | Answer {| payload := Some (GameListPayload page) |} =>
      (λ i, (Game.GameID (GameWithReservation.Game i),
             bool_decide (is_Some (GameWithReservation.Reservation i))))
        <$> GameListResponse.Games page
  | _ => []
  end.

(** Two games wait; bob's lock shows with the first. *)
Lemma listing_shows_locks_witness :
  entries (GameHandler.ListGames true bob_reserves w).1 = [(2, false); (1, true)] ∧
  ∃ page, (GameHandler.ListGames true bob_reserves w).1 = JSON StatusOK (GameListPayload page) ∧
    Forall (shows_lock w (GameHandler.ListGames true bob_reserves w).2)
      (GameListResponse.Games page).
Proof.
  split; [vm_compute; reflexivity|].
  assert (QueryInt bob_reserves "offset" 0 + QueryInt bob_reserves "limit" 20 ≤ MaxInt64) as Hm
    by (vm_compute; done).
  pose proof (listing_shows_locks bob_reserves w w_keyed Hm) as [_ H].
  destruct H as [[m Ho]|(l & page & _ & Ho & _ & Hf & _)].
  - exfalso. apply (f_equal status_of) in Ho. vm_compute in Ho. discriminate Ho.
  - exists page. split; [exact Ho|exact Hf].
Defined.
End RestRun.
