(* ===== verification/Health.v ===== *)
(** * The health check (internal/controller/rest/health_handler.go)

    The report is a function of what the check reads: the ping of the database, the state of
    the circuit breaker, the event source and the saved checkpoint. *)
From S2P Require Import Prelude GoTypes Entity Rest.

Definition healthStatusHealthy : string := "healthy".
Definition healthStatusDegraded : string := "degraded".
Definition healthStatusUnhealthy : string := "unhealthy".
Definition connectionConnected : string := "connected".
Definition connectionDisconnected : string := "disconnected".
Definition connectionNotConfigured : string := "not_configured".
Definition eventSourceWebSocket : string := "websocket".
Definition eventSourceHTTP : string := "http".
Definition tonCenterRecovering : string := "recovering".
Definition tonCenterCircuitOpen : string := "circuit_breaker_open".
Definition parserRecoveryLive : string := "live".
Definition parserRecoveryFallback : string := "fallback_active".
Definition parserRecoveryRecovering : string := "recovering".
Definition parserRecoveryStalled : string := "stalled".
Definition parserRecoveryNotConfigured : string := "not_configured".

(** The states of github.com/sony/gobreaker. *)
Inductive BreakerState := StateClosed | StateHalfOpen | StateOpen.
#[export] Instance BreakerState_eq_dec : EqDecision BreakerState.
Proof. solve_decision. Defined.

(** What the three methods of EventSourceProvider return. *)
Record EventSourceProvider := mkProvider {
  GetSourceType : string; IsConnected : bool; GetLastProcessedLt : string }.

(** The dependencies, with what they answer; [None] is a nil one. *)
Record HealthHandler := mkHealthHandler {
  db : option (option error);                       (* Ping *)
  tonCenterClient : option BreakerState;            (* GetCircuitBreakerState *)
  eventSourceProvider : option EventSourceProvider;
  syncStateProvider : option (result (option BlockchainSyncState.t)) }.

Module ParserHealthResponse.
Record t := mk {
  Status : string; RecoveryStatus : string; LastProcessedLt : string;
  CheckpointUpdatedAt : option Z; FallbackCount : Z; LastFallbackAt : option Z;
  CurrentSourceType : string }.
End ParserHealthResponse.

Module HealthResponse.
Record t := mk {
  Status : string; Timestamp : Z; Database : string; TonCenterAPI : string;
  EventSourceType : string; EventSourceStatus : string; Parser : ParserHealthResponse.t }.
End HealthResponse.

Module Health.
Import HealthResponse.
Module P := ParserHealthResponse.

(** Assignments to fields of the response. *)
Definition set_Status (s : string) (r : t) : t :=
  mk s (Timestamp r) (Database r) (TonCenterAPI r) (EventSourceType r) (EventSourceStatus r)
    (Parser r).
Definition set_Database (s : string) (r : t) : t :=
  mk (Status r) (Timestamp r) s (TonCenterAPI r) (EventSourceType r) (EventSourceStatus r)
    (Parser r).
Definition set_TonCenterAPI (s : string) (r : t) : t :=
  mk (Status r) (Timestamp r) (Database r) s (EventSourceType r) (EventSourceStatus r)
    (Parser r).
Definition set_EventSourceType (s : string) (r : t) : t :=
  mk (Status r) (Timestamp r) (Database r) (TonCenterAPI r) s (EventSourceStatus r) (Parser r).
Definition set_EventSourceStatus (s : string) (r : t) : t :=
  mk (Status r) (Timestamp r) (Database r) (TonCenterAPI r) (EventSourceType r) s (Parser r).
Definition set_Parser (f : P.t → P.t) (r : t) : t :=
  mk (Status r) (Timestamp r) (Database r) (TonCenterAPI r) (EventSourceType r)
    (EventSourceStatus r) (f (Parser r)).
Definition set_parser_status (status recovery : string) (p : P.t) : P.t :=
  P.mk status recovery (P.LastProcessedLt p) (P.CheckpointUpdatedAt p) (P.FallbackCount p)
    (P.LastFallbackAt p) (P.CurrentSourceType p).
Definition set_parser_lt (lt : string) (p : P.t) : P.t :=
  P.mk (P.Status p) (P.RecoveryStatus p) lt (P.CheckpointUpdatedAt p) (P.FallbackCount p)
    (P.LastFallbackAt p) (P.CurrentSourceType p).
Definition set_parser_checkpoint (updatedAt count : Z) (at_ : option Z) (p : P.t) : P.t :=
  P.mk (P.Status p) (P.RecoveryStatus p) (P.LastProcessedLt p) (Some updatedAt) count at_
    (P.CurrentSourceType p).
Definition set_parser_source (s : string) (p : P.t) : P.t :=
  P.mk (P.Status p) (P.RecoveryStatus p) (P.LastProcessedLt p) (P.CheckpointUpdatedAt p)
    (P.FallbackCount p) (P.LastFallbackAt p) s.

Definition mergeHealthStatus (current next : string) : string :=
  if bool_decide (current = healthStatusUnhealthy) || bool_decide (next = healthStatusUnhealthy)
  then healthStatusUnhealthy
  else if bool_decide (current = healthStatusDegraded) || bool_decide (next = healthStatusDegraded)
  then healthStatusDegraded
  else healthStatusHealthy.

Definition normalizeLt (lt : string) : string :=
  let trimmed := TrimSpace lt in
  if bool_decide (trimmed = EmptyString) then EmptyString else trimmed.

Definition populateEventSourceHealth (h : HealthHandler) (response : t) : t :=
  match eventSourceProvider h with
  | None =>
      set_EventSourceStatus connectionNotConfigured
        (set_EventSourceType connectionNotConfigured response)
  | Some provider =>
      let response := set_EventSourceType (GetSourceType provider) response in
      if IsConnected provider then set_EventSourceStatus connectionConnected response
      else
        let response := set_EventSourceStatus connectionDisconnected response in
        if bool_decide (EventSourceType response = eventSourceHTTP) &&
           bool_decide (Status response = healthStatusHealthy)
        then set_Status healthStatusDegraded response else response
  end.

Definition loadSyncState (h : HealthHandler) (response : t) :
    option BlockchainSyncState.t * t :=
  match syncStateProvider h with
  | None => (None, response)
  | Some (Err _) =>
      let response :=
        set_Parser (set_parser_status healthStatusDegraded parserRecoveryRecovering) response in
      (None, set_Status (mergeHealthStatus (Status response) (P.Status (Parser response))) response)
  | Some (Ok state) => (state, response)
  end.

(** [response.Parser.LastProcessedLt], when the text has more than spaces. *)
Definition put_lt (lt : string) (response : t) : t :=
  if bool_decide (normalizeLt lt = EmptyString) then response
  else set_Parser (set_parser_lt (normalizeLt lt)) response.

Definition applySyncState (syncState : option BlockchainSyncState.t) (response : t) : t :=
  match syncState with
  | None => response
  | Some state =>
      let response := set_Parser (set_parser_checkpoint (BlockchainSyncState.UpdatedAt state)
        (BlockchainSyncState.FallbackCount state) (BlockchainSyncState.LastFallbackAt state))
        response in
      let response := put_lt (BlockchainSyncState.LastProcessedLt state) response in
      if negb (bool_decide (EventSourceType response = connectionNotConfigured)) ||
         bool_decide (TrimSpace (BlockchainSyncState.EventSourceType state) = EmptyString)
      then response
      else
        let response := set_EventSourceType (BlockchainSyncState.EventSourceType state) response in
        if bool_decide (BlockchainSyncState.EventSourceType state = eventSourceWebSocket) then
          set_EventSourceStatus
            (if BlockchainSyncState.WebSocketConnected state then connectionConnected
             else connectionDisconnected) response
        else response
  end.

Definition applyLiveCheckpoint (h : HealthHandler) (response : t) : t :=
  match eventSourceProvider h with
  | None => response
  | Some provider => put_lt (GetLastProcessedLt provider) response
  end.

Definition isEventSourceStalled (response : t) : bool :=
  if negb (bool_decide (EventSourceStatus response = connectionDisconnected)) then false
  else bool_decide (EventSourceType response = eventSourceWebSocket) ||
       bool_decide (EventSourceType response = eventSourceHTTP).

Definition isTonCenterRecovering (response : t) : bool :=
  bool_decide (TonCenterAPI response = tonCenterCircuitOpen) ||
  bool_decide (TonCenterAPI response = tonCenterRecovering).

Definition isFallbackActive (response : t) (syncState : option BlockchainSyncState.t) : bool :=
  bool_decide (EventSourceType response = eventSourceHTTP) &&
  match syncState with Some s => 0 <? BlockchainSyncState.FallbackCount s | None => false end.

Definition deriveParserHealth (response : t) (syncState : option BlockchainSyncState.t) :
    string * string :=
  if isEventSourceStalled response then (healthStatusUnhealthy, parserRecoveryStalled)
  else if isTonCenterRecovering response then (healthStatusDegraded, parserRecoveryRecovering)
  else if isFallbackActive response syncState then
    (healthStatusDegraded, parserRecoveryFallback)
  else if bool_decide (EventSourceType response = connectionNotConfigured) ||
          bool_decide (EventSourceStatus response = connectionNotConfigured) then
    (healthStatusDegraded, parserRecoveryNotConfigured)
  else (healthStatusHealthy, parserRecoveryLive).

(** [time.Now()] is an argument. *)
Definition initial (now : Z) : t :=
  mk healthStatusHealthy now EmptyString EmptyString EmptyString EmptyString
    (P.mk healthStatusHealthy parserRecoveryLive EmptyString None 0 None EmptyString).

Definition checkTonCenter (h : HealthHandler) (response : t) : t :=
  match tonCenterClient h with
  | None => set_TonCenterAPI connectionNotConfigured response
  | Some StateClosed => set_TonCenterAPI connectionConnected response
  | Some StateOpen =>
      set_Status healthStatusDegraded (set_TonCenterAPI tonCenterCircuitOpen response)
  | Some StateHalfOpen => set_TonCenterAPI tonCenterRecovering response
  end.

(** What follows the ping. *)
Definition report (h : HealthHandler) (response : t) : t :=
  let response := checkTonCenter h response in
  let response := populateEventSourceHealth h response in
  let '(syncState, response) := loadSyncState h response in
  let response := applySyncState syncState response in
  let response := applyLiveCheckpoint h response in
  let response := set_Parser (set_parser_source (EventSourceType response)) response in
  let '(status, recovery) := deriveParserHealth response syncState in
  let response := set_Parser (set_parser_status status recovery) response in
  set_Status (mergeHealthStatus (Status response) (P.Status (Parser response))) response.

Definition StatusServiceUnavailable : Z := 503.

(** The status of the answer, and its body. *)
Definition GetHealth (h : HealthHandler) (now : Z) : Z * t :=
  let response := initial now in
  match db h with
  | Some (Some _) =>
      (StatusServiceUnavailable,
       set_Database connectionDisconnected (set_Status healthStatusUnhealthy response))
  | Some None => (StatusOK, report h (set_Database connectionConnected response))
  | None => (StatusOK, report h (set_Database connectionNotConfigured response))
  end.
End Health.

(** ** What the report says *)

Section Report.
Import HealthResponse Health.
Context (h : HealthHandler) (now : Z).

Definition pings : Prop := ∀ e, db h ≠ Some (Some e).

(** The sources of the service are of these two types. *)
Definition known_source : Prop :=
  ∀ p, eventSourceProvider h = Some p →
    GetSourceType p = eventSourceWebSocket ∨ GetSourceType p = eventSourceHTTP.

(** The saved state, when it can be read. *)
Definition saved : option BlockchainSyncState.t :=
  match syncStateProvider h with Some (Ok s) => s | _ => None end.

(** The source that the report goes by: the live one, or else the saved one, of which only a
    WebSocket has a recorded connection. *)
Definition source : option (string * bool) :=
  match eventSourceProvider h with
  | Some p => Some (GetSourceType p, IsConnected p)
  | None =>
      match saved with
      | Some s =>
          if bool_decide (BlockchainSyncState.EventSourceType s = eventSourceWebSocket)
          then Some (eventSourceWebSocket, BlockchainSyncState.WebSocketConnected s) else None
      | None => None
      end
  end.

Definition breaker_closed : Prop :=
  tonCenterClient h = None ∨ tonCenterClient h = Some StateClosed.

(** Polling after the WebSocket was given up. *)
Definition fallen_back : Prop :=
  ∃ b s, source = Some (eventSourceHTTP, b) ∧ saved = Some s ∧ 0 < BlockchainSyncState.FallbackCount s.

Definition unreadable : Prop := ∃ e, syncStateProvider h = Some (Err e).

(** What the verdict is derived from. *)
Definition tonCenter_of : string :=
  match tonCenterClient h with
  | None => connectionNotConfigured | Some StateClosed => connectionConnected
  | Some StateOpen => tonCenterCircuitOpen | Some StateHalfOpen => tonCenterRecovering
  end.
Definition connection_of (b : bool) : string :=
  if b then connectionConnected else connectionDisconnected.
Definition source_type : string :=
  match eventSourceProvider h, saved with
  | Some p, _ => GetSourceType p
  | None, Some s =>
      if bool_decide (TrimSpace (BlockchainSyncState.EventSourceType s) = EmptyString)
      then connectionNotConfigured else BlockchainSyncState.EventSourceType s
  | None, None => connectionNotConfigured
  end.
Definition source_status : string :=
  match source with Some (_, b) => connection_of b | None => connectionNotConfigured end.

Lemma put_lt_fields lt r :
  Status (put_lt lt r) = Status r ∧ TonCenterAPI (put_lt lt r) = TonCenterAPI r ∧
  EventSourceType (put_lt lt r) = EventSourceType r ∧
  EventSourceStatus (put_lt lt r) = EventSourceStatus r.
Proof. unfold put_lt. by case_bool_decide. Qed.

Lemma live_fields r :
  Status (applyLiveCheckpoint h r) = Status r ∧
  TonCenterAPI (applyLiveCheckpoint h r) = TonCenterAPI r ∧
  EventSourceType (applyLiveCheckpoint h r) = EventSourceType r ∧
  EventSourceStatus (applyLiveCheckpoint h r) = EventSourceStatus r.
Proof. unfold applyLiveCheckpoint. destruct (eventSourceProvider h); [apply put_lt_fields|done]. Qed.

Lemma sync_fields r :
  known_source →
  EventSourceType r = match eventSourceProvider h with
                      | Some p => GetSourceType p | None => connectionNotConfigured end →
  EventSourceStatus r = match eventSourceProvider h with
                        | Some p => connection_of (IsConnected p)
                        | None => connectionNotConfigured end →
  Status (applySyncState saved r) = Status r ∧
  TonCenterAPI (applySyncState saved r) = TonCenterAPI r ∧
  EventSourceType (applySyncState saved r) = source_type ∧
  EventSourceStatus (applySyncState saved r) = source_status.
Proof.
  unfold known_source, applySyncState, source_type, source_status, source. intros Hk Ht Hs.
  destruct saved as [s|]; [|by destruct (eventSourceProvider h)].
  set (r1 := set_Parser _ r).
  destruct (put_lt_fields (BlockchainSyncState.LastProcessedLt s) r1) as (E1 & E2 & E3 & E4).
  set (r2 := put_lt _ r1) in *. simpl in E1, E2, E3, E4. rewrite E3, Ht, <-E1, <-E2.
  destruct (eventSourceProvider h) as [p|].
  - rewrite bool_decide_false by (destruct (Hk p eq_refl) as [->| ->]; done). simpl.
    by rewrite E3, E4, Ht, Hs.
  - rewrite bool_decide_true by done. simpl.
    case_bool_decide as He; [|case_bool_decide as Hw].
    + rewrite E3, E4, Ht, Hs. split_and!; [done..|]. case_bool_decide as Hw; [|done].
      rewrite Hw in He. vm_compute in He. discriminate He.
    + simpl. by rewrite Hw.
    + simpl. by rewrite E4, Hs.
Qed.

(** The verdict before the parser is looked at. *)
Definition before : string :=
  if bool_decide (tonCenterClient h = Some StateOpen) ||
     match eventSourceProvider h with
     | Some p => bool_decide (GetSourceType p = eventSourceHTTP) && negb (IsConnected p)
     | None => false
     end || match syncStateProvider h with Some (Err _) => true | _ => false end
  then healthStatusDegraded else healthStatusHealthy.

Lemma report_verdict r0 :
  known_source → Status r0 = healthStatusHealthy →
  ∃ r, TonCenterAPI r = tonCenter_of ∧ EventSourceType r = source_type ∧
    EventSourceStatus r = source_status ∧
    Status (report h r0) = mergeHealthStatus before (deriveParserHealth r saved).1.
Proof.
  intros Hk H0. unfold report.
  set (r1 := checkTonCenter h r0).
  set (r2 := populateEventSourceHealth h r1).
  assert (TonCenterAPI r2 = tonCenter_of ∧
    EventSourceType r2 = match eventSourceProvider h with
                         | Some p => GetSourceType p | None => connectionNotConfigured end ∧
    EventSourceStatus r2 = match eventSourceProvider h with
                           | Some p => connection_of (IsConnected p)
                           | None => connectionNotConfigured end ∧
    Status r2 = if bool_decide (tonCenterClient h = Some StateOpen) ||
                   match eventSourceProvider h with
                   | Some p => bool_decide (GetSourceType p = eventSourceHTTP) && negb (IsConnected p)
                   | None => false
                   end then healthStatusDegraded else healthStatusHealthy) as (Ha & Ht & Hs & Hst).
  { unfold r2, r1, populateEventSourceHealth, checkTonCenter, tonCenter_of.
    destruct (tonCenterClient h) as [[]|], (eventSourceProvider h) as [[ty [] lt]|]; simpl;
      rewrite ?H0; repeat case_bool_decide; simpl; done. }
  destruct (loadSyncState h r2) as [st r3] eqn:Hload.
  assert (st = saved ∧ TonCenterAPI r3 = TonCenterAPI r2 ∧
    EventSourceType r3 = EventSourceType r2 ∧ EventSourceStatus r3 = EventSourceStatus r2 ∧
    Status r3 = before) as (-> & Ea & Et & Es & Eb).
  { unfold loadSyncState in Hload. unfold saved, before.
    destruct (syncStateProvider h) as [[s|e]|]; injection Hload as <- <-; simpl;
      (split_and!; [done..|]); rewrite Hst, ?orb_true_r, ?orb_false_r; try done;
      by destruct (_ || _). }
  destruct (sync_fields r3 Hk) as (F1 & F2 & F3 & F4); [congruence..|].
  destruct (live_fields (applySyncState saved r3)) as (G1 & G2 & G3 & G4).
  set (r4 := applyLiveCheckpoint h _) in *.
  exists (set_Parser (set_parser_source (EventSourceType r4)) r4). simpl.
  destruct (deriveParserHealth _ saved) as [status recovery]. simpl.
  split_and!; congruence.
Qed.
(** A verdict [v] that is "unhealthy" when [P] and "healthy" when [Q]. *)
Definition verdict_ok (v : string) (P Q : Prop) : Prop :=
  (v = healthStatusUnhealthy ↔ P) ∧ (v = healthStatusHealthy ↔ Q) ∧
  (v = healthStatusHealthy ∨ v = healthStatusDegraded ∨ v = healthStatusUnhealthy).

Lemma verdict_unhealthy P Q : P → ¬ Q → verdict_ok healthStatusUnhealthy P Q.
Proof. intros HP HQ. split_and!; [done|by split|auto]. Qed.
Lemma verdict_healthy P Q : ¬ P → Q → verdict_ok healthStatusHealthy P Q.
Proof. intros HP HQ. split_and!; [by split|done|auto]. Qed.
Lemma verdict_degraded P Q : ¬ P → ¬ Q → verdict_ok healthStatusDegraded P Q.
Proof. intros HP HQ. split_and!; [by split|by split|auto]. Qed.

(** Compute the verdict, and show that its conditions hold or fail. *)
Ltac verdict :=
  match goal with
  | |- verdict_ok ?v _ _ =>
      let v' := eval vm_compute in v in
      first [ change v with healthStatusUnhealthy; apply verdict_unhealthy
            | change v with healthStatusHealthy; apply verdict_healthy
            | change v with healthStatusDegraded; apply verdict_degraded ]
  end;
  [ first [ by eexists | by intros [? [=]] ]
  | first [ split_and!;
              [by eexists|by auto|by intros [? [=]]
              |intros (? & ? & ? & ? & ?); simplify_eq; by intuition lia]
          | by intros [[? [=]] _]
          | by intros (_ & [[=]|[=]] & _)
          | by intros (_ & _ & Hun & _); apply Hun; eexists
          | by intros (_ & _ & _ & Hfb); apply Hfb; eexists _, _; split_and!; eauto; lia ] ].

(** C30: the verdict. With a database that answers, the check is always a 200; it says
    "unhealthy" exactly when the event source is disconnected, and "healthy" exactly when the
    source is connected, the circuit breaker is closed, the saved state could be read and
    ingestion has not fallen back to polling. *)
Theorem health_spec :
  pings → known_source →
  let '(code, r) := GetHealth h now in
  code = StatusOK ∧
  verdict_ok (Status r) (∃ t, source = Some (t, false))
    ((∃ t, source = Some (t, true)) ∧ breaker_closed ∧ ¬ unreadable ∧ ¬ fallen_back).
Proof.
  intros Hd Hk.
  assert (∃ r0, GetHealth h now = (StatusOK, report h r0) ∧ Status r0 = healthStatusHealthy)
    as (r0 & -> & H0).
  { unfold GetHealth. destruct (db h) as [[e|]|] eqn:Hdb; [by destruct (Hd e)|by eexists..]. }
  destruct (report_verdict r0 Hk H0) as (r & Ha & Ht & Hs & Hv). split; [done|].
  unfold deriveParserHealth, isEventSourceStalled, isTonCenterRecovering, isFallbackActive in Hv.
  rewrite Ha, Ht, Hs in Hv. rewrite Hv. clear Hv Ha Ht Hs r.
  unfold before, tonCenter_of, source_type, source_status, breaker_closed, fallen_back,
    unreadable, source, connection_of, saved.
  destruct (eventSourceProvider h) as [[ty conn lt]|] eqn:Hp; simpl.
  - destruct (Hk _ Hp) as [Ht|Ht]; simpl in Ht; subst ty; clear Hk Hp;
      destruct conn, (tonCenterClient h) as [[]|], (syncStateProvider h) as [[[s|]|e]|]; simpl;
      try (destruct (Z.ltb_spec 0 (BlockchainSyncState.FallbackCount s)));
      verdict.
  - clear Hk Hp. destruct (syncStateProvider h) as [[[s|]|e]|]; simpl;
      [|destruct (tonCenterClient h) as [[]|]; verdict..].
    destruct (decide (BlockchainSyncState.EventSourceType s = eventSourceWebSocket)) as [Hw|Hw].
    + rewrite Hw. destruct (BlockchainSyncState.WebSocketConnected s), (tonCenterClient h) as [[]|];
        verdict.
    + rewrite (bool_decide_false _ Hw).
      destruct (bool_decide (TrimSpace _ = _)),
        (bool_decide (BlockchainSyncState.EventSourceType s = eventSourceHTTP)),
        (bool_decide (BlockchainSyncState.EventSourceType s = connectionNotConfigured)),
        (0 <? BlockchainSyncState.FallbackCount s), (tonCenterClient h) as [[]|]; verdict.
Qed.
End Report.

(** ** Concrete reports *)

Module HealthRun.
Import Health.

(** Everything works but the WebSocket. *)
Definition stalled : HealthHandler :=
  mkHealthHandler (Some None) (Some StateClosed)
    (Some (mkProvider eventSourceWebSocket false "7")) None.

Lemma health_spec_witness :
  (GetHealth stalled 0).1 = StatusOK ∧
  HealthResponse.Status (GetHealth stalled 0).2 = healthStatusUnhealthy.
Proof.
  assert (pings stalled) as Hp by (intros e [=]).
  assert (known_source stalled) as Hk by (intros p [= <-]; by left).
  pose proof (health_spec stalled 0 Hp Hk) as H. destruct (GetHealth stalled 0) as [code r].
  destruct H as [Hcode [Hu _]]. split; [exact Hcode|]. apply Hu. by eexists.
Defined.

(** A saved state that cannot be read shows in the verdict only: the parser is said to be
    healthy and live. *)
Example unreadable_parser_live :
  let r := (GetHealth (mkHealthHandler (Some None) None
    (Some (mkProvider eventSourceHTTP true "7")) (Some (Err (ENew "timeout")))) 0).2 in
  (HealthResponse.Status r, ParserHealthResponse.Status (HealthResponse.Parser r),
   ParserHealthResponse.RecoveryStatus (HealthResponse.Parser r)) =
  (healthStatusDegraded, healthStatusHealthy, parserRecoveryLive).
Proof. vm_compute. reflexivity. Qed.
End HealthRun.
