(* ===== verification/Sha256.v ===== *)
(** * SHA-256, HMAC and hexadecimal text

    The parts of the standard library that sign the data of a Telegram Mini App
    (crypto/sha256, crypto/hmac, encoding/hex), on lists of bytes: FIPS 180-4 and RFC 2104,
    executable, checked on their published vectors. *)
From Stdlib Require Import Ascii String.
From S2P Require Import Prelude GoTypes.

Module SHA256.

(** ** Words of 32 bits *)

Definition word (z : Z) : Z := z mod 2 ^ 32.
Definition word_at (l : list Z) (i : nat) : Z := nth i l 0.
Definition rotr (n x : Z) : Z := Z.lor (Z.shiftr x n) (word (Z.shiftl x (32 - n))).

Definition ch (x y z : Z) : Z := Z.lxor (Z.land x y) (Z.land (2 ^ 32 - 1 - x) z).
Definition maj (x y z : Z) : Z :=
  Z.lxor (Z.lxor (Z.land x y) (Z.land x z)) (Z.land y z).

Definition mix (f g h : Z → Z) (x : Z) : Z := Z.lxor (Z.lxor (f x) (g x)) (h x).
Definition big_sigma0 := mix (rotr 2) (rotr 13) (rotr 22).
Definition big_sigma1 := mix (rotr 6) (rotr 11) (rotr 25).
Definition small_sigma0 := mix (rotr 7) (rotr 18) (λ x, Z.shiftr x 3).
Definition small_sigma1 := mix (rotr 17) (rotr 19) (λ x, Z.shiftr x 10).

(** ** The constants: the first 32 bits of the fractional parts of roots of primes *)

Definition divides (p d : nat) : bool := (p mod d =? 0)%nat.
Definition is_prime (p : nat) : bool := (1 <? p)%nat && negb (existsb (divides p) (seq 2 (p - 2))).
Definition primes : list Z := Z.of_nat <$> filter (λ p, is_prime p = true) (seq 0 312).

(** The largest [r] below [2 ^ bits + r0] with [r ^ 3 <= n], from [r0]. *)
Fixpoint cube_root (bits : nat) (n r0 : Z) : Z :=
  match bits with
  | O => r0
  | S bits =>
      let r := r0 + 2 ^ Z.of_nat bits in
      cube_root bits n (if r ^ 3 <=? n then r else r0)
  end.

Definition round_constants : list Z :=
  Eval vm_compute in (λ p, word (cube_root 36 (p * 2 ^ 96) 0)) <$> primes.
Definition initial_hash : list Z :=
  Eval vm_compute in (λ p, word (Z.sqrt (p * 2 ^ 64))) <$> take 8 primes.

(** ** Compression *)

Record state := mkState { a : Z; b : Z; c : Z; d : Z; e : Z; f : Z; g : Z; h : Z }.

Definition state_words (s : state) : list Z := [a s; b s; c s; d s; e s; f s; g s; h s].
Definition state_of (l : list Z) : state :=
  mkState (word_at l 0) (word_at l 1) (word_at l 2) (word_at l 3) (word_at l 4)
    (word_at l 5) (word_at l 6) (word_at l 7).

Definition round (s : state) (kw : Z * Z) : state :=
  let t1 := h s + big_sigma1 (e s) + ch (e s) (f s) (g s) + kw.1 + kw.2 in
  let t2 := big_sigma0 (a s) + maj (a s) (b s) (c s) in
  mkState (word (t1 + t2)) (a s) (b s) (c s) (word (d s + t1)) (e s) (f s) (g s).

(** The schedule, from the sixteen words last used. *)
Fixpoint schedule (n : nat) (window : list Z) : list Z :=
  match n with
  | O => []
  | S n =>
      let next := small_sigma1 (word_at window 14) + word_at window 9 +
                  small_sigma0 (word_at window 1) + word_at window 0 in
      word_at window 0 :: schedule n (tail window ++ [word next])
  end.

Definition compress (s : state) (block : list Z) : state :=
  let out := foldl round s (zip round_constants (schedule 64 block)) in
  state_of (zip_with (λ x y, word (x + y)) (state_words s) (state_words out)).

(** ** Bytes and words *)

Definition byte_val (x : ascii) : Z := Z.of_N (N_of_ascii x).
Definition val_byte (z : Z) : ascii := ascii_of_N (Z.to_N (z mod 256)).

(** The [n] low bytes of a number, the highest first. *)
Fixpoint big_endian (n : nat) (z : Z) : list ascii :=
  match n with
  | O => []
  | S n => val_byte (Z.shiftr z (8 * Z.of_nat n)) :: big_endian n z
  end.

Fixpoint words (n : nat) (l : list ascii) : list Z :=
  match n with
  | O => []
  | S n => foldl (λ acc x, acc * 256 + byte_val x) 0 (take 4 l) :: words n (drop 4 l)
  end.

Definition padding (len : Z) : list ascii :=
  val_byte 128 :: replicate (Z.to_nat ((55 - len) mod 64)) (val_byte 0) ++
  big_endian 8 (len * 8).

Definition padded (msg : list ascii) : list ascii := msg ++ padding (Z.of_nat (length msg)).

Fixpoint blocks (n : nat) (s : state) (l : list ascii) : state :=
  match n with
  | O => s
  | S n => blocks n (compress s (words 16 l)) (drop 64 l)
  end.

(** [sha256.Sum256]: as many blocks as the padded message has. *)
Definition Sum256 (msg : list ascii) : list ascii :=
  let m := padded msg in
  mjoin (big_endian 4 <$> state_words (blocks (length m / 64) (state_of initial_hash) m)).

End SHA256.

(** [hmac.New(sha256.New, key)], one [Write] of the message, [Sum(nil)]. *)
Module HMAC.
Definition key_block (key : list ascii) : list ascii :=
  let key := if (64 <? length key)%nat then SHA256.Sum256 key else key in
  key ++ replicate (64 - length key) (SHA256.val_byte 0).

Definition pad (x : Z) (key : list ascii) : list ascii :=
  (λ y, SHA256.val_byte (Z.lxor (SHA256.byte_val y) x)) <$> key_block key.

Definition Sum (key msg : list ascii) : list ascii :=
  SHA256.Sum256 (pad 92 key ++ SHA256.Sum256 (pad 54 key ++ msg)).
End HMAC.

(** [hex.EncodeToString] *)
Module Hex.
Definition digit (lower : bool) (n : Z) : ascii :=
  ascii_of_N (Z.to_N (if n <? 10 then 48 + n else (if lower then 87 else 55) + n)).

Definition pair (lower : bool) (x : ascii) : list ascii :=
  [digit lower (SHA256.byte_val x / 16); digit lower (SHA256.byte_val x mod 16)].

Definition EncodeToString (l : list ascii) : string := of_bytes (mjoin (pair true <$> l)).
End Hex.

(** ** The published vectors *)

Example sha256_empty : Hex.EncodeToString (SHA256.Sum256 []) =
  "e3b0c44298fc1c149afbf4c8996fb92427ae41e4649b934ca495991b7852b855".
Proof. vm_compute. reflexivity. Qed.

Example sha256_abc : Hex.EncodeToString (SHA256.Sum256 (bytes "abc")) =
  "ba7816bf8f01cfea414140de5dae2223b00361a396177a9cb410ff61f20015ad".
Proof. vm_compute. reflexivity. Qed.

Example sha256_two_blocks : Hex.EncodeToString (SHA256.Sum256
    (bytes "abcdbcdecdefdefgefghfghighijhijkijkljklmklmnlmnomnopnopq")) =
  "248d6a61d20638b8e5c026930c3e6039a33ce45964ff2167f6ecedd419db06c1".
Proof. vm_compute. reflexivity. Qed.

Example hmac_jefe :
  Hex.EncodeToString (HMAC.Sum (bytes "Jefe") (bytes "what do ya want for nothing?")) =
  "5bdcc146bf60754e6a042426089575c75a003f089d2739839dec58b964ec3843".
Proof. vm_compute. reflexivity. Qed.

Example hmac_long_key :
  Hex.EncodeToString (HMAC.Sum (replicate 131 (SHA256.val_byte 170))
    (bytes "Test Using Larger Than Block-Size Key - Hash Key First")) =
  "60e431591ee0b67f0d8a26aacbf5b77f8e0bc6213728c5140546040f0ee37f54".
Proof. vm_compute. reflexivity. Qed.

(** ** Sizes *)

(** The padded message is a whole number of blocks, and the padding is the shortest. *)
Lemma padded_blocks msg :
  (Z.of_nat (length (SHA256.padded msg)) mod 64 = 0) ∧
  Z.of_nat (length (SHA256.padded msg)) ≤ Z.of_nat (length msg) + 72.
Proof.
  unfold SHA256.padded, SHA256.padding.
  rewrite !length_app. cbn [length]. rewrite length_app, length_replicate.
  change (length (SHA256.big_endian 8 _)) with 8%nat.
  pose proof (Z.mod_pos_bound (55 - Z.of_nat (length msg)) 64 ltac:(lia)).
  pose proof (Z.div_mod (55 - Z.of_nat (length msg)) 64 ltac:(lia)).
  split; [|lia].
  apply Z.mod_divide; [lia|].
  exists (1 - (55 - Z.of_nat (length msg)) / 64). lia.
Qed.

Lemma Sum256_length msg : length (SHA256.Sum256 msg) = 32%nat.
Proof. reflexivity. Qed.

Lemma EncodeToString_length l : String.length (Hex.EncodeToString l) = (2 * length l)%nat.
Proof.
  unfold Hex.EncodeToString, of_bytes. induction l as [|x l IH]; [done|].
  cbn. change (String.length (string_of_list_ascii (mjoin (Hex.pair true <$> l)))) with
    (String.length (of_bytes (mjoin (Hex.pair true <$> l)))). unfold of_bytes.
  rewrite IH. lia.
Qed.
