(* ===== verification/Telegram.v ===== *)
(** * Signed data of a Telegram Mini App (internal/infrastructure/telegram/auth.go)

    The query string of the client is parsed, its parameters are joined into the text the
    bot token signs, and the signature and the age are checked. What the code uses of
    net/url, fmt and sort comes first; the hash functions are in Sha256.v. *)
From Stdlib Require Import Ascii String.
From S2P Require Import Prelude GoTypes Sha256.

(** ** net/url *)

Notation Values := (gmap string (list string)).

Inductive query_error :=
| SemicolonSeparator              (* "invalid semicolon separator in query" *)
| EscapeError (s : list ascii).   (* the piece that does not parse *)

Module Url.

(** [strings.Cut] at a byte: what is before and after its first occurrence. *)
Fixpoint Cut (c : ascii) (l : list ascii) : list ascii * list ascii :=
  match l with
  | [] => ([], [])
  | x :: l =>
      if byte_eqb x c then ([], l)
      else let (before, after) := Cut c l in (x :: before, after)
  end.

(** The pieces that the successive [Cut]s of the loop of [parseQuery] give. *)
Fixpoint fields (l : list ascii) : list (list ascii) :=
  match l with
  | [] => [[]]
  | x :: l =>
      match fields l with
      | [] => [[x]]
      | p :: ps => if byte_eqb x "&"%char then [] :: p :: ps else (x :: p) :: ps
      end
  end.

Definition hex_value (x : ascii) : option Z :=
  let n := SHA256.byte_val x in
  if (48 <=? n) && (n <=? 57) then Some (n - 48)
  else if (97 <=? n) && (n <=? 102) then Some (n - 87)
  else if (65 <=? n) && (n <=? 70) then Some (n - 55)
  else None.

(** [url.QueryUnescape] *)
Fixpoint QueryUnescape (l : list ascii) : query_error + list ascii :=
  match l with
  | [] => inr []
  | x :: l =>
      if byte_eqb x "%"%char then
        match l with
        | a :: b :: l =>
            match hex_value a, hex_value b with
            | Some va, Some vb =>
                match QueryUnescape l with
                | inr r => inr (SHA256.val_byte (va * 16 + vb) :: r)
                | inl e => inl e
                end
            | _, _ => inl (EscapeError [x; a; b])
            end
        | _ => inl (EscapeError (x :: l))
        end
      else
        match QueryUnescape l with
        | inr r => inr ((if byte_eqb x "+"%char then " "%char else x) :: r)
        | inl e => inl e
        end
  end.

(** Only the first error is kept. *)
Definition keep (err : option query_error) (e : query_error) : option query_error :=
  match err with Some _ => err | None => Some e end.

(** The body of the loop, on one piece. *)
Definition parseField (acc : Values * option query_error) (piece : list ascii) :
    Values * option query_error :=
  let (m, err) := acc in
  if existsb (byte_eqb ";"%char) piece then (m, Some SemicolonSeparator)
  else match piece with
  | [] => (m, err)
  | _ =>
      let (key, value) := Cut "="%char piece in
      match QueryUnescape key with
      | inl e => (m, keep err e)
      | inr key =>
          match QueryUnescape value with
          | inl e => (m, keep err e)
          | inr value =>
              let key := of_bytes key in
              (<[key := (m !!! key) ++ [of_bytes value]]> m, err)
          end
      end
  end.

Definition ParseQuery (query : string) : Values * option query_error :=
  foldl parseField (∅, None) (fields (bytes query)).

(** [Values.Get] *)
Definition Get (values : Values) (key : string) : string :=
  match values !! key with Some (v :: _) => v | _ => EmptyString end.
End Url.

(** ** fmt.Sscanf(s, "%d", &n) *)

Definition newline : ascii := ascii_of_nat 10.

Fixpoint digits_of (l : list ascii) : list ascii :=
  match l with
  | x :: l => if is_digit x then x :: digits_of l else []
  | [] => []
  end.

(** Spaces before the number are skipped, but for a newline; an optional sign and the
    longest run of digits make the number, and what follows is not looked at. *)
Definition Sscanf_d (s : string) : option Z :=
  let spaces := filter (λ p, p ≠ [newline]) space_encodings in
  match trim_left spaces (String.length s) (bytes s) with
  | x :: l =>
      let (sign, l) := if byte_eqb x "+"%char || byte_eqb x "-"%char then ([x], l)
                       else ([], x :: l) in
      ParseInt (of_bytes (sign ++ digits_of l))
  | [] => None
  end.

(** [sort.Strings], by the bytes *)
Definition string_leb (s t : string) : bool :=
  match String.compare s t with Gt => false | _ => true end.
Definition sort_Strings (l : list string) : list string := merge_sort string_leb l.

(** [strings.Join] *)
Fixpoint Join (l : list string) (sep : string) : string :=
  match l with
  | [] => EmptyString
  | [s] => s
  | s :: l => s +:+ sep +:+ Join l sep
  end.

(** ** auth.go *)

Record AuthConfig := mkAuthConfig { BotToken : string; MaxAge : Z }.

Inductive auth_error :=
| InitDataEmpty | ParseFailed (e : query_error) | HashMissing | VerificationFailed
| AuthDateMissing | AuthDateFormat (text : string) | TooOld (authDate : Z)
| UserRequired | UserIDNotFound | UserIDFormat (text : string).

(** The order in which a [range] over the values visits them: any order of the map. *)
Class MapRange := {
  range_values : nat → Values → list (string * list string);
  range_values_perm n m : range_values n m ≡ₚ map_to_list m
}.

Notation Data := (gmap string string).

Module Telegram.
Section Auth.

(** [pairs], sorted and joined. *)
Definition pairs (entries : list (string * list string)) : list string :=
  omap (λ '(key, vals), match vals with
                        | v :: _ => Some (key +:+ "=" +:+ v)
                        | [] => None
                        end) entries.

Definition dataCheckString (entries : list (string * list string)) : string :=
  Join (sort_Strings (pairs entries)) (String newline EmptyString).

(** The signature of a text under a bot token. *)
Definition computedHash (config : AuthConfig) (text : string) : string :=
  let secretKey := HMAC.Sum (bytes "WebAppData") (bytes (BotToken config)) in
  Hex.EncodeToString (HMAC.Sum secretKey (bytes text)).

(** The map the caller gets. *)
Definition toMap (entries : list (string * list string)) : Data :=
  foldl (λ result '(key, vals), match vals with
                                | v :: _ => <[key := v]> result
                                | [] => result
                                end) ∅ entries.

Definition maxAge (config : AuthConfig) : Z :=
  if MaxAge config =? 0 then 86400 else MaxAge config.

(** [now] is the clock in seconds; the two ranges may visit the map in two orders. *)
Definition ValidateInitData `{MapRange} (now : Z) (initData : string) (config : AuthConfig) :
    auth_error + Data :=
  if bool_decide (initData = EmptyString) then inl InitDataEmpty else
  match Url.ParseQuery initData with
  | (_, Some e) => inl (ParseFailed e)
  | (values, None) =>
      let providedHash := Url.Get values "hash" in
      if bool_decide (providedHash = EmptyString) then inl HashMissing else
      let values := delete "hash" values in
      if negb (bool_decide
           (computedHash config (dataCheckString (range_values 0 values)) = providedHash))
      then inl VerificationFailed else
      let authDateStr := Url.Get values "auth_date" in
      if bool_decide (authDateStr = EmptyString) then inl AuthDateMissing else
      match Sscanf_d authDateStr with
      | None => inl (AuthDateFormat authDateStr)
      | Some authDate =>
          if maxAge config <? wrap64 (now - authDate) then inl (TooOld authDate)
          else inr (toMap (range_values 1 values))
      end
  end.

(** [data[key]], "" for a key that is not there. *)
Definition field (d : Data) (key : string) : string := default EmptyString (d !! key).

Definition ParseUserData (d : Data) : auth_error + (Z * string) :=
  let userIDStr := field d "user_id" in
  if bool_decide (userIDStr = EmptyString) then
    if bool_decide (field d "user" = EmptyString) then inl UserRequired
    else inl UserIDNotFound
  else match Sscanf_d userIDStr with
       | None => inl (UserIDFormat userIDStr)
       | Some userID => inr (userID, field d "username")
       end.
End Auth.
End Telegram.
