(* ===== verification/TelegramSpec.v ===== *)
(** * Signed data: what is accepted, and what the signature covers

    The check is characterized exactly, a query string built from signed parameters is read
    back whatever the order of its parameters, and the text that is signed does not tell
    all sets of parameters apart. *)
From Stdlib Require Import Ascii String.
From S2P Require Import Prelude GoTypes Sha256 Telegram.

(** ** The other direction: the query string of a list of parameters *)

Definition unreserved (x : ascii) : bool :=
  is_digit x || is_upper x || is_lower x || existsb (byte_eqb x) (bytes "-_.~").

(** [url.QueryEscape], by byte *)
Definition escape_byte (x : ascii) : list ascii :=
  if unreserved x then [x]
  else if byte_eqb x " "%char then ["+"%char]
  else "%"%char :: Hex.pair false x.
Definition QueryEscape (s : string) : list ascii := mjoin (escape_byte <$> bytes s).

Definition query_piece (p : string * string) : list ascii :=
  QueryEscape p.1 ++ "="%char :: QueryEscape p.2.

Fixpoint join_pieces (l : list (list ascii)) : list ascii :=
  match l with
  | [] => []
  | [p] => p
  | p :: l => p ++ "&"%char :: join_pieces l
  end.

(** The query string of the parameters, in the order given. *)
Definition encode_query (l : list (string * string)) : string :=
  of_bytes (join_pieces (query_piece <$> l)).

(** ** Escaping and parsing *)

Ltac all_bytes x := destruct x as [[] [] [] [] [] [] [] []].

Lemma unescape_byte x l :
  Url.QueryUnescape (escape_byte x ++ l) =
  match Url.QueryUnescape l with inr r => inr (x :: r) | inl e => inl e end.
Proof. all_bytes x; reflexivity. Qed.

Lemma escape_byte_plain x y : y ∈ escape_byte x → y ∉ bytes "&;=".
Proof.
  intros Hy. assert (forallb (λ y, negb (existsb (byte_eqb y) (bytes "&;="))) (escape_byte x)) as H
    by (clear; all_bytes x; reflexivity).
  rewrite forallb_True, Forall_forall in H. specialize (H y Hy). intros Hin.
  apply negb_True in H. apply H, Is_true_eq_left, existsb_exists. exists y.
  split; [by apply list_elem_of_In|]. unfold byte_eqb. by apply bool_decide_eq_true.
Qed.

Lemma unescape_escape s : Url.QueryUnescape (QueryEscape s) = inr (bytes s).
Proof.
  unfold QueryEscape. induction (bytes s) as [|x l IH]; [done|].
  change (mjoin (escape_byte <$> x :: l)) with (escape_byte x ++ mjoin (escape_byte <$> l)).
  by rewrite unescape_byte, IH.
Qed.

Lemma escape_plain s y : y ∈ QueryEscape s → y ∉ bytes "&;=".
Proof.
  unfold QueryEscape. rewrite list_elem_of_join. intros (l & Hy & Hl).
  apply list_elem_of_fmap in Hl as (x & -> & _). by eapply escape_byte_plain.
Qed.

Lemma Cut_app c k v : c ∉ k → Url.Cut c (k ++ c :: v) = (k, v).
Proof.
  induction k as [|x k IH]; cbn; intros Hc.
  - unfold byte_eqb. by rewrite bool_decide_true.
  - unfold byte_eqb. rewrite bool_decide_false by set_solver. by rewrite IH by set_solver.
Qed.

Lemma fields_single p : "&"%char ∉ p → Url.fields p = [p].
Proof.
  induction p as [|x p IH]; cbn; intros Hp; [done|]. rewrite IH by set_solver.
  unfold byte_eqb. by rewrite bool_decide_false by set_solver.
Qed.

Lemma fields_cons p l : "&"%char ∉ p → Url.fields (p ++ "&"%char :: l) = p :: Url.fields l.
Proof.
  induction p as [|x p IH]; cbn; intros Hp.
  - by destruct l as [|y l]; [|cbn; destruct (Url.fields l); [|destruct (byte_eqb y "&"%char)]].
  - rewrite IH by set_solver. unfold byte_eqb. by rewrite bool_decide_false by set_solver.
Qed.

Lemma fields_join_pieces l :
  l ≠ [] → Forall (λ p, "&"%char ∉ p) l → Url.fields (join_pieces l) = l.
Proof.
  induction l as [|p [|q l] IH]; [done|..]; intros _ [Hp Hl]%Forall_cons.
  - by apply fields_single.
  - change (join_pieces (p :: q :: l)) with (p ++ "&"%char :: join_pieces (q :: l)).
    rewrite fields_cons by done. f_equal. by apply IH.
Qed.

Lemma query_piece_plain p y : y ∈ query_piece p → y ≠ "&"%char ∧ y ≠ ";"%char.
Proof.
  unfold query_piece. rewrite elem_of_app, elem_of_cons.
  intros [H|[->|H]]; [apply escape_plain in H|done|apply escape_plain in H]; set_solver.
Qed.

Lemma parse_piece m k v :
  Url.parseField (m, None) (query_piece (k, v)) = (<[k := (m !!! k) ++ [v]]> m, None).
Proof.
  unfold Url.parseField. destruct (existsb _ _) eqn:Hs.
  - apply existsb_exists in Hs as (y & Hy & Heq). apply list_elem_of_In, query_piece_plain in Hy.
    unfold byte_eqb in Heq. apply bool_decide_eq_true in Heq. naive_solver.
  - assert ("="%char ∉ QueryEscape k) as Hk by (intros H%escape_plain; set_solver).
    unfold query_piece. cbn [fst snd].
    destruct (QueryEscape k ++ "="%char :: QueryEscape v) as [|x l] eqn:Hp.
    { by destruct (QueryEscape k). }
    rewrite <-Hp, Cut_app, !unescape_escape by done. by rewrite !of_bytes_bytes.
Qed.

(** The map in which every key has one value. *)
Definition single_values (l : list (string * string)) : Values :=
  (λ v, [v]) <$> (list_to_map l : gmap string string).

Lemma parse_pieces l m :
  NoDup l.*1 → (∀ k, k ∈ l.*1 → m !! k = None) →
  foldl Url.parseField (m, None) (query_piece <$> l) = (single_values l ∪ m, None).
Proof.
  revert m. induction l as [|[k v] l IH]; intros m; cbn [fmap list_fmap foldl fst].
  { intros _ _. unfold single_values. cbn. by rewrite fmap_empty, (left_id_L ∅ (∪)). }
  intros [Hk Hl]%NoDup_cons Hm. rewrite parse_piece, IH; [|done|].
  - f_equal. unfold single_values. cbn [list_to_map foldr]. rewrite fmap_insert.
    assert (m !!! k = []) as -> by (rewrite lookup_total_alt, Hm; set_solver).
    rewrite app_nil_l, <-insert_union_r, <-insert_union_l; [done|].
    rewrite lookup_fmap, not_elem_of_list_to_map_1; done.
  - intros k' Hk'. rewrite lookup_insert_ne by (intros ->; done). apply Hm. set_solver.
Qed.

(** Parsing a query string gives the parameters back. *)
Lemma ParseQuery_encode l :
  NoDup l.*1 → Url.ParseQuery (encode_query l) = (single_values l, None).
Proof.
  intros Hl. unfold Url.ParseQuery, encode_query. rewrite bytes_of_bytes.
  destruct l as [|p l]; [by cbn; unfold single_values; cbn; rewrite fmap_empty|].
  rewrite fields_join_pieces; [|done|].
  - rewrite parse_pieces; [|done|by intros; rewrite lookup_empty]. by rewrite (right_id_L ∅ (∪)).
  - apply Forall_forall. intros q Hq. apply list_elem_of_fmap in Hq as (r & -> & _).
    intros H%query_piece_plain. naive_solver.
Qed.

(** ** Sorting *)

#[local] Instance string_leb_trans : Transitive (λ s t, Is_true (string_leb s t)).
Proof.
  intros s. unfold string_leb. induction s as [|a s IH]; intros [|b t] [|c u]; cbn; try done.
  unfold Ascii.compare. specialize (IH t u).
  destruct (N.compare_spec (N_of_ascii a) (N_of_ascii b)),
    (N.compare_spec (N_of_ascii b) (N_of_ascii c)),
    (N.compare_spec (N_of_ascii a) (N_of_ascii c)); (done || lia || exact IH).
Qed.

#[local] Instance string_leb_total : Total (λ s t, Is_true (string_leb s t)).
Proof.
  intros s t. unfold string_leb. rewrite (String.compare_antisym t s).
  destruct (String.compare s t); cbn; auto.
Qed.

#[local] Instance string_leb_antisym : AntiSymm (=) (λ s t, Is_true (string_leb s t)).
Proof.
  intros s t. unfold string_leb. rewrite (String.compare_antisym t s).
  destruct (String.compare s t) eqn:H; cbn; [by apply String.compare_eq_iff in H|done..].
Qed.

(** The sorted list depends on the elements alone, whatever algorithm is used. *)
Lemma sort_Strings_unique l k :
  k ≡ₚ l → StronglySorted (λ s t, Is_true (string_leb s t)) k → sort_Strings l = k.
Proof.
  intros Hp Hs. apply (StronglySorted_unique (λ s t, Is_true (string_leb s t))).
  - apply StronglySorted_merge_sort; apply _.
  - done.
  - unfold sort_Strings. by rewrite merge_sort_Permutation.
Qed.

Lemma sort_Strings_perm l k : l ≡ₚ k → sort_Strings l = sort_Strings k.
Proof.
  intros Hp. apply sort_Strings_unique.
  - unfold sort_Strings. by rewrite merge_sort_Permutation, Hp.
  - apply StronglySorted_merge_sort; apply _.
Qed.

(** ** What the signature is computed on *)

Definition parameter (p : string * string) : string := p.1 +:+ "=" +:+ p.2.

(** The text the signature covers, as a function of the data. *)
Definition checkText (d : Data) : string :=
  Join (sort_Strings (parameter <$> map_to_list d)) (String newline EmptyString).

(** The first values. *)
Definition first_values (m : Values) : Data := omap head m.

Lemma pairs_fmap entries :
  Telegram.pairs entries =
  parameter <$> omap (λ e, match e.2 with v :: _ => Some (e.1, v) | [] => None end) entries.
Proof. induction entries as [|[k [|v vs]] l IH]; [done|exact IH|]. cbn. by f_equal. Qed.

Lemma first_entries (m : Values) :
  omap (λ e, match e.2 with v :: _ => Some (e.1, v) | [] => None end) (map_to_list m) ≡ₚ
  map_to_list (first_values m).
Proof.
  unfold first_values. induction m as [|k vs m Hk Hf IH] using map_first_key_ind.
  { by rewrite omap_empty, !map_to_list_empty. }
  rewrite map_to_list_insert by done. cbn [omap list_omap fst snd].
  destruct vs as [|v vs]; cbn.
  - rewrite IH. rewrite omap_insert_None by done. rewrite delete_id; [done|].
    rewrite lookup_omap, Hk. done.
  - rewrite (omap_insert_Some _ _ _ _ v) by done. rewrite map_to_list_insert, IH; [done|].
    by rewrite lookup_omap, Hk.
Qed.

Section Spec.
Context `{MapRange}.

(** Whatever the orders in which the map is visited. *)
Lemma dataCheckString_spec n m :
  Telegram.dataCheckString (range_values n m) = checkText (first_values m).
Proof.
  unfold Telegram.dataCheckString, checkText. f_equal. apply sort_Strings_perm.
  rewrite pairs_fmap. apply fmap_Permutation. by rewrite range_values_perm, first_entries.
Qed.

Lemma toMap_lookup entries d k :
  NoDup entries.*1 →
  foldl (λ (result : Data) '(key, vals), match vals with
                                | v :: _ => <[key := v]> result
                                | [] => result
                                end) d entries !! k =
  match (list_to_map entries : Values) !! k with
  | Some (v :: _) => Some v
  | _ => d !! k
  end.
Proof.
  revert d. induction entries as [|[key vals] l IH]; intros d Hl; cbn; [by rewrite lookup_empty|].
  apply NoDup_cons in Hl as [Hk Hl]. rewrite IH by done. destruct (decide (k = key)) as [->|Hne].
  - rewrite lookup_insert_eq, not_elem_of_list_to_map_1 by done.
    destruct vals; [done|by rewrite lookup_insert_eq].
  - rewrite lookup_insert_ne by done.
    destruct (list_to_map l !! k) as [[|]|]; destruct vals; by rewrite ?lookup_insert_ne.
Qed.

Lemma toMap_spec n m : Telegram.toMap (range_values n m) = first_values m.
Proof.
  pose proof (range_values_perm n m) as Hp. apply map_eq. intros k. unfold Telegram.toMap.
  assert (NoDup (range_values n m).*1) as Hnd by (rewrite Hp; apply NoDup_fst_map_to_list).
  rewrite toMap_lookup by done. rewrite (list_to_map_proper _ _ Hnd Hp), list_to_map_to_list.
  unfold first_values. rewrite lookup_omap, lookup_empty. by destruct (m !! k) as [[|]|].
Qed.

Lemma Get_first m k : Url.Get m k = Telegram.field (first_values m) k.
Proof.
  unfold Url.Get, Telegram.field, first_values. rewrite lookup_omap.
  by destruct (m !! k) as [[|]|].
Qed.

Lemma computedHash_nonempty config text : Telegram.computedHash config text ≠ EmptyString.
Proof.
  intros Hh. apply (f_equal String.length) in Hh. unfold Telegram.computedHash in Hh.
  rewrite EncodeToString_length in Hh. unfold HMAC.Sum in Hh at 1.
  by rewrite Sum256_length in Hh.
Qed.

(** ** What is accepted *)

(** The check of a client's signed data, exactly: the query string parses without an
    error, the parameter "hash" is the signature under the bot token of the text of all
    other parameters (their first values), "auth_date" starts with a number and its age,
    in 64-bit arithmetic, is at most the limit; the data returned are those parameters.
    The orders in which the map of parameters is visited play no part. *)
Theorem ValidateInitData_spec now initData config d :
  Telegram.ValidateInitData now initData config = inr d ↔
  ∃ values authDate,
    Url.ParseQuery initData = (values, None) ∧
    d = first_values (delete "hash" values) ∧
    Url.Get values "hash" = Telegram.computedHash config (checkText d) ∧
    Sscanf_d (Telegram.field d "auth_date") = Some authDate ∧
    wrap64 (now - authDate) ≤ Telegram.maxAge config.
Proof.
  unfold Telegram.ValidateInitData. split.
  - case_bool_decide; [done|]. destruct (Url.ParseQuery initData) as [values [e|]] eqn:Hq; [done|].
    case_bool_decide; [done|]. rewrite dataCheckString_spec, toMap_spec, (Get_first (delete _ _)).
    case_bool_decide as Hh; cbn [negb]; [|done]. case_bool_decide; [done|].
    destruct (Sscanf_d _) as [a|] eqn:Ha; [|done].
    destruct (Z.ltb_spec (Telegram.maxAge config) (wrap64 (now - a))); [done|].
    intros [= <-]. exists values, a. by rewrite Hh.
  - intros (values & a & Hq & -> & Hh & Ha & Hage). rewrite Hq.
    pose proof (computedHash_nonempty config (checkText (first_values (delete "hash" values)))).
    rewrite bool_decide_false; [rewrite bool_decide_false by congruence|].
    + rewrite dataCheckString_spec, toMap_spec, (Get_first (delete _ _)), bool_decide_true by congruence.
      cbn [negb]. rewrite bool_decide_false by (intros He; by rewrite He in Ha). rewrite Ha.
      by rewrite (proj2 (Z.ltb_ge _ _) Hage).
    + intros ->. cbn in Hq. injection Hq as <-. unfold Url.Get in Hh.
      rewrite lookup_empty in Hh. congruence.
Qed.

Lemma first_values_without (d : Data) k x :
  d !! k = None → first_values (delete k ((λ v, [v]) <$> <[k := x]> d)) = d.
Proof.
  intros Hd. apply map_eq. intros j. unfold first_values.
  destruct (decide (j = k)) as [->|Hne]; rewrite lookup_omap.
  - by rewrite lookup_delete_eq.
  - rewrite lookup_delete_ne, lookup_fmap, lookup_insert_ne by done. by destruct (d !! j).
Qed.

(** C38: Data that is signed with the bot token is accepted, and read back exactly: whatever
    characters the parameters hold and in whatever order the client lists them, the
    parameters without the signature are returned, as long as the age is within the limit. *)
Theorem signed_data_accepted now config (d : Data) l authDate
    (Hsig : l ≡ₚ ("hash", Telegram.computedHash config (checkText d)) :: map_to_list d)
    (Hhash : d !! "hash" = None)
    (Hdate : Sscanf_d (Telegram.field d "auth_date") = Some authDate)
    (Hage : wrap64 (now - authDate) ≤ Telegram.maxAge config) :
  Telegram.ValidateInitData now (encode_query l) config = inr d.
Proof.
  assert (NoDup l.*1) as Hl.
  { rewrite Hsig. cbn. apply NoDup_cons. split; [|apply NoDup_fst_map_to_list].
    intros ((k & v) & Hk & Hin)%list_elem_of_fmap. cbn in Hk. subst k.
    apply elem_of_map_to_list in Hin. congruence. }
  apply ValidateInitData_spec.
  exists ((λ v, [v]) <$> <["hash" := Telegram.computedHash config (checkText d)]> d), authDate.
  split_and!; [|by rewrite first_values_without| |done|done].
  - rewrite ParseQuery_encode by done. unfold single_values.
    rewrite (list_to_map_proper _ _ Hl Hsig). cbn [list_to_map foldr fst snd].
    f_equal. f_equal. f_equal. apply list_to_map_to_list.
  - unfold Url.Get. by rewrite lookup_fmap, lookup_insert_eq.
Qed.
End Spec.

(** With the clock and the date in range, an age is accepted when the date is not older
    than the limit, in the future included, and when it is so old that its age overflows. *)
Lemma fresh_iff now a age :
  0 ≤ now ≤ MaxInt64 → in_int64 a → 0 ≤ age ≤ MaxInt64 →
  wrap64 (now - a) ≤ age ↔ now - age ≤ a ∨ a ≤ now - 2 ^ 63.
Proof.
  unfold in_int64, MinInt64, MaxInt64, wrap64. intros Hn Ha Hage.
  destruct (decide (a ≤ now - 2 ^ 63)).
  - replace (now - a + 2 ^ 63) with (now - a - 2 ^ 63 + 1 * 2 ^ 64) by lia.
    rewrite Z_mod_plus_full, Z.mod_small by lia. lia.
  - rewrite Z.mod_small by lia. lia.
Qed.

(** The text does not separate a newline inside a value from the one between two
    parameters: one signature covers two sets of parameters, of which one names a user. *)
Lemma signature_shared :
  let date := ("auth_date", "1700000000") in
  let d : Data := list_to_map [date; ("query_id", "q" +:+ String newline "user_id=42")] in
  let d' : Data := list_to_map [date; ("query_id", "q"); ("user_id", "42")] in
  checkText d = checkText d' ∧
  Telegram.ParseUserData d = inl UserRequired ∧ Telegram.ParseUserData d' = inr (42, "").
Proof. vm_compute. done. Qed.

(** The user of Telegram's own format, a JSON object, is never read: without a parameter
    "user_id" the data names no user. *)
Lemma json_user_refused d :
  d !! "user_id" = None → ∃ e, Telegram.ParseUserData d = inl e ∧
    e = if bool_decide (Telegram.field d "user" = EmptyString) then UserRequired
        else UserIDNotFound.
Proof.
  intros Hd. unfold Telegram.ParseUserData.
  assert (Telegram.field d "user_id" = EmptyString) as -> by (unfold Telegram.field; by rewrite Hd).
  rewrite bool_decide_true by done. case_bool_decide; eauto.
Qed.

(** ** A run *)

Module TelegramRun.
#[local] Program Instance insertion_order : MapRange := {| range_values _ m := map_to_list m |}.
Next Obligation. done. Qed.

Definition config := mkAuthConfig "123456:TEST-token" 0.
Definition sample : Data :=
  list_to_map [("auth_date", "1700000000"); ("user_id", "42"); ("username", "a&b=c d;%")].
Definition signed : list (string * string) :=
  ("user_id", "42") :: ("hash", Telegram.computedHash config (checkText sample)) ::
  [("username", "a&b=c d;%"); ("auth_date", "1700000000")].

Lemma signed_data_accepted_witness :
  signed ≡ₚ ("hash", Telegram.computedHash config (checkText sample)) :: map_to_list sample ∧
  Telegram.ValidateInitData 1700000060 (encode_query signed) config = inr sample.
Proof.
  assert (signed ≡ₚ
    ("hash", Telegram.computedHash config (checkText sample)) :: map_to_list sample) as Hp.
  { apply (bool_decide_unpack (_ ≡ₚ _)). vm_compute. done. }
  split; [exact Hp|].
  apply (signed_data_accepted 1700000060 config sample signed 1700000000 Hp);
    vm_compute; done.
Defined.

(** The query string, the answer on it, and on its copies that are tampered with. *)
Example signed_query :
  (encode_query signed,
   Telegram.ValidateInitData 1700000060 (encode_query signed) config,
   Telegram.ValidateInitData 1700086401 (encode_query signed) config,
   Telegram.ValidateInitData 1700000060 ("x=1&" +:+ encode_query signed) config,
   Telegram.ValidateInitData 1700000060 (encode_query signed +:+ "&user_id=7") config) =
  ("user_id=42&hash=" +:+ Telegram.computedHash config (checkText sample) +:+
     "&username=a%26b%3Dc+d%3B%25&auth_date=1700000000",
   inr sample, inl (TooOld 1700000000), inl VerificationFailed, inr sample).
Proof. vm_compute. reflexivity. Qed.

(** Computed with an independent implementation. *)
Example known_signature : Telegram.computedHash config (checkText sample) = 
  "fa112ccddd2bb1813978bd9bdb0621a7d61ba625e1515d7ae7911239af7aaba8".
Proof. vm_compute. reflexivity. Qed.
End TelegramRun.
