(* ===== verification/Middleware.v ===== *)
(** * The middleware around the routes

    internal/infrastructure/telegram/middleware.go, ratelimit/middleware.go,
    cors/middleware.go, metrics/middleware.go, internal/controller/http/middleware and the
    part of internal/controller/http/router.go that installs them. A handler reads the
    context of a request, may call the next handler, and leaves a context with a response;
    what the framework and its middleware packages do is a parameter with laws. *)
From Stdlib Require Import Ascii String.
From S2P Require Import Prelude GoTypes Rest Telegram.

(** ** Contexts and handlers *)

(** Keys of [c.Locals]: those of the type contextKey, and plain strings. *)
Inductive local_key := UserIDKey | UsernameKey | StringKey (s : string).
#[export] Instance local_key_eq_dec : EqDecision local_key.
Proof. solve_decision. Defined.
#[export] Instance local_key_countable : Countable local_key.
Proof.
  refine (inj_countable
    (λ k, match k with UserIDKey => inl (inl ()) | UsernameKey => inl (inr ())
                  | StringKey s => inr s end)
    (λ x, match x with inl (inl _) => Some UserIDKey | inl (inr _) => Some UsernameKey
                  | inr s => Some (StringKey s) end) _).
  by intros [].
Defined.

Inductive local := LInt64 (z : Z) | LString (s : string) | LBool (b : bool).

Inductive Body :=
| PayloadBody (p : Payload)
| ErrorMap (error message : string)
| LimitMap (message : string) (retry_after : Z)
| TextBody (s : string).

(** [Now] is the clock while the request is served, in nanoseconds. *)
Record Ctx := mkCtx {
  Now : Z; Method : string; Path : string; OriginalURL : string; RoutePath : string;
  IP : string; Get : string → string; Locals : gmap local_key local;
  headers : list (string * string); status : Z; body : option Body }.

Definition set_local (k : local_key) (v : local) (c : Ctx) : Ctx :=
  mkCtx (Now c) (Method c) (Path c) (OriginalURL c) (RoutePath c) (IP c) (Get c)
    (<[k := v]> (Locals c)) (headers c) (status c) (body c).
(** [c.Set] *)
Definition set_header (name value : string) (c : Ctx) : Ctx :=
  mkCtx (Now c) (Method c) (Path c) (OriginalURL c) (RoutePath c) (IP c) (Get c) (Locals c)
    (headers c ++ [(name, value)]) (status c) (body c).
(** [c.Status(status).JSON(body)] *)
Definition respond (s : Z) (b : option Body) (c : Ctx) : Ctx :=
  mkCtx (Now c) (Method c) (Path c) (OriginalURL c) (RoutePath c) (IP c) (Get c) (Locals c)
    (headers c) s b.

Inductive http_error := FiberError (code : Z) (message : string) | OtherError (message : string).

(** How a handler ends: it returns an error or nil, or it panics with a value. *)
Inductive Ending := Returned (e : option http_error) | Panicking (value : string).

Inductive level := LevelInfo | LevelError.

(** The state of the server: the store of the rate limiter, the log, the counted requests
    (method, path and status) and the service behind the routes. *)
Record Web (L W : Type) := mkWeb {
  store : L; log_lines : list (level * string);
  http_requests : list (string * string * string); world : W }.
Arguments mkWeb {L W}. Arguments store {L W}. Arguments log_lines {L W}.
Arguments http_requests {L W}. Arguments world {L W}.

Definition Handler (L W : Type) : Type := Ctx → ST (Web L W) (Ctx * Ending).

Definition log_line {L W} (l : level) (s : string) : ST (Web L W) unit :=
  modify (λ w, mkWeb (store w) (log_lines w ++ [(l, s)]) (http_requests w) (world w)).
Definition count_request {L W} (r : string * string * string) : ST (Web L W) unit :=
  modify (λ w, mkWeb (store w) (log_lines w) (http_requests w ++ [r]) (world w)).
Definition onStore {L W A} (m : ST L A) : ST (Web L W) A :=
  zoom store (λ l w, mkWeb l (log_lines w) (http_requests w) (world w)) m.
Definition onWorld {L W A} (m : ST W A) : ST (Web L W) A :=
  zoom world (λ x w, mkWeb (store w) (log_lines w) (http_requests w) x) m.

Notation StatusUnauthorized := 401.
Notation StatusTooManyRequests := 429.

(** ** telegram/middleware.go *)

(** The texts of two errors of the standard library. *)
Class ErrorText := { query_text : query_error → string; scan_text : string → string }.

Module TelegramAuth.
Section Auth.
Context {L W : Type} `{MapRange} `{ErrorText}.

(** The texts of the errors of auth.go. *)
Definition auth_text (e : auth_error) : string :=
  match e with
  | InitDataEmpty => "initData is empty"
  | ParseFailed e => "failed to parse initData: " +:+ query_text e
  | HashMissing => "hash is missing from initData"
  | VerificationFailed => "hash verification failed"
  | AuthDateMissing => "auth_date is missing"
  | AuthDateFormat s => "invalid auth_date format: " +:+ scan_text s
  | TooOld authDate => "initData is too old (auth_date: " +:+ FormatInt authDate +:+ ")"
  | UserRequired => "user_id or user field is required"
  | UserIDNotFound => "user_id not found in initData"
  | UserIDFormat s => "invalid user_id format: " +:+ scan_text s
  end.

Definition unauthorized (c : Ctx) (message : string) : ST (Web L W) (Ctx * Ending) :=
  mret (respond StatusUnauthorized (Some (ErrorMap "unauthorized" message)) c, Returned None).

Definition inject (userID : Z) (username : string) (c : Ctx) : Ctx :=
  set_local UsernameKey (LString username) (set_local UserIDKey (LInt64 userID) c).

(** [time.Now().Unix()] *)
Definition unix (c : Ctx) : Z := Now c / 10 ^ 9.

Definition AuthMiddleware (config : AuthConfig) (next : Handler L W) : Handler L W := λ c,
  let initData := Get c "X-Telegram-Init-Data" in
  if bool_decide (initData = EmptyString) then
    unauthorized c "Missing X-Telegram-Init-Data header"
  else
    match Telegram.ValidateInitData (unix c) initData config with
    | inl err => unauthorized c ("Invalid Telegram authentication: " +:+ auth_text err)
    | inr data =>
        match Telegram.ParseUserData data with
        | inl err => unauthorized c ("Failed to parse user data: " +:+ auth_text err)
        | inr (userID, username) => next (inject userID username c)
        end
    end.

Definition OptionalAuthMiddleware (config : AuthConfig) (next : Handler L W) : Handler L W :=
  λ c,
  let initData := Get c "X-Telegram-Init-Data" in
  if bool_decide (initData = EmptyString) then next c
  else
    match Telegram.ValidateInitData (unix c) initData config with
    | inl _ => next c
    | inr data =>
        match Telegram.ParseUserData data with
        | inl _ => next c
        | inr (userID, username) => next (inject userID username c)
        end
    end.

Definition GetUserIDFromContext (c : Ctx) : Z :=
  match Locals c !! UserIDKey with Some (LInt64 userID) => userID | _ => 0 end.
Definition GetUsernameFromContext (c : Ctx) : string :=
  match Locals c !! UsernameKey with Some (LString username) => username | _ => EmptyString end.
End Auth.
End TelegramAuth.

(** ** ratelimit/middleware.go *)

Record LimiterContext := mkLimiterContext {
  Limit : Z; Remaining : Z; Reset : Z; Reached : bool }.

(** The limiter package: a rate from its text, and one request counted against a key. *)
Class LimiterLib (L : Type) := {
  Rate : Type;
  NewRateFromFormatted : string → string + Rate;
  memory_NewStore : L;
  instance_Get : Rate → Z → string → ST L (string + LimiterContext)
}.
Arguments Rate L {_}. Arguments memory_NewStore L {_}.

Module RateLimit.
Record Config := mkConfig { cfg_Rate : string; UserIDHeader : string }.
Definition DefaultConfig : Config := mkConfig "100-M" "X-Telegram-User-Id".

(** [time.Duration.String] on whole seconds. *)
Definition duration_text (s : Z) : string :=
  let a := Z.abs s in
  let text := if a <? 60 then FormatInt a +:+ "s"
              else if a <? 3600 then FormatInt (a / 60) +:+ "m" +:+ FormatInt (a mod 60) +:+ "s"
              else FormatInt (a / 3600) +:+ "h" +:+ FormatInt (a / 60 mod 60) +:+ "m" +:+
                   FormatInt (a mod 60) +:+ "s" in
  if s <? 0 then "-" +:+ text else text.

(** [time.Until(time.Unix(reset, 0)).Round(time.Second)], in seconds: halves away from 0. *)
Definition wait_seconds (reset now : Z) : Z :=
  let d := reset * 10 ^ 9 - now in
  Z.sgn d * ((2 * Z.abs d + 10 ^ 9) / (2 * 10 ^ 9)).

Definition skipped (path : string) : bool :=
  let l := bytes path in
  bool_decide (path = "/health") || bool_decide (path = "/healthz") ||
  bool_decide (path = "/metrics") || bool_decide (path = "/swagger") ||
  bool_decide (path = "/api/docs") ||
  (8 <? length l)%nat && bool_decide (take 8 l = bytes "/swagger") ||
  (3 <=? length l)%nat && bool_decide (take 3 l = bytes "/ws").

Section Limit.
Context {L W : Type} `{LimiterLib L}.

Definition userID (cfg : Config) (c : Ctx) : string :=
  let id := Get c (UserIDHeader cfg) in
  if bool_decide (id = EmptyString) then IP c else id.

Definition limit_headers (x : LimiterContext) (c : Ctx) : Ctx :=
  set_header "X-RateLimit-Reset" (FormatInt (Reset x))
    (set_header "X-RateLimit-Remaining" (FormatInt (Remaining x))
      (set_header "X-RateLimit-Limit" (FormatInt (Limit x)) c)).

Definition refuse (id : string) (x : LimiterContext) (c : Ctx) : Ctx :=
  respond StatusTooManyRequests
    (Some (LimitMap ("Rate limit exceeded. Try again in " +:+
                     duration_text (wait_seconds (Reset x) (Now c))) (Reset x)))
    (set_local (StringKey "user_identifier") (LString id)
      (set_local (StringKey "rate_limit_exceeded") (LBool true) c)).

Definition limited (cfg : Config) (rate : Rate L) (next : Handler L W) : Handler L W := λ c,
  if skipped (Path c) then next c
  else
    let id := userID cfg c in
    res ← onStore (instance_Get rate (Now c) id);
    match res with
    | inl err => next (set_local (StringKey "rate_limit_error") (LString err) c)
    | inr x =>
        let c := limit_headers x c in
        if Reached x then mret (refuse id x c, Returned None) else next c
    end.

(** [New] panics when the text of the rate does not parse. *)
Definition New (config : list Config) : string + (Handler L W → Handler L W) :=
  let cfg := match config with cfg :: _ => cfg | [] => DefaultConfig end in
  match NewRateFromFormatted (cfg_Rate cfg) with
  | inl err => inl ("invalid rate limit format: " +:+ err)
  | inr rate => inr (limited cfg rate)
  end.
End Limit.
End RateLimit.

(** ** cors/middleware.go *)

Record CorsConfig := mkCorsConfig {
  AllowOrigins : string; AllowMethods : string; AllowHeaders : string;
  AllowCredentials : bool; MaxAgeSeconds : Z }.

(** The cors package of the framework; [inl] is a panic of its [New]. *)
Class CorsLib (L W : Type) :=
  cors_New : CorsConfig → string + (Handler L W → Handler L W).

(** [strings.Split] at a byte. *)
Fixpoint split_bytes (c : ascii) (l : list ascii) : list (list ascii) :=
  match l with
  | [] => [[]]
  | x :: l =>
      match split_bytes c l with
      | [] => [[x]]
      | p :: ps => if byte_eqb x c then [] :: p :: ps else (x :: p) :: ps
      end
  end.
Definition Split (s : string) (c : ascii) : list string := of_bytes <$> split_bytes c (bytes s).

Module Cors.
Definition parseOrigins (originsStr : string) : list string :=
  if bool_decide (originsStr = EmptyString) then []
  else filter (λ s, s ≠ EmptyString) (TrimSpace <$> Split originsStr ","%char).

Definition config_of (AllowedOrigins : string) : CorsConfig :=
  let origins := parseOrigins AllowedOrigins in
  let origins := if (length origins =? 0)%nat then ["*"] else origins in
  mkCorsConfig (Join origins ",")
    (Join ["GET"; "POST"; "PUT"; "DELETE"; "PATCH"; "OPTIONS"] ",")
    (Join ["Origin"; "Content-Type"; "Accept"; "Authorization"; "X-Telegram-Init-Data";
           "Upgrade"; "Connection"; "Sec-WebSocket-Key"; "Sec-WebSocket-Version";
           "Sec-WebSocket-Extensions"; "Sec-WebSocket-Protocol"] ",")
    true 86400.

Definition New {L W} `{CorsLib L W} (AllowedOrigins : string) :
    string + (Handler L W → Handler L W) := cors_New (config_of AllowedOrigins).
End Cors.

(** ** controller/http/middleware: logger.go and recovery.go *)

(** The length of a marshalled body, and the text of the stack of a panic. *)
Class BodyText := { body_length : option Body → Z; stack_text : string }.

(** The recover package: it wraps the next handler, given what to do with the value of a
    panic. *)
Class RecoverLib (L W : Type) :=
  recover_New : (Ctx → string → ST (Web L W) unit) → Handler L W → Handler L W.

Module HttpMiddleware.
Section Middleware.
Context {L W : Type} `{BodyText}.

Definition buildRequestMessage (c : Ctx) : string :=
  IP c +:+ " - " +:+ Method c +:+ " " +:+ OriginalURL c +:+ " - " +:+
  FormatInt (status c) +:+ " " +:+ FormatInt (body_length (body c)).

(** A panic of the next handler passes by: the line is not written. *)
Definition Logger (next : Handler L W) : Handler L W := λ c,
  '(c, e) ← next c;
  match e with
  | Panicking v => mret (c, Panicking v)
  | Returned err => log_line LevelInfo (buildRequestMessage c);; mret (c, Returned err)
  end.

Definition buildPanicMessage (c : Ctx) (err : string) : string :=
  IP c +:+ " - " +:+ Method c +:+ " " +:+ OriginalURL c +:+ " PANIC DETECTED: " +:+ err +:+
  String newline stack_text +:+ String newline EmptyString.

Definition logPanic (c : Ctx) (err : string) : ST (Web L W) unit :=
  log_line LevelError (buildPanicMessage c err).

Definition Recovery `{RecoverLib L W} : Handler L W → Handler L W := recover_New logPanic.
End Middleware.
End HttpMiddleware.

(** ** metrics/middleware.go: the counter; durations are left out *)

Module HttpMetrics.
Definition New {L W} (next : Handler L W) : Handler L W := λ c,
  '(c, e) ← next c;
  match e with
  | Panicking v => mret (c, Panicking v)
  | Returned err =>
      let path := if bool_decide (RoutePath c = EmptyString) then Path c else RoutePath c in
      count_request (Method c, path, FormatInt (status c));; mret (c, Returned err)
  end.
End HttpMetrics.

(** ** controller/http/middleware/validator.go *)

(** What the validator package tells of a field that fails. *)
Record FieldError := mkFieldError { Field : string; Tag : string; Param : string }.

Module Validator.
Definition formatValidationError (fe : FieldError) : string :=
  if bool_decide (Tag fe = "required") then Field fe +:+ " is required"
  else if bool_decide (Tag fe = "email") then Field fe +:+ " must be a valid email address"
  else if bool_decide (Tag fe = "min") then Field fe +:+ " must be at least " +:+ Param fe
  else if bool_decide (Tag fe = "max") then Field fe +:+ " must be at most " +:+ Param fe
  else if bool_decide (Tag fe = "len") then
    Field fe +:+ " must be exactly " +:+ Param fe +:+ " characters"
  else if bool_decide (Tag fe = "tonaddress") then
    Field fe +:+ " must be a valid TON wallet address"
  else Field fe +:+ " failed validation (" +:+ Tag fe +:+ ")".

Definition q (s : string) : string := quote_char +:+ s +:+ quote_char.

(** [fields] in the order in which the range visits the map. *)
Definition formatErrorResponse (errorCode message : string) (fields : list (string * string)) :
    string :=
  let head := "{" +:+ q "error" +:+ ":" +:+ q errorCode +:+ "," +:+
              q "message" +:+ ":" +:+ q message in
  match fields with
  | [] => head +:+ "}"
  | _ =>
      let fieldsJSON := Join ((λ '(k, v), q k +:+ ":" +:+ q v) <$> fields) "," in
      head +:+ "," +:+ q "fields" +:+ ":" +:+ "{" +:+ fieldsJSON +:+ "}" +:+ "}"
  end.

(** The check behind the tag "tonaddress". *)
Definition tonaddress (address : string) : bool :=
  let validChars :=
    bytes "ABCDEFGHIJKLMNOPQRSTUVWXYZabcdefghijklmnopqrstuvwxyz0123456789_-" in
  let l := bytes address in
  (length l =? 48)%nat &&
  (has_prefix (bytes "EQ") l || has_prefix (bytes "UQ") l) &&
  forallb (λ x, existsb (byte_eqb x) validChars) (drop 2 l).
End Validator.

(** ** router.go: the middleware in the order in which it is installed *)

(** The framework: it finds the handler of a request, and writes the response to an error
    that comes back from the chain. *)
Class FiberApp (L W : Type) := {
  route : Handler L W;
  ErrorHandler : http_error → Ctx → Ctx
}.

Section Router.
Context {L W : Type} `{LimiterLib L} `{CorsLib L W} `{RecoverLib L W} `{BodyText}.
Context `{FiberApp L W}.

(** The chain in front of the routes; [inl] is a panic while it is set up. *)
Definition NewRouter (CORSAllowedOrigins : string) : string + Handler L W :=
  match Cors.New CORSAllowedOrigins, RateLimit.New [] with
  | inl v, _ | _, inl v => inl v
  | inr cors, inr limit =>
      inr (cors (HttpMiddleware.Logger (HttpMiddleware.Recovery (limit (HttpMetrics.New route)))))
  end.

(** One request: an error that comes back is turned into a response. *)
Definition serve (app : Handler L W) (c : Ctx) : ST (Web L W) (Ctx * Ending) :=
  '(c, e) ← app c;
  mret match e with
       | Returned (Some err) => (ErrorHandler err c, Returned None)
       | _ => (c, e)
       end.
End Router.
