(* ===== verification/MiddlewareSpec.v ===== *)
(** * What the middleware does to a request

    Who is let through and as whom, how many requests of one identifier are served in a
    window and why that bounds nobody, and what becomes of errors and panics on their way
    out of the chain. *)
From Stdlib Require Import Ascii String.
From S2P Require Import Prelude GoTypes Entity Rest Telegram TelegramSpec Middleware.

(** ** Authentication *)

Section Auth.
Context {L W : Type} `{MapRange} `{ErrorText}.

(** The user a request proves to come from. *)
Definition authenticated (config : AuthConfig) (c : Ctx) : option (Z * string) :=
  match Telegram.ValidateInitData (TelegramAuth.unix c) (Get c "X-Telegram-Init-Data") config with
  | inr d => match Telegram.ParseUserData d with inr u => Some u | inl _ => None end
  | inl _ => None
  end.

Lemma ParseUserData_iff d id name :
  Telegram.ParseUserData d = inr (id, name) ↔
  Sscanf_d (Telegram.field d "user_id") = Some id ∧ name = Telegram.field d "username".
Proof.
  unfold Telegram.ParseUserData. case_bool_decide as Hu.
  - rewrite Hu. case_bool_decide; cbn; naive_solver.
  - destruct (Sscanf_d _); naive_solver.
Qed.

Lemma authenticated_iff config c id name :
  authenticated config c = Some (id, name) ↔
  ∃ values authDate (d : Data),
    Url.ParseQuery (Get c "X-Telegram-Init-Data") = (values, None) ∧
    d = first_values (delete "hash" values) ∧
    Url.Get values "hash" = Telegram.computedHash config (checkText d) ∧
    Sscanf_d (Telegram.field d "auth_date") = Some authDate ∧
    wrap64 (TelegramAuth.unix c - authDate) ≤ Telegram.maxAge config ∧
    Sscanf_d (Telegram.field d "user_id") = Some id ∧ name = Telegram.field d "username".
Proof.
  unfold authenticated. split.
  - destruct (Telegram.ValidateInitData _ _ _) as [|d] eqn:Hv; [done|].
    destruct (Telegram.ParseUserData d) as [|[id' name']] eqn:Hp; [done|]. intros [= -> ->].
    apply ValidateInitData_spec in Hv as (values & a & ?). apply ParseUserData_iff in Hp.
    exists values, a, d. naive_solver.
  - intros (values & a & d & ? & ? & ? & ? & ? & Hu).
    rewrite (proj2 (ValidateInitData_spec _ _ _ d)) by eauto 8.
    by rewrite (proj2 (ParseUserData_iff d id name)).
Qed.

Lemma inject_user id name c :
  TelegramAuth.GetUserIDFromContext (TelegramAuth.inject id name c) = id ∧
  TelegramAuth.GetUsernameFromContext (TelegramAuth.inject id name c) = name.
Proof.
  unfold TelegramAuth.GetUserIDFromContext, TelegramAuth.GetUsernameFromContext.
  cbn [TelegramAuth.inject set_local Locals].
  by rewrite lookup_insert_eq, lookup_insert_ne, lookup_insert_eq by done.
Qed.

(** C24: Behind the authentication, a handler runs exactly for the requests that prove their
    user, and sees that user: otherwise the answer is 401 and nothing else happens. The
    optional form always runs the handler, with the user only if it is proved. A user is
    proved by a header whose query string is signed under the bot token, is not too old and
    gives the user's id. *)
Theorem AuthMiddleware_spec config (next : Handler L W) c w :
  match authenticated config c with
  | Some (id, name) =>
      let c' := TelegramAuth.inject id name c in
      TelegramAuth.AuthMiddleware config next c w = next c' w ∧
      TelegramAuth.OptionalAuthMiddleware config next c w = next c' w ∧
      TelegramAuth.GetUserIDFromContext c' = id ∧
      TelegramAuth.GetUsernameFromContext c' = name ∧
      ∃ values authDate (d : Data),
        Url.ParseQuery (Get c "X-Telegram-Init-Data") = (values, None) ∧
        d = first_values (delete "hash" values) ∧
        Url.Get values "hash" = Telegram.computedHash config (checkText d) ∧
        Sscanf_d (Telegram.field d "auth_date") = Some authDate ∧
        wrap64 (TelegramAuth.unix c - authDate) ≤ Telegram.maxAge config ∧
        Sscanf_d (Telegram.field d "user_id") = Some id ∧ name = Telegram.field d "username"
  | None =>
      TelegramAuth.OptionalAuthMiddleware config next c w = next c w ∧
      ∃ message, TelegramAuth.AuthMiddleware config next c w =
        (respond StatusUnauthorized (Some (ErrorMap "unauthorized" message)) c, Returned None, w)
  end.
Proof.
  destruct (authenticated config c) as [[id name]|] eqn:Ha.
  - pose proof (proj1 (authenticated_iff config c id name) Ha) as Hs.
    cbv zeta. unfold TelegramAuth.AuthMiddleware, TelegramAuth.OptionalAuthMiddleware.
    unfold authenticated in Ha.
    destruct (decide (Get c "X-Telegram-Init-Data" = EmptyString)) as [He|He].
    { rewrite He in Ha. discriminate Ha. }
    rewrite !bool_decide_false by done.
    destruct (Telegram.ValidateInitData _ _ _) as [|d]; [done|].
    destruct (Telegram.ParseUserData d) as [|u]; [done|]. injection Ha as ->.
    destruct (inject_user id name c). done.
  - unfold TelegramAuth.AuthMiddleware, TelegramAuth.OptionalAuthMiddleware. unfold authenticated in Ha.
    case_bool_decide; [split; [done|]; by eexists|].
    destruct (Telegram.ValidateInitData _ _ _) as [|d]; [split; [done|]; by eexists|].
    destruct (Telegram.ParseUserData d) as [|u]; [split; [done|]; by eexists|done].
Qed.
End Auth.

(** ** The limiter *)

(** The documented behaviour of the limiter package with its memory store: fixed windows, a
    counter for each key, and a limit that is passed when the counter exceeds it. *)
Class FixedWindow (L : Type) `{LimiterLib L} := {
  rate_limit : Rate L → Z;
  rate_period : Rate L → Z;
  used : L → string → Z;
  expires : L → string → Z;
  minute_rate : ∃ r, NewRateFromFormatted "100-M" = inr r ∧ rate_limit r = 100 ∧
                     rate_period r = 60 * 10 ^ 9;
  new_store k : used (memory_NewStore L) k = 0;
  Get_counts r now k l : ∃ x l', instance_Get r now k l = (inr x, l') ∧
    used l' k = (if now <? expires l k then used l k + 1 else 1) ∧
    expires l' k = (if now <? expires l k then expires l k else now + rate_period r) ∧
    (∀ k', k' ≠ k → used l' k' = used l k' ∧ expires l' k' = expires l k') ∧
    Reached x = (rate_limit r <? used l' k)
}.

Section Limiter.
Context {L W : Type} `{FixedWindow L}.
Variables (cfg : RateLimit.Config) (rate : Rate L).

(** Is the request let through, and what is left in the store. *)
Definition admits (c : Ctx) (l : L) : bool :=
  RateLimit.skipped (Path c) ||
  match (instance_Get rate (Now c) (RateLimit.userID cfg c) l).1 with
  | inr x => negb (Reached x)
  | inl _ => true
  end.
Definition after (c : Ctx) (l : L) : L :=
  if RateLimit.skipped (Path c) then l
  else (instance_Get rate (Now c) (RateLimit.userID cfg c) l).2.

(** The verdicts on a sequence of requests whose handlers leave the store alone. *)
Fixpoint verdicts (cs : list Ctx) (l : L) : list bool :=
  match cs with
  | [] => []
  | c :: cs => admits c l :: verdicts cs (after c l)
  end.

(** What the handler is given. *)
Definition limit_ctx (c : Ctx) (l : L) : Ctx :=
  if RateLimit.skipped (Path c) then c
  else match (instance_Get rate (Now c) (RateLimit.userID cfg c) l).1 with
       | inr x => RateLimit.limit_headers x c
       | inl err => set_local (StringKey "rate_limit_error") (LString err) c
       end.

Definition with_store (l : L) (w : Web L W) : Web L W :=
  mkWeb l (log_lines w) (http_requests w) (world w).

Lemma limited_spec (next : Handler L W) c w :
  if admits c (store w) then
    RateLimit.limited cfg rate next c w =
    next (limit_ctx c (store w)) (with_store (after c (store w)) w)
  else ∃ c', RateLimit.limited cfg rate next c w =
             (c', Returned None, with_store (after c (store w)) w) ∧
             status c' = StatusTooManyRequests.
Proof.
  unfold admits, limit_ctx, after, RateLimit.limited.
  destruct (RateLimit.skipped (Path c)); cbn [orb].
  { destruct w. done. }
  unfold mbind, ST_bind, onStore, zoom.
  destruct (instance_Get rate (Now c) (RateLimit.userID cfg c) (store w)) as [[err|x] l];
    cbn; [done|].
  destruct (Reached x); cbn; [|done]. eexists. by split.
Qed.

(** The requests of one identifier in one window. *)
Lemma verdicts_window cs l k e n :
  Forall (λ c, RateLimit.skipped (Path c) = false ∧ RateLimit.userID cfg c = k ∧ Now c < e) cs →
  expires l k = e → used l k = n →
  verdicts cs l = (λ i, n + Z.of_nat i <? rate_limit rate) <$> seq 0 (length cs).
Proof.
  revert l n. induction cs as [|c cs IH]; intros l n; [done|].
  intros [(Hskip & Hk & Hnow) Hcs]%Forall_cons He Hn. cbn [verdicts length seq fmap list_fmap].
  unfold admits, after. rewrite Hskip, Hk.
  destruct (Get_counts rate (Now c) k l) as (x & l' & -> & Hu & He' & _ & Hr). cbn.
  assert ((Now c <? expires l k) = true) as Hlt by (rewrite He; by apply Z.ltb_lt).
  rewrite Hlt in Hu, He'. f_equal.
  - rewrite Hr, Hu, Hn, <-Z.leb_antisym.
    apply eq_true_iff_eq. rewrite Z.leb_le, Z.ltb_lt. lia.
  - rewrite (IH l' (n + 1)) by (done || congruence).
    rewrite <-fmap_S_seq, <-list_fmap_compose. apply list_fmap_ext. intros _ i _. cbn.
    f_equal. lia.
Qed.

(** Requests with identifiers that were not seen before. *)
Lemma verdicts_fresh cs l :
  1 ≤ rate_limit rate →
  NoDup (RateLimit.userID cfg <$> cs) → Forall (λ c, used l (RateLimit.userID cfg c) = 0) cs →
  verdicts cs l = replicate (length cs) true.
Proof.
  intros Hrate. revert l. induction cs as [|c cs IH]; intros l; [done|].
  intros [Hc Hnd]%NoDup_cons [Hu Hcs]%Forall_cons. cbn [verdicts length replicate].
  unfold admits, after. destruct (RateLimit.skipped (Path c)); cbn [orb].
  { f_equal. by apply IH. }
  destruct (Get_counts rate (Now c) (RateLimit.userID cfg c) l) as (x & l' & -> & Hu' & _ & Ho & Hr).
  cbn. f_equal.
  - rewrite Hr, Hu', Hu. case_match; apply negb_true_iff, Z.ltb_ge; lia.
  - apply IH; [done|]. rewrite Forall_forall in Hcs |- *. intros c' Hc'.
    destruct (Ho (RateLimit.userID cfg c')) as [-> _]; [|by apply Hcs].
    intros Heq. apply Hc. rewrite <-Heq. by apply list_elem_of_fmap_2.
Qed.

(** The requests of one identifier from the one that opens a window on. *)
Lemma verdicts_opening c0 cs l k :
  1 ≤ rate_limit rate → expires l k ≤ Now c0 →
  Forall (λ c, RateLimit.skipped (Path c) = false ∧ RateLimit.userID cfg c = k ∧
               Now c < Now c0 + rate_period rate) (c0 :: cs) →
  verdicts (c0 :: cs) l = (λ i, Z.of_nat i <? rate_limit rate) <$> seq 0 (S (length cs)).
Proof.
  intros Hrate He [(Hskip & Hk & _) Hcs]%Forall_cons. cbn [verdicts seq fmap list_fmap].
  unfold admits, after. rewrite Hskip, Hk.
  destruct (Get_counts rate (Now c0) k l) as (x & l' & -> & Hu & He' & _ & Hr). cbn.
  assert ((Now c0 <? expires l k) = false) as Hlt by (by apply Z.ltb_ge).
  rewrite Hlt in Hu, He'. f_equal.
  - rewrite Hr, Hu, <-Z.leb_antisym.
    apply eq_true_iff_eq. rewrite Z.leb_le, Z.ltb_lt. lia.
  - rewrite (verdicts_window _ _ _ _ 1 Hcs He' Hu).
    rewrite <-fmap_S_seq, <-list_fmap_compose. apply list_fmap_ext. intros _ i _. cbn.
    f_equal. lia.
Qed.
End Limiter.

(** The identifier a client sends. *)
Definition user_header (c : Ctx) : string := Get c "X-Telegram-User-Id".

Lemma userID_header c k :
  user_header c = k → k ≠ EmptyString → RateLimit.userID RateLimit.DefaultConfig c = k.
Proof.
  unfold user_header, RateLimit.userID. cbn [RateLimit.DefaultConfig RateLimit.UserIDHeader].
  intros <- Hk. by rewrite bool_decide_false.
Qed.

(** A handler that answers every request, and the statuses of the answers to a sequence. *)
Definition answer {L W} : Handler L W := λ c, mret (respond 200 None c, Returned None).

Fixpoint statuses {L W} (h : Handler L W) (cs : list Ctx) (w : Web L W) : list Z :=
  match cs with
  | [] => []
  | c :: cs => let '(c', _, w) := h c w in status c' :: statuses h cs w
  end.

Lemma statuses_verdicts {L W} `{FixedWindow L} cfg rate cs (w : Web L W) :
  statuses (RateLimit.limited cfg rate answer) cs w =
  (λ b : bool, if b then 200 else 429) <$> verdicts cfg rate cs (store w).
Proof.
  revert w. induction cs as [|c cs IH]; intros w; [done|]. cbn [statuses verdicts fmap list_fmap].
  pose proof (limited_spec cfg rate answer c w) as Hl. destruct (admits cfg rate c (store w)).
  - rewrite Hl. cbn. by rewrite IH.
  - destruct Hl as (c' & -> & ->). by rewrite IH.
Qed.

(** C39: The limiter as the router installs it, behind the documented counters: of the
    requests of one identifier in the minute after the one that opens its window, the first
    hundred are served and the others answered 429. And no bound on a client: the identifier
    is a header the client chooses, so any number of requests with identifiers of their own
    are all served. *)
Theorem ratelimit_spec {L W} `{FixedWindow L} :
  ∃ limiter, RateLimit.New (L := L) (W := W) [] = inr limiter ∧
    (∀ k c0 cs w,
       k ≠ EmptyString → expires (store w) k ≤ Now c0 →
       Forall (λ c, RateLimit.skipped (Path c) = false ∧ user_header c = k ∧
                    Now c < Now c0 + 60 * 10 ^ 9) (c0 :: cs) →
       statuses (limiter answer) (c0 :: cs) w =
       (λ i, if Z.of_nat i <? 100 then 200 else 429) <$> seq 0 (S (length cs))) ∧
    (∀ cs w,
       NoDup (user_header <$> cs) →
       Forall (λ c, user_header c ≠ EmptyString ∧ used (store w) (user_header c) = 0) cs →
       statuses (limiter answer) cs w = replicate (length cs) 200).
Proof.
  destruct (minute_rate (L := L)) as (rate & Hrate & Hlimit & Hperiod).
  exists (RateLimit.limited RateLimit.DefaultConfig rate).
  split; [unfold RateLimit.New; cbn [RateLimit.DefaultConfig RateLimit.cfg_Rate]; by rewrite Hrate|].
  split; intros.
  - rewrite statuses_verdicts, (verdicts_opening _ _ _ _ _ k), Hlimit; [|lia|done|].
    + by rewrite <-list_fmap_compose.
    + rewrite Hperiod. eapply Forall_impl; [done|]. cbn. intros c (? & Hc & ?).
      by rewrite (userID_header c k).
  - rewrite statuses_verdicts, verdicts_fresh; [by rewrite fmap_replicate|lia|..].
    + rewrite (list_fmap_ext _ user_header); [done|]. intros i c Hc%list_elem_of_lookup_2.
      eapply Forall_forall in Hc; [|done]. destruct Hc. by rewrite (userID_header c _ eq_refl).
    + eapply Forall_impl; [done|]. cbn. intros c [? Hu]. by rewrite (userID_header c _ eq_refl).
Qed.

(** ** Errors and panics on their way out *)

(** The documented behaviour of the framework's packages. *)
Class Framework (L W : Type) `{CorsLib L W} `{RecoverLib L W} `{FiberApp L W} := {
  preflight : CorsConfig → Ctx → bool;
  cors_headers : CorsConfig → Ctx → Ctx;    (* the context with the headers of the answer *)
  error_code : http_error → Z;
  (* credentials for any origin are refused when the server starts *)
  cors_insecure cfg : AllowCredentials cfg = true → AllowOrigins cfg = "*" →
    ∃ v, cors_New cfg = inl v;
  cors_passes cfg m next c w : cors_New cfg = inr m → preflight cfg c = false →
    m next c w = next (cors_headers cfg c) w;
  recover_returns log (next : Handler L W) c w :
    recover_New log next c w =
    match next c w with
    | (c', Panicking v, w') => (c', Returned (Some (OtherError v)), (log c' v w').2)
    | r => r
    end;
  ErrorHandler_status e c : status (ErrorHandler e c) = error_code e;
  error_code_FiberError code m : error_code (FiberError code m) = code;
  error_code_OtherError m : error_code (OtherError m) = 500
}.

Section Serve.
Context {L W : Type} `{FixedWindow L} `{Framework L W} `{BodyText}.

Definition add_lines (ls : list (level * string)) (w : Web L W) : Web L W :=
  mkWeb (store w) (log_lines w ++ ls) (http_requests w) (world w).
Definition add_request (r : string * string * string) (w : Web L W) : Web L W :=
  mkWeb (store w) (log_lines w) (http_requests w ++ [r]) (world w).

Definition metric (c : Ctx) : string * string * string :=
  (Method c, if bool_decide (RoutePath c = EmptyString) then Path c else RoutePath c,
   FormatInt (status c)).

(** What the client gets when the chain ends in [e]. *)
Definition reply (c : Ctx) (e : option http_error) : Ctx :=
  match e with Some err => ErrorHandler err c | None => c end.

Variables (origins : string) (app : Handler L W) (rate : Rate L).
Hypothesis Happ : NewRouter origins = inr app.
Hypothesis Hrate : RateLimit.New (L := L) (W := W) [] =
                   inr (RateLimit.limited RateLimit.DefaultConfig rate).

Notation cfg := RateLimit.DefaultConfig.

Lemma chain c w :
  preflight (Cors.config_of origins) c = false →
  app c w = HttpMiddleware.Logger (HttpMiddleware.Recovery
    (RateLimit.limited cfg rate (HttpMetrics.New route)))
    (cors_headers (Cors.config_of origins) c) w.
Proof.
  intros Hc. revert Happ. unfold NewRouter. rewrite Hrate. unfold Cors.New.
  destruct (cors_New (Cors.config_of origins)) as [v|m] eqn:Hm; [done|].
  intros [= <-]. by apply cors_passes.
Qed.

(** What a request that is let through comes to. *)
Lemma serve_admitted c w :
  preflight (Cors.config_of origins) c = false →
  let c1 := cors_headers (Cors.config_of origins) c in
  admits cfg rate c1 (store w) = true →
  serve app c w =
  match route (limit_ctx cfg rate c1 (store w)) (with_store (after cfg rate c1 (store w)) w) with
  | (c2, Returned e, w2) =>
      (reply c2 e, Returned None,
       add_lines [(LevelInfo, HttpMiddleware.buildRequestMessage c2)]
         (add_request (metric c2) w2))
  | (c2, Panicking v, w2) =>
      (reply c2 (Some (OtherError v)), Returned None,
       add_lines [(LevelError, HttpMiddleware.buildPanicMessage c2 v);
                  (LevelInfo, HttpMiddleware.buildRequestMessage c2)] w2)
  end.
Proof.
  intros Hc c1 Ha. unfold serve, mbind, ST_bind, mret, ST_ret. rewrite chain by done. fold c1.
  unfold HttpMiddleware.Logger, HttpMiddleware.Recovery, mbind, ST_bind, mret, ST_ret.
  rewrite recover_returns.
  pose proof (limited_spec cfg rate (HttpMetrics.New route) c1 w) as Hl. rewrite Ha in Hl.
  rewrite Hl. unfold HttpMetrics.New, mbind, ST_bind, mret, ST_ret.
  destruct (route _ _) as [[c2 [e|v]] w2]; cbn [fst snd]; [by destruct e|].
  unfold add_lines. cbn. by rewrite <-app_assoc.
Qed.

(** What a request over the limit comes to. *)
Lemma serve_refused c w :
  preflight (Cors.config_of origins) c = false →
  let c1 := cors_headers (Cors.config_of origins) c in
  admits cfg rate c1 (store w) = false →
  ∃ c2, serve app c w =
    (c2, Returned None,
     add_lines [(LevelInfo, HttpMiddleware.buildRequestMessage c2)]
       (with_store (after cfg rate c1 (store w)) w)) ∧
    status c2 = StatusTooManyRequests.
Proof.
  intros Hc c1 Ha. unfold serve, mbind, ST_bind, mret, ST_ret. rewrite chain by done. fold c1.
  unfold HttpMiddleware.Logger, HttpMiddleware.Recovery, mbind, ST_bind, mret, ST_ret.
  rewrite recover_returns.
  pose proof (limited_spec cfg rate (HttpMetrics.New route) c1 w) as Hl. rewrite Ha in Hl.
  destruct Hl as (c2 & -> & Hs). exists c2. by split.
Qed.

(** C23: A request through the whole chain, unless it is a preflight. A request over the limit
    is answered 429 and logged; the route does not run, nothing is counted and the service
    behind it is not touched. Otherwise the route runs, once. What it returns is counted and
    logged with the status it left, and only then is an error turned into the response; a
    panic goes no further than the recovery: it is logged, answered as an internal error
    and not counted. *)
Theorem serve_spec c w (Hc : preflight (Cors.config_of origins) c = false) :
  let c1 := cors_headers (Cors.config_of origins) c in
  let w1 := with_store (after cfg rate c1 (store w)) w in
  if admits cfg rate c1 (store w) then
    match route (limit_ctx cfg rate c1 (store w)) w1 with
    | (c2, Returned e, w2) =>
        serve app c w =
        (reply c2 e, Returned None,
         add_lines [(LevelInfo, HttpMiddleware.buildRequestMessage c2)]
           (add_request (metric c2) w2))
    | (c2, Panicking v, w2) =>
        serve app c w =
        (reply c2 (Some (OtherError v)), Returned None,
         add_lines [(LevelError, HttpMiddleware.buildPanicMessage c2 v);
                    (LevelInfo, HttpMiddleware.buildRequestMessage c2)] w2)
    end
  else ∃ c2, serve app c w =
         (c2, Returned None,
          add_lines [(LevelInfo, HttpMiddleware.buildRequestMessage c2)] w1) ∧
         status c2 = StatusTooManyRequests.
Proof.
  cbv zeta. destruct (admits cfg rate _ (store w)) eqn:Ha; [|by apply serve_refused].
  rewrite serve_admitted by done. by destruct (route _ _) as [[c2 [e|v]] w2].
Qed.

(** An error that is returned with the status untouched is answered with its own code, but
    logged and counted as a success. *)
Lemma errors_counted_as_200 c w c2 err w2 :
  preflight (Cors.config_of origins) c = false →
  let c1 := cors_headers (Cors.config_of origins) c in
  admits cfg rate c1 (store w) = true →
  route (limit_ctx cfg rate c1 (store w)) (with_store (after cfg rate c1 (store w)) w) =
    (c2, Returned (Some err), w2) →
  status c2 = 200 →
  status (serve app c w).1.1 = error_code err ∧
  ∃ m p, http_requests (serve app c w).2 = http_requests w2 ++ [(m, p, "200")].
Proof.
  intros Hc c1 Ha Hr Hs. rewrite serve_admitted by done. fold c1. rewrite Hr. cbn. split.
  - apply ErrorHandler_status.
  - unfold metric. rewrite Hs. by eexists _, _.
Qed.
End Serve.

(** ** Origins *)

Lemma split_bytes_cons c p l : c ∉ p → split_bytes c (p ++ c :: l) = p :: split_bytes c l.
Proof.
  induction p as [|x p IH]; cbn; intros Hp.
  - unfold byte_eqb. rewrite bool_decide_true by done.
    by destruct l as [|y l]; [|cbn; destruct (split_bytes c l); [|destruct (byte_eqb y c)]].
  - rewrite IH by set_solver. unfold byte_eqb. by rewrite bool_decide_false by set_solver.
Qed.

Lemma split_bytes_single c p : c ∉ p → split_bytes c p = [p].
Proof.
  induction p as [|x p IH]; cbn; intros Hp; [done|]. rewrite IH by set_solver.
  unfold byte_eqb. by rewrite bool_decide_false by set_solver.
Qed.

Lemma split_bytes_without c l p : p ∈ split_bytes c l → c ∉ p.
Proof.
  revert p. induction l as [|x l IH]; intros p; cbn.
  { rewrite list_elem_of_singleton. intros ->. set_solver. }
  destruct (split_bytes c l) as [|q qs] eqn:Hs.
  { destruct l; [done|]. cbn in Hs. destruct (split_bytes c l); [done|]. by case_match. }
  unfold byte_eqb. case_bool_decide as Hx; rewrite !elem_of_cons; intros [->|Hp].
  - set_solver.
  - apply IH. set_solver.
  - intros [->|Hin]%elem_of_cons; [done|]. eapply (IH q); [set_solver|done].
  - apply IH. set_solver.
Qed.

Lemma Split_Join c l :
  l ≠ [] → Forall (λ s, c ∉ bytes s) l → Split (Join l (String c EmptyString)) c = l.
Proof.
  intros Hne Hl. unfold Split. induction Hl as [|s [|t l] Hs Hl IH]; [done|..].
  - cbn [Join]. rewrite split_bytes_single by done. cbn. by rewrite of_bytes_bytes.
  - change (Join (s :: t :: l) (String c EmptyString)) with
      (s +:+ String c EmptyString +:+ Join (t :: l) (String c EmptyString)).
    rewrite !bytes_app. change (bytes (String c EmptyString)) with [c]. cbn [app].
    rewrite split_bytes_cons by done. cbn. rewrite of_bytes_bytes. f_equal. by apply IH.
Qed.

(** Trimming takes bytes away only. *)
Lemma TrimSpace_bytes s x : x ∈ bytes (TrimSpace s) → x ∈ bytes s.
Proof.
  unfold TrimSpace. cbv zeta. rewrite bytes_of_bytes, list_elem_of_In, <-in_rev, <-list_elem_of_In.
  set (l := trim_left space_encodings _ _).
  destruct (trim_left_suffix (map (@rev ascii) space_encodings) (length l) (rev l)) as [p Hp].
  destruct (trim_left_suffix space_encodings (String.length s) (bytes s)) as [p' Hp'].
  fold l in Hp'. intros Hx. rewrite Hp'. apply elem_of_app. right.
  assert (x ∈ rev l) as Hr by (rewrite Hp; apply elem_of_app; by right).
  by rewrite list_elem_of_In, <-in_rev, <-list_elem_of_In in Hr.
Qed.

Lemma parseOrigins_clean s t :
  t ∈ Cors.parseOrigins s → t ≠ EmptyString ∧ TrimSpace t = t ∧ ","%char ∉ bytes t.
Proof.
  unfold Cors.parseOrigins. case_bool_decide; [by intros ?%elem_of_nil|].
  rewrite list_elem_of_filter. intros [Hne (u & -> & Hu)%list_elem_of_fmap].
  split; [done|]. split; [apply TrimSpace_idem|].
  unfold Split in Hu. apply list_elem_of_fmap in Hu as (p & -> & Hp).
  intros Hin%TrimSpace_bytes. rewrite bytes_of_bytes in Hin.
  by apply split_bytes_without in Hp.
Qed.

Lemma filter_keeps_all {A} (P : A → Prop) `{∀ x, Decision (P x)} l : Forall P l → filter P l = l.
Proof. induction 1 as [|x l Hx _ IH]; [done|]. by rewrite filter_cons_True, IH. Qed.

(** The origins that go to the framework are the ones it reads back. *)
Lemma parseOrigins_idem s : Cors.parseOrigins (Join (Cors.parseOrigins s) ",") = Cors.parseOrigins s.
Proof.
  destruct (Cors.parseOrigins s) as [|t l] eqn:Hl; [done|].
  assert (∀ u, u ∈ t :: l → u ≠ EmptyString ∧ TrimSpace u = u ∧ ","%char ∉ bytes u) as Hclean
    by (rewrite <-Hl; apply parseOrigins_clean).
  unfold Cors.parseOrigins at 1. rewrite bool_decide_false.
  - change "," with (String ","%char EmptyString).
    rewrite Split_Join; [|done|apply Forall_forall; intros u Hu; by apply Hclean].
    rewrite <-(list_fmap_id (t :: l)) at 2.
    rewrite (list_fmap_ext TrimSpace id) by
      (intros i u Hu%list_elem_of_lookup_2; by apply Hclean).
    rewrite list_fmap_id. apply filter_keeps_all. apply Forall_forall.
    intros u Hu. by apply Hclean.
  - destruct (Hclean t) as (Hne & _); [set_solver|]. destruct t; [done|]. by destruct l.
Qed.

(** Without an origin in the configuration any origin is allowed, with credentials; the
    framework refuses that, and the service does not start. *)
Lemma no_origins_no_service {L W} `{FixedWindow L} `{Framework L W} `{BodyText} origins :
  Cors.parseOrigins origins = [] → ∃ v, NewRouter (L := L) (W := W) origins = inl v.
Proof.
  intros Ho. destruct (cors_insecure (Cors.config_of origins)) as [v Hv]; [done|..].
  - unfold Cors.config_of. by rewrite Ho.
  - exists v. unfold NewRouter, Cors.New. by rewrite Hv.
Qed.

(** ** Addresses *)

Lemma valid_chars x :
  existsb (byte_eqb x)
    (bytes "ABCDEFGHIJKLMNOPQRSTUVWXYZabcdefghijklmnopqrstuvwxyz0123456789_-") = address_char x.
Proof. all_bytes x; reflexivity. Qed.

Lemma forallb_valid_chars l :
  forallb (λ x, existsb (byte_eqb x)
    (bytes "ABCDEFGHIJKLMNOPQRSTUVWXYZabcdefghijklmnopqrstuvwxyz0123456789_-")) l =
  forallb address_char l.
Proof. induction l as [|x l IH]; [done|]. cbn [forallb]. by rewrite IH, valid_chars. Qed.

(** The check of requests takes the addresses the entities take and, beyond them, those of
    the form for wallets that cannot bounce. *)
Lemma tonaddress_iff s :
  Validator.tonaddress s = true ↔
  tonAddressRegex s = true ∨
  ∃ t, s = "U" +:+ t ∧ tonAddressRegex ("E" +:+ t) = true.
Proof.
  unfold Validator.tonaddress, tonAddressRegex. cbv zeta. rewrite forallb_valid_chars.
  destruct s as [|x [|y s]]; [split; [done|intros [?|(t & ? & ?)]; [done|by destruct t]]..|].
  change (bytes (String x (String y s))) with (x :: y :: bytes s).
  cbn [length Nat.eqb has_prefix bytes list_ascii_of_string drop]. unfold byte_eqb.
  rewrite !andb_true_iff, orb_true_iff, !andb_true_iff, !bool_decide_eq_true.
  split; [intros [[Hl [[<- [<- _]]|[<- [<- _]]]] Hv]|intros [[[[-> ->] Hl] Hv]|(t & Ht & Hv)]].
  - by left.
  - right. exists (String "Q" s). split; [done|].
    change (bytes ("E" +:+ String "Q" s)) with ("E"%char :: "Q"%char :: bytes s).
    cbv beta iota. rewrite !bool_decide_true by done. exact (proj2 (andb_true_iff _ _) (conj Hl Hv)).
  - split; [split; [done|]|done]. by left.
  - change ("U" +:+ t) with (String "U" t) in Ht. injection Ht as -> <-.
    change (bytes ("E" +:+ String y s)) with ("E"%char :: y :: bytes s) in Hv.
    cbv beta iota in Hv. rewrite !andb_true_iff, !bool_decide_eq_true in Hv. destruct Hv as [[[_ ->] Hl] Hv]. split; [split; [done|]|done]. by right.
Qed.

(** ** Runs *)

Module MiddlewareRun.
Import TelegramRun.

#[local] Instance texts : ErrorText := {| query_text _ := "query"; scan_text _ := "scan" |}.
#[local] Instance body_texts : BodyText := {| body_length _ := 0; stack_text := "stack" |}.

(** Windows of a minute: counter and end of window for each key. *)
Notation Store := (gmap string (Z * Z)).
Definition count (l : Store) (k : string) : Z * Z := default (0, 0) (l !! k).

#[local] Instance memory : LimiterLib Store := {|
  Rate := Z;
  NewRateFromFormatted s := if bool_decide (s = "100-M") then inr 100 else inl "bad format";
  memory_NewStore := ∅;
  instance_Get limit now k l :=
    let '(n, e) := count l k in
    let '(n, e) := if now <? e then (n + 1, e) else (1, now + 60 * 10 ^ 9) in
    (inr (mkLimiterContext limit (limit - n) (e / 10 ^ 9) (limit <? n)), <[k := (n, e)]> l)
|}.

#[local] Program Instance fixed : FixedWindow Store := {|
  rate_limit (r : Rate Store) := (r : Z); rate_period _ := 60 * 10 ^ 9;
  used l k := (count l k).1; expires l k := (count l k).2 |}.
Next Obligation. by exists 100. Qed.
Next Obligation. done. Qed.
Next Obligation.
  intros r now k l. cbn. unfold count. destruct (default (0, 0) (l !! k)) as [n e] eqn:Hk. cbn.
  destruct (now <? e) eqn:He; eexists _, _; (split; [reflexivity|]);
    rewrite lookup_insert_eq; cbn; (split; [done|]); (split; [done|]); (split; [|done]);
    intros k' Hne; by rewrite lookup_insert_ne.
Qed.

(** The framework: origins are checked, panics are recovered, an unknown path is an error. *)
#[local] Instance cors : CorsLib Store nat := λ cfg,
  if AllowCredentials cfg && bool_decide (AllowOrigins cfg = "*") then inl "insecure setup"
  else inr (λ next c, next (set_header "Access-Control-Allow-Origin" (AllowOrigins cfg) c)).

#[local] Instance recover : RecoverLib Store nat := λ log next c w,
  match next c w with
  | (c', Panicking v, w') => (c', Returned (Some (OtherError v)), (log c' v w').2)
  | r => r
  end.

Definition code (e : http_error) : Z :=
  match e with FiberError c _ => c | OtherError _ => 500 end.

#[local] Instance app_routes : FiberApp Store nat := {|
  route c :=
    if bool_decide (Path c = "/api/v1/games") then
      onWorld (modify S);; mret (respond 200 (Some (TextBody "games")) c, Returned None)
    else if bool_decide (Path c = "/panic") then mret (c, Panicking "boom")
    else mret (c, Returned (Some (FiberError 404 "Cannot GET")));
  ErrorHandler e c := respond (code e) (Some (TextBody "error")) c |}.

#[local] Program Instance framework : Framework Store nat := {|
  preflight _ _ := false;
  cors_headers cfg c := set_header "Access-Control-Allow-Origin" (AllowOrigins cfg) c;
  error_code := code |}.
Next Obligation. intros cfg Hc Ho. eexists. unfold cors_New, cors. by rewrite Hc, Ho. Qed.
Next Obligation. intros cfg m next c w. unfold cors_New, cors. by case_match; intros [= <-]. Qed.
Next Obligation. done. Qed.
Next Obligation. done. Qed.
Next Obligation. done. Qed.
Next Obligation. done. Qed.

Definition request (path id : string) : Ctx :=
  mkCtx (10 ^ 18) "GET" path path EmptyString "10.0.0.1"
    (λ name, if bool_decide (name = "X-Telegram-User-Id") then id else EmptyString)
    ∅ [] 200 None.
Definition fresh : Web Store nat := mkWeb ∅ [] [] 0%nat.
Definition origins := " https://t.me, ,http://localhost:5173 ".
Definition limit : Handler Store nat → Handler Store nat :=
  RateLimit.limited (L := Store) RateLimit.DefaultConfig (100 : Rate Store).
Definition app : Handler Store nat :=
  match NewRouter origins with inr app => app | inl _ => route end.

Example parse_origins : Cors.parseOrigins origins = ["https://t.me"; "http://localhost:5173"].
Proof. vm_compute. reflexivity. Qed.

(** Status of the answer, log, counted requests and the service, after a request. *)
Definition outcome (path : string) (w : Web Store nat) :=
  let '(c, e, w) := serve app (request path "7") w in
  (status c, map snd (log_lines w), http_requests w, world w).

Example served : (outcome "/api/v1/games" fresh, outcome "/nowhere" fresh, outcome "/panic" fresh) =
  ((200, ["10.0.0.1 - GET /api/v1/games - 200 0"], [("GET", "/api/v1/games", "200")], 1%nat),
   (404, ["10.0.0.1 - GET /nowhere - 200 0"], [("GET", "/nowhere", "200")], 0%nat),
   (500, ["10.0.0.1 - GET /panic PANIC DETECTED: boom" +:+ String newline "stack" +:+
            String newline EmptyString;
          "10.0.0.1 - GET /panic - 200 0"], [], 0%nat)).
Proof. vm_compute. reflexivity. Qed.

Lemma serve_spec_witness :
  preflight (Cors.config_of origins) (request "/api/v1/games" "7") = false ∧
  ∃ c2, serve app (request "/api/v1/games" "7")
      (mkWeb {[ "7" := (100, 2 * 10 ^ 18) ]} [] [] 0%nat) =
    (c2, Returned None,
     add_lines [(LevelInfo, HttpMiddleware.buildRequestMessage c2)]
       (mkWeb {[ "7" := (101, 2 * 10 ^ 18) ]} [] [] 0%nat)) ∧ status c2 = 429.
Proof.
  split; [done|].
  exact (serve_spec origins app (100 : Rate Store) eq_refl eq_refl
    (request "/api/v1/games" "7") (mkWeb {[ "7" := (100, 2 * 10 ^ 18) ]} [] [] 0%nat) eq_refl).
Defined.

Lemma ratelimit_spec_witness :
  ∃ limiter, RateLimit.New (L := Store) (W := nat) [] = inr limiter ∧
    statuses (limiter answer)
      (request "/api/v1/games" "7" :: replicate 150 (request "/api/v1/games" "7")) fresh =
      (λ i, if Z.of_nat i <? 100 then 200 else 429) <$> seq 0 151 ∧
    statuses (limiter answer)
      [request "/api/v1/games" "1"; request "/api/v1/games" "2"; request "/api/v1/games" "3"]
      fresh = [200; 200; 200].
Proof.
  destruct (ratelimit_spec (L := Store) (W := nat)) as (limiter & Hnew & Hsame & Hother).
  exists limiter. split; [exact Hnew|]. split.
  - apply (Hsame "7" (request "/api/v1/games" "7") (replicate 150 (request "/api/v1/games" "7"))
             fresh); [done|..].
    + vm_compute. discriminate.
    + apply Forall_cons. split; [by vm_compute|]. by apply Forall_replicate; vm_compute.
  - apply Hother.
    + apply (bool_decide_unpack (NoDup _)). vm_compute. done.
    + repeat (apply Forall_cons; split; [by vm_compute|]). by apply Forall_nil.
Defined.

Example refused_wait : RateLimit.duration_text (RateLimit.wait_seconds (2 * 10 ^ 9) (10 ^ 18)) = "277777h46m40s".
Proof. vm_compute. reflexivity. Qed.
End MiddlewareRun.
