(* ===== verification/Logger.v ===== *)
(** * The logger (pkg/logger/logger.go)

    The service logs through an interface with five levels. Below it is a library that
    drops an event whose level is under the global one. *)
From Stdlib Require Import Ascii String.
From S2P Require Import Prelude GoTypes.

(** Levels, in the order of the library. *)
Inductive Level := TraceLevel | DebugLevel | InfoLevel | WarnLevel | ErrorLevel | FatalLevel.
#[export] Instance Level_eq_dec : EqDecision Level.
Proof. solve_decision. Defined.

Definition severity (l : Level) : Z :=
  match l with
  | TraceLevel => -1 | DebugLevel => 0 | InfoLevel => 1 | WarnLevel => 2 | ErrorLevel => 3
  | FatalLevel => 4
  end.

(** The logging library on its own state: the global level, a logger as [zerolog.New] makes
    it with its level, and the writing of an Info event, plain or formatted. *)
Class Zerolog (Lib : Type) := {
  SetGlobalLevel : Level → ST Lib unit;
  GetLevel : Level;
  Info_Msg : string → ST Lib unit;
  Info_Msgf {A} : string → list A → ST Lib unit;
  lines : Lib → list string
}.

(** What a caller passes as a message: an error, a string, or a value of another type, with
    the text that %v gives of it. *)
Inductive Message := MError (e : error) | MString (s : string) | MOther (text : string).

(** How a call ends. *)
Inductive Flow := Continue | Exit (code : Z).

Definition ToLower (s : string) : string := of_bytes (ascii_lower <$> bytes s).

Module Logger.
Section Logger.
Context {Lib A : Type} `{Zerolog Lib}.

(** The level that [New] makes of its setting. *)
Definition level_of (level : string) : Level :=
  let l := ToLower level in
  if bool_decide (l = "error") then ErrorLevel
  else if bool_decide (l = "warn") then WarnLevel
  else if bool_decide (l = "info") then InfoLevel
  else if bool_decide (l = "debug") then DebugLevel
  else InfoLevel.

Definition New (level : string) : ST Lib unit := SetGlobalLevel (level_of level).

Definition log (message : string) (args : list A) : ST Lib unit :=
  match args with [] => Info_Msg message | _ => Info_Msgf message args end.

(** In the default case the message is printed twice, by %v. *)
Definition msg (level : string) (message : Message) (args : list A) : ST Lib unit :=
  match message with
  | MError e => log (Error e) args
  | MString s => log s args
  | MOther text =>
      log (level +:+ " message " +:+ text +:+ " has unknown type " +:+ text) args
  end.

Definition Debug (message : Message) (args : list A) : ST Lib unit := msg "debug" message args.
Definition Info (message : string) (args : list A) : ST Lib unit := log message args.
Definition Warn (message : string) (args : list A) : ST Lib unit := log message args.
Definition Error_ (message : Message) (args : list A) : ST Lib unit :=
  (if bool_decide (GetLevel = DebugLevel) then Debug message args else mret tt);;
  msg "error" message args.
Definition Fatal (message : Message) (args : list A) : ST Lib Flow :=
  msg "fatal" message args;; mret (Exit 1).
End Logger.
End Logger.

(** ** What is written *)

(** The documented behaviour of the library: a new logger has the lowest level, and an event
    is written if and only if its level is not under the global one. *)
Class ZerologLaws (Lib : Type) `{Zerolog Lib} := {
  global : Lib → Level;
  new_level : GetLevel = TraceLevel;
  SetGlobalLevel_global l z : global (SetGlobalLevel l z).2 = l ∧
                              lines (SetGlobalLevel l z).2 = lines z;
  Msgf_text {A} : string → list A → string;
  Info_Msg_spec m z : global (Info_Msg m z).2 = global z ∧
    lines (Info_Msg m z).2 =
    lines z ++ (if severity (global z) <=? severity InfoLevel then [m] else []);
  Info_Msgf_spec {A} m (args : list A) z : global (Info_Msgf m args z).2 = global z ∧
    lines (Info_Msgf m args z).2 =
    lines z ++ (if severity (global z) <=? severity InfoLevel then [Msgf_text m args] else [])
}.

(** A call of one of the five methods. *)
Inductive call (A : Type) :=
| CDebug (m : Message) (args : list A) | CInfo (m : string) (args : list A)
| CWarn (m : string) (args : list A) | CError (m : Message) (args : list A)
| CFatal (m : Message) (args : list A).
Arguments CDebug {A}. Arguments CInfo {A}. Arguments CWarn {A}. Arguments CError {A}.
Arguments CFatal {A}.

Section Calls.
Context {Lib A : Type} `{ZerologLaws Lib}.

Definition perform (c : call A) : ST Lib Flow :=
  match c with
  | CDebug m args => Logger.Debug m args;; mret Continue
  | CInfo m args => Logger.Info m args;; mret Continue
  | CWarn m args => Logger.Warn m args;; mret Continue
  | CError m args => Logger.Error_ m args;; mret Continue
  | CFatal m args => Logger.Fatal m args
  end.

Definition audible (l : Level) : bool := severity l <=? severity InfoLevel.

Lemma log_spec m (args : list A) z :
  global (Logger.log m args z).2 = global z ∧
  ∃ text, lines (Logger.log m args z).2 =
    lines z ++ (if audible (global z) then [text] else []).
Proof.
  unfold Logger.log. destruct args as [|a args].
  - destruct (Info_Msg_spec m z) as [Hg Hl]. split; [done|]. by exists m.
  - destruct (Info_Msgf_spec m (a :: args) z) as [Hg Hl]. split; [done|]. by eexists.
Qed.

Lemma msg_spec level m (args : list A) z :
  global (Logger.msg level m args z).2 = global z ∧
  ∃ text, lines (Logger.msg level m args z).2 =
    lines z ++ (if audible (global z) then [text] else []).
Proof. destruct m; apply log_spec. Qed.

Lemma perform_spec c z :
  global (perform c z).2 = global z ∧
  (∃ text, lines (perform c z).2 = lines z ++ (if audible (global z) then [text] else [])) ∧
  (perform c z).1 = match c with CFatal _ _ => Exit 1 | _ => Continue end.
Proof.
  assert (∀ m : ST Lib unit, (m ≫= λ _, mret Continue) z = (Continue, (m z).2)) as Hseq.
  { intros m. unfold mbind, ST_bind. by destruct (m z). }
  destruct c as [m args|m args|m args|m args|m args]; cbn [perform]; rewrite ?Hseq; cbn [fst snd].
  - destruct (msg_spec "debug" m args z). done.
  - destruct (log_spec m args z). done.
  - destruct (log_spec m args z). done.
  - unfold Logger.Error_. rewrite bool_decide_false by (by rewrite new_level).
    unfold mbind, ST_bind, mret, ST_ret. destruct (msg_spec "error" m args z). done.
  - unfold Logger.Fatal, mbind, ST_bind, mret, ST_ret.
    destruct (msg_spec "fatal" m args z). destruct (Logger.msg _ _ _ z). done.
Qed.
End Calls.

(** The calls one after another, until one ends the process. *)
Fixpoint perform_all {Lib A} `{Zerolog Lib} (cs : list (call A)) : ST Lib Flow :=
  match cs with
  | [] => mret Continue
  | c :: cs =>
      f ← perform c;
      match f with Exit code => mret (Exit code) | Continue => perform_all cs end
  end.

(** How many of the calls are made. *)
Fixpoint made {A} (cs : list (call A)) : nat :=
  match cs with
  | [] => 0
  | CFatal _ _ :: _ => 1
  | _ :: cs => S (made cs)
  end.

(** C40: What reaches the log. Every call is written as an Info event, whatever method was
    called: with LOG_LEVEL "error" or "warn" nothing is ever written, not an error and not
    the message of a fatal exit either; with any other setting every call writes one line,
    debug messages included. *)
Theorem logger_ignores_level {Lib A} `{ZerologLaws Lib} (level : string) (cs : list (call A)) z :
  let z' := (Logger.New level z).2 in
  let l := ToLower level in
  ∃ written,
    lines (perform_all cs z').2 = lines z ++ written ∧
    length written = (if bool_decide (l = "error") || bool_decide (l = "warn") then 0
                      else made cs)%nat.
Proof.
  cbv zeta. destruct (SetGlobalLevel_global (Logger.level_of level) z) as [Hg Hl].
  change (SetGlobalLevel (Logger.level_of level) z) with (Logger.New level z) in *.
  assert (audible (Logger.level_of level) =
    negb (bool_decide (ToLower level = "error") || bool_decide (ToLower level = "warn"))) as Ha.
  { unfold Logger.level_of. repeat (case_bool_decide; [done|]). done. }
  rewrite <-Hl. clear Hl. revert Hg. generalize (Logger.New level z).2.
  induction cs as [|c cs IH]; intros y Hg.
  { exists []. cbn. rewrite app_nil_r. split; [done|]. by case_match. }
  cbn [perform_all]. unfold mbind, ST_bind.
  destruct (perform_spec c y) as (Hgc & [text Hlc] & Hf).
  destruct (perform c y) as [f y']. cbn in Hgc, Hlc, Hf. rewrite Hg, Ha in Hlc. subst f.
  specialize (IH y' (eq_trans Hgc Hg)) as (written & Hw & Hn).
  destruct c; try (exists ((if negb (bool_decide (ToLower level = "error") ||
      bool_decide (ToLower level = "warn")) then [text] else []) ++ written);
    rewrite Hw, Hlc, <-app_assoc; (split; [done|]); rewrite length_app, Hn;
    by destruct (bool_decide (ToLower level = "error") || bool_decide (ToLower level = "warn"))).
  exists (if negb (bool_decide (ToLower level = "error") ||
      bool_decide (ToLower level = "warn")) then [text] else []). cbn. split; [done|].
  by destruct (bool_decide (ToLower level = "error") || bool_decide (ToLower level = "warn")).
Qed.

(** ** A run *)

Module LoggerRun.
Definition enabled (z : Level * list string) (s : string) : Level * list string :=
  (z.1, z.2 ++ (if severity z.1 <=? severity InfoLevel then [s] else [])).

#[local] Instance memory_log : Zerolog (Level * list string) := {|
  SetGlobalLevel l z := (tt, (l, z.2));
  GetLevel := TraceLevel;
  Info_Msg s z := (tt, enabled z s);
  Info_Msgf _ s _ z := (tt, enabled z s);
  lines := snd |}.

#[local] Program Instance memory_log_laws : ZerologLaws (Level * list string) := {|
  global := fst; Msgf_text _ s _ := s |}.
Solve Obligations with done.

Definition log_of (level : string) : Flow * list string :=
  let '(f, z) := (Logger.New level;;
    perform_all [CDebug (MString "polling") ([] : list nat); CWarn "slow" [];
                 CError (MError (ENew "no connection")) []; CFatal (MString "giving up") [];
                 CInfo "never" []]) (TraceLevel, []) in
  (f, lines z).

Example logs : (log_of "info", log_of "ERROR") =
  ((Exit 1, ["polling"; "slow"; "no connection"; "giving up"]), (Exit 1, [])).
Proof. vm_compute. reflexivity. Qed.
End LoggerRun.
