(* ===== verification/Connect.v ===== *)
(** * Connecting to the database

    pkg/postgres/postgres.go and options.go (the pool the service uses),
    internal/infrastructure/postgres/connection.go (a pool with a verified connection) and
    internal/app/migrate.go (the migrations at start-up): three loops that try again. *)
From Stdlib Require Import Ascii String.
From S2P Require Import Prelude GoTypes Logger.

(** What happens on the way: a pool is opened or closed, the process sleeps (nanoseconds),
    or a line is logged. *)
Inductive conn_event :=
| Opened (n : nat) | Closed (n : nat) | Slept (d : Z) | Logged (s : string).

(** The pool library. A configuration is parsed from a text; the n-th call that opens or
    pings a pool succeeds or fails. *)
Class PoolLib := {
  PoolConfig : Type;
  ParseConfig : string → result PoolConfig;
  set_MaxConns : Z → PoolConfig → PoolConfig;
  pool_call : nat → PoolConfig → result unit
}.

(** Calls made so far, and what happened. *)
Record Conn := mkConn { calls : nat; events : list conn_event }.
Definition C := ST Conn.
#[export] Instance C_ret : MRet C := ST_ret.
#[export] Instance C_bind : MBind C := ST_bind.

Definition happen (e : conn_event) : C unit := modify (λ s, mkConn (calls s) (events s ++ [e])).

(** [int32(n)] *)
Definition wrap32 (z : Z) : Z := (z + 2 ^ 31) mod 2 ^ 32 - 2 ^ 31.

Definition second : Z := 1000000000.

Section Connect.
Context `{PoolLib}.

(** [pgxpool.NewWithConfig]: a pool is named by the call that opened it. *)
Definition NewWithConfig (cfg : PoolConfig) : C (result nat) :=
  n ← gets calls;
  modify (λ s, mkConn (S (calls s)) (events s));;
  match pool_call n cfg with
  | Ok _ => happen (Opened n);; mret (Ok n)
  | Err e => mret (Err e)
  end.
Definition Ping (cfg : PoolConfig) : C (result unit) :=
  n ← gets calls;
  modify (λ s, mkConn (S (calls s)) (events s));;
  mret (pool_call n cfg).

(** ** pkg/postgres *)

Record Postgres := mkPostgres {
  maxPoolSize : Z; connAttempts : Z; connTimeout : Z; Pool : option nat }.

Definition Option_ := Postgres → Postgres.
Definition MaxPoolSize (size : Z) : Option_ := λ c,
  mkPostgres size (connAttempts c) (connTimeout c) (Pool c).
Definition ConnAttempts (attempts : Z) : Option_ := λ c,
  mkPostgres (maxPoolSize c) attempts (connTimeout c) (Pool c).
Definition ConnTimeout (timeout : Z) : Option_ := λ c,
  mkPostgres (maxPoolSize c) (connAttempts c) timeout (Pool c).

Definition defaults : Postgres := mkPostgres 1 10 second None.

(** [for pg.connAttempts > 0]: [fuel] is the number of rounds, and [err] the variable the
    loop leaves. *)
Fixpoint connect (fuel : nat) (cfg : PoolConfig) (pg : Postgres) (err : option error) :
    C (Postgres * option error) :=
  match fuel with
  | O => mret (pg, err)
  | S fuel =>
      res ← NewWithConfig cfg;
      match res with
      | Ok pool => mret (mkPostgres (maxPoolSize pg) (connAttempts pg) (connTimeout pg)
                           (Some pool), None)
      | Err e =>
          happen (Logged ("Postgres is trying to connect, attempts left: " +:+
                          FormatInt (connAttempts pg)));;
          happen (Slept (connTimeout pg));;
          connect fuel cfg (mkPostgres (maxPoolSize pg) (connAttempts pg - 1) (connTimeout pg)
                              None) (Some e)
      end
  end.

Definition New (url : string) (opts : list Option_) : C (result Postgres) :=
  let pg := foldl (λ pg opt, opt pg) defaults opts in
  match ParseConfig url with
  | Err e => mret (Err (Errorf "postgres - NewPostgres - pgxpool.ParseConfig" e))
  | Ok cfg =>
      let cfg := set_MaxConns (wrap32 (maxPoolSize pg)) cfg in
      '(pg, err) ← connect (Z.to_nat (connAttempts pg)) cfg pg None;
      mret match err with
           | Some e => Err (Errorf "postgres - NewPostgres - connAttempts == 0" e)
           | None => Ok pg
           end
  end.

Definition Close (pg : Postgres) : C unit :=
  match Pool pg with Some n => happen (Closed n) | None => mret tt end.

(** ** internal/infrastructure/postgres *)

Definition _defaultMaxPoolSize : Z := 10.
Definition _defaultConnAttempts : nat := 3.

(** Rounds [attempt], ..., 3; a pool whose ping fails is left behind. *)
Fixpoint verify (rounds : nat) (attempt : nat) (cfg : PoolConfig) (err : option error)
    (pool : option nat) : C (option nat * option error) :=
  match rounds with
  | O => mret (pool, err)
  | S rounds =>
      res ← NewWithConfig cfg;
      let again (pool : option nat) (e : error) :=
        (if (attempt <? _defaultConnAttempts)%nat then happen (Slept (second * Z.of_nat attempt))
         else mret tt);;
        verify rounds (S attempt) cfg (Some e) pool in
      match res with
      | Err e => again None e
      | Ok n =>
          ping ← Ping cfg;
          match ping with
          | Ok _ => mret (Some n, None)
          | Err e => again (Some n) e
          end
      end
  end.

Definition NewConnection (url : string) (cfgMaxPoolSize : Z) : C (result (option nat)) :=
  let size := if cfgMaxPoolSize =? 0 then _defaultMaxPoolSize else cfgMaxPoolSize in
  match ParseConfig url with
  | Err e => mret (Err (Errorf "failed to parse connection string" e))
  | Ok cfg =>
      '(pool, err) ← verify _defaultConnAttempts 1 (set_MaxConns (wrap32 size) cfg) None None;
      mret match err with
           | Some e => Err (Errorf ("failed to connect to postgres after " +:+
                              FormatInt (Z.of_nat _defaultConnAttempts) +:+ " attempts") e)
           | None => Ok pool
           end
  end.
End Connect.

(** ** internal/app/migrate.go *)

(** The migration library: [n] is the attempt; [Up] fails, or tells that nothing changed. *)
Inductive up_result := UpDone | UpNoChange | UpFailed (e : error).
Class MigrateLib := {
  migrate_New : nat → string → result unit;
  migrate_Up : string → up_result
}.

Module Migrate.
Section Migrate.
Context `{MigrateLib}.

Definition _defaultAttempts : nat := 20.

Fixpoint try (attempts : nat) (url : string) (err : option error) : C (option error) :=
  match attempts with
  | O => mret err
  | S rest =>
      n ← gets calls;
      modify (λ s, mkConn (S (calls s)) (events s));;
      match migrate_New n url with
      | Ok _ => mret None
      | Err e =>
          happen (Logged ("Migrate: postgres is trying to connect, attempts left: " +:+
                          FormatInt (Z.of_nat attempts)));;
          happen (Slept second);;
          try rest url (Some e)
      end
  end.

Definition fatal (message : string) : C Flow := happen (Logged message);; mret (Exit 1).

Definition databaseURL (PG_URL : string) : string := PG_URL +:+ "?sslmode=disable".

(** [init], with the value of the variable PG_URL if it is set. *)
Definition init (PG_URL : option string) : C Flow :=
  match PG_URL with
  | None => fatal "migrate: environment variable not declared: PG_URL"
  | Some url =>
      if (String.length url =? 0)%nat then
        fatal "migrate: environment variable not declared: PG_URL"
      else
        err ← try _defaultAttempts (databaseURL url) None;
        match err with
        | Some e => fatal ("Migrate: postgres connect error: " +:+ Error e)
        | None =>
            match migrate_Up (databaseURL url) with
            | UpFailed e => fatal ("Migrate: up error: " +:+ Error e)
            | UpNoChange => happen (Logged "Migrate: no change");; mret Continue
            | UpDone => happen (Logged "Migrate: up success");; mret Continue
            end
        end
  end.
End Migrate.
End Migrate.

(** ** What the loops come to *)

Section Spec.
Context `{PoolLib}.

(** Closed and opened pools. *)
Definition pools (es : list conn_event) : list nat :=
  omap (λ e, match e with Opened n => Some n | _ => None end) es.

(** The lines and sleeps of [k] failed attempts. *)
Fixpoint waits (k : nat) (attempts timeout : Z) : list conn_event :=
  match k with
  | O => []
  | S k => Logged ("Postgres is trying to connect, attempts left: " +:+ FormatInt attempts) ::
           Slept timeout :: waits k (attempts - 1) timeout
  end.

(** From call [n] on, the first [k] calls fail. *)
Definition fail_from (cfg : PoolConfig) (n k : nat) : Prop :=
  ∀ i, (i < k)%nat → ∃ e, pool_call (n + i) cfg = Err e.

Lemma connect_spec fuel cfg pg err s :
  (∃ k, (k < fuel)%nat ∧ fail_from cfg (calls s) k ∧ pool_call (calls s + k) cfg = Ok tt ∧
     connect fuel cfg pg err s =
     (mkPostgres (maxPoolSize pg) (connAttempts pg - Z.of_nat k) (connTimeout pg)
        (Some (calls s + k)%nat), None,
      mkConn (calls s + S k) (events s ++ waits k (connAttempts pg) (connTimeout pg) ++
                              [Opened (calls s + k)]))) ∨
  (fail_from cfg (calls s) fuel ∧
     ∃ pg' err', connect fuel cfg pg err s =
       (pg', err', mkConn (calls s + fuel)
                     (events s ++ waits fuel (connAttempts pg) (connTimeout pg))) ∧
     (fuel = O → pg' = pg ∧ err' = err) ∧ (fuel ≠ O → ∃ e, err' = Some e)).
Proof.
  revert pg err s. induction fuel as [|fuel IH]; intros pg err s.
  { right. split; [intros i Hi; lia|]. exists pg, err. cbn. rewrite Nat.add_0_r, app_nil_r.
    by destruct s. }
  cbn [connect]. unfold NewWithConfig, happen, mbind, C_bind, ST_bind, gets, modify, mret, C_ret,
    ST_ret. cbn [fst snd calls events].
  destruct (pool_call (calls s) cfg) as [[]|e] eqn:Hc.
  { left. exists O. rewrite Nat.add_0_r, Nat.add_1_r, Z.sub_0_r. split; [lia|].
    split; [intros i Hi; lia|]. by split. }
  destruct (IH (mkPostgres (maxPoolSize pg) (connAttempts pg - 1) (connTimeout pg) None) (Some e)
    (mkConn (S (calls s)) ((events s ++ [Logged ("Postgres is trying to connect, attempts left: "
       +:+ FormatInt (connAttempts pg))]) ++ [Slept (connTimeout pg)]))) as [(k & Hk & Hf & Hok & Heq)|(Hf & pg' & err' & Heq & H0 & H1)].
  - left. exists (S k). split; [lia|]. cbn [calls] in Hf, Hok. split; [|split].
    + intros [|i] Hi; [rewrite Nat.add_0_r; by eexists|]. rewrite <-Nat.add_succ_comm.
      apply Hf. lia.
    + by rewrite <-Nat.add_succ_comm.
    + etransitivity; [exact Heq|]. cbn. rewrite <-!app_assoc. cbn.
      rewrite !Nat.add_succ_r. do 2 f_equal. f_equal. lia.
  - right. split; [|exists pg', err'; split; [|split; [lia|]]].
    + intros [|i] Hi; [rewrite Nat.add_0_r; by eexists|]. rewrite <-Nat.add_succ_comm.
      apply Hf. lia.
    + etransitivity; [exact Heq|]. cbn. rewrite <-!app_assoc. cbn. by rewrite Nat.add_succ_r.
    + intros _. destruct fuel as [|fuel]; [|by apply H1]. destruct H0 as [_ ->]; [done|]. by eexists.
Qed.

(** Opening the service's pool makes at most the configured number of attempts and ends:
    it is the pool of the first attempt that succeeds, after one pause for each that failed,
    or an error when all of them failed; a text that is no configuration is refused at once.
    With no attempts configured it reports success without a pool. *)
Theorem New_spec url opts s :
  let pg := foldl (λ pg opt, opt pg) defaults opts in
  let n := Z.to_nat (connAttempts pg) in
  match ParseConfig url with
  | Err e => ∃ e', New url opts s = (Err e', s)
  | Ok cfg =>
      let cfg := set_MaxConns (wrap32 (maxPoolSize pg)) cfg in
      (∃ k, (k < n)%nat ∧ fail_from cfg (calls s) k ∧ pool_call (calls s + k) cfg = Ok tt ∧
         ∃ pg', New url opts s =
           (Ok pg', mkConn (calls s + S k)
              (events s ++ waits k (connAttempts pg) (connTimeout pg) ++ [Opened (calls s + k)])) ∧
         Pool pg' = Some (calls s + k)%nat) ∨
      (n ≠ O ∧ fail_from cfg (calls s) n ∧
         ∃ e, New url opts s =
           (Err e, mkConn (calls s + n)
              (events s ++ waits n (connAttempts pg) (connTimeout pg)))) ∨
      (n = O ∧ New url opts s = (Ok pg, s))
  end.
Proof.
  cbv zeta. unfold New. set (pg := foldl _ _ _). destruct (ParseConfig url) as [cfg|e]; [|by eexists].
  set (cfg' := set_MaxConns _ _). unfold mbind, C_bind, ST_bind, mret, C_ret, ST_ret.
  destruct (connect_spec (Z.to_nat (connAttempts pg)) cfg' pg None s)
    as [(k & Hk & Hf & Hok & ->)|(Hf & pg' & err' & -> & H0 & H1)].
  - left. exists k. do 3 (split; [done|]). by eexists.
  - destruct (decide (Z.to_nat (connAttempts pg) = O)) as [Hn|Hn].
    + right. right. destruct (H0 Hn) as [-> ->]. split; [done|]. rewrite Hn. cbn.
      rewrite Nat.add_0_r, app_nil_r. by destruct s.
    + right. left. destruct (H1 Hn) as [e ->]. split; [done|]. split; [done|]. by eexists.
Qed.
End Spec.

Section MigrateSpec.
Context `{MigrateLib}.

(** The attempts are bounded, and the first that succeeds ends them. *)
Lemma try_spec attempts url err s :
  (∃ k, (k < attempts)%nat ∧ migrate_New (calls s + k) url = Ok tt ∧
     (Migrate.try attempts url err s).1 = None ∧
     calls (Migrate.try attempts url err s).2 = (calls s + S k)%nat) ∨
  ((∀ i, (i < attempts)%nat → ∃ e, migrate_New (calls s + i) url = Err e) ∧
     (attempts ≠ O → ∃ e, (Migrate.try attempts url err s).1 = Some e) ∧
     calls (Migrate.try attempts url err s).2 = (calls s + attempts)%nat).
Proof.
  revert err s. induction attempts as [|n IH]; intros err s.
  { right. split; [intros i Hi; lia|]. split; [done|]. cbn. lia. }
  cbn [Migrate.try]. unfold happen, mbind, C_bind, ST_bind, gets, modify, mret, C_ret, ST_ret.
  cbn [fst snd calls events]. destruct (migrate_New (calls s) url) as [[]|e] eqn:Hc.
  { left. exists O. rewrite Nat.add_0_r. split; [lia|]. split; [done|]. cbn. split; [done|lia]. }
  set (s' := mkConn _ _).
  destruct (IH (Some e) s') as [(k & Hk & Hok & H1 & H2)|(Hf & H1 & H2)];
    cbn [calls s'] in *.
  - left. exists (S k). rewrite <-Nat.add_succ_comm. split; [lia|]. split; [done|].
    split; [done|]. lia.
  - right. split; [|split; [|lia]].
    + intros [|i] Hi; [rewrite Nat.add_0_r; by eexists|]. rewrite <-Nat.add_succ_comm.
      apply Hf. lia.
    + intros _. destruct n as [|n]; [by eexists|]. by apply H1.
Qed.

(** The service goes on only with the migrations applied, after at most twenty attempts. *)
Lemma init_spec var s :
  (Migrate.init var s).1 = Continue →
  ∃ url, var = Some url ∧ url ≠ EmptyString ∧
    (∃ k, (k < 20)%nat ∧ migrate_New (calls s + k) (Migrate.databaseURL url) = Ok tt) ∧
    (migrate_Up (Migrate.databaseURL url) = UpDone ∨
     migrate_Up (Migrate.databaseURL url) = UpNoChange).
Proof.
  unfold Migrate.init, Migrate.fatal. destruct var as [url|]; [|done].
  destruct (Nat.eqb_spec (String.length url) 0) as [|Hu]; [done|]. unfold mbind, C_bind, ST_bind.
  pose proof (try_spec Migrate._defaultAttempts (Migrate.databaseURL url) None s) as Ht.
  destruct (Migrate.try _ _ _ s) as [[e|] s']; [done|]. cbn in Ht.
  destruct (migrate_Up _) eqn:Hup; [| |done]; intros _; exists url;
    (split; [done|]; split; [by intros ->|]; split; [|by auto]);
    destruct Ht as [(k & Hk & Hok & _)|(_ & He & _)]; try (by exists k);
    by destruct He as [? ?].
Qed.

(** A URL that has parameters already gets a second question mark. *)
Lemma databaseURL_question url :
  "?"%char ∈ bytes url →
  ∃ a b, bytes (Migrate.databaseURL url) = a ++ "?"%char :: b ∧ "?"%char ∈ a.
Proof.
  intros Hq. exists (bytes url), (bytes "sslmode=disable"). split; [|done].
  unfold Migrate.databaseURL. by rewrite bytes_app.
Qed.
End MigrateSpec.

(** ** Runs *)

Module ConnectRun.
#[local] Instance flaky : PoolLib := {|
  PoolConfig := Z;
  ParseConfig url := if bool_decide (url = "bad") then Err (ENew "cannot parse") else Ok 0;
  set_MaxConns n _ := n;
  pool_call n _ := if (n <? 2)%nat then Err (ENew "refused") else Ok tt |}.

Definition start : Conn := mkConn 0 [].

Example third_attempt :
  (let '(r, s) := New "url" [MaxPoolSize 2] start in
   (match r with Ok pg => Pool pg | Err _ => None end, calls s, List.length (events s))) =
  (Some 2%nat, 3%nat, 5%nat).
Proof. vm_compute. reflexivity. Qed.

Example no_attempts :
  (New "url" [ConnAttempts 0] start).1 = Ok (mkPostgres 1 0 second None).
Proof. vm_compute. reflexivity. Qed.

(** A connection that is opened every time and never answers the ping: three pools stay open. *)
#[local] Instance deaf : PoolLib := {|
  PoolConfig := Z; ParseConfig url := Ok 0; set_MaxConns n _ := n;
  pool_call n _ := if Nat.even n then Ok tt else Err (ENew "no answer") |}.

Example pools_left_open :
  let '(r, s) := NewConnection (H := deaf) "url" 0 start in
  is_ok r = false ∧ pools (events s) = [0; 2; 4]%nat ∧
  (∀ n, Closed n ∉ events s).
Proof.
  vm_compute. split; [done|]. split; [done|]. intros n Hn.
  repeat (apply elem_of_cons in Hn as [Hn|Hn]; [discriminate Hn|]). by apply elem_of_nil in Hn.
Qed.

Example readme_url :
  Migrate.databaseURL "postgres://localhost:5433/db?sslmode=disable" =
  "postgres://localhost:5433/db?sslmode=disable?sslmode=disable".
Proof. reflexivity. Qed.
End ConnectRun.
