(* ===== verification/App.v ===== *)
(** * The application (internal/app/app.go, pkg/httpserver)

    What [Run] builds and how it wires it, the retry settings it reads, the HTTP server, and
    the order in which everything is started and stopped. What Run does about ingestion is in
    Ingestion.v, the routes are in Rest.v and the middleware in Middleware.v. *)
From Stdlib Require Import SpecFloat.
From S2P Require Import Prelude GoTypes Entity World LockSpec Store Locks LockOps Reservation CancelReservation RevealReservation ExpiredClaim Coordination Repo Persistence PersistenceSpec Delivery DeadLetter Subscriber Queries UserManagement GameQuery Activity Rest Logger.

(** ** Configuration *)

Record LockConfig := mkLockConfig {
  TimeoutSeconds : Z; cfgMaxPerWallet : Z; CleanupIntervalSeconds : Z }.

(** Durations and the multiplier are texts. *)
Record RetrySettings := mkRetrySettings {
  cfgMaxRetries : Z; cfgInitialBackoff : string; cfgMaxBackoff : string;
  cfgBackoffMultiplier : string }.

Record Config := mkConfig {
  cfgReservation : LockConfig; cfgCancelReservation : LockConfig;
  cfgRevealReservation : LockConfig; cfgExpiredClaim : LockConfig;
  cfgDefaultLimit : Z; cfgMaxLimit : Z; cfgRetry : RetrySettings }.

(** [time.ParseDuration] in nanoseconds, and [strconv.ParseFloat]. *)
Class NumberTexts := {
  ParseDuration : string → result Z;
  ParseFloat : string → result spec_float
}.

(** ** parseRetryConfig *)

(** A warning names the setting and its text. *)
Definition Warnings := list (string * string).

Section Retry.
Context `{NumberTexts}.

Definition warn (setting text : string) : ST Warnings unit := modify (λ l, l ++ [(setting, text)]).

(** An empty text leaves the default. *)
Definition durationSetting (setting text : string) (default : Z) : ST Warnings Z :=
  if bool_decide (text = EmptyString) then mret default
  else match ParseDuration text with
       | Ok d => mret d
       | Err _ => warn setting text;; mret default
       end.

Definition parseRetryConfig (cfg : RetrySettings) : ST Warnings RetryConfig :=
  let d := DefaultRetryConfig in
  let maxRetries := if 0 <? cfgMaxRetries cfg then cfgMaxRetries cfg else MaxRetries d in
  initial ← durationSetting "RETRY_INITIAL_BACKOFF" (cfgInitialBackoff cfg) (InitialBackoff d);
  max ← durationSetting "RETRY_MAX_BACKOFF" (cfgMaxBackoff cfg) (MaxBackoff d);
  multiplier ←
    (let text := cfgBackoffMultiplier cfg in
     if bool_decide (text = EmptyString) then mret (BackoffMultiplier d)
     else match ParseFloat text with
          | Ok m => if SFltb (float64_of 1) m then mret m
                    else warn "RETRY_BACKOFF_MULTIPLIER" text;; mret (BackoffMultiplier d)
          | Err _ => warn "RETRY_BACKOFF_MULTIPLIER" text;; mret (BackoffMultiplier d)
          end);
  mret (mkRetryConfig maxRetries initial max multiplier).
End Retry.

(** ** What Run builds *)

Section Wiring.
Context `{NumberTexts} (cfg : Config).

Definition reservationUC : LockUC :=
  let c := cfgReservation cfg in
  Reservation.SetCancelReservationUseCase (Reservation.SetMetrics
    (Reservation.NewReservationUseCase true true (cfgMaxPerWallet c) (TimeoutSeconds c)
       (CleanupIntervalSeconds c))).
Definition cancelReservationUC : LockUC :=
  let c := cfgCancelReservation cfg in
  CancelReservation.SetMetrics
    (CancelReservation.NewCancelReservationUseCase true true true (cfgMaxPerWallet c)
       (TimeoutSeconds c) (CleanupIntervalSeconds c)).
Definition revealReservationUC : LockUC :=
  let c := cfgRevealReservation cfg in
  RevealReservation.SetMetrics
    (RevealReservation.NewRevealReservationUseCase true true (cfgMaxPerWallet c)
       (TimeoutSeconds c) (CleanupIntervalSeconds c)).
Definition expiredClaimUC : LockUC :=
  let c := cfgExpiredClaim cfg in
  ExpiredClaim.SetMetrics
    (ExpiredClaim.NewExpiredClaimUseCase true true (cfgMaxPerWallet c) (TimeoutSeconds c)
       (CleanupIntervalSeconds c)).

(** The use cases replace whatever locks the world has. *)
Definition withUseCases (w : World) : World :=
  set_lock ClaimLock expiredClaimUC (set_lock RevealLock revealReservationUC
    (set_lock CancelLock cancelReservationUC (set_lock JoinLock reservationUC w))).

Definition gameActivityUC : ActivityUC :=
  GameActivity.SetCancelReservationUseCase
    (GameActivity.NewGameActivityUseCase true true true (cfgDefaultLimit cfg) (cfgMaxLimit cfg)).

Definition gamePersistenceUC : PersistenceUC :=
  let uc := Persistence.NewGamePersistenceUseCase true in
  let uc := Persistence.SetTxManager uc in
  let uc := Persistence.SetBroadcastUseCase uc in
  let uc := Persistence.SetReservationUseCase uc in
  let uc := Persistence.SetCancelReservationUseCase uc in
  let uc := Persistence.SetRevealReservationUseCase uc in
  Persistence.SetExpiredClaimUseCase uc.

(** The subscriber of the event handler, with the warnings on the way. *)
Definition subscriberUC : ST Warnings SubscriberUC :=
  let uc := Subscriber.SetMetrics (Subscriber.NewBlockchainSubscriberUseCase gamePersistenceUC) in
  retryConfig ← parseRetryConfig (cfgRetry cfg);
  mret (Subscriber.SetDeadLetterQueue DeadLetterQueue.defaultDLQBaseBackoff
          (Subscriber.SetRetryConfig retryConfig uc)).

Definition routerDeps : RouterDeps := mkRouterDeps (Some gameActivityUC) true true true.
End Wiring.

(** ** The HTTP server (pkg/httpserver/server.go and options.go) *)

Definition Seconds (n : Z) : Z := n * 10 ^ 9.

Module HttpServer.
(** [notify] holds what was sent on the channel; [listened] is what the goroutine that
    listens came to. *)
Record Server := mkServer {
  address : string; prefork : bool; readTimeout : Z; writeTimeout : Z; shutdownTimeout : Z;
  started : bool; notify : list error; notify_closed : bool; listened : option (result unit) }.

Definition Option_ := Server → Server.
Definition with_settings (a : string) (p : bool) (r w sh : Z) (s : Server) : Server :=
  mkServer a p r w sh (started s) (notify s) (notify_closed s) (listened s).
(** [net.JoinHostPort] of an empty host and a port *)
Definition Port (port : string) : Option_ := λ s,
  with_settings (":" +:+ port) (prefork s) (readTimeout s) (writeTimeout s) (shutdownTimeout s) s.
Definition Prefork (p : bool) : Option_ := λ s,
  with_settings (address s) p (readTimeout s) (writeTimeout s) (shutdownTimeout s) s.
Definition ReadTimeout (t : Z) : Option_ := λ s,
  with_settings (address s) (prefork s) t (writeTimeout s) (shutdownTimeout s) s.
Definition WriteTimeout (t : Z) : Option_ := λ s,
  with_settings (address s) (prefork s) (readTimeout s) t (shutdownTimeout s) s.
Definition ShutdownTimeout (t : Z) : Option_ := λ s,
  with_settings (address s) (prefork s) (readTimeout s) (writeTimeout s) t s.

Definition New (opts : list Option_) : Server :=
  foldl (λ s opt, opt s)
    (mkServer ":80" false (Seconds 5) (Seconds 5) (Seconds 3) false [] false None) opts.

Definition Start (s : Server) : Server :=
  mkServer (address s) (prefork s) (readTimeout s) (writeTimeout s) (shutdownTimeout s)
    true (notify s) (notify_closed s) (listened s).

(** The rest of the goroutine, once [App.Listen] has returned. *)
Definition listenEnds (res : result unit) (s : Server) : Server :=
  let '(sent, closed) := match res with
                         | Err e => ([e], true)
                         | Ok _ => ([], notify_closed s)
                         end in
  mkServer (address s) (prefork s) (readTimeout s) (writeTimeout s) (shutdownTimeout s)
    (started s) (notify s ++ sent) closed (Some res).

(** [canceled e] is [errors.Is(e, context.Canceled)]; [shut] is the result of shutting the
    framework down, after which the goroutine has ended. The error joins those listed. *)
Definition Shutdown (canceled : error → bool) (shut : result unit) (s : Server) : list error :=
  let report (r : result unit) :=
    match r with Err e => if canceled e then [] else [e] | Ok _ => [] end in
  report shut ++ report (default (Ok tt) (listened s)).
End HttpServer.

(** ** Run *)

(** What [Run] does, as far as it can be told apart from outside. *)
Inductive step :=
| OpenPool | ClosePool
| StartCleanupLoop (k : LockKind)
| LoadCheckpoint | CreateHandler | ConfigureHandler
| RegisterRoutes | RegisterSockets
| StartServer | StopServer
| StartMetricUpdates
| StartEvents | StopEvents
| CloseSockets
| LogFatal (what : string) (e : error) | LogError (what : string) (e : error).

(** What the parts answer, and why the process stops waiting. *)
Inductive wake := Signal (name : string) | ServerFailed (e : error).
Record Parts := mkParts {
  pool_opens : result unit;
  handler_created : result unit;
  events_start : result unit;
  woken : wake;
  events_stop : result unit;
  sockets_close : result unit;
  server_stop : result unit }.

(** Steps made so far; a fatal error ends the process and skips what was deferred. *)
Definition R (A : Type) : Type := list step → (Z + A) * list step.
#[export] Instance R_ret : MRet R := λ A a t, (inr a, t).
#[export] Instance R_bind : MBind R := λ A B k m t,
  match m t with
  | (inl code, t) => (inl code, t)
  | (inr a, t) => k a t
  end.
Definition act (s : step) : R unit := λ t, (inr tt, t ++ [s]).
Definition exit (code : Z) : R unit := λ t, (inl code, t).

Definition fatal_on (what : string) (r : result unit) : R unit :=
  match r with
  | Ok _ => mret tt
  | Err e => act (LogFatal what e);; exit 1
  end.
Definition error_on (what : string) (r : result unit) : R unit :=
  match r with Ok _ => mret tt | Err e => act (LogError what e) end.

Definition Run (p : Parts) : R unit :=
  fatal_on "app - Run - postgres.New" (pool_opens p);;
  act OpenPool;;
  act (StartCleanupLoop JoinLock);;
  act (StartCleanupLoop CancelLock);;
  act (StartCleanupLoop RevealLock);;
  act (StartCleanupLoop ClaimLock);;
  act LoadCheckpoint;;
  fatal_on "app - Run - blockchainctrl.NewTONEventHandler" (handler_created p);;
  act CreateHandler;;
  act ConfigureHandler;;
  act RegisterRoutes;;
  act RegisterSockets;;
  act StartServer;;
  act StartMetricUpdates;;
  fatal_on "app - Run - blockchainHandler.Start" (events_start p);;
  act StartEvents;;
  match woken p with
  | Signal _ => mret tt
  | ServerFailed e => act (LogError "app - Run - httpServer.Notify" e)
  end;;
  act StopEvents;;
  error_on "app - Run - blockchainHandler.Stop" (events_stop p);;
  act CloseSockets;;
  error_on "app - Run - wsHandler.Shutdown" (sockets_close p);;
  act StopServer;;
  error_on "app - Run - httpServer.Shutdown" (server_stop p);;
  act ClosePool.

(** ** Retry settings *)

(** Settings the subscriber can work with. *)
Record retry_valid (c : RetryConfig) : Prop := {
  valid_retries : 0 < MaxRetries c;
  valid_initial : 0 < InitialBackoff c;
  valid_max : 0 < MaxBackoff c;
  valid_multiplier : SFltb (float64_of 1) (BackoffMultiplier c) = true }.

Section RetrySpec.
Context `{NumberTexts}.

Lemma SFleb_not_ltb x y : SFltb x y = true → SFleb y x = false.
Proof.
  unfold SFltb, SFleb. intros Hlt. assert (SFcompare x y = Some Lt) as Hc.
  { destruct (SFcompare x y) as [[]|]; done. }
  destruct (SFcompare y x) as [[]|] eqn:Hd; [..|done|done].
  all: exfalso; revert Hc Hd; destruct x as [[]|[]| |[] mx ex], y as [[]|[]| |[] my ey]; try done;
    unfold SFcompare; rewrite (Z.compare_antisym ex ey);
    change (Pos.compare_cont Eq my mx) with (my ?= mx)%positive;
    change (Pos.compare_cont Eq mx my) with (mx ?= my)%positive;
    rewrite (Pos.compare_antisym mx my);
    destruct (ex ?= ey), (mx ?= my)%positive; done.
Qed.

(** Every setting is either read or replaced by the default, with a warning for each text
    that could not be used. *)
Lemma parseRetryConfig_multiplier cfg l :
  SFltb (float64_of 1) (BackoffMultiplier (parseRetryConfig cfg l).1) = true.
Proof.
  unfold parseRetryConfig, mbind, ST_bind.
  destruct (durationSetting _ _ _ l) as [i l1]. destruct (durationSetting _ _ _ l1) as [m l2].
  case_bool_decide; [done|]. destruct (ParseFloat _) as [x|]; [|done].
  destruct (SFltb (float64_of 1) x) eqn:Hx; done.
Qed.

Lemma parseRetryConfig_retries cfg l : 0 < MaxRetries (parseRetryConfig cfg l).1.
Proof.
  unfold parseRetryConfig, mbind, ST_bind.
  destruct (durationSetting _ _ _ l) as [i l1]. destruct (durationSetting _ _ _ l1) as [m l2].
  assert (0 < if 0 <? cfgMaxRetries cfg then cfgMaxRetries cfg else MaxRetries DefaultRetryConfig)
    by (destruct (Z.ltb_spec 0 (cfgMaxRetries cfg)); [done|by vm_compute]).
  case_bool_decide; [done|]. destruct (ParseFloat _) as [x|]; [|done].
  by destruct (SFltb (float64_of 1) x).
Qed.

Lemma SetRetryConfig_valid c uc :
  0 < MaxRetries c → SFltb (float64_of 1) (BackoffMultiplier c) = true →
  retry_valid (retryConfig (Subscriber.SetRetryConfig c uc)).
Proof.
  intros Hr Hm. unfold Subscriber.SetRetryConfig.
  constructor; cbn [retryConfig MaxRetries InitialBackoff MaxBackoff BackoffMultiplier].
  - by rewrite (proj2 (Z.ltb_ge _ _)) by lia.
  - by destruct (Z.leb_spec (InitialBackoff c) 0).
  - by destruct (Z.leb_spec (MaxBackoff c) 0).
  - by rewrite (SFleb_not_ltb _ _ Hm).
Qed.

Lemma subscriberUC_valid cfg l : retry_valid (retryConfig (subscriberUC cfg l).1).
Proof.
  unfold subscriberUC, mbind, ST_bind.
  pose proof (parseRetryConfig_multiplier (cfgRetry cfg) l).
  pose proof (parseRetryConfig_retries (cfgRetry cfg) l).
  destruct (parseRetryConfig (cfgRetry cfg) l) as [c l']. by apply SetRetryConfig_valid.
Qed.
End RetrySpec.

(** ** The service as it is wired *)

(** The limit in force: the configured one, unless it is not positive. *)
Definition limit_in_force (cfg : Config) (k : LockKind) : Z :=
  let c := match k with
           | JoinLock => cfgReservation cfg | CancelLock => cfgCancelReservation cfg
           | RevealLock => cfgRevealReservation cfg | ClaimLock => cfgExpiredClaim cfg
           end in
  let default := match k with JoinLock | CancelLock => 3 | RevealLock | ClaimLock => 5 end in
  if cfgMaxPerWallet c <=? 0 then default else cfgMaxPerWallet c.

Lemma withUseCases_locks cfg w k :
  locks (withUseCases cfg w) k =
  match k with
  | JoinLock => reservationUC cfg | CancelLock => cancelReservationUC cfg
  | RevealLock => revealReservationUC cfg | ClaimLock => expiredClaimUC cfg
  end.
Proof. by destruct k. Qed.

Lemma withUseCases_limit cfg w k :
  maxPerWallet (locks (withUseCases cfg w) k) = limit_in_force cfg k.
Proof. by destruct k. Qed.

Lemma setMetrics_configured uc : configured uc → configured (setMetrics uc).
Proof. by intros []. Qed.
Lemma setPeer_configured uc : configured uc → configured (setPeer uc).
Proof. by intros []. Qed.

Lemma withUseCases_fresh cfg w : fresh (withUseCases cfg w).
Proof.
  intros k. rewrite withUseCases_locks. destruct k; (split; [done|]); (split; [done|]);
    repeat first [apply setPeer_configured|apply setMetrics_configured];
    by apply newLockUC_configured.
Qed.

Lemma withUseCases_wired cfg w : wired (withUseCases cfg w).
Proof. done. Qed.

Section Service.
Context `{E : Env} `{!ClockMono E} `{!RangePerm E} `{NumberTexts}.

(** C14: The service as it is wired. Whatever the configuration says, sensible or not, from
    what [Run] builds over a database that satisfies its constraints, any run of lock
    requests, cleanups and delivered events, under any faults of the database, keeps the
    constraints of the tables and the invariants of the four lock tables, and no wallet ever
    holds more active locks of a kind than the limit in force: the configured one, or the
    default when that is not positive. The settings the subscriber retries with are valid. *)
Theorem service_as_wired cfg l w w' :
  db_ok (tables w) →
  rtc (service_step (gamePersistenceUC)) (withUseCases cfg w) w' →
  db_ok (tables w') ∧
  (∀ k, LockOk (locks w' k)) ∧
  (∀ k wallet,
     Z.of_nat (size (held_by wallet (view (time w') (locks w' k)))) ≤ limit_in_force cfg k) ∧
  retry_valid (retryConfig (subscriberUC cfg l).1).
Proof.
  intros Hdb Hr. pose proof (withUseCases_fresh cfg w) as Hf.
  split; [by eapply service_db|]. apply service_system in Hr.
  split; [intros k; by apply (sys_ok _ _ Hr), fresh_ok|]. split; [|apply subscriberUC_valid].
  intros k wallet. rewrite <-(withUseCases_limit cfg w k).
  pose proof (sys_steps _ _ Hr k (fresh_ok _ k Hf)) as Hs. rewrite fresh_view in Hs by done.
  destruct (Hf k) as (_ & _ & Hc). apply (steps_bounded _ _ _ Hs).
  apply bounded_empty. destruct Hc. lia.
Qed.

(** Every route is registered. *)
Lemma all_routes `{R : GameRepository} `{G : GameListing} `{U : UserRepository}
    `{TF : TimeFormat} cfg :
  length (apiV1Group (routerDeps cfg)) = 24%nat.
Proof. reflexivity. Qed.
End Service.

(** ** Starting and stopping *)

(** What is started, and what is stopped, in order. *)
Definition is_start (s : step) : bool :=
  match s with OpenPool | StartServer | StartEvents => true | _ => false end.
Definition is_stop (s : step) : bool :=
  match s with ClosePool | StopServer | StopEvents | CloseSockets => true | _ => false end.
Definition starts (t : list step) : list step := List.filter is_start t.
Definition stops (t : list step) : list step := List.filter is_stop t.

(** What ends in a fatal error has started something and stops nothing: the deferred
    closing of the pool is skipped, and a server that runs is left as it is. *)
Lemma Run_fatal p : (Run p []).1 ≠ inr tt → (Run p []).1 = inl 1 ∧ stops (Run p []).2 = [].
Proof. by destruct p as [[[]|e] [[]|e2] [[]|e3] [] [[]|] [[]|] [[]|]]. Qed.

(** However the service stops, whether by a signal or by a failure of its server, and
    whatever fails on the way down, what was started is stopped, in the opposite order:
    ingestion, then the sockets, the server and the pool. *)
Theorem Run_shutdown p :
  (Run p []).1 = inr tt →
  starts (Run p []).2 = [OpenPool; StartServer; StartEvents] ∧
  stops (Run p []).2 = [StopEvents; CloseSockets; StopServer; ClosePool].
Proof. by destruct p as [[[]|e] [[]|e2] [[]|e3] [] [[]|] [[]|] [[]|]]. Qed.

(** The cleanup loops run for as long as the process. *)
Lemma cleanup_never_stopped p k :
  (Run p []).1 = inr tt → StartCleanupLoop k ∈ (Run p []).2.
Proof.
  destruct p as [[[]|e] [[]|e2] [[]|e3] [] [[]|] [[]|] [[]|]]; cbn; try done; intros _;
    destruct k; set_solver.
Qed.

(** ** Runs *)

Module AppRun.
#[local] Existing Instances Run.ticking Run.ticking_mono Run.env_range.
#[local] Instance texts : NumberTexts := {|
  ParseDuration s := if bool_decide (s = "5s") then Ok (Seconds 5) else Err (ENew "bad duration");
  ParseFloat s := if bool_decide (s = "Inf") then Ok (S754_infinity false)
                  else Err (ENew "invalid syntax") |}.

(** Negative limits, timeouts that overflow, and retry settings that cannot be read. *)
Definition odd : Config :=
  mkConfig (mkLockConfig 10000000000 (-1) 0) (mkLockConfig 0 0 (-5)) (mkLockConfig 90 2 5)
    (mkLockConfig 120 5 5) (-1) 0 (mkRetrySettings 0 "soon" "5s" "Inf").

Example odd_retries :
  let '(uc, warnings) := subscriberUC odd [] in
  (MaxRetries (retryConfig uc), InitialBackoff (retryConfig uc), MaxBackoff (retryConfig uc),
   BackoffMultiplier (retryConfig uc), warnings) =
  (3, 100 * Millisecond, Seconds 5, S754_infinity false, [("RETRY_INITIAL_BACKOFF", "soon")]).
Proof. vm_compute. reflexivity. Qed.

Definition w0 : World := withUseCases odd DeliveryRun.w0.
Definition w1 : World := deliver gamePersistenceUC DeliveryRun.initialized w0.
Definition w2 : World := (run (JoinReserve 7 DeliveryRun.bob) w1).2.

Lemma w2_reach : rtc (service_step gamePersistenceUC) w0 w2.
Proof.
  eapply rtc_l; [apply (service_event _ DeliveryRun.initialized)|].
  eapply rtc_l; [|constructor]. apply (service_act _ (JoinReserve 7 DeliveryRun.bob)). done.
Qed.

Lemma service_as_wired_witness :
  size (reservations (locks w2 JoinLock)) = 1%nat ∧ limit_in_force odd JoinLock = 3 ∧
  db_ok (tables w2) ∧
  (∀ k, LockOk (locks w2 k)) ∧
  (∀ k wallet,
     Z.of_nat (size (held_by wallet (view (time w2) (locks w2 k)))) ≤ limit_in_force odd k) ∧
  retry_valid (retryConfig (subscriberUC odd []).1).
Proof.
  split; [vm_compute; reflexivity|]. split; [reflexivity|].
  exact (service_as_wired odd [] DeliveryRun.w0 w2 db_ok_empty w2_reach).
Defined.

(** A server that fails, with errors all the way down. *)
Definition failing : Parts :=
  mkParts (Ok tt) (Ok tt) (Ok tt) (ServerFailed (ENew "address in use")) (Err (ENew "stop"))
    (Err (ENew "close")) (Err (ENew "address in use")).

Lemma Run_shutdown_witness :
  (Run failing []).1 = inr tt ∧
  starts (Run failing []).2 = [OpenPool; StartServer; StartEvents] ∧
  stops (Run failing []).2 = [StopEvents; CloseSockets; StopServer; ClosePool].
Proof. split; [reflexivity|]. apply (Run_shutdown failing). reflexivity. Defined.

Example server_error : HttpServer.Shutdown (λ _, false) (Ok tt)
  (HttpServer.listenEnds (Err (ENew "address in use"))
     (HttpServer.Start (HttpServer.New [HttpServer.Port "3000"]))) = [ENew "address in use"].
Proof. reflexivity. Qed.
End AppRun.
