(* ===== verification/Metrics.v ===== *)
(** * The collectors of the lock use cases

    internal/infrastructure/metrics/reservation.go, cancel_reservation.go,
    reveal_reservation.go and expired_claim.go: a gauge of active locks and counters, as
    functions of the trace of metric calls that the use cases leave. *)
From S2P Require Import Prelude GoTypes Entity World Store Locks LockOps Reservation Coordination Persistence Delivery Logger App.

(** [Ended] is ReservationsJoined, ReservationsRevealed, ReservationsResolved or
    ClaimsResolved. *)
Record LockMetrics := mkLockMetrics {
  Active : Z; Created : Z; Expired : Z; Cancelled : Z; Ended : Z; Errors : gmap string Z;
  ByWallet : gmap string Z }.

Module LockCollector.
Definition New : LockMetrics := mkLockMetrics 0 0 0 0 0 ∅ ∅.

Definition onCreated (m : LockMetrics) : LockMetrics :=
  mkLockMetrics (Active m + 1) (Created m + 1) (Expired m) (Cancelled m) (Ended m) (Errors m)
    (ByWallet m).
Definition onExpired (m : LockMetrics) : LockMetrics :=
  mkLockMetrics (Active m - 1) (Created m) (Expired m + 1) (Cancelled m) (Ended m) (Errors m)
    (ByWallet m).
Definition onCancelled (m : LockMetrics) : LockMetrics :=
  mkLockMetrics (Active m - 1) (Created m) (Expired m) (Cancelled m + 1) (Ended m) (Errors m)
    (ByWallet m).
Definition onEnded (m : LockMetrics) : LockMetrics :=
  mkLockMetrics (Active m - 1) (Created m) (Expired m) (Cancelled m) (Ended m + 1) (Errors m)
    (ByWallet m).
Definition onError (errorType : string) (m : LockMetrics) : LockMetrics :=
  mkLockMetrics (Active m) (Created m) (Expired m) (Cancelled m) (Ended m)
    (<[errorType := default 0 (Errors m !! errorType) + 1]> (Errors m)) (ByWallet m).

(** These two are never called. *)
Definition SetActiveCount (count : Z) (m : LockMetrics) : LockMetrics :=
  mkLockMetrics count (Created m) (Expired m) (Cancelled m) (Ended m) (Errors m) (ByWallet m).
Definition SetWalletReservations (wallet : string) (count : Z) (m : LockMetrics) : LockMetrics :=
  mkLockMetrics (Active m) (Created m) (Expired m) (Cancelled m) (Ended m) (Errors m)
    (<[wallet := count]> (ByWallet m)).

Definition call (c : Metric) : LockMetrics → LockMetrics :=
  match c with
  | RecordCreated => onCreated
  | RecordExpired => onExpired
  | RecordCancelled => onCancelled
  | RecordJoined | RecordRevealed | RecordResolved => onEnded
  | RecordError kind => onError kind
  end.

(** The collector of one use case after a trace. *)
Definition collect (k : LockKind) (trace : list Effect) : LockMetrics :=
  foldl (λ m e, match e with
                | Measure k' c => if decide (k' = k) then call c m else m
                | Broadcast _ => m
                end) New trace.
End LockCollector.

(** The gauge is what was created less what was counted as gone, and counters only grow. *)
Lemma gauge_balance k trace :
  let m := LockCollector.collect k trace in
  Active m = Created m - Expired m - Cancelled m - Ended m ∧
  0 ≤ Created m ∧ 0 ≤ Expired m ∧ 0 ≤ Cancelled m ∧ 0 ≤ Ended m.
Proof.
  cbv zeta. unfold LockCollector.collect.
  induction trace as [|e trace IH] using rev_ind; [cbn; lia|].
  rewrite foldl_app. cbn [foldl]. destruct e as [n|k' c]; [done|].
  destruct (decide (k' = k)); [|done]. destruct c; cbn; lia.
Qed.

(** ** The gauge drifts *)

Module MetricsRun.
Import DeliveryRun.

(** A second for each reading of the clock, locks that last ten. *)
#[local] Instance slow : Env := Run.env (λ n, Z.of_nat n * 10 ^ 9) (λ _, FaultNone).

Definition cfg : Config :=
  mkConfig (mkLockConfig 10 3 5) (mkLockConfig 10 3 5) (mkLockConfig 10 3 5)
    (mkLockConfig 10 3 5) 20 100 (mkRetrySettings 3 EmptyString EmptyString EmptyString).

Definition carol : string := "EQcarol_carol_carol_carol_carol_carol_carol_caro".
Definition waiting : World := deliver gamePersistenceUC initialized (withUseCases cfg w0).

(** A lock that is over and not yet cleaned up is overwritten by the next one: the gauge
    counts both, and goes on counting one when no lock is left. *)
Example gauge_drifts :
  let after acts := foldl (λ w m, (run m w).2) waiting acts in
  let gauge w := Active (LockCollector.collect JoinLock (out w)) in
  let stored w := size (reservations (locks w JoinLock)) in
  let retaken := after ([JoinReserve 7 bob] ++ replicate 12 Wait ++ [JoinReserve 7 carol]) in
  let emptied := foldl (λ w m, (run m w).2) retaken (replicate 12 Wait ++ [JoinCleanup]) in
  (stored retaken, gauge retaken, stored emptied, gauge emptied) = (1%nat, 2, 0%nat, 1).
Proof. vm_compute. reflexivity. Qed.
End MetricsRun.
